(* ===== verification/_CoqProject ===== *)
-Q . S2P
Prelude.v
Text.v
Wire.v
Keys.v
ModelCrypto.v
Ratchet.v
RatchetPersist.v
RatchetSpec.v
RatchetDelivery.v
RatchetTheorems.v
Media.v
Prekey.v
Pqxdh.v
Invite.v
Ffi.v
TestsWire.v
TestsCrypto.v
Entities.v
Mailbox.v
Json.v
ModelFormats.v
MailboxSpec.v
Relay.v
RelayConcurrent.v
RelayLinear.v
RelayProgress.v
MailboxPort.v
Settlement.v
Blob.v
BlobRole.v
PeerTrust.v
RegistrySpec.v
TrustPort.v
NodeCa.v
Migrate.v
TestsNode.v
Stack.v
Http.v
HttpSpec.v
Tls.v
ModelHttp.v
TlsShared.v
PkiPort.v
Cli.v
CliSpec.v
Daemon.v
DaemonSpec.v
Config.v
Ingress.v
TestsApi.v
EndToEnd.v
EndToEndSpec.v
