(* ===== verification/Prelude.v ===== *)
(** * buh: a verified model of the buh messaging stack

    buh is an end-to-end encrypted messenger over blind relays.  Its Rust
    workspace has four layers, and the development follows them.

    - {b The client's cryptography} ([src/crates/buh-crypto]): a TLV wire
      format, a post-quantum handshake on signed prekey bundles, the Double
      Ratchet, media encryption, one-time invites, and the facade that exposes
      them to JavaScript as functions on byte blobs.
    - {b The relay} ([buh-entities], [buh-core], [buh-data], [buh-api]): opaque
      queues of envelopes in an SQL datastore, an HTTP interface with long
      polling, and a store for encrypted media on a file system.
    - {b Trust between nodes} ([buh-data], [buh-api]): every node is its own
      CA; a registry of pinned CA fingerprints, a live snapshot of it read by
      the TLS verifiers, and operator calls that change both.
    - {b The programs} ([buh-api/src/main.rs], [buh-cli], [buh-e2e]): the
      daemon, which starts these parts and serves peers over post-quantum
      mutual TLS; the operator's command line, which talks to the running
      daemon or to its files; and a driver that sends a message through a live
      node and opens it again.

    ** Files

    - [Prelude]: bytes, fixed-width integers, [Result], the state-and-error
      monads [ST] and [PST] with their [let?], [let!] and [let*] notations,
      shared tactics and hints.  [Text]: strings as characters, UTF-8, and the
      functions of [str] that the programs use.
    - [Wire] ([wire/codec.rs], [wire/v1.rs], [wire/mod.rs]): varints, the
      bounds-checked reader, frames.
    - [Keys] ([aead.rs], [kem.rs], [identity.rs], [error.rs]): the crate's
      wrappers; the primitives are the class [Primitives] and its law classes.
      [ModelCrypto] is an instance of them, which shows that the laws can hold
      together and lets witnesses compute.
    - [Ratchet] ([ratchet/chain.rs], [ratchet/header.rs], [ratchet/mod.rs]):
      the record [RatchetState] and its operations [initiator], [responder],
      [encrypt], [decrypt], [skip_message_keys], [dh_ratchet], [to_bytes],
      [from_bytes].  [RatchetPersist]: the session blob.  [RatchetSpec]: the
      operations on well-formed sessions, and the sessions a program can reach.
      [RatchetDelivery]: two sessions and a network as a step relation.
      [RatchetTheorems]: the properties.
    - [Media] ([media.rs]), [Prekey] ([prekey.rs]), [Pqxdh] ([pqxdh.rs]),
      [Invite] ([invite.rs]), [Ffi] ([ffi.rs]).
    - [Entities] ([buh-entities], [core/error.rs], [core/context.rs],
      [api/error.rs], [api/config.rs]): ids, errors, policy, HTTP responses.
    - [Mailbox] ([core/mailbox.rs], [turso_mailbox.rs]): the tables as lists of
      rows, each SQL statement as a function on them.  [MailboxSpec]: abstract
      queues and the simulation.  [Relay] ([api/handlers.rs]): the handlers,
      with what other requests do during a long poll as arguments.
      [RelayConcurrent]: handlers and sweeper as tasks that yield at their
      awaits, and the node as a step relation over their interleavings;
      [RelayLinear]: every run is a sequential history of abstract queues;
      [RelayProgress]: every task ends, and arrivals reach waiting polls.
      [MailboxPort] ([core/ports.rs]): the mailbox port and its contract as
      classes, the core written against them, and the SQL repository as their
      instance.
    - [Json] ([dto.rs], [b64.rs], [envelope.rs]): the bodies of the HTTP
      interfaces as JSON values; [ModelFormats] is an instance of the text
      formats.
    - [Settlement] ([settlement.rs], [stub_settlement.rs]): the settlement port
      and its stub.
    - [Blob] ([fs_blob.rs]): locators, paths and the file system calls of the
      media store.  [BlobRole] ([core/blob.rs], [s3_blob.rs]): the port as a
      record of operations, its contract as a class that the file system and
      the S3 backends discharge, and the role written against it.
    - [PeerTrust] ([peer_trust.rs], [api/tls.rs], [api/admin.rs],
      [api/serve.rs]): registry, snapshot, operator calls, their interleavings,
      and the decision on a presented chain.  [RegistrySpec]: the registry as a
      finite map.  [TrustPort]: the registry port with its contract and the
      admin handlers written against it.  [NodeCa] ([node_ca.rs]): the node's CA, its files, the leaves
      it issues and their rotation.
    - [Migrate] ([migrate.rs]): the schema migrations.  [Stack] ([stack.rs],
      [core/context.rs]): one datastore, the context assembled from it, and the
      files of a node's machine.
    - [Http] ([api/router.rs], [api/handlers.rs], [api/admin.rs]): the relay and
      the admin API as servers from bytes to bytes, and the three small clients
      of the workspace; [HttpSpec]: their exchanges.  [Tls] ([api/tls.rs],
      [api/peer.rs]): TLS material, configurations, the handshake, the probe of
      a peer.  [ModelHttp]: instances of the HTTP and TLS libraries.
      [TlsShared]: the handles of trust store, resolver and session storage as
      shared cells, and both verifiers with all their callbacks.  [PkiPort] ([core/ports.rs]): the
      PKI port with its contract, the node's TLS material over any
      implementation, and [RcgenNodeCa] as one.
    - [Cli] ([buh-cli/src/main.rs]) and [CliSpec]; [Daemon] ([api/main.rs],
      [api/config.rs], [api/serve.rs]) and [DaemonSpec]; [Config]
      ([api/config.rs]): the layers of the configuration and the arguments of
      the programs; [Ingress]: the plain ingress beside the PQ-mTLS one; [EndToEnd] ([buh-e2e/src/main.rs]) and
      [EndToEndSpec].
    - [TestsWire], [TestsCrypto], [TestsNode], [TestsApi]: the repository's own
      unit tests, integration tests and fuzz targets as functions on the model.

    ** Conventions

    A Rust function is a definition of the same name (a method of a type that
    shares its name with others carries the type as a prefix).  A method with
    [&mut self] that returns a [Result] is an [ST]: it yields the result and
    the state it leaves, so that an early return keeps the mutations made
    before it; a [PST] may also panic.  Randomness, clocks, name resolution, and
    faults of the datastore, the file system or the network are arguments.
    Panics are [None].  Integers are [Z] kept in the range of their type: [u32]
    counters wrap as in a release build, [saturating_] operations saturate,
    [usize] is 32 or 64 bits wide (class [Platform]).

    Loops whose recursion is not structural run on fuel that is proved
    sufficient: one turn per remaining input byte for the frame decoder
    ([decode_loop_terminates]), one turn per key for the skip loop
    ([skip_loop_ok]), ten turns for varints, which is the bound in the code.

    Third-party code is a parameter: cryptographic primitives, base64 ([Keys]),
    hex, UUIDs and the range of time stamps ([Externals]), JSON text, standard
    base64 and RFC 3339 ([Formats]), the HTTP server ([HttpStack]), X.509
    ([X509]), certificate generation ([Rcgen]), TLS with its session resumption
    ([Rustls], [RustlsSignatures], [Handshake]), the
    S3 client ([S3Client]), the configuration library ([Figment]), lower-casing beyond ASCII, the effect of DDL.  What
    is assumed of it is stated as classes of laws, each with an instance; the
    SQL statements, the file-system calls and the route patterns that the
    program uses are modelled by their documented behaviour.

    ** What is proved

    - {e The whole stack} ([conversation_goes_through]): a run of the driver,
      from its command line through handshake, ratchet, JSON, HTTP, TLS, router
      and SQL and back, opens exactly the message that was sealed and leaves the
      node's queues as they were, if node and client pin each other; otherwise
      it fails at the first request and nothing has changed.
    - {e Delivery}: over a network that delays, reorders and loses messages,
      every message on its way decrypts to what was sent
      ([every_message_decrypts]); skipping stores exactly the skipped keys;
      sessions stay well formed; their blobs restore the same session.
    - {e Session set-up}: both sides derive the same root
      ([handshake_agrees]), the responder authenticates before it derives,
      transcript, bundle and invite signatures bind every field, and what
      parses is authentic; the facade gives the same results as the typed
      sessions ([facade_refines_sessions]).
    - {e Wire format}: round trips, termination, bounds, stability under
      re-encoding of everything that is accepted.
    - {e Relay}: the SQL mailbox implements abstract queues
      ([mailbox_refines_queues]), queues are isolated, policy is applied,
      long polls return arrivals; with any number of requests in flight, cut
      at their awaits, the relay is linearizable with respect to those queues
      ([relay_linearizes]), every request is answered
      ([every_request_is_answered]) and a push reaches a poll that waits
      ([arrival_reaches_waiting_poll]); the core enforces its policy on
      whatever implements the port ([core_enforces_policy]); the JSON bodies
      round trip; media locators
      stay below the root, storing is all or nothing, and the role fetches what
      it stored on either backend.
    - {e Trust}: the registry implements a finite map ([registry_refines_map]);
      in every interleaving only pinned CAs are accepted
      ([accepted_peer_was_pinned]); operator calls take effect on the next
      full handshake, since the configuration that a server was built with reads
      the shared cells ([live_config_implements_values]); the admin API follows
      whatever implements the registry port ([admin_calls_follow_registry]); issued leaves are accepted exactly by the peers that pin the
      node, exactly while they are valid; the node keeps its identity across
      restarts and through re-keying; migrations run once.
    - {e Programs}: a handshake, and a probe, succeeds exactly between nodes
      that pin each other ([handshake_iff_mutual_trust],
      [probe_succeeds_iff_mutual_trust]), however they keep their CAs
      ([any_pki_handshakes_iff_pinned]); environment, file and defaults are
      layered in that order ([load_layers]), a node without configuration is a
      plain relay ([unconfigured_node_is_plain]), and daemon and operator's
      program take the same paths from the environment
      ([cli_and_daemon_agree]); a daemon runs what its configuration
      says, keeps its admin API on loopback, and in every sequence of events
      answers only peers that were verified and pinned, in their handshake or in
      the one whose session they resume, and stays reachable through
      failed rotations ([start_follows_config], [admin_only_on_loopback],
      [served_peer_was_pinned], [rotation_keeps_node_reachable]); the operator's peer
      commands do the same through the daemon and on its files
      ([peer_commands_agree]); the stub settlement names no chain
      ([settlement_seam_is_clean]).
    - {e Tests}: the model passes the repository's tests, golden bytes of the
      wire format included ([wire_tests_pass], [crypto_tests_pass],
      [wasm_tests_pass], [node_tests_pass], [api_tests_pass]), except those that
      pin bytes of the primitives and [random_nonces_differ]; property tests are
      run at one input.  It passes the fuzz target of the decoder on every input
      ([wire_decode_target_passes]).
    - {e Defects}, stated as theorems about the code as it is: the ratchet
      changes state before it authenticates ([stale_message_consumes_next_key],
      [replay_loses_next_message], [forgery_turns_the_ratchet],
      [full_store_shifts_chain]); acknowledgements are not atomic
      ([failed_ack_loses_receipt]); a poll can miss an arrival
      ([long_poll_can_miss_arrival]); temporary names of media collide
      ([put_destroys_tmp_sibling], [concurrent_puts_expose_truncated_object]);
      a stale refresh restores trust ([stale_refresh_restores_trust]), and a
      session can be resumed after its peer was distrusted
      ([resumption_outlives_distrust]); a
      mismatched CA is loaded ([mismatched_ca_is_loaded]); an interrupted
      re-keying loses the key ([interrupted_rotation_loses_key]); an answer lost
      on the way makes a command fail that took effect
      ([lost_answer_reports_failure]); a pin with a slash cannot be removed
      online ([slash_cannot_be_distrusted]); the admin address is resolved twice
      ([admin_bind_can_escape]); a signal handler that cannot be installed stops
      the daemon ([failed_handler_stops_daemon]); under PQ-mTLS a shutdown drops
      requests in flight ([only_plain_ingress_drains]); and points where the
      documentation and the code differ ([read_varint_accepts_overlong],
      [handshake_skips_reserved_tag], [message_flags_are_ignored],
      [accepted_invite_may_not_reencode], [invite_parse_target_can_fail],
      [expired_envelope_is_acked], [odd_spelling_cannot_be_removed],
      [cli_ignores_config_file], [pqmtls_ignores_bind],
      [default_ttl_can_exceed_maximum]).

    ** What is not modelled

    How a command line is split into flags and a command, which is library code
    driven by annotations: the command and the flags are inputs.  Log lines.  The bytes of TLS records and the scheduler: a handshake,
    a request and a timer's tick are each one step of the daemon, except where
    an interleaving inside one matters (requests in [RelayConcurrent], long
    polls in [Relay], refreshes of the trust set in [PeerTrust], concurrent
    writes in [Blob]).  The tests that pin bytes of the primitives.  The JavaScript side
    of the facade.  Secrecy is not a statement about these definitions: the
    primitives appear with functional laws, not with computational ones. *)

From Stdlib Require Export ZArith Lia.
From Stdlib Require Export Strings.Byte Strings.String.
From stdpp Require Export base list gmap strings countable numbers sorting.

#[local] Set Default Proof Using "Type".
Open Scope Z_scope.

(** ** Bytes

    A Rust [u8] is an [Init.Byte.byte]; [u8 b] is its value and [byte_of z]
    the truncating cast [z as u8]. *)

Abbreviation byte := Init.Byte.byte.
Abbreviation bytes := (list Init.Byte.byte).

Definition u8 (b : byte) : Z := Z.of_N (Byte.to_N b).

Definition byte_of (z : Z) : byte :=
  match Byte.of_N (Z.to_N (z mod 256)) with
  | Some b => b
  | None => Byte.x00
  end.

Lemma u8_range b : 0 <= u8 b < 256.
Proof.
  unfold u8. pose proof (Byte.to_N_bounded b) as H. lia.
Qed.

Lemma u8_byte_of z : u8 (byte_of z) = z mod 256.
Proof.
  unfold byte_of, u8.
  assert (0 <= z mod 256 < 256) as Hr by (apply Z.mod_pos_bound; lia).
  destruct (Byte.of_N (Z.to_N (z mod 256))) as [b|] eqn:E.
  - apply Byte.to_of_N in E. rewrite E. lia.
  - apply Byte.of_N_None_iff in E. lia.
Qed.

Lemma byte_of_u8 b : byte_of (u8 b) = b.
Proof.
  unfold byte_of. pose proof (u8_range b).
  rewrite Z.mod_small by lia. unfold u8.
  rewrite N2Z.id. by rewrite Byte.of_to_N.
Qed.

Lemma u8_inj b c : u8 b = u8 c → b = c.
Proof. intros H. rewrite <-(byte_of_u8 b), <-(byte_of_u8 c). by rewrite H. Qed.

#[export] Instance byte_eq_dec : EqDecision byte.
Proof. intros x y. exact (Byte.byte_eq_dec x y). Defined.

#[export] Program Instance byte_countable : Countable byte :=
  inj_countable Byte.to_N Byte.of_N _.
Next Obligation. intros b. apply Byte.of_to_N. Qed.

(** The bytes of a string literal [b"..."]. *)
Definition bstr (s : string) : bytes := String.list_byte_of_string s.

(** Slice lengths and sub-slices; [usize] values are [Z]. *)
Definition blen {A} (l : list A) : Z := Z.of_nat (length l).

Definition slice {A} (l : list A) (from until : Z) : list A :=
  take (Z.to_nat (until - from)) (drop (Z.to_nat from) l).

Lemma blen_nil {A} : blen (@nil A) = 0.
Proof. done. Qed.

Lemma blen_cons {A} (x : A) l : blen (x :: l) = 1 + blen l.
Proof. unfold blen. cbn [length]. lia. Qed.

Lemma blen_app {A} (l k : list A) : blen (l ++ k) = blen l + blen k.
Proof. unfold blen. rewrite length_app. lia. Qed.

Lemma blen_nonneg {A} (l : list A) : 0 <= blen l.
Proof. unfold blen. lia. Qed.

Lemma slice_app {A} (l k m : list A) :
  slice (l ++ k ++ m) (blen l) (blen l + blen k) = k.
Proof.
  unfold slice, blen.
  replace (Z.to_nat (Z.of_nat (length l) + Z.of_nat (length k) - Z.of_nat (length l)))
    with (length k) by lia.
  rewrite Nat2Z.id, drop_app_length. apply take_app_length.
Qed.

Lemma blen_slice {A} (l : list A) a b :
  0 <= a → a <= b → b <= blen l → blen (slice l a b) = b - a.
Proof.
  unfold slice, blen. intros. rewrite length_take, length_drop. lia.
Qed.

(** ** Fixed-width integers, big endian *)

Definition u32_max : Z := 2 ^ 32 - 1.
Definition u64_max : Z := 2 ^ 64 - 1.
Definition is_u32 (z : Z) : Prop := 0 <= z <= u32_max.
Definition is_u64 (z : Z) : Prop := 0 <= z <= u64_max.

Definition wrap32 (z : Z) : Z := z mod 2 ^ 32.
Definition wrap64 (z : Z) : Z := z mod 2 ^ 64.

(** [z.to_be_bytes()] for an unsigned integer of [n] bytes. *)
Fixpoint be_bytes (n : nat) (z : Z) : bytes :=
  match n with
  | O => []
  | S k => byte_of (Z.shiftr z (8 * Z.of_nat k)) :: be_bytes k z
  end.

(** [from_be_bytes]. *)
Definition from_be (bs : bytes) : Z := foldl (λ acc b, acc * 256 + u8 b) 0 bs.

Lemma length_be_bytes n z : length (be_bytes n z) = n.
Proof. induction n as [|n IH]; cbn [be_bytes length]; auto. Qed.

Lemma blen_be_bytes n z : blen (be_bytes n z) = Z.of_nat n.
Proof. unfold blen. by rewrite length_be_bytes. Qed.

Lemma from_be_acc bs acc :
  foldl (λ a b, a * 256 + u8 b) acc bs = acc * 256 ^ blen bs + from_be bs.
Proof.
  unfold from_be. revert acc. induction bs as [|b bs IH]; intros acc; cbn [foldl].
  - rewrite blen_nil. lia.
  - rewrite IH. rewrite (IH (0 * 256 + u8 b)). rewrite blen_cons.
    rewrite Z.pow_add_r by (try lia; apply blen_nonneg). lia.
Qed.

Lemma from_be_cons b bs : from_be (b :: bs) = u8 b * 256 ^ blen bs + from_be bs.
Proof. unfold from_be at 1. cbn [foldl]. rewrite from_be_acc. lia. Qed.

Lemma from_be_range bs : 0 <= from_be bs < 256 ^ blen bs.
Proof.
  induction bs as [|b bs IH]; [done|].
  rewrite from_be_cons, blen_cons, Z.pow_add_r by (try lia; apply blen_nonneg).
  pose proof (u8_range b). nia.
Qed.

Lemma pow256 k : 0 <= k → 256 ^ k = 2 ^ (8 * k).
Proof. intros. change 256 with (2 ^ 8). by rewrite <-Z.pow_mul_r by lia. Qed.

Lemma from_be_be_bytes n z : from_be (be_bytes n z) = z mod 2 ^ (8 * Z.of_nat n).
Proof.
  induction n as [|k IH].
  - cbn [be_bytes]. by rewrite Z.mod_1_r.
  - cbn [be_bytes]. rewrite from_be_cons, IH, u8_byte_of, blen_be_bytes.
    rewrite pow256 by lia. rewrite Z.shiftr_div_pow2 by lia.
    replace (8 * Z.of_nat (S k)) with (8 * Z.of_nat k + 8) by lia.
    rewrite Z.pow_add_r by lia. change (2 ^ 8) with 256.
    assert (0 < 2 ^ (8 * Z.of_nat k)) as Hp by (apply Z.pow_pos_nonneg; lia).
    rewrite (Z.rem_mul_r z _ 256) by lia. lia.
Qed.

Lemma from_be_be_bytes_id n z :
  0 <= z < 2 ^ (8 * Z.of_nat n) → from_be (be_bytes n z) = z.
Proof. intros. rewrite from_be_be_bytes. by apply Z.mod_small. Qed.

Arguments be_bytes : simpl never.

(** ** Results and the state-and-error monad

    [Result E A] is Rust's [Result<A, E>].  A method that takes [&mut self]
    and returns a [Result] is a function to a result {e and} the state it
    leaves behind: an early return with [?] keeps the mutations made so far. *)

Inductive Result (E A : Type) : Type :=
| Ok (a : A)
| Err (e : E).
Arguments Ok {E A} a.
Arguments Err {E A} e.

#[export] Instance Result_eq_dec {E A} `{EqDecision E, EqDecision A} :
  EqDecision (Result E A).
Proof. solve_decision. Defined.

Definition rbind {E A B} (m : Result E A) (k : A → Result E B) : Result E B :=
  match m with Ok a => k a | Err e => Err e end.

Definition map_err {E F A} (f : E → F) (m : Result E A) : Result F A :=
  match m with Ok a => Ok a | Err e => Err (f e) end.

Definition ok_or {E A} (o : option A) (e : E) : Result E A :=
  match o with Some a => Ok a | None => Err e end.

Definition is_ok {E A} (m : Result E A) : bool :=
  match m with Ok _ => true | Err _ => false end.

Definition ST (S E A : Type) : Type := S → Result E A * S.

Definition st_ret {S E A} (a : A) : ST S E A := λ s, (Ok a, s).
Definition st_err {S E A} (e : E) : ST S E A := λ s, (Err e, s).

Definition st_bind {S E A B} (m : ST S E A) (k : A → ST S E B) : ST S E B :=
  λ s, match m s with
       | (Ok a, s') => k a s'
       | (Err e, s') => (Err e, s')
       end.

Definition st_get {S E} : ST S E S := λ s, (Ok s, s).
Definition st_put {S E} (s : S) : ST S E unit := λ _, (Ok tt, s).
Definition st_lift {S E A} (m : Result E A) : ST S E A := λ s, (m, s).
Definition st_map_err {S E F A} (f : E → F) (m : ST S E A) : ST S F A :=
  λ s, let '(r, s') := m s in (map_err f r, s').

(** A computation that may also panic: [None]. *)
Definition PST (S E A : Type) : Type := S → option (Result E A * S).

Definition pst_ret {S E A} (a : A) : PST S E A := λ s, Some (Ok a, s).
Definition pst_err {S E A} (e : E) : PST S E A := λ s, Some (Err e, s).
Definition pst_lift {S E A} (m : Result E A) : PST S E A := λ s, Some (m, s).
Definition pst_of {S E A} (m : ST S E A) : PST S E A := λ s, Some (m s).

Definition pst_bind {S E A B} (m : PST S E A) (k : A → PST S E B) : PST S E B :=
  λ s, match m s with
       | Some (Ok a, s') => k a s'
       | Some (Err e, s') => Some (Err e, s')
       | None => None
       end.

Definition pst_map_err {S E F A} (f : E → F) (m : PST S E A) : PST S F A :=
  λ s, match m s with Some (r, s') => Some (map_err f r, s') | None => None end.

Declare Scope rust_scope.
Delimit Scope rust_scope with rust.
Notation "'let?' x ':=' m 'in' k" := (rbind m (λ x, k))
  (at level 10, x pattern, m at level 100, k at level 200,
   format "'[v' 'let?'  x  ':='  m  'in' '/' k ']'") : rust_scope.
Notation "'let!' x ':=' m 'in' k" := (st_bind m (λ x, k))
  (at level 10, x pattern, m at level 100, k at level 200,
   format "'[v' 'let!'  x  ':='  m  'in' '/' k ']'") : rust_scope.
Notation "'let*' x ':=' m 'in' k" := (pst_bind m (λ x, k))
  (at level 10, x pattern, m at level 100, k at level 200,
   format "'[v' 'let*'  x  ':='  m  'in' '/' k ']'") : rust_scope.
Open Scope rust_scope.

Lemma rbind_Ok {E A B} (m : Result E A) (k : A → Result E B) b :
  rbind m k = Ok b ↔ ∃ a, m = Ok a ∧ k a = Ok b.
Proof. destruct m; cbn; naive_solver. Qed.

Lemma map_err_Ok {E F A} (f : E → F) (m : Result E A) a :
  map_err f m = Ok a ↔ m = Ok a.
Proof. destruct m; cbn; naive_solver. Qed.

Lemma ok_or_Ok {E A} (o : option A) (e : E) a : ok_or o e = Ok a ↔ o = Some a.
Proof. destruct o; cbn; naive_solver. Qed.

Lemma st_bind_inv {S E A B} (m : ST S E A) (k : A → ST S E B) s r s' :
  st_bind m k s = (r, s') →
  (∃ a s1, m s = (Ok a, s1) ∧ k a s1 = (r, s')) ∨ (∃ e, m s = (Err e, s') ∧ r = Err e).
Proof. unfold st_bind. destruct (m s) as [[a|e] s1]; naive_solver. Qed.

(** Steps of a run that neither fails nor panics. *)
Lemma pst_bind_Ok {S E A B} (m : PST S E A) (k : A → PST S E B) s a s' r :
  m s = Some (Ok a, s') → k a s' = r → pst_bind m k s = r.
Proof. unfold pst_bind. by intros ->. Qed.

Lemma pst_bind_inv {S E A B} (m : PST S E A) (k : A → PST S E B) s b s' :
  pst_bind m k s = Some (Ok b, s') → ∃ a s1, m s = Some (Ok a, s1) ∧ k a s1 = Some (Ok b, s').
Proof. unfold pst_bind. destruct (m s) as [[[a|e] s1]|]; naive_solver. Qed.

Lemma pst_map_err_Ok {S E F A} (f : E → F) (m : PST S E A) s a s' :
  m s = Some (Ok a, s') → pst_map_err f m s = Some (Ok a, s').
Proof. unfold pst_map_err. by intros ->. Qed.

(** Splits a hypothesis [... = Ok _] about a chain of [let?] into its steps. *)
Ltac inv_ok :=
  repeat match goal with
  | H : rbind _ _ = Ok _ |- _ =>
      apply rbind_Ok in H; let a := fresh "a" in let Ha := fresh "Ha" in
      destruct H as [a [Ha H]]
  | H : map_err _ _ = Ok _ |- _ => apply map_err_Ok in H
  | H : ok_or _ _ = Ok _ |- _ => apply ok_or_Ok in H
  | H : Err _ = Ok _ |- _ => discriminate H
  | H : Ok _ = Err _ |- _ => discriminate H
  | H : Ok ?x = Ok ?y |- _ => injection H as H
  end.

(** Case analysis on the scrutinee of a [match], [if] or [let] in a hypothesis
    or in the goal. *)
Ltac case_in H :=
  match type of H with
  | context [match ?x with _ => _ end] => destruct x eqn:?
  end.

Create HintDb buh.
#[export] Hint Resolve blen_nonneg u8_range : buh.
Create Rewrite HintDb blen.
#[export] Hint Rewrite @blen_nil @blen_cons @blen_app blen_be_bytes : blen.
