(* ===== verification/Text.v ===== *)
(** * Text: the [str] and [String] methods the program uses

    A [String] is the list of its [char]s, a [char] its Unicode scalar value;
    [utf8_encode] and [utf8_lossy] go to and from bytes. *)

From S2P Require Import Prelude.

Abbreviation text := (list Z).

(** The characters of an ASCII literal. *)
Definition chars (s : string) : text :=
  (λ a, Z.of_N (Ascii.N_of_ascii a)) <$> String.list_ascii_of_string s.

Definition is_ascii (c : Z) : Prop := 0 <= c < 128.
Definition is_char (c : Z) : Prop := 0 <= c < 0xD800 ∨ 0xE000 <= c <= 0x10FFFF.

(** ** UTF-8 *)

Definition encode_char (c : Z) : list Z :=
  if c <? 0x80 then [c]
  else if c <? 0x800 then [0xC0 + c / 64; 0x80 + c mod 64]
  else if c <? 0x10000 then [0xE0 + c / 4096; 0x80 + c / 64 mod 64; 0x80 + c mod 64]
  else [0xF0 + c / 262144; 0x80 + c / 4096 mod 64; 0x80 + c / 64 mod 64; 0x80 + c mod 64].

(** [str::as_bytes]. *)
Definition utf8_encode (t : text) : bytes := byte_of <$> (t ≫= encode_char).

Definition REPLACEMENT : Z := 0xFFFD.

Definition is_cont (b : Z) : bool := (0x80 <=? b) && (b <=? 0xBF).

(** Which second byte may follow the lead byte [a]. *)
Definition second_ok (a b : Z) : bool :=
  if a <? 0xC2 then false
  else if a <? 0xE0 then is_cont b
  else if a =? 0xE0 then (0xA0 <=? b) && (b <=? 0xBF)
  else if a =? 0xED then (0x80 <=? b) && (b <=? 0x9F)
  else if a <? 0xF0 then is_cont b
  else if a =? 0xF0 then (0x90 <=? b) && (b <=? 0xBF)
  else if a <? 0xF4 then is_cont b
  else if a =? 0xF4 then (0x80 <=? b) && (b <=? 0x8F)
  else false.

(** [String::from_utf8_lossy]: each maximal prefix of a character that goes
    wrong becomes one replacement character. *)
Fixpoint decode_lossy (l : list Z) : text :=
  match l with
  | [] => []
  | a :: t1 =>
      if a <? 0x80 then a :: decode_lossy t1
      else match t1 with
      | [] => [REPLACEMENT]
      | b :: t2 =>
          if negb (second_ok a b) then REPLACEMENT :: decode_lossy t1
          else if a <? 0xE0 then (a - 0xC0) * 64 + (b - 0x80) :: decode_lossy t2
          else match t2 with
          | [] => [REPLACEMENT]
          | c :: t3 =>
              if negb (is_cont c) then REPLACEMENT :: decode_lossy t2
              else if a <? 0xF0
              then ((a - 0xE0) * 64 + (b - 0x80)) * 64 + (c - 0x80) :: decode_lossy t3
              else match t3 with
              | [] => [REPLACEMENT]
              | d :: t4 =>
                  if negb (is_cont d) then REPLACEMENT :: decode_lossy t3
                  else (((a - 0xF0) * 64 + (b - 0x80)) * 64 + (c - 0x80)) * 64 + (d - 0x80)
                         :: decode_lossy t4
              end
          end
      end
  end.

Definition utf8_lossy (b : bytes) : text := decode_lossy (u8 <$> b).

(** A literal of the source, which is UTF-8. *)
Definition literal (s : string) : text := decode_lossy (chars s).

(** A [&str] seen as the byte string other components take. *)
Definition to_string (t : text) : string := String.string_of_list_byte (utf8_encode t).

(** ** White space and trimming *)

(** [char::is_whitespace]: the characters with the property White_Space. *)
Definition is_whitespace (c : Z) : bool :=
  ((9 <=? c) && (c <=? 13)) || (c =? 0x20) || (c =? 0x85) || (c =? 0xA0) || (c =? 0x1680)
  || ((0x2000 <=? c) && (c <=? 0x200A)) || (c =? 0x2028) || (c =? 0x2029) || (c =? 0x202F)
  || (c =? 0x205F) || (c =? 0x3000).

Fixpoint trim_start (t : text) : text :=
  match t with
  | [] => []
  | c :: r => if is_whitespace c then trim_start r else t
  end.

Definition trim (t : text) : text := reverse (trim_start (reverse (trim_start t))).

Fixpoint trim_start_matches (p : Z → bool) (t : text) : text :=
  match t with
  | [] => []
  | c :: r => if p c then trim_start_matches p r else t
  end.

(** [str::trim_matches] with a predicate. *)
Definition trim_matches (p : Z → bool) (t : text) : text :=
  reverse (trim_start_matches p (reverse (trim_start_matches p t))).

(** [char::to_ascii_lowercase]. *)
Definition ascii_lower (c : Z) : Z := if (65 <=? c) && (c <=? 90) then c + 32 else c.

(** ** Splitting *)

Fixpoint split_by (p : Z → bool) (t : text) : list text :=
  match t with
  | [] => [[]]
  | a :: t =>
      if p a then [] :: split_by p t
      else match split_by p t with
           | [] => [[a]]
           | x :: r => (a :: x) :: r
           end
  end.

(** [str::split] at a character: always at least one piece. *)
Definition split_on (c : Z) : text → list text := split_by (Z.eqb c).

(** [str::split_whitespace]. *)
Definition split_whitespace (t : text) : list text :=
  filter (λ w, w ≠ []) (split_by is_whitespace t).

(** [str::lines]: a final line ending adds no line, and a carriage return
    before a line feed belongs to the ending. *)
Definition strip_cr (l : text) : text :=
  match last l with
  | Some c => if c =? 13 then removelast l else l
  | None => l
  end.

Definition lines (t : text) : list text :=
  match reverse (split_on 10 t) with
  | [] => []
  | final :: init =>
      (strip_cr <$> reverse init) ++ (if bool_decide (final = []) then [] else [final])
  end.

(** [str::strip_prefix]. *)
Fixpoint strip_prefix (pat t : text) : option text :=
  match pat with
  | [] => Some t
  | p :: pat =>
      match t with
      | a :: t => if a =? p then strip_prefix pat t else None
      | [] => None
      end
  end.

(** [str::split_once] at the first occurrence of [pat]. *)
Fixpoint split_once (pat t : text) : option (text * text) :=
  match strip_prefix pat t with
  | Some r => Some ([], r)
  | None =>
      match t with
      | [] => None
      | a :: t => match split_once pat t with Some (x, y) => Some (a :: x, y) | None => None end
      end
  end.

(** [str::rsplit_once] at the last occurrence of a character. *)
Definition rsplit_once (c : Z) (t : text) : option (text * text) :=
  match split_once [c] (reverse t) with
  | Some (x, y) => Some (reverse y, reverse x)
  | None => None
  end.

(** ** Numbers *)

Definition is_digit (c : Z) : bool := (48 <=? c) && (c <=? 57).

(** The digits of an unsigned integer below [10 ^ fuel]. *)
Fixpoint digits (fuel : nat) (n : Z) : text :=
  match fuel with
  | O => []
  | S k => (if n <? 10 then [] else digits k (n / 10)) ++ [48 + n mod 10]
  end.

(** [Display] of the unsigned integers up to 64 bits. *)
Definition decimal (n : Z) : text := digits 20 n.

Fixpoint digits_value (max acc : Z) (t : text) : option Z :=
  match t with
  | [] => Some acc
  | c :: t =>
      if is_digit c then
        let acc := 10 * acc + (c - 48) in
        if max <? acc then None else digits_value max acc t
      else None
  end.

(** [str::parse] for an unsigned integer type with the largest value [max]. *)
Definition parse_uint (max : Z) (t : text) : option Z :=
  let t := match t with c :: r => if c =? 43 then r else t | [] => t end in
  match t with
  | [] => None
  | _ => digits_value max 0 t
  end.

Definition parse_u16 : text → option Z := parse_uint (2 ^ 16 - 1).

(** ** Lemmas *)

(** Arithmetic of the bytes of one character. *)
Ltac by_div := Z.to_euclidean_division_equations; lia.

Lemma decode_2 a b rest : 0xC2 <= a <= 0xDF → 0x80 <= b <= 0xBF →
  decode_lossy (a :: b :: rest) = (a - 0xC0) * 64 + (b - 0x80) :: decode_lossy rest.
Proof.
  intros Ha Hb. cbn [decode_lossy]. rewrite (proj2 (Z.ltb_ge a 0x80)) by lia.
  replace (second_ok a b) with true; [by rewrite (proj2 (Z.ltb_lt a 0xE0)) by lia|].
  unfold second_ok, is_cont. rewrite (proj2 (Z.ltb_ge a 0xC2)), (proj2 (Z.ltb_lt a 0xE0)); lia.
Qed.

Lemma decode_3 a b c rest :
  0xE0 <= a <= 0xEF → 0x80 <= b <= 0xBF → (a = 0xE0 → 0xA0 <= b) → (a = 0xED → b <= 0x9F) →
  0x80 <= c <= 0xBF →
  decode_lossy (a :: b :: c :: rest)
  = ((a - 0xE0) * 64 + (b - 0x80)) * 64 + (c - 0x80) :: decode_lossy rest.
Proof.
  intros Ha Hb K1 K2 Hc. cbn [decode_lossy]. rewrite (proj2 (Z.ltb_ge a 0x80)) by lia.
  replace (second_ok a b) with true; cbn [negb].
  - rewrite (proj2 (Z.ltb_ge a 0xE0)) by lia. replace (is_cont c) with true by (unfold is_cont; lia).
    cbn [negb]. by rewrite (proj2 (Z.ltb_lt a 0xF0)) by lia.
  - unfold second_ok, is_cont. rewrite (proj2 (Z.ltb_ge a 0xC2)), (proj2 (Z.ltb_ge a 0xE0)) by lia.
    destruct (Z.eqb_spec a 0xE0); [lia|]. destruct (Z.eqb_spec a 0xED); [lia|].
    rewrite (proj2 (Z.ltb_lt a 0xF0)); lia.
Qed.

Lemma decode_4 a b c d rest :
  0xF0 <= a <= 0xF4 → 0x80 <= b <= 0xBF → (a = 0xF0 → 0x90 <= b) → (a = 0xF4 → b <= 0x8F) →
  0x80 <= c <= 0xBF → 0x80 <= d <= 0xBF →
  decode_lossy (a :: b :: c :: d :: rest)
  = (((a - 0xF0) * 64 + (b - 0x80)) * 64 + (c - 0x80)) * 64 + (d - 0x80) :: decode_lossy rest.
Proof.
  intros Ha Hb K1 K2 Hc Hd. cbn [decode_lossy]. rewrite (proj2 (Z.ltb_ge a 0x80)) by lia.
  replace (second_ok a b) with true; cbn [negb].
  - rewrite (proj2 (Z.ltb_ge a 0xE0)) by lia. replace (is_cont c) with true by (unfold is_cont; lia).
    replace (is_cont d) with true by (unfold is_cont; lia).
    cbn [negb]. by rewrite (proj2 (Z.ltb_ge a 0xF0)) by lia.
  - unfold second_ok, is_cont. rewrite (proj2 (Z.ltb_ge a 0xC2)), (proj2 (Z.ltb_ge a 0xE0)) by lia.
    rewrite (proj2 (Z.eqb_neq a 0xE0)), (proj2 (Z.eqb_neq a 0xED)), (proj2 (Z.ltb_ge a 0xF0)) by lia.
    destruct (Z.eqb_spec a 0xF0); [lia|]. destruct (Z.ltb_spec a 0xF4); [lia|].
    rewrite (proj2 (Z.eqb_eq a 0xF4)); lia.
Qed.

Lemma decode_encode_char c rest :
  is_char c → decode_lossy ((u8 <$> (byte_of <$> encode_char c)) ++ rest) = c :: decode_lossy rest.
Proof.
  intros Hc. unfold encode_char.
  destruct (Z.ltb_spec c 0x80); [|destruct (Z.ltb_spec c 0x800); [|destruct (Z.ltb_spec c 0x10000)]];
    unfold is_char in Hc; rewrite !fmap_cons, !fmap_nil, !u8_byte_of; cbn [app].
  - cbn [decode_lossy]. rewrite Z.mod_small by lia. by rewrite (proj2 (Z.ltb_lt _ _)) by lia.
  - rewrite !Z.mod_small by by_div. rewrite decode_2 by by_div. f_equal. by_div.
  - rewrite !Z.mod_small by by_div. rewrite decode_3 by by_div. f_equal. by_div.
  - rewrite !Z.mod_small by by_div. rewrite decode_4 by by_div. f_equal. by_div.
Qed.

Lemma utf8_encode_app t u : utf8_encode (t ++ u) = utf8_encode t ++ utf8_encode u.
Proof. unfold utf8_encode. by rewrite bind_app, fmap_app. Qed.

Lemma utf8_lossy_app t b : Forall is_char t → utf8_lossy (utf8_encode t ++ b) = t ++ utf8_lossy b.
Proof.
  intros H. induction H as [|c t Hc _ IH]; [done|].
  change (c :: t) with ([c] ++ t). rewrite utf8_encode_app, <-app_assoc.
  unfold utf8_lossy at 1, utf8_encode at 1. rewrite fmap_app. cbn [mbind list_bind]. rewrite app_nil_r.
  rewrite decode_encode_char by done. cbn [app]. by rewrite <-IH.
Qed.

(** Decoding what was encoded gives the text back. *)
Lemma utf8_lossy_encode t : Forall is_char t → utf8_lossy (utf8_encode t) = t.
Proof. intros H. pose proof (utf8_lossy_app t [] H) as E. by rewrite !app_nil_r in E. Qed.

(** *** Splitting *)

Lemma split_by_nonempty p t : split_by p t ≠ [].
Proof. destruct t as [|a t]; cbn; [done|]. destruct (p a); [done|]. by destruct (split_by p t). Qed.

Lemma split_by_app p l c r : p c = true → split_by p (l ++ c :: r) = split_by p l ++ split_by p r.
Proof.
  intros Hc. induction l as [|a l IH]; cbn [app split_by]; [by rewrite Hc|].
  rewrite IH. destruct (p a); [done|].
  pose proof (split_by_nonempty p l). by destruct (split_by p l).
Qed.

Lemma split_by_none p l : Forall (λ c, p c = false) l → split_by p l = [l].
Proof. induction 1 as [|a l Ha _ IH]; [done|]. cbn [split_by]. by rewrite Ha, IH. Qed.

Lemma split_on_app c l r : split_on c (l ++ c :: r) = split_on c l ++ split_on c r.
Proof. apply split_by_app, Z.eqb_refl. Qed.

Lemma split_on_none c l : Forall (λ a, a ≠ c) l → split_on c l = [l].
Proof.
  intros H. apply split_by_none. eapply Forall_impl; [exact H|]. cbn. intros a Ha.
  apply Z.eqb_neq. congruence.
Qed.

Lemma words_app l c r :
  is_whitespace c = true → split_whitespace (l ++ c :: r) = split_whitespace l ++ split_whitespace r.
Proof. intros Hc. unfold split_whitespace. by rewrite split_by_app, filter_app. Qed.

Lemma words_one w : w ≠ [] → Forall (λ c, is_whitespace c = false) w → split_whitespace w = [w].
Proof.
  intros Hn Hw. unfold split_whitespace. rewrite split_by_none by done. by rewrite filter_cons_True.
Qed.

Lemma strip_cr_words l : split_whitespace (strip_cr l) = split_whitespace l.
Proof.
  unfold strip_cr. destruct (last l) as [c|] eqn:E; [|done].
  destruct (Z.eqb_spec c 13) as [->|]; [|done].
  apply last_Some in E as [l' ->]. rewrite removelast_last.
  rewrite words_app by done. cbn. by rewrite app_nil_r.
Qed.

(** A text is its first line and, if there is a line feed, what follows it. *)
Lemma split_first_line t :
  Forall (λ a, a ≠ 10) t ∨ ∃ l r, t = l ++ 10 :: r ∧ Forall (λ a, a ≠ 10) l.
Proof.
  induction t as [|a t IH]; [by left|]. destruct (decide (a = 10)) as [->|Ha].
  - right. exists [], t. by split; [|constructor].
  - destruct IH as [H|(l & r & -> & H)]; [left; by constructor|].
    right. exists (a :: l), r. by split; [|constructor].
Qed.

Lemma lines_cons l r : Forall (λ a, a ≠ 10) l → lines (l ++ 10 :: r) = strip_cr l :: lines r.
Proof.
  intros H. unfold lines. rewrite split_on_app, split_on_none by done.
  pose proof (split_by_nonempty (Z.eqb 10) r) as Hn. fold (split_on 10 r) in Hn.
  destruct (split_on 10 r) as [|x k _] using rev_ind; [done|].
  rewrite app_assoc, !reverse_snoc. by rewrite !reverse_involutive.
Qed.

Lemma lines_last l : Forall (λ a, a ≠ 10) l → lines l = if bool_decide (l = []) then [] else [l].
Proof. intros H. unfold lines. by rewrite split_on_none by done. Qed.

(** The words of the first line are the first words of the text. *)
Lemma first_line_words t l :
  head (lines t) = Some l → ∃ r, split_whitespace t = split_whitespace l ++ r.
Proof.
  destruct (split_first_line t) as [H|(l' & r & -> & H)].
  - rewrite lines_last by done. case_bool_decide; [done|]. intros [= ->]. exists [].
    by rewrite app_nil_r.
  - rewrite lines_cons by done. intros [= <-]. exists (split_whitespace r).
    rewrite words_app by done. by rewrite strip_cr_words.
Qed.

Lemma strip_prefix_refl pat r : strip_prefix pat (pat ++ r) = Some r.
Proof. induction pat as [|p pat IH]; [done|]. cbn. by rewrite Z.eqb_refl. Qed.

Lemma strip_prefix_Some pat t r : strip_prefix pat t = Some r → t = pat ++ r.
Proof.
  revert t. induction pat as [|p pat IH]; intros t; cbn; [by intros [= ->]|].
  destruct t as [|a t]; [done|]. destruct (Z.eqb_spec a p) as [->|]; [|done].
  by intros ->%IH.
Qed.

Lemma strip_prefix_app pat t u :
  (length pat <= length t)%nat → strip_prefix pat (t ++ u) = (λ r, r ++ u) <$> strip_prefix pat t.
Proof.
  revert t. induction pat as [|p pat IH]; intros t Hl; [done|].
  destruct t as [|a t]; cbn in Hl; [lia|]. cbn. destruct (a =? p); [|done]. apply IH. lia.
Qed.

Lemma split_once_Some pat t x y : split_once pat t = Some (x, y) → t = x ++ pat ++ y.
Proof.
  revert x. induction t as [|a t IH]; intros x; cbn [split_once].
  - destruct (strip_prefix pat []) eqn:E; [|done]. intros [= <- <-]. exact (strip_prefix_Some _ _ _ E).
  - destruct (strip_prefix pat (a :: t)) eqn:E.
    + intros [= <- <-]. exact (strip_prefix_Some _ _ _ E).
    + destruct (split_once pat t) as [[x' y']|]; [|done]. intros [= <- <-]. cbn. by rewrite (IH x').
Qed.

Lemma split_once_app pat t u x y :
  split_once pat t = Some (x, y) → split_once pat (t ++ u) = Some (x, y ++ u).
Proof.
  revert x. induction t as [|a t IH]; intros x H.
  - pose proof (split_once_Some _ _ _ _ H) as E. symmetry in E. apply app_eq_nil in E as [-> E].
    apply app_eq_nil in E as [-> ->]. cbn in H |- *. by destruct u.
  - pose proof (split_once_Some _ _ _ _ H) as E. change ((a :: t) ++ u) with (a :: (t ++ u)).
    cbn [split_once] in H |- *.
    assert (length pat <= length (a :: t))%nat as Hl by (rewrite E, !length_app; lia).
    pose proof (strip_prefix_app pat (a :: t) u Hl) as Hs. cbn [app] in Hs. rewrite Hs.
    destruct (strip_prefix pat (a :: t)); cbn; [by injection H as <- <-|].
    destruct (split_once pat t) as [[x' y']|]; [|done].
    injection H as <- <-. by rewrite (IH x').
Qed.

Lemma split_once_char c p q : Forall (λ a, a ≠ c) p → split_once [c] (p ++ c :: q) = Some (p, q).
Proof.
  induction 1 as [|a p Ha _ IH]; cbn [app split_once strip_prefix]; [by rewrite Z.eqb_refl|].
  by rewrite (proj2 (Z.eqb_neq a c) Ha), IH.
Qed.

Lemma split_once_none c p : Forall (λ a, a ≠ c) p → split_once [c] p = None.
Proof.
  induction 1 as [|a p Ha _ IH]; cbn [split_once strip_prefix]; [done|].
  by rewrite (proj2 (Z.eqb_neq a c) Ha), IH.
Qed.

(** *** Numbers *)

Lemma digits_digit fuel n : 0 <= n → Forall (λ c, is_digit c = true) (digits fuel n).
Proof.
  revert n. induction fuel as [|k IH]; intros n Hn; cbn [digits]; [done|].
  apply Forall_app. split.
  - destruct (n <? 10); [done|]. apply IH. by_div.
  - constructor; [|done]. unfold is_digit. pose proof (Z.mod_pos_bound n 10). lia.
Qed.

Lemma digits_value_app max acc t u :
  digits_value max acc (t ++ u)
  = match digits_value max acc t with Some a => digits_value max a u | None => None end.
Proof.
  revert acc. induction t as [|c t IH]; intros acc; [done|]. cbn.
  destruct (is_digit c); [|done]. destruct (max <? _); [done|]. apply IH.
Qed.

Lemma digits_value_digits max fuel n :
  0 <= n <= max → n < 10 ^ Z.of_nat fuel → digits_value max 0 (digits fuel n) = Some n.
Proof.
  revert n. induction fuel as [|k IH]; intros n Hn Hf; [cbn in Hf |- *; f_equal; lia|].
  cbn [digits]. rewrite digits_value_app.
  assert (digits_value max 0 (if n <? 10 then [] else digits k (n / 10)) = Some (n / 10)) as ->.
  { destruct (Z.ltb_spec n 10); [cbn; f_equal; by_div|]. apply IH; [by_div|].
    apply Z.div_lt_upper_bound; [lia|]. rewrite <-Z.pow_succ_r by lia.
    by replace (Z.succ (Z.of_nat k)) with (Z.of_nat (S k)) by lia. }
  cbn. pose proof (Z.mod_pos_bound n 10). replace (is_digit _) with true by (unfold is_digit; lia).
  replace (10 * (n / 10) + (48 + n mod 10 - 48)) with n by by_div.
  by rewrite (proj2 (Z.ltb_ge _ _)) by lia.
Qed.

Lemma decimal_nonempty n : decimal n ≠ [].
Proof. unfold decimal. cbn [digits]. by destruct (if n <? 10 then _ else _). Qed.

Lemma decimal_digit n : 0 <= n → Forall (λ c, is_digit c = true) (decimal n).
Proof. apply digits_digit. Qed.

Lemma parse_decimal max n : 0 <= n <= max → n < 10 ^ 20 → parse_uint max (decimal n) = Some n.
Proof.
  intros Hn H20. unfold parse_uint. pose proof (decimal_nonempty n).
  pose proof (decimal_digit n ltac:(lia)) as Hd.
  pose proof (digits_value_digits max 20 n Hn H20) as Hv. fold (decimal n) in Hv.
  destruct (decimal n) as [|c t]; [done|]. inversion Hd as [|?? Hc _]; subst.
  rewrite (proj2 (Z.eqb_neq c 43)); [done|]. unfold is_digit in Hc. lia.
Qed.

Lemma parse_uint_range max t n : 0 <= max → parse_uint max t = Some n → 0 <= n <= max.
Proof.
  intros Hmax. unfold parse_uint.
  assert (∀ u acc, 0 <= acc <= max → digits_value max acc u = Some n → 0 <= n <= max) as Hg.
  { induction u as [|c u IH]; intros acc Ha; cbn; [by intros [= <-]|].
    unfold is_digit. destruct ((48 <=? c) && _) eqn:Hc; [|done].
    destruct (Z.ltb_spec max (10 * acc + (c - 48))); [done|]. apply IH. lia. }
  destruct t as [|c t]; [done|]. destruct (c =? 43); [destruct t; [done|]|]; apply Hg; lia.
Qed.

Lemma digit_not_space c : is_digit c = true → is_whitespace c = false.
Proof.
  unfold is_digit, is_whitespace. intros H.
  repeat match goal with |- _ || _ = false => apply orb_false_intro end; lia.
Qed.

Lemma ascii_char c : is_ascii c → is_char c.
Proof. unfold is_ascii, is_char. lia. Qed.

Lemma digit_ascii c : is_digit c = true → is_ascii c.
Proof. unfold is_digit, is_ascii. lia. Qed.

#[export] Hint Resolve ascii_char digit_ascii digit_not_space : buh.

Lemma chars_app s t : chars (s +:+ t) = chars s ++ chars t.
Proof.
  unfold chars. rewrite <-fmap_app. f_equal. induction s as [|a s IH]; [done|]. change (String a s +:+ t) with (String a (s +:+ t)). cbn. by rewrite IH.
Qed.

Lemma chars_char s : Forall (λ c, 0 <= c < 256) (chars s).
Proof.
  unfold chars. apply Forall_fmap, Forall_forall. intros a _. cbn.
  pose proof (Ascii.N_ascii_bounded a). lia.
Qed.

Lemma utf8_encode_ascii t : Forall is_ascii t → utf8_encode t = byte_of <$> t.
Proof.
  intros H. unfold utf8_encode. f_equal. induction H as [|c t Hc _ IH]; [done|].
  cbn [mbind list_bind]. rewrite IH. unfold encode_char. unfold is_ascii in Hc.
  by rewrite (proj2 (Z.ltb_lt _ _)) by lia.
Qed.

(** An ASCII string as text, and back. *)
Lemma to_string_chars s : Forall is_ascii (chars s) → to_string (chars s) = s.
Proof.
  intros H. unfold to_string. rewrite utf8_encode_ascii by done. clear H. unfold chars.
  induction s as [|a s IH]; [done|]. cbn [String.list_ascii_of_string]. rewrite !fmap_cons.
  change (String.string_of_list_byte (?b :: ?l))
    with (String (Ascii.ascii_of_byte b) (String.string_of_list_byte l)). rewrite IH.
  f_equal. by destruct a as [[] [] [] [] [] [] [] []].
Qed.

Lemma trim_start_nonspace c t : is_whitespace c = false → trim_start (c :: t) = c :: t.
Proof. intros H. cbn. by rewrite H. Qed.

(** Nothing is trimmed from a text that starts and ends with ink. *)
Lemma trim_id c t d u :
  is_whitespace c = false → is_whitespace d = false → c :: t = u ++ [d] → trim (c :: t) = c :: t.
Proof.
  intros Hc Hd E. unfold trim. rewrite trim_start_nonspace by done. rewrite E, reverse_snoc.
  rewrite trim_start_nonspace by done. by rewrite reverse_cons, reverse_involutive.
Qed.

Lemma Forall_chars_ascii s : forallb (λ c, (0 <=? c) && (c <? 128)) (chars s) = true → Forall is_ascii (chars s).
Proof.
  rewrite forallb_forall, Forall_forall. intros H c Hc%list_elem_of_In.
  specialize (H c Hc). unfold is_ascii. lia.
Qed.

(** Facts about the characters of a literal, by computation. *)
Ltac by_chars := repeat constructor; unfold is_ascii, is_char; cbn; lia.

Lemma trim_start_split t : ∃ w, t = w ++ trim_start t ∧ Forall (λ c, is_whitespace c = true) w.
Proof.
  induction t as [|c t (w & E & Hw)]; [by exists []|]. cbn [trim_start].
  destruct (is_whitespace c) eqn:Hc; [|by exists []].
  exists (c :: w). split; [cbn; by rewrite <-E|by constructor].
Qed.

Lemma words_space_l w t : Forall (λ c, is_whitespace c = true) w → split_whitespace (w ++ t) = split_whitespace t.
Proof.
  induction 1 as [|c w Hc _ IH]; [done|]. rewrite <-IH.
  exact (words_app [] c (w ++ t) Hc).
Qed.

Lemma words_space_r w t : Forall (λ c, is_whitespace c = true) w → split_whitespace (t ++ w) = split_whitespace t.
Proof.
  intros H. destruct H as [|c w Hc Hw]; [by rewrite app_nil_r|]. rewrite words_app by done.
  rewrite <-(app_nil_r w), words_space_l by done. apply app_nil_r.
Qed.

Lemma words_trim t : split_whitespace (trim t) = split_whitespace t.
Proof.
  unfold trim. destruct (trim_start_split t) as (w & E & Hw). rewrite E at 2.
  rewrite words_space_l by done. set (u := trim_start t).
  destruct (trim_start_split (reverse u)) as (v & E' & Hv).
  apply (f_equal reverse) in E'. rewrite reverse_involutive, reverse_app in E'. rewrite E' at 2.
  rewrite words_space_r; [done|]. by apply Forall_reverse.
Qed.
