(* ===== verification/Wire.v ===== *)
(** * The wire codec: [buh-crypto/src/wire/]

    Unsigned LEB128 varints, the bounds-checked [Reader] and the version-1
    tag-length-value [Frame].  A [&mut Vec<u8>] argument is an accumulator
    passed in and returned; a [&mut Reader] method is an [ST Reader] action.
    The width of [usize] is the target's: 64 bits natively, 32 bits in the
    WASM build. *)

From S2P Require Import Prelude.

(** The target platform. *)
Class Platform := {
  usize_bits : Z;
  usize_bits_ok : usize_bits = 32 ∨ usize_bits = 64;
}.

Definition usize_max `{Platform} : Z := 2 ^ usize_bits - 1.

#[export] Program Instance native64 : Platform := {| usize_bits := 64 |}.
Solve All Obligations with auto.

Definition wasm32 : Platform := {| usize_bits := 32; usize_bits_ok := or_introl eq_refl |}.

(** A slice or [Vec] never exceeds [isize::MAX] bytes. *)
Definition vec_ok `{Platform} {A} (l : list A) : Prop := blen l <= 2 ^ (usize_bits - 1) - 1.

(** ** Errors *)

Inductive WireError : Type :=
| BadMagic (b : byte)
| UnsupportedVersion (b : byte)
| UnexpectedEof
| VarintOverflow
| FieldTooLong
| MissingField (tag : Z)
| ReservedTag (tag : Z).

#[export] Instance WireError_eq_dec : EqDecision WireError.
Proof. solve_decision. Defined.

Definition MAGIC : byte := Byte.xb0.
Definition WIRE_VERSION : byte := Byte.x01.

(** ** [wire/codec.rs] *)

Definition MAX_VARINT_LEN : nat := 10.

(** The [loop] of [write_varint]; each turn shifts seven bits out of a [u64],
    so ten turns reach zero ([write_varint_fuel] below). *)
Fixpoint write_varint_loop (fuel : nat) (out : bytes) (value : Z) : bytes :=
  match fuel with
  | O => out
  | S fuel' =>
      let byte := Z.land value 0x7f in
      let value := Z.shiftr value 7 in
      let byte := if negb (value =? 0) then Z.lor byte 0x80 else byte in
      let out := out ++ [byte_of byte] in
      if value =? 0 then out else write_varint_loop fuel' out value
  end.

Definition write_varint (out : bytes) (value : Z) : bytes :=
  write_varint_loop MAX_VARINT_LEN out value.

Record Reader := mkReader { buf : bytes; pos : Z }.

Definition Reader_new (b : bytes) : Reader := {| buf := b; pos := 0 |}.

Definition is_empty (r : Reader) : bool := blen (buf r) <=? pos r.

Definition remaining (r : Reader) : Z := blen (buf r) - pos r.

Definition read_u8 : ST Reader WireError byte := λ r,
  match buf r !! Z.to_nat (pos r) with
  | None => (Err UnexpectedEof, r)
  | Some b => (Ok b, {| buf := buf r; pos := pos r + 1 |})
  end.

(** The [for _ in 0..MAX_VARINT_LEN] loop of [read_varint]. *)
Fixpoint read_varint_loop (n : nat) (result shift : Z) : ST Reader WireError Z :=
  match n with
  | O => st_err VarintOverflow
  | S n' =>
      let! byte := read_u8 in
      let payload := Z.land (u8 byte) 0x7f in
      if (shift =? 63) && (1 <? payload) then st_err VarintOverflow
      else
        let result := Z.lor result (wrap64 (Z.shiftl payload shift)) in
        if Z.land (u8 byte) 0x80 =? 0 then st_ret result
        else read_varint_loop n' result (shift + 7)
  end.

Definition read_varint : ST Reader WireError Z := read_varint_loop MAX_VARINT_LEN 0 0.

Definition read_bytes `{Platform} (len : Z) : ST Reader WireError bytes := λ r,
  let end_ := pos r + len in
  if usize_max <? end_ then (Err UnexpectedEof, r)
  else if blen (buf r) <? end_ then (Err UnexpectedEof, r)
  else (Ok (slice (buf r) (pos r) end_), {| buf := buf r; pos := end_ |}).

(** ** [wire/v1.rs] *)

Definition TAG_IDENTITY_PUB : Z := 0x01.
Definition TAG_PREKEY_BUNDLE : Z := 0x02.
Definition TAG_QUEUE_URI : Z := 0x03.
Definition TAG_INVITE_NONCE : Z := 0x04.
Definition TAG_EXPIRY : Z := 0x05.
Definition TAG_SIGNATURE : Z := 0x06.
Definition TAG_CONTEXT : Z := 0x07.
Definition TAG_PREKEY_X25519 : Z := 0x08.
Definition TAG_MLKEM_EK : Z := 0x09.
Definition TAG_ONETIME_PREKEY : Z := 0x0a.
Definition TAG_EPHEMERAL_X25519 : Z := 0x0b.
Definition TAG_KEM_CT : Z := 0x0c.
Definition TAG_QUEUE_ID : Z := 0x0d.
Definition TAG_RELAY_URL : Z := 0x0e.
Definition TAG_CA_FINGERPRINT : Z := 0x0f.
Definition TAG_RATCHET_DH : Z := 0x10.
Definition TAG_RATCHET_PN : Z := 0x11.
Definition TAG_RATCHET_N : Z := 0x12.
Definition TAG_CIPHERTEXT : Z := 0x13.
Definition TAG_SPQR_CHUNK : Z := 0x20.
Definition TAG_PQ_EPOCH : Z := 0x21.
Definition TAG_PQ_KEM_CT : Z := 0x22.

(** [PQ_RESERVED_TAGS.contains(&t)]. *)
Definition PQ_RESERVED_TAGS_contains (t : Z) : bool := (0x20 <=? t) && (t <=? 0x2f).

Definition FLAG_HANDSHAKE : Z := 0x01.
Definition FLAG_PQ_REKEY : Z := 0x02.

Record Field := mkField { tag : Z; value : bytes }.
Record Frame := mkFrame { flags : Z; fields : list Field }.

#[export] Instance Field_eq_dec : EqDecision Field.
Proof. solve_decision. Defined.
#[export] Instance Frame_eq_dec : EqDecision Frame.
Proof. solve_decision. Defined.

Definition Frame_new : Frame := {| flags := 0; fields := [] |}.

Definition with_flags (f : Frame) (fl : Z) : Frame :=
  {| flags := Z.lor (flags f) fl; fields := fields f |}.

Definition with_field (f : Frame) (t : Z) (v : bytes) : Frame :=
  {| flags := flags f; fields := fields f ++ [{| tag := t; value := v |}] |}.

Definition has_flag (f : Frame) (flag : Z) : bool := negb (Z.land (flags f) flag =? 0).

Definition get (f : Frame) (t : Z) : option bytes :=
  value <$> List.find (λ fd, tag fd =? t) (fields f).

Definition require (f : Frame) (t : Z) : Result WireError bytes :=
  ok_or (get f t) (MissingField t).

Fixpoint reject_reserved_loop (fs : list Field) : Result WireError unit :=
  match fs with
  | [] => Ok tt
  | f :: fs =>
      if PQ_RESERVED_TAGS_contains (tag f) then Err (ReservedTag (tag f))
      else reject_reserved_loop fs
  end.

Definition reject_reserved_pq (f : Frame) : Result WireError unit :=
  reject_reserved_loop (fields f).

Definition aad (f : Frame) : bytes := write_varint [MAGIC; WIRE_VERSION] (flags f).

Definition encode_field (out : bytes) (f : Field) : bytes :=
  write_varint (write_varint out (tag f)) (blen (value f)) ++ value f.

Definition encode (f : Frame) : bytes :=
  foldl encode_field (write_varint [MAGIC; WIRE_VERSION] (flags f)) (fields f).

(** One turn of the [while !r.is_empty()] loop of [Frame::decode]. *)
Definition decode_field `{Platform} : ST Reader WireError Field :=
  let! tag := read_varint in
  let! len := read_varint in
  if usize_max <? len then st_err FieldTooLong
  else
    let! r := st_get in
    if remaining r <? len then st_err UnexpectedEof
    else
      let! value := read_bytes len in
      st_ret {| tag := tag; value := value |}.

(** The loop itself; [None] when the turns run out, which
    [decode_loop_terminates] excludes for one turn per input byte. *)
Fixpoint decode_loop `{Platform} (fuel : nat) (fs : list Field) (r : Reader) :
    option (Result WireError (list Field)) :=
  if is_empty r then Some (Ok fs)
  else
    match fuel with
    | O => None
    | S fuel' =>
        match decode_field r with
        | (Err e, _) => Some (Err e)
        | (Ok f, r') => decode_loop fuel' (fs ++ [f]) r'
        end
    end.

Definition decode_prelude : ST Reader WireError Z :=
  let! magic := read_u8 in
  if negb (bool_decide (magic = MAGIC)) then st_err (BadMagic magic)
  else
    let! version := read_u8 in
    if negb (bool_decide (version = WIRE_VERSION)) then st_err (UnsupportedVersion version)
    else read_varint.

Definition decode `{Platform} (b : bytes) : Result WireError Frame :=
  match decode_prelude (Reader_new b) with
  | (Err e, _) => Err e
  | (Ok fl, r) =>
      match decode_loop (length b) [] r with
      | Some (Ok fs) => Ok {| flags := fl; fields := fs |}
      | Some (Err e) => Err e
      | None => Err UnexpectedEof
      end
  end.

Arguments write_varint : simpl never.
Arguments read_varint : simpl never.
Arguments encode : simpl never.
Arguments decode : simpl never.

(** A frame as the type system bounds it: [u64] flags and tags, and values
    that are slices. *)
Definition field_ok `{Platform} (f : Field) : Prop := is_u64 (tag f) ∧ vec_ok (value f).
Definition frame_ok `{Platform} (f : Frame) : Prop :=
  is_u64 (flags f) ∧ Forall field_ok (fields f).

Example golden_frame :
  encode (with_field (with_flags Frame_new FLAG_HANDSHAKE) TAG_IDENTITY_PUB [Byte.xaa; Byte.xbb])
  = [Byte.xb0; Byte.x01; Byte.x01; Byte.x01; Byte.x02; Byte.xaa; Byte.xbb].
Proof. vm_compute. reflexivity. Qed.

Example truncated_frame :
  decode [Byte.xb0; Byte.x01; Byte.x00; Byte.x06; Byte.xc8; Byte.x01] = Err UnexpectedEof.
Proof. vm_compute. reflexivity. Qed.

(** ** Bit arithmetic of the varint loops *)

Lemma land_7f b : Z.land b 0x7f = b mod 128.
Proof. change 0x7f with (Z.ones 7). by rewrite Z.land_ones by lia. Qed.

Lemma lor_add_shift a b n :
  0 <= n → 0 <= a < 2 ^ n → Z.lor a (b * 2 ^ n) = a + b * 2 ^ n.
Proof.
  intros Hn Ha.
  assert (Z.land a (b * 2 ^ n) = 0) as Hland.
  { rewrite <-Z.shiftl_mul_pow2 by lia. apply Z.bits_inj'. intros k Hk.
    rewrite Z.land_spec, Z.bits_0, Z.shiftl_spec by lia.
    destruct (decide (k < n)).
    - rewrite (Z.testbit_neg_r b) by lia. by rewrite andb_false_r.
    - rewrite <-(Z.mod_small a (2 ^ n)) by lia.
      rewrite Z.mod_pow2_bits_high by lia. done. }
  rewrite <-Z.lxor_lor by done. by rewrite <-Z.add_nocarry_lxor.
Qed.

Lemma continuation_bit b : (Z.land (u8 b) 0x80 =? 0) = (u8 b <? 128).
Proof. destruct b; reflexivity. Qed.

Lemma last_group v :
  0 <= v < 128 → Z.land v 0x7f = v ∧ Z.shiftr v 7 = 0.
Proof.
  intros. rewrite land_7f, Z.mod_small, Z.shiftr_div_pow2 by lia.
  split; [done|]. by apply Z.div_small.
Qed.

Lemma more_group v :
  128 <= v → 0 < Z.shiftr v 7 ∧ Z.shiftr v 7 = v / 128 ∧
  Z.lor (Z.land v 0x7f) 0x80 = v mod 128 + 128.
Proof.
  intros. rewrite land_7f, Z.shiftr_div_pow2 by lia. change (2 ^ 7) with 128.
  split; [|split; [done|]].
  - apply Z.div_str_pos. lia.
  - change 0x80 with (1 * 2 ^ 7). rewrite lor_add_shift; [done|lia|].
    change (2 ^ 7) with 128. apply Z.mod_pos_bound. lia.
Qed.

(** ** [write_varint] *)

Lemma write_varint_loop_app n out v :
  write_varint_loop n out v = out ++ write_varint_loop n [] v.
Proof.
  revert out v. induction n as [|n IH]; intros out v; cbn [write_varint_loop app].
  { by rewrite app_nil_r. }
  case_match; [done|]. rewrite (IH (out ++ _)), (IH [_]). by rewrite <-app_assoc.
Qed.

Lemma write_varint_app out v : write_varint out v = out ++ write_varint [] v.
Proof. apply write_varint_loop_app. Qed.

(** The bytes of one varint: the last group, or a continued group. *)
Lemma write_varint_loop_last n v :
  0 <= v < 128 → write_varint_loop (S n) [] v = [byte_of v].
Proof.
  intros H. cbn [write_varint_loop]. destruct (last_group v H) as [-> ->]. done.
Qed.

Lemma write_varint_loop_more n v :
  128 <= v →
  write_varint_loop (S n) [] v = byte_of (v mod 128 + 128) :: write_varint_loop n [] (v / 128).
Proof.
  intros H. cbn [write_varint_loop]. destruct (more_group v H) as (Hp & Hs & Hl).
  rewrite (proj2 (Z.eqb_neq _ 0)) by lia. cbn [negb]. rewrite Hl, Hs.
  rewrite write_varint_loop_app. done.
Qed.

(** Ten turns are enough for any [u64]: more fuel changes nothing. *)
Lemma write_varint_fuel n m v :
  0 <= v < 2 ^ (7 * Z.of_nat n) → (n <= m)%nat → (0 < n)%nat →
  write_varint_loop m [] v = write_varint_loop n [] v.
Proof.
  revert m v. induction n as [|n IH]; intros m v Hv Hm Hn; [lia|].
  destruct m as [|m]; [lia|].
  destruct (decide (v < 128)).
  { rewrite !write_varint_loop_last by lia. done. }
  rewrite !write_varint_loop_more by lia. f_equal.
  destruct n as [|n]; [cbn in Hv; lia|].
  apply IH; [|lia|lia].
  split; [apply Z.div_pos; lia|].
  apply Z.div_lt_upper_bound; [lia|].
  replace (7 * Z.of_nat (S (S n))) with (7 + 7 * Z.of_nat (S n)) in Hv by lia.
  rewrite Z.pow_add_r in Hv by lia. lia.
Qed.

Lemma length_write_varint_loop n v :
  (0 < n)%nat → (1 <= length (write_varint_loop n [] v) <= n)%nat.
Proof.
  revert v. induction n as [|n IH]; intros v Hn; [lia|].
  cbn [write_varint_loop app]. case_match; [cbn; lia|].
  rewrite write_varint_loop_app, length_app. cbn [length].
  destruct n as [|n]; [cbn; lia|]. specialize (IH (Z.shiftr v 7)). lia.
Qed.

Lemma length_write_varint v : (1 <= length (write_varint [] v) <= 10)%nat.
Proof. apply (length_write_varint_loop MAX_VARINT_LEN v). unfold MAX_VARINT_LEN. lia. Qed.

(** ** The reader *)

(** The cursor invariant: [remaining] does not underflow and indexing is in
    bounds. *)
Definition reader_ok (r : Reader) : Prop := 0 <= pos r <= blen (buf r).

(** [r] stands in front of the bytes [bs], with [tl] after them. *)
Definition reads (r : Reader) (bs tl : bytes) : Prop :=
  ∃ pre, buf r = pre ++ bs ++ tl ∧ pos r = blen pre.

Definition advance (r : Reader) (n : Z) : Reader := {| buf := buf r; pos := pos r + n |}.

Lemma reads_new b : reads (Reader_new b) b [].
Proof. exists []. by rewrite app_nil_r. Qed.

Lemma reads_advance r b1 b2 tl :
  reads r (b1 ++ b2) tl → reads (advance r (blen b1)) b2 tl.
Proof.
  intros (pre & Hb & Hp). exists (pre ++ b1). cbn.
  rewrite blen_app, Hp, Hb, <-!app_assoc. done.
Qed.

Lemma reads_advance1 r b bs tl : reads r (b :: bs) tl → reads (advance r 1) bs tl.
Proof. apply (reads_advance r [b]). Qed.

Lemma reads_app r b1 b2 tl : reads r (b1 ++ b2) tl ↔ reads r b1 (b2 ++ tl).
Proof. unfold reads. by setoid_rewrite <-app_assoc. Qed.

Lemma reads_empty r : reads r [] [] → is_empty r = true.
Proof.
  intros (pre & Hb & Hp). unfold is_empty. rewrite Hb, Hp.
  rewrite !app_nil_r. apply Z.leb_refl.
Qed.

Lemma reads_not_empty r b bs tl : reads r (b :: bs) tl → is_empty r = false.
Proof.
  intros (pre & Hb & Hp). unfold is_empty. rewrite Hb, Hp.
  rewrite blen_app. cbn [app]. rewrite blen_cons. apply Z.leb_gt.
  pose proof (blen_nonneg (bs ++ tl)). lia.
Qed.

Lemma reads_remaining r bs tl : reads r bs tl → remaining r = blen bs + blen tl.
Proof.
  intros (pre & Hb & Hp). unfold remaining. rewrite Hb, Hp, !blen_app. lia.
Qed.

Lemma advance_advance r n m : advance (advance r n) m = advance r (n + m).
Proof. unfold advance. cbn. f_equal. lia. Qed.

Lemma reader_eta r : {| buf := buf r; pos := pos r |} = r.
Proof. by destruct r. Qed.

Lemma read_u8_reads r b bs tl :
  reads r (b :: bs) tl → read_u8 r = (Ok b, advance r 1).
Proof.
  intros (pre & Hb & Hp). unfold read_u8. rewrite Hb, Hp. unfold blen.
  rewrite Nat2Z.id, lookup_app_r, Nat.sub_diag by lia. cbn.
  unfold advance. by rewrite Hb, Hp.
Qed.

Lemma read_bytes_reads `{Platform} r bs tl :
  vec_ok (buf r) → reads r bs tl → read_bytes (blen bs) r = (Ok bs, advance r (blen bs)).
Proof.
  intros Hv (pre & Hb & Hp). unfold read_bytes, vec_ok, usize_max in *.
  rewrite Hb in Hv |- *. rewrite Hp. rewrite !blen_app in *.
  pose proof (blen_nonneg tl). pose proof (blen_nonneg bs). pose proof (blen_nonneg pre).
  assert (2 ^ (usize_bits - 1) - 1 <= 2 ^ usize_bits - 1) as Hpow.
  { destruct usize_bits_ok as [-> | ->]; vm_compute; discriminate. }
  rewrite (proj2 (Z.ltb_ge _ _)) by lia. rewrite (proj2 (Z.ltb_ge _ _)) by lia.
  rewrite slice_app. unfold advance. by rewrite Hb, Hp.
Qed.

(** One turn of the varint loop on a group that fits in the [u64]. *)
Lemma read_varint_turn n acc shift r b bs tl :
  0 <= shift → 0 <= acc < 2 ^ shift → (u8 b mod 128) * 2 ^ shift < 2 ^ 64 →
  (shift = 63 → u8 b mod 128 <= 1) → reads r (b :: bs) tl →
  read_varint_loop (S n) acc shift r
  = if u8 b <? 128 then (Ok (acc + (u8 b mod 128) * 2 ^ shift), advance r 1)
    else read_varint_loop n (acc + (u8 b mod 128) * 2 ^ shift) (shift + 7) (advance r 1).
Proof.
  intros Hs Ha Hfit H63 Hr. cbn [read_varint_loop]. unfold st_bind.
  rewrite (read_u8_reads _ _ _ _ Hr), continuation_bit, land_7f.
  pose proof (Z.mod_pos_bound (u8 b) 128 ltac:(lia)).
  assert (0 < 2 ^ shift) by (apply Z.pow_pos_nonneg; lia).
  replace ((shift =? 63) && (1 <? u8 b mod 128)) with false; cycle 1.
  { symmetry. destruct (Z.eqb_spec shift 63); [|done]. apply Z.ltb_ge. auto. }
  unfold wrap64. rewrite Z.shiftl_mul_pow2, Z.mod_small by nia.
  rewrite lor_add_shift by lia. by destruct (u8 b <? 128).
Qed.

(** Reading back one varint, at turn [10 - n] of the loop. *)
Lemma read_varint_loop_reads n v acc shift r tl :
  shift = 7 * (10 - Z.of_nat n) → 0 <= shift →
  0 <= v < 2 ^ (64 - shift) → 0 <= acc < 2 ^ shift →
  reads r (write_varint_loop n [] v) tl →
  read_varint_loop n acc shift r
  = (Ok (acc + v * 2 ^ shift), advance r (blen (write_varint_loop n [] v))).
Proof.
  revert v acc shift r. induction n as [|n IH]; intros v acc shift r Hs Hs0 Hv Ha Hr.
  { subst. cbn in Hv. lia. }
  assert (0 < 2 ^ shift) as Hpos by (apply Z.pow_pos_nonneg; lia).
  assert (shift <= 64) as Hs64.
  { destruct (decide (shift <= 64)); [done|]. rewrite Z.pow_neg_r in Hv by lia. lia. }
  assert (2 ^ 64 = 2 ^ (64 - shift) * 2 ^ shift) as Hsplit.
  { rewrite <-Z.pow_add_r by lia. f_equal. lia. }
  destruct (decide (v < 128)) as [Hlt|Hge].
  - rewrite write_varint_loop_last in Hr |- * by lia.
    assert (u8 (byte_of v) = v) as Hu by (rewrite u8_byte_of; apply Z.mod_small; lia).
    rewrite (read_varint_turn n acc shift r (byte_of v) [] tl Hs0 Ha);
      rewrite ?Hu, ?(Z.mod_small v 128) by lia; [|nia|intros ->; cbn in Hv; lia|done].
    by rewrite (proj2 (Z.ltb_lt _ _)) by lia.
  - assert (shift + 7 <= 64) as Hs7.
    { destruct (decide (shift + 7 <= 64)); [done|].
      assert (2 ^ (64 - shift) <= 2 ^ 6) by (apply Z.pow_le_mono_r; lia).
      change (2 ^ 6) with 64 in *. lia. }
    assert (2 ^ (shift + 7) = 2 ^ shift * 128) as Hp7 by (by rewrite Z.pow_add_r by lia).
    assert (2 ^ (64 - shift) = 2 ^ (64 - (shift + 7)) * 128) as Hq7.
    { change 128 with (2 ^ 7). rewrite <-Z.pow_add_r by lia. f_equal. lia. }
    pose proof (Z.mod_pos_bound v 128 ltac:(lia)) as Hmod.
    pose proof (Z.div_mod v 128 ltac:(lia)) as Hdm.
    assert (0 < 2 ^ (64 - (shift + 7))) as Hq by (apply Z.pow_pos_nonneg; lia).
    rewrite write_varint_loop_more in Hr |- * by lia.
    set (b := byte_of (v mod 128 + 128)) in *.
    assert (u8 b = v mod 128 + 128) as Hu.
    { subst b. rewrite u8_byte_of. apply Z.mod_small. lia. }
    assert (u8 b mod 128 = v mod 128) as Hum.
    { rewrite Hu, <-Z.add_mod_idemp_r, Z.mod_same, Z.add_0_r, Z.mod_mod by lia. done. }
    rewrite (read_varint_turn n acc shift r b _ tl Hs0 Ha) by (done || rewrite ?Hum; nia || lia).
    rewrite Hum.
    rewrite (proj2 (Z.ltb_ge _ _)) by lia.
    rewrite (IH (v / 128)); [|lia|lia|nia|nia|by eapply reads_advance1].
    rewrite advance_advance, blen_cons, Hp7.
    replace (acc + v mod 128 * 2 ^ shift + v / 128 * (2 ^ shift * 128))
      with (acc + v * 2 ^ shift) by nia. done.
Qed.

Lemma read_varint_reads v r tl :
  is_u64 v → reads r (write_varint [] v) tl →
  read_varint r = (Ok v, advance r (blen (write_varint [] v))).
Proof.
  intros Hv Hr. unfold read_varint.
  rewrite (read_varint_loop_reads MAX_VARINT_LEN v 0 0 r tl);
    [|done|lia|unfold is_u64, u64_max in Hv; change (64 - 0) with 64; lia|lia|done].
  by rewrite Z.mul_1_r.
Qed.

(** ** Frame encoding as a concatenation *)

Definition field_bytes (f : Field) : bytes :=
  write_varint [] (tag f) ++ write_varint [] (blen (value f)) ++ value f.

Lemma encode_field_app out f : encode_field out f = out ++ field_bytes f.
Proof.
  unfold encode_field, field_bytes.
  rewrite (write_varint_app out), (write_varint_app (out ++ _)). by rewrite <-!app_assoc.
Qed.

Lemma encode_fields_app out fs :
  foldl encode_field out fs = out ++ concat (field_bytes <$> fs).
Proof.
  revert out. induction fs as [|f fs IH]; intros out; cbn [foldl fmap list_fmap concat].
  { by rewrite app_nil_r. }
  rewrite IH, encode_field_app. by rewrite <-app_assoc.
Qed.

Lemma encode_eq f :
  encode f = [MAGIC] ++ [WIRE_VERSION] ++ write_varint [] (flags f)
             ++ concat (field_bytes <$> fields f).
Proof. unfold encode. by rewrite encode_fields_app, write_varint_app. Qed.

Lemma length_field_bytes f : (2 <= length (field_bytes f))%nat.
Proof.
  unfold field_bytes. rewrite !length_app.
  pose proof (length_write_varint (tag f)). pose proof (length_write_varint (blen (value f))).
  lia.
Qed.

Lemma vec_ok_usize `{Platform} {A} (l : list A) : vec_ok l → blen l <= usize_max ∧ is_u64 (blen l).
Proof.
  unfold vec_ok, usize_max, is_u64, u64_max. pose proof (blen_nonneg l).
  destruct usize_bits_ok as [-> | ->]; cbn; lia.
Qed.

Lemma decode_field_reads `{Platform} f r tl :
  field_ok f → vec_ok (buf r) → reads r (field_bytes f) tl →
  decode_field r = (Ok f, advance r (blen (field_bytes f))).
Proof.
  intros [Ht Hv] Hb Hr. destruct (vec_ok_usize _ Hv) as [Hmax Hu64].
  unfold decode_field, st_bind, field_bytes in *.
  rewrite (read_varint_reads _ _ _ Ht (proj1 (reads_app _ _ _ _) Hr)).
  apply reads_advance in Hr.
  rewrite (read_varint_reads _ _ _ Hu64 (proj1 (reads_app _ _ _ _) Hr)).
  apply reads_advance in Hr.
  rewrite (proj2 (Z.ltb_ge _ _)) by done. cbn [st_get].
  rewrite (reads_remaining _ _ _ Hr), (proj2 (Z.ltb_ge _ _))
    by (pose proof (blen_nonneg tl); lia).
  erewrite read_bytes_reads by (exact Hb || exact Hr). unfold st_ret.
  rewrite !advance_advance, !blen_app, Z.add_assoc. by destruct f.
Qed.

Lemma decode_loop_reads `{Platform} fs acc fuel r :
  Forall field_ok fs → vec_ok (buf r) → (length fs <= fuel)%nat →
  reads r (concat (field_bytes <$> fs)) [] →
  decode_loop fuel acc r = Some (Ok (acc ++ fs)).
Proof.
  revert acc fuel r. induction fs as [|f fs IH]; intros acc fuel r Hfs Hb Hfuel Hr.
  { destruct fuel; cbn [decode_loop]; rewrite (reads_empty _ Hr), app_nil_r; done. }
  apply Forall_cons in Hfs as [Hf Hfs]. cbn [fmap list_fmap concat] in Hr.
  destruct fuel as [|fuel]; [cbn in Hfuel; lia|]. cbn [decode_loop].
  assert (is_empty r = false) as ->.
  { pose proof (length_field_bytes f) as Hlen.
    destruct (field_bytes f) as [|b bs]; [cbn in Hlen; lia|].
    apply (reads_not_empty r b (bs ++ concat (field_bytes <$> fs)) []). done. }
  rewrite (decode_field_reads f r (concat (field_bytes <$> fs)))
    by (done || by rewrite <-(app_nil_r (concat _)), <-reads_app).
  rewrite IH; [by rewrite <-app_assoc|done|done|cbn in Hfuel; lia|by apply reads_advance].
Qed.

Lemma length_concat_fields fs : (length fs <= length (concat (field_bytes <$> fs)))%nat.
Proof.
  induction fs as [|f fs IH]; cbn [fmap list_fmap concat length]; [lia|].
  rewrite length_app. pose proof (length_field_bytes f). cbn in IH. lia.
Qed.

Lemma decode_prelude_reads fl r tl :
  is_u64 fl → reads r ([MAGIC] ++ [WIRE_VERSION] ++ write_varint [] fl) tl →
  decode_prelude r
  = (Ok fl, advance r (blen ([MAGIC] ++ [WIRE_VERSION] ++ write_varint [] fl))).
Proof.
  intros Hfl Hr. unfold decode_prelude, st_bind.
  rewrite (read_u8_reads _ _ _ _ Hr), bool_decide_true by done. cbn [negb].
  apply reads_advance1 in Hr.
  rewrite (read_u8_reads _ _ _ _ Hr), bool_decide_true by done. cbn [negb].
  apply reads_advance1 in Hr.
  rewrite (read_varint_reads _ _ _ Hfl Hr), !advance_advance.
  rewrite !blen_app, !blen_cons, !blen_nil. done.
Qed.

Lemma decode_encode `{Platform} f :
  frame_ok f → vec_ok (encode f) → decode (encode f) = Ok f.
Proof.
  intros [Hfl Hfs] Hv. unfold decode.
  assert (reads (Reader_new (encode f)) (([MAGIC] ++ [WIRE_VERSION] ++ write_varint [] (flags f))
            ++ concat (field_bytes <$> fields f)) []) as Hr.
  { exists []. by rewrite app_nil_r, encode_eq. }
  rewrite (decode_prelude_reads (flags f) _ _ Hfl (proj1 (reads_app _ _ _ _) Hr)).
  apply reads_advance in Hr.
  rewrite (decode_loop_reads (fields f)); [by destruct f|done|done| |done].
  rewrite encode_eq, !length_app. pose proof (length_concat_fields (fields f)). lia.
Qed.

(** ** What the reader guarantees on any input *)

Lemma lor_lt_pow2 n a b :
  0 <= n → 0 <= a < 2 ^ n → 0 <= b < 2 ^ n → 0 <= Z.lor a b < 2 ^ n.
Proof.
  intros Hn Ha Hb.
  assert (Z.lor a b = Z.lor a b mod 2 ^ n) as ->.
  { rewrite <-Z.land_ones, Z.land_lor_distr_l, !Z.land_ones by lia.
    by rewrite !Z.mod_small by lia. }
  apply Z.mod_pos_bound. apply Z.pow_pos_nonneg; lia.
Qed.

Lemma lor_u64 a b : is_u64 a → is_u64 b → is_u64 (Z.lor a b).
Proof.
  unfold is_u64, u64_max. intros Ha Hb. pose proof (lor_lt_pow2 64 a b). lia.
Qed.

(** [r'] is [r] moved forward, at most to the end of the same buffer. *)
Definition moved (r r' : Reader) : Prop :=
  buf r' = buf r ∧ pos r <= pos r' <= blen (buf r).

Lemma moved_refl r : reader_ok r → moved r r.
Proof. unfold moved, reader_ok. auto with lia. Qed.

Lemma moved_trans r1 r2 r3 : moved r1 r2 → moved r2 r3 → moved r1 r3.
Proof. unfold moved. intros [E1 ?] [E2 ?]. rewrite E2, E1 in *. split; [done|lia]. Qed.

Lemma moved_ok r r' : reader_ok r → moved r r' → reader_ok r'.
Proof. unfold moved, reader_ok. intros ? [-> ?]. lia. Qed.

Lemma read_u8_moved r res r' :
  reader_ok r → read_u8 r = (res, r') →
  moved r r' ∧ (is_ok res = true → pos r' = pos r + 1).
Proof.
  unfold reader_ok, read_u8, moved. intros Hr.
  destruct (buf r !! Z.to_nat (pos r)) as [b|] eqn:E; intros [= <- <-]; cbn; [|by auto with lia].
  apply lookup_lt_Some in E. unfold blen in *. repeat split; lia.
Qed.

Lemma read_varint_loop_moved n acc shift r res r' :
  reader_ok r → is_u64 acc → read_varint_loop n acc shift r = (res, r') →
  moved r r' ∧ pos r' <= pos r + Z.of_nat n ∧
  (∀ v, res = Ok v → is_u64 v ∧ pos r + 1 <= pos r').
Proof.
  revert acc shift r. induction n as [|n IH]; intros acc shift r Hr Ha; cbn [read_varint_loop].
  { intros [= <- <-]. split; [by apply moved_refl|]. split; [lia|done]. }
  intros H. apply st_bind_inv in H as [(b & s1 & Hu & H)|(e & Hu & ->)].
  2:{ destruct (read_u8_moved _ _ _ Hr Hu) as [Hm Hp]. split; [done|]. split; [|done].
      unfold read_u8 in Hu. case_match; simplify_eq. lia. }
  destruct (read_u8_moved _ _ _ Hr Hu) as [Hm Hp]. specialize (Hp eq_refl).
  pose proof (moved_ok _ _ Hr Hm) as Hs1.
  assert (is_u64 (Z.lor acc (wrap64 (Z.shiftl (Z.land (u8 b) 127) shift)))) as Hacc.
  { apply lor_u64; [done|]. unfold is_u64, u64_max, wrap64.
    pose proof (Z.mod_pos_bound (Z.shiftl (Z.land (u8 b) 127) shift) (2 ^ 64) ltac:(lia)). lia. }
  destruct (_ && _); [injection H as <- <-; split; [done|]; split; [lia|done]|].
  destruct (_ =? 0).
  - unfold st_ret in H. injection H as <- <-. split; [done|]. split; [lia|].
    intros v [= <-]. split; [done|lia].
  - destruct (IH _ _ _ Hs1 Hacc H) as (Hm' & Hle & Hok).
    split; [by eapply moved_trans|]. split; [lia|].
    intros v ->. destruct (Hok v eq_refl). split; [done|lia].
Qed.

Lemma read_varint_moved r res r' :
  reader_ok r → read_varint r = (res, r') →
  moved r r' ∧ pos r' <= pos r + 10 ∧ (∀ v, res = Ok v → is_u64 v ∧ pos r + 1 <= pos r').
Proof. intros Hr. apply read_varint_loop_moved; [done|]. split; [lia|done]. Qed.

Lemma read_bytes_moved `{Platform} len r res r' :
  reader_ok r → 0 <= len → read_bytes len r = (res, r') →
  moved r r' ∧ (∀ bs, res = Ok bs → blen bs = len ∧ pos r' = pos r + len).
Proof.
  unfold read_bytes, reader_ok, moved. intros Hr Hlen H0.
  destruct (usize_max <? _); [injection H0 as <- <-; split; [auto with lia|done]|].
  destruct (Z.ltb_spec (blen (buf r)) (pos r + len)); injection H0 as <- <-; cbn.
  { split; [auto with lia|done]. }
  split; [split; [done|lia]|]. intros bs [= <-]. rewrite blen_slice; lia.
Qed.

(** A varint read from [k] bytes is below [2 ^ (7 k)], so the canonical
    encoding of its value takes at most [k] bytes. *)
Lemma read_varint_loop_bound n acc shift r v r' :
  0 <= shift → 0 <= acc < 2 ^ shift → read_varint_loop n acc shift r = (Ok v, r') →
  0 <= v < 2 ^ (shift + 7 * (pos r' - pos r)).
Proof.
  revert acc shift r. induction n as [|n IH]; intros acc shift r Hs Ha; cbn [read_varint_loop].
  { intros [=]. }
  intros H. apply st_bind_inv in H as [(b & s1 & Hu & H)|(e & Hu & [=])].
  assert (pos s1 = pos r + 1) as Hp.
  { unfold read_u8 in Hu. destruct (buf r !! _); [by injection Hu as _ <-|discriminate Hu]. }
  pose proof (Z.mod_pos_bound (u8 b) 128 ltac:(lia)) as Hpay.
  assert (0 <= Z.lor acc (wrap64 (Z.shiftl (Z.land (u8 b) 127) shift)) < 2 ^ (shift + 7)) as Hl.
  { assert (0 < 2 ^ shift) by (apply Z.pow_pos_nonneg; lia).
    rewrite land_7f, Z.shiftl_mul_pow2 by lia. unfold wrap64. apply lor_lt_pow2; [lia| |];
      rewrite Z.pow_add_r by lia; change (2 ^ 7) with 128; [nia|].
    split; [apply Z.mod_pos_bound; lia|]. eapply Z.le_lt_trans; [apply Z.mod_le; nia|nia]. }
  destruct (_ && _); [discriminate H|]. destruct (_ =? 0).
  - unfold st_ret in H. injection H as <- <-.
    by replace (shift + 7 * (pos s1 - pos r)) with (shift + 7) by lia.
  - apply IH in H; [|lia|done].
    by replace (shift + 7 * (pos r' - pos r)) with (shift + 7 + 7 * (pos r' - pos s1)) by lia.
Qed.

Lemma write_varint_short k v :
  (0 < k)%nat → 0 <= v < 2 ^ (7 * Z.of_nat k) → (length (write_varint [] v) <= k)%nat.
Proof.
  intros Hk Hv. unfold write_varint. pose proof (length_write_varint v) as Hlen.
  destruct (decide (k <= MAX_VARINT_LEN)%nat) as [Hle|]; cycle 1.
  { unfold write_varint, MAX_VARINT_LEN in *. lia. }
  rewrite (write_varint_fuel k) by done.
  pose proof (length_write_varint_loop k v). lia.
Qed.

Lemma read_varint_canonical r v r' :
  reader_ok r → read_varint r = (Ok v, r') → blen (write_varint [] v) <= pos r' - pos r.
Proof.
  intros Hr H. destruct (read_varint_moved _ _ _ Hr H) as (_ & _ & Hv).
  destruct (Hv v eq_refl) as [_ Hp].
  apply read_varint_loop_bound in H; [|lia|done]. rewrite Z.add_0_l in H.
  pose proof (write_varint_short (Z.to_nat (pos r' - pos r)) v) as Hs.
  rewrite Z2Nat.id in Hs by lia. unfold blen. lia.
Qed.

Lemma decode_field_spec `{Platform} r res r' :
  reader_ok r → vec_ok (buf r) → decode_field r = (res, r') →
  moved r r' ∧
  ∀ f, res = Ok f → field_ok f ∧ blen (field_bytes f) <= pos r' - pos r.
Proof.
  intros Hr Hv H0. unfold decode_field in H0.
  apply st_bind_inv in H0 as [(t & r1 & H1 & H0)|(e & H1 & ->)].
  2:{ apply read_varint_moved in H1 as (? & _); naive_solver. }
  pose proof (read_varint_canonical _ _ _ Hr H1) as Hc1.
  apply read_varint_moved in H1 as (Hm1 & _ & Ht); [|done]. specialize (Ht t eq_refl).
  pose proof (moved_ok _ _ Hr Hm1) as Hr1.
  apply st_bind_inv in H0 as [(len & r2 & H2 & H0)|(e & H2 & ->)].
  2:{ apply read_varint_moved in H2 as (? & _); [|done]. split; [|done].
      by eapply moved_trans. }
  pose proof (read_varint_canonical _ _ _ Hr1 H2) as Hc2.
  apply read_varint_moved in H2 as (Hm2 & _ & Hl); [|done]. specialize (Hl len eq_refl).
  pose proof (moved_ok _ _ Hr1 Hm2) as Hr2. pose proof (moved_trans _ _ _ Hm1 Hm2) as Hm12.
  destruct (_ <? _); [injection H0 as <- <-; by split|].
  unfold st_bind, st_get in H0.
  destruct (_ <? _); [injection H0 as <- <-; by split|].
  destruct (read_bytes len r2) as [rb r3] eqn:H3.
  apply read_bytes_moved in H3 as [Hm3 Hbs]; [|done|destruct Hl as [[? _] _]; lia].
  pose proof (moved_trans _ _ _ Hm12 Hm3) as Hm13.
  destruct rb as [bs|e]; injection H0 as <- <-; [|by split].
  split; [done|]. intros f [= <-]. destruct (Hbs bs eq_refl) as [Hlen Hpos].
  unfold field_bytes, field_ok, vec_ok in *. cbn [tag value]. rewrite !blen_app, Hlen.
  destruct Hm13 as [Hb Hp], Hr. split; [split; [by destruct Ht|lia]|lia].
Qed.

Lemma decode_loop_spec `{Platform} fuel acc r :
  reader_ok r → vec_ok (buf r) → remaining r <= Z.of_nat fuel →
  ∃ res, decode_loop fuel acc r = Some res ∧
    ∀ fs, res = Ok fs → ∃ fs', fs = acc ++ fs' ∧ Forall field_ok fs' ∧
      blen (concat (field_bytes <$> fs')) <= remaining r.
Proof.
  revert acc r. induction fuel as [|fuel IH]; intros acc r Hr Hv Hfuel; cbn [decode_loop].
  all: destruct (is_empty r) eqn:Hemp; unfold is_empty in Hemp.
  1,3: eexists; split; [done|]; intros fs [= <-]; exists []; rewrite app_nil_r;
    split; [done|]; split; [done|]; unfold remaining; destruct Hr;
    cbn [fmap list_fmap concat]; rewrite blen_nil; lia.
  { unfold remaining in Hfuel. lia. }
  destruct (decode_field r) as [[f|e] r'] eqn:Hf; [|eexists; split; [done|]; intros fs [=]].
  apply decode_field_spec in Hf as [Hm Hf]; [|done|done]. destruct (Hf f eq_refl) as [Hfo Hlen].
  pose proof (length_field_bytes f) as H2. unfold remaining in *.
  pose proof (moved_ok _ _ Hr Hm) as Hr'. destruct Hm as [Hb Hp].
  destruct (IH (acc ++ [f]) r') as (res & -> & Hres); [done|by rewrite Hb|rewrite Hb; unfold blen in *; lia|].
  eexists; split; [done|]. intros fs ->. destruct (Hres fs eq_refl) as (fs' & -> & Hfs & Hlen').
  exists (f :: fs'). rewrite <-app_assoc. split; [done|]. split; [by constructor|].
  rewrite fmap_cons. cbn [concat]. rewrite blen_app. rewrite Hb in Hlen'. lia.
Qed.

Lemma decode_prelude_spec r res r' :
  reader_ok r → decode_prelude r = (res, r') →
  moved r r' ∧
  ∀ fl, res = Ok fl → is_u64 fl ∧ 2 + blen (write_varint [] fl) <= pos r' - pos r.
Proof.
  intros Hr H. unfold decode_prelude in H.
  apply st_bind_inv in H as [(m & r1 & H1 & H)|(e & H1 & ->)].
  2:{ apply read_u8_moved in H1 as [? _]; [by split|done]. }
  apply read_u8_moved in H1 as [Hm1 Hp1]; [|done]. pose proof (moved_ok _ _ Hr Hm1) as Hr1.
  destruct (negb _); [injection H as <- <-; by split|].
  apply st_bind_inv in H as [(v & r2 & H2 & H)|(e & H2 & ->)].
  2:{ apply read_u8_moved in H2 as [? _]; [|done]. split; [by eapply moved_trans|done]. }
  apply read_u8_moved in H2 as [Hm2 Hp2]; [|done]. pose proof (moved_ok _ _ Hr1 Hm2) as Hr2.
  pose proof (moved_trans _ _ _ Hm1 Hm2) as Hm12. specialize (Hp1 eq_refl). specialize (Hp2 eq_refl).
  destruct (negb _); [injection H as <- <-; by split|].
  destruct (read_varint_moved _ _ _ Hr2 H) as (Hm3 & _ & Hv).
  split; [by eapply moved_trans|]. intros fl ->. destruct (Hv fl eq_refl).
  pose proof (read_varint_canonical _ _ _ Hr2 H). split; [done|lia].
Qed.

Lemma reader_ok_new b : reader_ok (Reader_new b).
Proof. unfold reader_ok. cbn. pose proof (blen_nonneg b). lia. Qed.

Lemma decode_spec `{Platform} b f :
  vec_ok b → decode b = Ok f → frame_ok f ∧ blen (encode f) <= blen b.
Proof.
  intros Hv Hd. unfold decode in Hd.
  destruct (decode_prelude (Reader_new b)) as [[fl|e] r] eqn:Hp; [|done].
  apply decode_prelude_spec in Hp as [Hm Hfl]; [|apply reader_ok_new].
  destruct (Hfl fl eq_refl) as [Hu Hlen].
  pose proof (moved_ok _ _ (reader_ok_new b) Hm) as Hr. destruct Hm as [Hb Hpos]. cbn in Hb, Hpos, Hlen.
  destruct (decode_loop_spec (length b) [] r) as (res & Hl & Hres);
    [done|by rewrite Hb|unfold remaining, blen in *; rewrite Hb; lia|].
  rewrite Hl in Hd. destruct res as [fs|e]; [|done]. injection Hd as <-.
  destruct (Hres fs eq_refl) as (fs' & -> & Hok & Hsz). split; [by split|].
  rewrite encode_eq. cbn [app flags fields]. rewrite !blen_cons, blen_app.
  unfold remaining in Hsz. rewrite Hb in Hsz. lia.
Qed.

Lemma vec_ok_le `{Platform} {A B} (l : list A) (k : list B) : blen l <= blen k → vec_ok k → vec_ok l.
Proof. unfold vec_ok. lia. Qed.

(** Anything of at most [2^31 - 1] bytes is a [Vec] on every target. *)
Lemma small_vec_ok `{Platform} {A} (l : list A) : blen l <= 2 ^ 31 - 1 → vec_ok l.
Proof. unfold vec_ok. destruct usize_bits_ok as [-> | ->]; cbn; lia. Qed.

(** Reduces [field_ok] of a field with one of the tags above to its value. *)
Ltac known_field := split; [cbn [tag]; split; vm_compute; discriminate|cbn [value]].

(** An upper bound of the size of an encoded frame. *)
Definition frame_size (f : Frame) : Z :=
  12 + foldr (λ fd n, 20 + blen (value fd) + n) 0 (fields f).

Lemma blen_encode_le f : blen (encode f) <= frame_size f.
Proof.
  rewrite encode_eq, !blen_app. unfold frame_size.
  assert (blen (concat (field_bytes <$> fields f))
          <= foldr (λ fd n, 20 + blen (value fd) + n) 0 (fields f)).
  { induction (fields f) as [|fd fs IH]; [done|]. rewrite fmap_cons. cbn [concat foldr].
    rewrite blen_app. unfold field_bytes at 1. rewrite !blen_app.
    pose proof (length_write_varint (tag fd)). pose proof (length_write_varint (blen (value fd))).
    unfold blen at 1 2. lia. }
  pose proof (length_write_varint (flags f)). unfold blen at 1 2 3. cbn [length]. lia.
Qed.

Lemma frame_vec_ok `{Platform} f : frame_size f <= 2 ^ 31 - 1 → vec_ok (encode f).
Proof. intros Hs. apply small_vec_ok. pose proof (blen_encode_le f). lia. Qed.

Lemma encode_inj `{Platform} f g :
  frame_ok f → frame_ok g → vec_ok (encode f) → encode f = encode g → f = g.
Proof.
  intros Hf Hg Hv He. apply decode_encode in Hf; [|done].
  rewrite He in Hf, Hv. rewrite decode_encode in Hf by done. by injection Hf.
Qed.

Lemma reject_reserved_loop_spec fs :
  match reject_reserved_loop fs with
  | Ok _ => Forall (λ f, PQ_RESERVED_TAGS_contains (tag f) = false) fs
  | Err e => ∃ pre f post, fs = pre ++ f :: post ∧ e = ReservedTag (tag f) ∧
      PQ_RESERVED_TAGS_contains (tag f) = true ∧
      Forall (λ f, PQ_RESERVED_TAGS_contains (tag f) = false) pre
  end.
Proof.
  induction fs as [|f fs IH]; cbn [reject_reserved_loop]; [done|].
  destruct (PQ_RESERVED_TAGS_contains (tag f)) eqn:E.
  { exists [], f, fs. naive_solver. }
  destruct (reject_reserved_loop fs) as [[]|e]; [by constructor|].
  destruct IH as (pre & g & post & -> & -> & ? & ?). exists (f :: pre), g, post. naive_solver.
Qed.

(** ** Properties *)

(** a [u64] written by [write_varint] behind any prefix is read back by
    [read_varint] exactly, whatever bytes follow, and the cursor stops right
    after it. *)
Theorem varint_roundtrip v pre tl :
  is_u64 v →
  read_varint {| buf := write_varint pre v ++ tl; pos := blen pre |}
  = (Ok v, {| buf := write_varint pre v ++ tl; pos := blen (write_varint pre v) |}).
Proof.
  intros Hv. rewrite write_varint_app, <-app_assoc.
  rewrite (read_varint_reads v _ tl Hv) by (by exists pre).
  unfold advance. cbn [buf pos]. by rewrite blen_app.
Qed.

Lemma varint_roundtrip_witness :
  is_u64 300 ∧
  read_varint {| buf := write_varint [Byte.xff] 300 ++ [Byte.x07]; pos := blen [Byte.xff] |}
  = (Ok 300, {| buf := write_varint [Byte.xff] 300 ++ [Byte.x07];
                pos := blen (write_varint [Byte.xff] 300) |}).
Proof.
  assert (is_u64 300) as H by (split; vm_compute; discriminate).
  split; [exact H|]. exact (varint_roundtrip 300 [Byte.xff] [Byte.x07] H).
Defined.

(** C25: a frame survives the wire: [Frame::decode] of [Frame::encode] returns
    the same flags and the same fields in the same order, on 32-bit and 64-bit
    targets alike. *)
Theorem frame_roundtrip `{Platform} f :
  frame_ok f → vec_ok (encode f) → decode (encode f) = Ok f.
Proof. apply decode_encode. Qed.

Definition sample_frame : Frame :=
  with_field (with_field (with_flags Frame_new FLAG_HANDSHAKE) TAG_SIGNATURE [Byte.x09; Byte.x08])
    TAG_EXPIRY [].

Lemma sample_frame_ok : frame_ok (H := wasm32) sample_frame ∧ vec_ok (H := wasm32) (encode sample_frame).
Proof.
  split; [|vm_compute; discriminate].
  split; [split; vm_compute; discriminate|].
  repeat constructor; vm_compute; discriminate.
Defined.

Lemma frame_roundtrip_witness :
  frame_ok (H := wasm32) sample_frame ∧ vec_ok (H := wasm32) (encode sample_frame) ∧
  decode (H := wasm32) (encode sample_frame) = Ok sample_frame.
Proof.
  destruct sample_frame_ok as [Hf Hv]. split; [exact Hf|]. split; [exact Hv|].
  exact (frame_roundtrip (H := wasm32) sample_frame Hf Hv).
Defined.

(** on hostile input, whatever [Frame::decode] accepts is a well-formed
    frame whose re-encoding is no longer than the input (so no length field can
    make the decoder allocate more than it was given) and decodes to the same
    frame again: the property the [wire_decode] fuzz target asserts. *)
Theorem decode_reencode_stable `{Platform} b f :
  vec_ok b → decode b = Ok f →
  frame_ok f ∧ blen (encode f) <= blen b ∧ decode (encode f) = Ok f.
Proof.
  intros Hv Hd. destruct (decode_spec _ _ Hv Hd) as [Hf Hlen].
  split; [done|]. split; [done|]. apply decode_encode; [done|]. by eapply vec_ok_le.
Qed.

(** An input with an overlong tag varint: accepted, and re-encoded shorter. *)
Definition overlong_input : bytes :=
  [Byte.xb0; Byte.x01; Byte.x00; Byte.x86; Byte.x00; Byte.x01; Byte.xaa].

Lemma decode_reencode_stable_witness :
  decode overlong_input = Ok (with_field Frame_new TAG_SIGNATURE [Byte.xaa]) ∧
  (frame_ok (with_field Frame_new TAG_SIGNATURE [Byte.xaa]) ∧
   blen (encode (with_field Frame_new TAG_SIGNATURE [Byte.xaa])) <= blen overlong_input ∧
   decode (encode (with_field Frame_new TAG_SIGNATURE [Byte.xaa]))
   = Ok (with_field Frame_new TAG_SIGNATURE [Byte.xaa])).
Proof.
  assert (decode overlong_input = Ok (with_field Frame_new TAG_SIGNATURE [Byte.xaa])) as Hd
    by (vm_compute; reflexivity).
  split; [exact Hd|].
  refine (decode_reencode_stable overlong_input _ _ Hd). vm_compute. discriminate.
Defined.

(** C37: the field loop of [Frame::decode] terminates on every input within one
    turn per input byte, since each turn consumes at least two bytes; the
    decoder therefore always answers with a frame or a [WireError]. *)
Theorem decode_loop_terminates `{Platform} b fl r acc :
  vec_ok b → decode_prelude (Reader_new b) = (Ok fl, r) →
  ∃ res, decode_loop (length b) acc r = Some res.
Proof.
  intros Hv Hp. apply decode_prelude_spec in Hp as [Hm _]; [|apply reader_ok_new].
  pose proof (moved_ok _ _ (reader_ok_new b) Hm) as Hr. destruct Hm as [Hb Hpos]. cbn in Hb, Hpos.
  destruct (decode_loop_spec (length b) acc r) as (res & Hl & _);
    [done|by rewrite Hb|unfold remaining, blen in *; rewrite Hb; lia|]. by exists res.
Qed.

Lemma decode_loop_terminates_witness :
  ∃ res, decode_loop (length overlong_input) [] {| buf := overlong_input; pos := 3 |} = Some res.
Proof.
  refine (decode_loop_terminates overlong_input 0 _ [] _ _); [vm_compute; discriminate|].
  vm_compute. reflexivity.
Defined.

(** C36: on any buffer and any in-bounds cursor, every [Reader] operation keeps
    the cursor inside the same buffer (so [remaining] never underflows and no
    access is out of bounds), also when it fails; [read_varint] moves at most
    ten bytes and only yields [u64] values, [read_bytes] yields exactly the
    requested number of bytes. *)
Theorem reader_in_bounds `{Platform} r len :
  reader_ok r → 0 <= len →
  (∀ res r', read_u8 r = (res, r') → moved r r') ∧
  (∀ res r', read_varint r = (res, r') →
     moved r r' ∧ pos r' <= pos r + 10 ∧ (∀ v, res = Ok v → is_u64 v)) ∧
  (∀ res r', read_bytes len r = (res, r') →
     moved r r' ∧ (∀ bs, res = Ok bs → blen bs = len)).
Proof.
  intros Hr Hl. split; [|split]; intros res r' H0.
  - by apply read_u8_moved in H0 as [? _].
  - apply read_varint_moved in H0 as (? & ? & Hv); [|done]. split; [done|]. split; [done|].
    intros v Hres. by apply Hv.
  - apply read_bytes_moved in H0 as [? Hb]; [|done|done]. split; [done|].
    intros bs Hres. by apply Hb.
Qed.

Lemma reader_in_bounds_witness :
  let r := {| buf := [Byte.x80; Byte.x80]; pos := 1 |} in
  moved r (read_varint r).2.
Proof.
  refine (proj1 (proj1 (proj2 (reader_in_bounds {| buf := [Byte.x80; Byte.x80]; pos := 1 |} 5 _ _))
                   _ _ (surjective_pairing _))).
  - split; vm_compute; discriminate.
  - lia.
Defined.

(** [read_varint] does {e not} reject overlong encodings, contrary to its
    documentation: it reads both [80 00] and the canonical [00] as zero, while
    [write_varint] only produces the latter. *)
Theorem read_varint_accepts_overlong :
  read_varint (Reader_new [Byte.x80; Byte.x00]) = (Ok 0, {| buf := [Byte.x80; Byte.x00]; pos := 2 |}) ∧
  read_varint (Reader_new [Byte.x00]) = (Ok 0, {| buf := [Byte.x00]; pos := 1 |}) ∧
  write_varint [] 0 = [Byte.x00].
Proof. vm_compute. auto. Qed.

(** [reject_reserved_pq] accepts exactly the frames without a reserved
    post-quantum tag, and otherwise names the first reserved tag. *)
Theorem reject_reserved_pq_spec f :
  match reject_reserved_pq f with
  | Ok _ => ∀ fd, fd ∈ fields f → ¬ (0x20 <= tag fd <= 0x2f)
  | Err e => ∃ pre fd post, fields f = pre ++ fd :: post ∧ e = ReservedTag (tag fd) ∧
      0x20 <= tag fd <= 0x2f ∧ ∀ fd', fd' ∈ pre → ¬ (0x20 <= tag fd' <= 0x2f)
  end.
Proof.
  unfold reject_reserved_pq. pose proof (reject_reserved_loop_spec (fields f)) as H.
  unfold PQ_RESERVED_TAGS_contains in H.
  destruct (reject_reserved_loop (fields f)) as [[]|e].
  - rewrite Forall_forall in H. intros fd Hfd. apply H in Hfd. lia.
  - destruct H as (pre & fd & post & ? & ? & ? & Hpre). exists pre, fd, post.
    rewrite Forall_forall in Hpre. repeat split; [done|done|lia|lia|].
    intros fd' Hfd. apply Hpre in Hfd. lia.
Qed.
