(* ===== verification/Keys.v ===== *)
(** * Keys and sealing: [error.rs], [aead.rs], [kem.rs], [identity.rs]

    The cryptographic primitives come from third-party crates (hkdf, sha2,
    x25519-dalek, ml-kem, ml-dsa, chacha20poly1305, base64); the class
    [Primitives] lists the operations of them that the sources call, and the
    law classes state the documented behaviour the code relies on.  Operations
    that draw system randomness take the drawn bytes as an argument. *)

From S2P Require Import Prelude.
From S2P Require Import Wire.

(** ** The third-party primitives *)

Class Primitives := {
  (** [Hkdf::<Sha256>::new(salt, ikm)] and [hk.expand(info, &mut out)] for an
      output of [n] bytes. *)
  hkdf_extract : option bytes → bytes → bytes;
  hkdf_expand : bytes → bytes → nat → bytes;
  (** x25519-dalek *)
  XSecret : Type;
  XPublic : Type;
  xs_from : bytes → XSecret;
  xs_to_bytes : XSecret → bytes;
  xp_from : bytes → XPublic;
  xp_to_bytes : XPublic → bytes;
  x_public : XSecret → XPublic;
  x_dh : XSecret → XPublic → bytes;
  (** chacha20poly1305: key, nonce, aad, message *)
  xchacha_encrypt : bytes → bytes → bytes → bytes → option bytes;
  xchacha_decrypt : bytes → bytes → bytes → bytes → option bytes;
  (** ml-kem, parameter set 768 *)
  DecapsulationKey : Type;
  EncapsulationKey : Type;
  mlkem_generate : bytes → DecapsulationKey * EncapsulationKey;
  dk_new : bytes → DecapsulationKey;
  dk_to_bytes : DecapsulationKey → bytes;
  dk_decapsulate : DecapsulationKey → bytes → bytes;
  ek_new : bytes → option EncapsulationKey;
  ek_to_bytes : EncapsulationKey → bytes;
  ek_encapsulate : EncapsulationKey → bytes → bytes * bytes;
  (** ml-dsa, parameter set 65 *)
  SigningKey : Type;
  VerifyingKey : Type;
  Signature : Type;
  sk_generate : bytes → SigningKey;
  sk_from_seed : bytes → SigningKey;
  sk_to_seed : SigningKey → bytes;
  sk_verifying_key : SigningKey → VerifyingKey;
  sk_sign_randomized : SigningKey → bytes → bytes → Signature;
  sk_sign_deterministic : SigningKey → bytes → Signature;
  vk_encode : VerifyingKey → bytes;
  vk_decode : bytes → VerifyingKey;
  vk_verify : VerifyingKey → bytes → Signature → bool;
  sig_encode : Signature → bytes;
  sig_decode : bytes → option Signature;
  (** base64, [URL_SAFE_NO_PAD] *)
  b64url_encode : bytes → string;
  b64url_decode : string → option bytes;
}.

(** ** Documented behaviour of the primitives *)

Class HkdfLaws `{Primitives} : Prop := {
  expand_length prk info n : (n <= 255 * 32)%nat → length (hkdf_expand prk info n) = n;
}.

Class X25519Laws `{Primitives} : Prop := {
  xs_from_to s : xs_from (xs_to_bytes s) = s;
  xs_length s : length (xs_to_bytes s) = 32%nat;
  xp_from_to p : xp_from (xp_to_bytes p) = p;
  xp_to_from b : length b = 32%nat → xp_to_bytes (xp_from b) = b;
  xp_length p : length (xp_to_bytes p) = 32%nat;
  x_dh_length s p : length (x_dh s p) = 32%nat;
  x_dh_comm a b : x_dh a (x_public b) = x_dh b (x_public a);
}.

(** XChaCha20-Poly1305 is a deterministic function of key, nonce, additional
    data and message; it refuses messages of [64 * (2^32 - 1)] bytes or more. *)
Definition AEAD_MAX_LEN : Z := 64 * (2 ^ 32 - 1).

Class AeadLaws `{Primitives} : Prop := {
  aead_open_seal k n a m c :
    xchacha_encrypt k n a m = Some c → xchacha_decrypt k n a c = Some m;
  aead_seal_open k n a m c :
    xchacha_decrypt k n a c = Some m → xchacha_encrypt k n a m = Some c;
  aead_seal_length k n a m c :
    xchacha_encrypt k n a m = Some c → blen c = blen m + 16;
  aead_seal_total k n a m :
    blen m < AEAD_MAX_LEN → is_Some (xchacha_encrypt k n a m);
}.

Class MlkemLaws `{Primitives} : Prop := {
  dk_new_to dk : dk_new (dk_to_bytes dk) = dk;
  dk_length dk : length (dk_to_bytes dk) = 64%nat;
  ek_new_to ek : ek_new (ek_to_bytes ek) = Some ek;
  ek_length ek : length (ek_to_bytes ek) = 1184%nat;
  mlkem_ct_length ek r : length (ek_encapsulate ek r).1 = 1088%nat;
  mlkem_agree s dk ek r ct ss :
    mlkem_generate s = (dk, ek) → ek_encapsulate ek r = (ct, ss) → dk_decapsulate dk ct = ss;
}.

Class MldsaLaws `{Primitives} : Prop := {
  sk_from_to sk : sk_from_seed (sk_to_seed sk) = sk;
  sk_seed_length sk : length (sk_to_seed sk) = 32%nat;
  vk_decode_encode vk : vk_decode (vk_encode vk) = vk;
  vk_length vk : length (vk_encode vk) = 1952%nat;
  sig_decode_encode s : sig_decode (sig_encode s) = Some s;
  sig_length s : length (sig_encode s) = 3309%nat;
  verify_sign sk m r : vk_verify (sk_verifying_key sk) m (sk_sign_randomized sk m r) = true;
}.

Class Base64Laws `{Primitives} : Prop := {
  b64url_decode_encode b : b64url_decode (b64url_encode b) = Some b;
}.

(** ** [error.rs] *)

Inductive CryptoError : Type :=
| Wire (e : WireError)
| Aead
| BadSignature
| Malformed (what : string)
| Ratchet (why : string).

#[export] Instance CryptoError_eq_dec : EqDecision CryptoError.
Proof. solve_decision. Defined.

Definition malformed (what : string) : CryptoError := Malformed what.

(** The [?] conversion of a [WireError]. *)
Definition wire_err {A} (m : Result WireError A) : Result CryptoError A := map_err Wire m.

(** [bytes.try_into::<[u8; N]>()]. *)
Definition try_array {E} (n : nat) (bs : bytes) (e : E) : Result E bytes :=
  if (length bs =? n)%nat then Ok bs else Err e.

Lemma try_array_ok {E} n bs (e : E) : length bs = n → try_array n bs e = Ok bs.
Proof. intros <-. unfold try_array. by rewrite Nat.eqb_refl. Qed.

Lemma try_array_inv {E} n bs (e : E) r :
  try_array n bs e = Ok r → r = bs ∧ length bs = n.
Proof. unfold try_array. destruct (Nat.eqb_spec (length bs) n); naive_solver. Qed.

(** ** [aead.rs] *)

Definition KEY_LEN : nat := 32.
Definition NONCE_LEN : nat := 24.
Definition TAG_LEN : nat := 16.

Section Keys.
Context `{PR : Primitives}.

Definition seal (key nonce aad plaintext : bytes) : Result CryptoError bytes :=
  ok_or (xchacha_encrypt key nonce aad plaintext) Aead.

Definition open (key nonce aad ciphertext : bytes) : Result CryptoError bytes :=
  ok_or (xchacha_decrypt key nonce aad ciphertext) Aead.

Definition random_nonce (rnd : bytes) : bytes := rnd.

(** ** [kem.rs]: X25519 *)

Definition X25519_LEN : nat := 32.
Definition SHARED_SECRET_LEN : nat := 32.
Definition MLKEM_ENCAPS_KEY_LEN : nat := 1184.
Definition MLKEM_CIPHERTEXT_LEN : nat := 1088.
Definition MLKEM_SECRET_LEN : nat := 64.

Definition X25519SecretKey : Type := XSecret.
Definition X25519PublicKey : Type := XPublic.

Definition X25519SecretKey_generate (rnd : bytes) : X25519SecretKey := xs_from rnd.
Definition X25519SecretKey_from_bytes (b : bytes) : X25519SecretKey := xs_from b.
Definition X25519SecretKey_to_bytes (k : X25519SecretKey) : bytes := xs_to_bytes k.
Definition public_key (k : X25519SecretKey) : X25519PublicKey := x_public k.
Definition diffie_hellman (k : X25519SecretKey) (peer : X25519PublicKey) : bytes := x_dh k peer.

Definition X25519PublicKey_to_bytes (p : X25519PublicKey) : bytes := xp_to_bytes p.
Definition X25519PublicKey_from_slice (b : bytes) : Result CryptoError X25519PublicKey :=
  let? arr := try_array X25519_LEN b (malformed "x25519 public key") in
  Ok (xp_from arr).

(** ** [kem.rs]: ML-KEM-768 *)

Definition MlKemSecretKey : Type := DecapsulationKey.
Definition MlKemPublicKey : Type := EncapsulationKey.

Definition MlKemSecretKey_generate (rnd : bytes) : MlKemSecretKey * MlKemPublicKey :=
  mlkem_generate rnd.

Definition decapsulate (k : MlKemSecretKey) (ct : bytes) : Result CryptoError bytes :=
  let? ct := try_array MLKEM_CIPHERTEXT_LEN ct (malformed "ml-kem ciphertext") in
  Ok (dk_decapsulate k ct).

Definition MlKemSecretKey_to_bytes (k : MlKemSecretKey) : bytes := dk_to_bytes k.

Definition MlKemSecretKey_from_bytes (b : bytes) : Result CryptoError MlKemSecretKey :=
  let? seed := try_array MLKEM_SECRET_LEN b (malformed "ml-kem secret key") in
  Ok (dk_new seed).

Definition encapsulate (k : MlKemPublicKey) (rnd : bytes) : bytes * bytes :=
  ek_encapsulate k rnd.

Definition MlKemPublicKey_to_bytes (k : MlKemPublicKey) : bytes := ek_to_bytes k.

Definition MlKemPublicKey_from_slice (b : bytes) : Result CryptoError MlKemPublicKey :=
  let? key := try_array MLKEM_ENCAPS_KEY_LEN b (malformed "ml-kem public key") in
  ok_or (ek_new key) (malformed "ml-kem public key").

(** ** [identity.rs] *)

Definition SEED_LEN : nat := 32.
Definition PUBLIC_KEY_LEN : nat := 1952.
Definition SIGNATURE_LEN : nat := 3309.

Record IdentityKeyPair := { signing_key : SigningKey }.
Record IdentityPublicKey := { verifying_key : VerifyingKey }.
Definition IdentitySignature : Type := Signature.

Definition IdentityKeyPair_generate (rnd : bytes) : IdentityKeyPair :=
  {| signing_key := sk_generate rnd |}.
Definition from_seed (seed : bytes) : IdentityKeyPair := {| signing_key := sk_from_seed seed |}.
Definition to_seed (id : IdentityKeyPair) : bytes := sk_to_seed (signing_key id).
Definition identity_public (id : IdentityKeyPair) : IdentityPublicKey :=
  {| verifying_key := sk_verifying_key (signing_key id) |}.
Definition sign (id : IdentityKeyPair) (msg rnd : bytes) : IdentitySignature :=
  sk_sign_randomized (signing_key id) msg rnd.
Definition sign_deterministic (id : IdentityKeyPair) (msg : bytes) : IdentitySignature :=
  sk_sign_deterministic (signing_key id) msg.

Definition IdentityPublicKey_to_bytes (k : IdentityPublicKey) : bytes := vk_encode (verifying_key k).

Definition IdentityPublicKey_from_bytes (b : bytes) : Result CryptoError IdentityPublicKey :=
  let? enc := try_array PUBLIC_KEY_LEN b (malformed "identity public key") in
  Ok {| verifying_key := vk_decode enc |}.

Definition verify (k : IdentityPublicKey) (msg : bytes) (sig : IdentitySignature) :
    Result CryptoError unit :=
  if vk_verify (verifying_key k) msg sig then Ok tt else Err BadSignature.

Definition IdentitySignature_to_bytes (s : IdentitySignature) : bytes := sig_encode s.

Definition IdentitySignature_from_bytes (b : bytes) : Result CryptoError IdentitySignature :=
  let? enc := try_array SIGNATURE_LEN b (malformed "signature") in
  ok_or (sig_decode enc) (malformed "signature").

(** ** Round trips of the encodings *)

Lemma seal_inv k n a m c : seal k n a m = Ok c ↔ xchacha_encrypt k n a m = Some c.
Proof. unfold seal. apply ok_or_Ok. Qed.

Lemma open_inv k n a m c : open k n a c = Ok m ↔ xchacha_decrypt k n a c = Some m.
Proof. unfold open. apply ok_or_Ok. Qed.

Lemma open_seal `{L : !AeadLaws} k n a m c : seal k n a m = Ok c → open k n a c = Ok m.
Proof. rewrite seal_inv, open_inv. apply aead_open_seal. Qed.

Lemma X25519PublicKey_roundtrip `{L : !X25519Laws} p :
  X25519PublicKey_from_slice (X25519PublicKey_to_bytes p) = Ok p.
Proof.
  unfold X25519PublicKey_from_slice, X25519PublicKey_to_bytes, X25519_LEN.
  rewrite try_array_ok by apply xp_length. cbn. by rewrite xp_from_to.
Qed.

Lemma X25519PublicKey_from_slice_inv `{L : !X25519Laws} b p :
  X25519PublicKey_from_slice b = Ok p → X25519PublicKey_to_bytes p = b ∧ length b = 32%nat.
Proof.
  unfold X25519PublicKey_from_slice. intros H. inv_ok.
  apply try_array_inv in Ha as [-> Hl]. subst. unfold X25519PublicKey_to_bytes.
  split; [by apply xp_to_from|done].
Qed.

Lemma MlKemSecretKey_roundtrip `{L : !MlkemLaws} k :
  MlKemSecretKey_from_bytes (MlKemSecretKey_to_bytes k) = Ok k.
Proof.
  unfold MlKemSecretKey_from_bytes, MlKemSecretKey_to_bytes, MLKEM_SECRET_LEN.
  rewrite try_array_ok by apply dk_length. cbn. by rewrite dk_new_to.
Qed.

Lemma MlKemPublicKey_roundtrip `{L : !MlkemLaws} k :
  MlKemPublicKey_from_slice (MlKemPublicKey_to_bytes k) = Ok k.
Proof.
  unfold MlKemPublicKey_from_slice, MlKemPublicKey_to_bytes, MLKEM_ENCAPS_KEY_LEN.
  rewrite try_array_ok by apply ek_length. cbn. by rewrite ek_new_to.
Qed.

Lemma IdentityPublicKey_roundtrip `{L : !MldsaLaws} k :
  IdentityPublicKey_from_bytes (IdentityPublicKey_to_bytes k) = Ok k.
Proof.
  unfold IdentityPublicKey_from_bytes, IdentityPublicKey_to_bytes, PUBLIC_KEY_LEN.
  rewrite try_array_ok by apply vk_length. cbn. rewrite vk_decode_encode. by destruct k.
Qed.

Lemma IdentitySignature_roundtrip `{L : !MldsaLaws} s :
  IdentitySignature_from_bytes (IdentitySignature_to_bytes s) = Ok s.
Proof.
  unfold IdentitySignature_from_bytes, IdentitySignature_to_bytes, SIGNATURE_LEN.
  rewrite try_array_ok by apply sig_length. cbn. by rewrite sig_decode_encode.
Qed.

Lemma verify_sign_ok `{L : !MldsaLaws} id msg rnd :
  verify (identity_public id) msg (sign id msg rnd) = Ok tt.
Proof. unfold verify, sign, identity_public. cbn. by rewrite verify_sign. Qed.

Lemma X25519PublicKey_to_bytes_inj `{L : !X25519Laws} p q :
  X25519PublicKey_to_bytes p = X25519PublicKey_to_bytes q → p = q.
Proof.
  unfold X25519PublicKey_to_bytes. intros H. by rewrite <-(xp_from_to p), H, xp_from_to.
Qed.

Lemma decapsulate_agree `{L : !MlkemLaws} s dk ek r ct ss :
  MlKemSecretKey_generate s = (dk, ek) → encapsulate ek r = (ct, ss) →
  decapsulate dk ct = Ok ss.
Proof.
  intros Hg He. unfold decapsulate, MLKEM_CIPHERTEXT_LEN.
  pose proof (mlkem_ct_length ek r) as Hl. unfold encapsulate in He. rewrite He in Hl.
  rewrite try_array_ok by done. cbn. f_equal. by eapply mlkem_agree.
Qed.
End Keys.

Create Rewrite HintDb keys.
#[export] Hint Rewrite @X25519PublicKey_roundtrip @MlKemSecretKey_roundtrip @MlKemPublicKey_roundtrip
  @IdentityPublicKey_roundtrip @IdentitySignature_roundtrip : keys.
