(* ===== verification/ModelCrypto.v ===== *)
(** * A concrete instance of the primitives

    The laws of [Keys] are consistent: here is an executable instance that
    satisfies all of them, used to evaluate the model on concrete inputs.  It
    is of course not secure.  Mixing is a small polynomial hash [mix]; keys are
    one byte repeated to the length the real scheme has. *)

From S2P Require Import Prelude.
From S2P Require Import Wire.
From S2P Require Import Keys.

Definition mix (bs : bytes) : Z := foldl (λ a b, (a * 31 + u8 b + 1) mod 65521) 7 bs.

Definition spread (h : Z) (n : nat) : bytes :=
  (λ i, byte_of (h / 3 + (h + 1) * Z.of_nat i)) <$> seq 0 n.

(** Public keys are all the 32-byte strings. *)
Record B32 := mkB32 { b32 : bytes; b32_ok : bool_decide (length b32 = 32%nat) = true }.

Lemma b32_eq p q : b32 p = b32 q → p = q.
Proof.
  destruct p as [p Hp], q as [q Hq]. cbn. intros ->. f_equal. apply proof_irrel.
Qed.

Definition b32_of (b : bytes) : B32 :=
  match decide (length b = 32%nat) with
  | left H => mkB32 b (bool_decide_eq_true_2 _ H)
  | right _ => mkB32 (replicate 32 Byte.x00) eq_refl
  end.

Definition hd0 (b : bytes) : byte := default Byte.x00 (head b).

Definition addb (a b : byte) : byte := byte_of (u8 a + u8 b).

Lemma addb_comm a b : addb a b = addb b a.
Proof. unfold addb. f_equal. lia. Qed.

#[export] Instance model_primitives : Primitives := {|
  hkdf_extract salt ikm := spread (mix (default [] salt ++ ikm)) 32;
  hkdf_expand prk info n := spread (mix (prk ++ info)) n;
  XSecret := byte;
  XPublic := B32;
  xs_from := hd0;
  xs_to_bytes s := replicate 32 s;
  xp_from := b32_of;
  xp_to_bytes := b32;
  x_public s := b32_of (replicate 32 s);
  x_dh s p := addb s <$> b32 p;
  xchacha_encrypt k n a m := Some (m ++ spread (mix (k ++ n ++ a ++ m)) 16);
  xchacha_decrypt k n a c :=
    let m := take (length c - 16) c in
    if bool_decide (c = m ++ spread (mix (k ++ n ++ a ++ m)) 16) then Some m else None;
  DecapsulationKey := byte;
  EncapsulationKey := byte;
  mlkem_generate s := (hd0 s, hd0 s);
  dk_new := hd0;
  dk_to_bytes k := replicate 64 k;
  dk_decapsulate k ct := replicate 32 (addb k (hd0 ct));
  ek_new b := Some (hd0 b);
  ek_to_bytes k := replicate 1184 k;
  ek_encapsulate k r := (replicate 1088 (hd0 r), replicate 32 (addb k (hd0 r)));
  SigningKey := byte;
  VerifyingKey := byte;
  Signature := byte * byte * byte;
  sk_generate := hd0;
  sk_from_seed := hd0;
  sk_to_seed k := replicate 32 k;
  sk_verifying_key k := k;
  sk_sign_randomized k m r := (k, byte_of (mix m), byte_of (mix m / 256));
  sk_sign_deterministic k m := (k, byte_of (mix m), byte_of (mix m / 256));
  vk_encode k := replicate 1952 k;
  vk_decode := hd0;
  vk_verify k m s := bool_decide (s = (k, byte_of (mix m), byte_of (mix m / 256)));
  sig_encode s := s.1.1 :: s.1.2 :: s.2 :: replicate 3306 Byte.x00;
  sig_decode b :=
    match b with x :: y :: z :: _ => Some (x, y, z) | _ => None end;
  b64url_encode := String.string_of_list_byte;
  b64url_decode s := Some (String.list_byte_of_string s);
|}.

Lemma length_spread h n : length (spread h n) = n.
Proof. unfold spread. by rewrite length_fmap, length_seq. Qed.

#[export] Instance model_hkdf : HkdfLaws.
Proof. split. intros prk info n _. apply length_spread. Qed.

Lemma b32_of_ok b : length b = 32%nat → b32 (b32_of b) = b.
Proof. intros H. unfold b32_of. by destruct (decide _). Qed.

Lemma b32_length p : length (b32 p) = 32%nat.
Proof. destruct p as [p Hp]. exact (bool_decide_eq_true_1 _ Hp). Qed.

#[export] Instance model_x25519 : X25519Laws.
Proof.
  split.
  - intros s. reflexivity.
  - intros s. apply length_replicate.
  - intros p. apply b32_eq, b32_of_ok, b32_length.
  - apply b32_of_ok.
  - apply b32_length.
  - intros s p. cbn. rewrite length_fmap. apply b32_length.
  - intros a b. cbn [x_dh x_public model_primitives].
    rewrite !b32_of_ok by apply length_replicate. rewrite !fmap_replicate. by rewrite addb_comm.
Qed.

#[export] Instance model_aead : AeadLaws.
Proof.
  split; intros k n a m; cbn [xchacha_encrypt xchacha_decrypt model_primitives].
  - intros c [= <-]. rewrite length_app, length_spread, Nat.add_sub, take_app_length.
    by rewrite bool_decide_true.
  - intros c. case_bool_decide as E; [|done]. intros [= Hm]. rewrite Hm in E. by rewrite <-E.
  - intros c [= <-]. rewrite blen_app. unfold blen at 2. by rewrite length_spread.
  - intros _. eauto.
Qed.

#[export] Instance model_mlkem : MlkemLaws.
Proof.
  split; try (intros; cbn [dk_to_bytes ek_to_bytes ek_encapsulate model_primitives fst];
              by rewrite length_replicate).
  - done.
  - done.
  - intros s dk ek r ct ss. cbn [mlkem_generate ek_encapsulate dk_decapsulate model_primitives].
    intros [= <- <-] [= <- <-]. done.
Qed.

#[export] Instance model_mldsa : MldsaLaws.
Proof.
  split.
  - done.
  - intros. apply length_replicate.
  - done.
  - intros. apply length_replicate.
  - intros [[x y] z]. done.
  - intros s. cbn [sig_encode model_primitives length]. by rewrite length_replicate.
  - intros sk m r. cbn [vk_verify sk_verifying_key sk_sign_randomized model_primitives].
    by rewrite bool_decide_true.
Qed.

#[export] Instance model_base64 : Base64Laws.
Proof.
  split. intros b. cbn [b64url_decode b64url_encode model_primitives].
  by rewrite String.list_byte_of_string_of_list_byte.
Qed.
