(* ===== verification/Ratchet.v ===== *)
(** * The Double Ratchet: [buh-crypto/src/ratchet/]

    [chain.rs], [header.rs] and the state machine of [mod.rs].  The methods
    taking [&mut self] are [ST RatchetState] actions, so that the state left
    behind by a failing call is part of the model.  Counters are [u32]; [+=]
    on them wraps, as it does in a release build. *)

From S2P Require Import Prelude.
From S2P Require Import Wire.
From S2P Require Import Keys.

(** The newtypes of [chain.rs], all [[u8; 32]]. *)
Abbreviation RootKey := (list Init.Byte.byte) (only parsing).
Abbreviation ChainKey := (list Init.Byte.byte) (only parsing).
Abbreviation MessageKey := (list Init.Byte.byte) (only parsing).

Section Ratchet.
Context `{PF : Platform} `{PR : Primitives}.

(** ** [chain.rs] *)

Definition RK_INFO : bytes := bstr "buh-ratchet-rk-v1".
Definition CK_NEXT_INFO : bytes := bstr "buh-ratchet-ck-v1".
Definition MK_INFO : bytes := bstr "buh-ratchet-mk-v1".
Definition MSG_KEYS_INFO : bytes := bstr "buh-ratchet-msg-keys-v1".

Definition kdf_rk (rk : RootKey) (dh_out : bytes) : RootKey * ChainKey :=
  let prk := hkdf_extract (Some rk) dh_out in
  let out := hkdf_expand prk RK_INFO 64 in
  (take 32 out, drop 32 out).

Definition kdf_ck (ck : ChainKey) : ChainKey * MessageKey :=
  let next := hkdf_expand ck CK_NEXT_INFO 32 in
  let mk := hkdf_expand ck MK_INFO 32 in
  (next, mk).

Definition message_keys (mk : MessageKey) : bytes * bytes :=
  let out := hkdf_expand mk MSG_KEYS_INFO (KEY_LEN + NONCE_LEN) in
  (take KEY_LEN out, drop KEY_LEN out).

(** ** [header.rs] *)

Record Header := { h_dh : X25519PublicKey; h_pn : Z; h_n : Z }.

(** The three header fields, in the order both [to_aad] and [encrypt] emit. *)
Definition header_frame (h : Header) : Frame :=
  with_field
    (with_field
       (with_field Frame_new TAG_RATCHET_DH (X25519PublicKey_to_bytes (h_dh h)))
       TAG_RATCHET_PN (be_bytes 4 (h_pn h)))
    TAG_RATCHET_N (be_bytes 4 (h_n h)).

Definition to_aad (h : Header) : bytes := encode (header_frame h).

Definition read_u32 (bs : bytes) : Result CryptoError Z :=
  let? arr := try_array 4 bs (malformed "ratchet counter") in
  Ok (from_be arr).

(** ** [mod.rs] *)

Definition MAX_SKIP : Z := 1000.
Definition MAX_STORED_SKIPPED : Z := 2000.
Definition STATE_VERSION : byte := Byte.x01.

Record RatchetState := {
  dhs : X25519SecretKey;
  dhs_pub : X25519PublicKey;
  dhr : option X25519PublicKey;
  rk : RootKey;
  cks : option ChainKey;
  ckr : option ChainKey;
  ns : Z;
  nr : Z;
  pn : Z;
  skipped : gmap (bytes * Z) bytes;
}.

(** [rnd] is what [getrandom::fill] delivers for the ratchet key. *)
Definition initiator (root : bytes) (remote : X25519PublicKey) (rnd : bytes) : RatchetState :=
  let dhs := X25519SecretKey_generate rnd in
  let dhs_pub := public_key dhs in
  let '(rk, cks) := kdf_rk root (diffie_hellman dhs remote) in
  {| dhs := dhs; dhs_pub := dhs_pub; dhr := Some remote; rk := rk; cks := Some cks;
     ckr := None; ns := 0; nr := 0; pn := 0; skipped := ∅ |}.

Definition responder (root : bytes) (ratchet_key : X25519SecretKey) : RatchetState :=
  {| dhs := ratchet_key; dhs_pub := public_key ratchet_key; dhr := None; rk := root;
     cks := None; ckr := None; ns := 0; nr := 0; pn := 0; skipped := ∅ |}.

Definition encrypt (plaintext : bytes) : ST RatchetState CryptoError bytes :=
  let! st := st_get in
  let! ck := st_lift (ok_or (cks st) (Ratchet "no sending chain yet")) in
  let '(next_ck, mk) := kdf_ck ck in
  let header := {| h_dh := dhs_pub st; h_pn := pn st; h_n := ns st |} in
  let! _ := st_put {| dhs := dhs st; dhs_pub := dhs_pub st; dhr := dhr st; rk := rk st;
                      cks := Some next_ck; ckr := ckr st; ns := wrap32 (ns st + 1);
                      nr := nr st; pn := pn st; skipped := skipped st |} in
  let aad := to_aad header in
  let '(key, nonce) := message_keys mk in
  let! ciphertext := st_lift (seal key nonce aad plaintext) in
  st_ret (encode (with_field (header_frame header) TAG_CIPHERTEXT ciphertext)).

(** The free function [open] at the end of [mod.rs]. *)
Definition open_mk (mk : MessageKey) (aad ciphertext : bytes) : Result CryptoError bytes :=
  let '(key, nonce) := message_keys mk in
  open key nonce aad ciphertext.

(** The [while self.nr < until] loop.  [ck] is the content of [self.ckr], which
    is [Some] on entry and rewritten in each turn; one unit of fuel per key to
    skip is exactly enough ([skip_loop_ok]). *)
Fixpoint skip_loop (fuel : nat) (dhr_b : bytes) (ck : ChainKey) (until : Z) :
    ST RatchetState CryptoError unit := λ st,
  match fuel with
  | O => (Ok tt, st)
  | S fuel' =>
      if nr st <? until then
        let '(next_ck, mk) := kdf_ck ck in
        let st1 := {| dhs := dhs st; dhs_pub := dhs_pub st; dhr := dhr st; rk := rk st;
                      cks := cks st; ckr := Some next_ck; ns := ns st; nr := nr st;
                      pn := pn st; skipped := skipped st |} in
        if MAX_STORED_SKIPPED <=? Z.of_nat (size (skipped st)) then
          (Err (Ratchet "skipped-key store full"), st1)
        else
          skip_loop fuel' dhr_b next_ck until
            {| dhs := dhs st; dhs_pub := dhs_pub st; dhr := dhr st; rk := rk st;
               cks := cks st; ckr := Some next_ck; ns := ns st; nr := nr st + 1;
               pn := pn st; skipped := <[(dhr_b, nr st) := mk]> (skipped st) |}
      else (Ok tt, st)
  end.

Definition skip_message_keys (until : Z) : ST RatchetState CryptoError unit := λ st,
  match dhr st with
  | None => (Ok tt, st)
  | Some r =>
      match ckr st with
      | None => (Ok tt, st)
      | Some ck =>
          if Z.min (nr st + MAX_SKIP) u32_max <? until then
            (Err (Ratchet "too many skipped messages"), st)
          else
            skip_loop (Z.to_nat (until - nr st)) (X25519PublicKey_to_bytes r) ck until st
      end
  end.

Definition dh_ratchet (header : Header) (rnd : bytes) (st : RatchetState) : RatchetState :=
  let '(rk1, ckr1) := kdf_rk (rk st) (diffie_hellman (dhs st) (h_dh header)) in
  let dhs1 := X25519SecretKey_generate rnd in
  let '(rk2, cks2) := kdf_rk rk1 (diffie_hellman dhs1 (h_dh header)) in
  {| dhs := dhs1; dhs_pub := public_key dhs1; dhr := Some (h_dh header); rk := rk2;
     cks := Some cks2; ckr := Some ckr1; ns := 0; nr := 0; pn := ns st;
     skipped := skipped st |}.

(** The first lines of [decrypt]: decode the frame, then header and ciphertext. *)
Definition parse_message (message : bytes) : Result CryptoError (Header * bytes) :=
  let? frame := wire_err (decode message) in
  let? dh_b := wire_err (require frame TAG_RATCHET_DH) in
  let? dh := X25519PublicKey_from_slice dh_b in
  let? pn_b := wire_err (require frame TAG_RATCHET_PN) in
  let? pn := read_u32 pn_b in
  let? n_b := wire_err (require frame TAG_RATCHET_N) in
  let? n := read_u32 n_b in
  let? ciphertext := wire_err (require frame TAG_CIPHERTEXT) in
  Ok ({| h_dh := dh; h_pn := pn; h_n := n |}, ciphertext).

(** Step 2 of [decrypt]. *)
Definition turn_if_new (header : Header) (rnd : bytes) : ST RatchetState CryptoError unit :=
  let! st := st_get in
  if bool_decide ((X25519PublicKey_to_bytes <$> dhr st)
                  = Some (X25519PublicKey_to_bytes (h_dh header)))
  then st_ret tt
  else
    let! _ := skip_message_keys (h_pn header) in
    let! st := st_get in
    st_put (dh_ratchet header rnd st).

(** Step 4 of [decrypt]. *)
Definition open_next (aad ciphertext : bytes) : ST RatchetState CryptoError bytes :=
  let! st := st_get in
  let! ck := st_lift (ok_or (ckr st) (Ratchet "no receiving chain")) in
  let '(next_ck, mk) := kdf_ck ck in
  let! _ := st_put {| dhs := dhs st; dhs_pub := dhs_pub st; dhr := dhr st; rk := rk st;
                      cks := cks st; ckr := Some next_ck; ns := ns st;
                      nr := wrap32 (nr st + 1); pn := pn st; skipped := skipped st |} in
  st_lift (open_mk mk aad ciphertext).

Definition decrypt (rnd message : bytes) : ST RatchetState CryptoError bytes :=
  let! (header, ciphertext) := st_lift (parse_message message) in
  let aad := to_aad header in
  let! st := st_get in
  let key := (X25519PublicKey_to_bytes (h_dh header), h_n header) in
  match skipped st !! key with
  | Some mk =>
      let! _ := st_put {| dhs := dhs st; dhs_pub := dhs_pub st; dhr := dhr st; rk := rk st;
                          cks := cks st; ckr := ckr st; ns := ns st; nr := nr st;
                          pn := pn st; skipped := delete key (skipped st) |} in
      st_lift (open_mk mk aad ciphertext)
  | None =>
      let! _ := turn_if_new header rnd in
      let! _ := skip_message_keys (h_n header) in
      open_next aad ciphertext
  end.

(** *** Persistence *)

Definition bytes_cmp := fix bytes_cmp (a b : bytes) : comparison :=
  match a, b with
  | [], [] => Eq
  | [], _ => Lt
  | _, [] => Gt
  | x :: a, y :: b =>
      match Z.compare (u8 x) (u8 y) with Eq => bytes_cmp a b | c => c end
  end.

(** The order of [sort_unstable_by_key(|((dh, n), _)| (dh, n))]. *)
Definition entry_le (e f : (bytes * Z) * bytes) : Prop :=
  match bytes_cmp e.1.1 f.1.1 with Lt => True | Gt => False | Eq => e.1.2 <= f.1.2 end.

#[global] Instance entry_le_dec e f : Decision (entry_le e f).
Proof. unfold entry_le. destruct (bytes_cmp e.1.1 f.1.1); apply _. Defined.

Definition entry_bytes (e : (bytes * Z) * bytes) : bytes :=
  e.1.1 ++ be_bytes 4 e.1.2 ++ e.2.

Definition opt_bytes (o : option bytes) : bytes := default [] o.

(** [entries] is the [HashMap]'s iteration, in whatever order it comes. *)
Definition to_bytes_from (entries : list ((bytes * Z) * bytes)) (st : RatchetState) : bytes :=
  let out := [STATE_VERSION] ++ X25519SecretKey_to_bytes (dhs st) in
  let flags := 0 in
  let flags := if bool_decide (is_Some (dhr st)) then Z.lor flags 1 else flags in
  let flags := if bool_decide (is_Some (cks st)) then Z.lor flags 2 else flags in
  let flags := if bool_decide (is_Some (ckr st)) then Z.lor flags 4 else flags in
  let out := out ++ [byte_of flags] in
  let out := out ++ opt_bytes (X25519PublicKey_to_bytes <$> dhr st) in
  let out := out ++ rk st in
  let out := out ++ opt_bytes (cks st) in
  let out := out ++ opt_bytes (ckr st) in
  let out := out ++ be_bytes 4 (ns st) ++ be_bytes 4 (nr st) ++ be_bytes 4 (pn st) in
  let out := write_varint out (blen entries) in
  foldl (λ out e, out ++ entry_bytes e) out (merge_sort entry_le entries).

Definition to_bytes (st : RatchetState) : bytes :=
  to_bytes_from (map_to_list (skipped st)) st.

Definition rd {A} (m : ST Reader WireError A) : ST Reader CryptoError A := st_map_err Wire m.

(** [read_bytes(32)?.try_into().expect(..)]: the conversion cannot fail, since
    [read_bytes] returns exactly 32 bytes. *)
Definition read_32 : ST Reader CryptoError bytes := rd (read_bytes 32).

Definition read_u32_from : ST Reader CryptoError Z :=
  let! bs := rd (read_bytes 4) in
  st_lift (read_u32 bs).

(** [if flags & bit != 0 { Some(read_32(r)?) } else { None }] *)
Definition read_opt_32 (flags bit : Z) : ST Reader CryptoError (option bytes) :=
  if negb (Z.land flags bit =? 0) then
    let! bs := read_32 in st_ret (Some bs)
  else st_ret None.

Fixpoint read_entries (count : nat) (acc : gmap (bytes * Z) bytes) :
    ST Reader CryptoError (gmap (bytes * Z) bytes) :=
  match count with
  | O => st_ret acc
  | S count' =>
      let! dh := read_32 in
      let! n := read_u32_from in
      let! mk := read_32 in
      read_entries count' (<[(dh, n) := mk]> acc)
  end.

Definition from_bytes_st : ST Reader CryptoError RatchetState :=
  let! v := rd read_u8 in
  if negb (bool_decide (v = STATE_VERSION)) then st_err (malformed "ratchet state version")
  else
    let! sb := read_32 in
    let dhs := X25519SecretKey_from_bytes sb in
    let dhs_pub := public_key dhs in
    let! fb := rd read_u8 in
    let flags := u8 fb in
    let! dhr_b := read_opt_32 flags 1 in
    let! dhr :=
      match dhr_b with
      | Some b => let! p := st_lift (X25519PublicKey_from_slice b) in st_ret (Some p)
      | None => st_ret None
      end in
    let! rk := read_32 in
    let! cks := read_opt_32 flags 2 in
    let! ckr := read_opt_32 flags 4 in
    let! ns := read_u32_from in
    let! nr := read_u32_from in
    let! pn := read_u32_from in
    let! count := rd read_varint in
    if MAX_STORED_SKIPPED <? count then st_err (malformed "ratchet skipped-key count")
    else
      let! skipped := read_entries (Z.to_nat count) ∅ in
      st_ret {| dhs := dhs; dhs_pub := dhs_pub; dhr := dhr; rk := rk; cks := cks; ckr := ckr;
                ns := ns; nr := nr; pn := pn; skipped := skipped |}.

Definition from_bytes (b : bytes) : Result CryptoError RatchetState :=
  (from_bytes_st (Reader_new b)).1.

End Ratchet.
