(* ===== verification/RatchetPersist.v ===== *)
(** * Persistence of a ratchet session

    The invariant [ratchet_wf] of a session, and the round trip of
    [RatchetState::to_bytes] and [RatchetState::from_bytes]. *)

From S2P Require Import Prelude.
From S2P Require Import Wire.
From S2P Require Import Keys.
From S2P Require Import Ratchet.

Section Wf.
Context `{PR : Primitives}.

Definition key32 (o : option bytes) : Prop := ∀ k, o = Some k → length k = 32%nat.

Definition entry_ok (k : bytes * Z) (mk : bytes) : Prop :=
  length k.1 = 32%nat ∧ is_u32 k.2 ∧ length mk = 32%nat.

(** What the Rust types and the code together guarantee of a session: the
    public key matches the secret, keys have 32 bytes, counters are [u32], the
    store of skipped keys is bounded and its entries are well formed. *)
Record ratchet_wf (st : RatchetState) : Prop := {
  wf_pub : dhs_pub st = public_key (dhs st);
  wf_rk : length (rk st) = 32%nat;
  wf_cks : key32 (cks st);
  wf_ckr : key32 (ckr st);
  wf_ns : is_u32 (ns st);
  wf_nr : is_u32 (nr st);
  wf_pn : is_u32 (pn st);
  wf_size : Z.of_nat (size (skipped st)) <= MAX_STORED_SKIPPED;
  wf_entries : map_Forall entry_ok (skipped st);
}.
End Wf.

Section Persist.
Context `{PF : Platform} `{PR : Primitives} `{LX : !X25519Laws}.

(** ** Reading the fields back *)

Lemma rd_ok {A} (m : ST Reader WireError A) r a r' :
  m r = (Ok a, r') → rd m r = (Ok a, r').
Proof. unfold rd, st_map_err. by intros ->. Qed.

Lemma read_32_reads r bs tl :
  reads r bs tl → vec_ok (buf r) → length bs = 32%nat →
  read_32 r = (Ok bs, advance r (blen bs)).
Proof.
  intros Hr Hv Hl. apply rd_ok. replace 32 with (blen bs) by (unfold blen; by rewrite Hl).
  by apply read_bytes_reads with tl.
Qed.

Lemma read_u32_from_reads r n tl :
  reads r (be_bytes 4 n) tl → vec_ok (buf r) → is_u32 n →
  read_u32_from r = (Ok n, advance r (blen (be_bytes 4 n))).
Proof.
  intros Hr Hv Hn. unfold read_u32_from, st_bind.
  rewrite (rd_ok (read_bytes 4) r (be_bytes 4 n) (advance r (blen (be_bytes 4 n)))).
  - unfold st_lift, read_u32. rewrite try_array_ok by apply length_be_bytes. cbn [rbind].
    rewrite from_be_be_bytes_id; [done|]. unfold is_u32, u32_max in Hn. cbn. lia.
  - replace 4 with (blen (be_bytes 4 n)) by by rewrite blen_be_bytes.
    by apply read_bytes_reads with tl.
Qed.

Lemma read_opt_32_reads flags bit r o tl :
  reads r (opt_bytes o) tl → vec_ok (buf r) → key32 o →
  (Z.land flags bit =? 0) = negb (bool_decide (is_Some o)) →
  read_opt_32 flags bit r = (Ok o, advance r (blen (opt_bytes o))).
Proof.
  intros Hr Hv Hk Hf. unfold read_opt_32. rewrite Hf, negb_involutive.
  destruct o as [k|]; cbn [opt_bytes default] in *.
  - rewrite bool_decide_true by eauto. unfold st_bind.
    by rewrite (read_32_reads _ _ _ Hr Hv (Hk _ eq_refl)).
  - rewrite bool_decide_false by (by intros [? [=]]). unfold st_ret, advance. cbn.
    by rewrite Z.add_0_r, reader_eta.
Qed.

(** One read of a value in front of the reader described by [Hr]. *)
Ltac read_step lem Hr side :=
  rewrite (lem _ _ _ (proj1 (reads_app _ _ _ _) Hr)) by (exact side || done);
  apply reads_advance in Hr.

Lemma read_entries_reads l acc r tl :
  reads r (concat (entry_bytes <$> l)) tl → vec_ok (buf r) →
  Forall (λ e, entry_ok e.1 e.2) l →
  ∃ r', read_entries (length l) acc r = (Ok (foldl (λ m e, <[e.1 := e.2]> m) acc l), r').
Proof.
  revert acc r. induction l as [|[[dh n] mk] l IH]; intros acc r Hr Hv Hl.
  { eexists. done. }
  apply Forall_cons in Hl as [(Hdh & Hn & Hmk) Hl]. cbn in Hdh, Hn, Hmk.
  rewrite fmap_cons in Hr. cbn [concat] in Hr. unfold entry_bytes at 1 in Hr. cbn in Hr.
  rewrite <-!app_assoc in Hr. cbn [length read_entries]. unfold st_bind.
  read_step read_32_reads Hr Hdh. read_step read_u32_from_reads Hr Hn.
  read_step read_32_reads Hr Hmk. by apply IH.
Qed.

(** Re-inserting the entries of a map, in any order, rebuilds the map. *)
Lemma foldl_insert_union (l : list ((bytes * Z) * bytes)) (acc : gmap (bytes * Z) bytes) :
  NoDup l.*1 → foldl (λ m e, <[e.1 := e.2]> m) acc l = list_to_map l ∪ acc.
Proof.
  revert acc. induction l as [|[k v] l IH]; intros acc Hnd; cbn [foldl].
  { cbn. by rewrite (left_id_L ∅ (∪)). }
  rewrite fmap_cons in Hnd. apply NoDup_cons in Hnd as [Hk Hnd].
  rewrite IH by done. cbn [fst snd list_to_map foldr uncurry].
  rewrite <-insert_union_l. rewrite <-insert_union_r; [done|].
  by apply not_elem_of_list_to_map_1.
Qed.

Lemma foldl_insert_sorted (m : gmap (bytes * Z) bytes) :
  foldl (λ m e, <[e.1 := e.2]> m) ∅ (merge_sort entry_le (map_to_list m)) = m.
Proof.
  pose proof (merge_sort_Permutation entry_le (map_to_list m)) as Hp.
  assert (NoDup (merge_sort entry_le (map_to_list m)).*1) as Hnd.
  { rewrite Hp. apply NoDup_fst_map_to_list. }
  rewrite foldl_insert_union by done. rewrite (right_id_L ∅ (∪)).
  rewrite (list_to_map_proper _ _ Hnd Hp). apply list_to_map_to_list.
Qed.

(** ** The blob as a concatenation *)

Definition state_flags (st : RatchetState) : Z :=
  let flags := if bool_decide (is_Some (dhr st)) then 1 else 0 in
  let flags := if bool_decide (is_Some (cks st)) then Z.lor flags 2 else flags in
  if bool_decide (is_Some (ckr st)) then Z.lor flags 4 else flags.

Lemma foldl_app_concat (l : list ((bytes * Z) * bytes)) out :
  foldl (λ out e, out ++ entry_bytes e) out l = out ++ concat (entry_bytes <$> l).
Proof.
  revert out. induction l as [|e l IH]; intros out; cbn [foldl]; [by rewrite app_nil_r|].
  by rewrite IH, fmap_cons, <-app_assoc.
Qed.

Lemma to_bytes_eq st :
  to_bytes st =
  [STATE_VERSION] ++ X25519SecretKey_to_bytes (dhs st) ++ [byte_of (state_flags st)]
  ++ opt_bytes (X25519PublicKey_to_bytes <$> dhr st) ++ rk st
  ++ opt_bytes (cks st) ++ opt_bytes (ckr st)
  ++ be_bytes 4 (ns st) ++ be_bytes 4 (nr st) ++ be_bytes 4 (pn st)
  ++ write_varint [] (Z.of_nat (size (skipped st)))
  ++ concat (entry_bytes <$> merge_sort entry_le (map_to_list (skipped st))).
Proof.
  unfold to_bytes, to_bytes_from. rewrite foldl_app_concat, write_varint_app.
  unfold blen. rewrite length_map_to_list. rewrite <-!app_assoc. cbn [app]. done.
Qed.

Lemma state_flags_bits st :
  let f := u8 (byte_of (state_flags st)) in
  (Z.land f 1 =? 0) = negb (bool_decide (is_Some (X25519PublicKey_to_bytes <$> dhr st))) ∧
  (Z.land f 2 =? 0) = negb (bool_decide (is_Some (cks st))) ∧
  (Z.land f 4 =? 0) = negb (bool_decide (is_Some (ckr st))).
Proof.
  unfold state_flags. destruct (dhr st), (cks st), (ckr st); repeat split; reflexivity.
Qed.

Lemma length_concat_entries (m : gmap (bytes * Z) bytes) l :
  Forall (λ e, entry_ok e.1 e.2) l → length (concat (entry_bytes <$> l)) = (68 * length l)%nat.
Proof.
  induction 1 as [|[[dh n] mk] l (Hdh & _ & Hmk) _ IH]; [done|].
  rewrite fmap_cons. cbn [concat length]. rewrite length_app, IH. unfold entry_bytes.
  rewrite !length_app, length_be_bytes. cbn in *. lia.
Qed.

Lemma sorted_entries_ok st :
  ratchet_wf st →
  Forall (λ e, entry_ok e.1 e.2) (merge_sort entry_le (map_to_list (skipped st))).
Proof.
  intros Hwf. rewrite merge_sort_Permutation. apply Forall_forall. intros [k mk] He.
  apply elem_of_map_to_list in He. by apply (wf_entries _ Hwf).
Qed.

Lemma opt_bytes_le o : key32 o → (length (opt_bytes o) <= 32)%nat.
Proof. destruct o as [k|]; cbn; [|lia]. intros H. by rewrite (H k). Qed.

Lemma dhr_key32 st : key32 (X25519PublicKey_to_bytes <$> dhr st).
Proof. intros k. destruct (dhr st); cbn; [|done]. intros [= <-]. apply xp_length. Qed.

(** A session blob is at most 136 KiB, on any target. *)
Lemma to_bytes_vec_ok st : ratchet_wf st → vec_ok (to_bytes st).
Proof.
  intros Hwf. unfold vec_ok.
  assert (blen (to_bytes st) <= 2 ^ 31 - 1) as Hlen; cycle 1.
  { destruct usize_bits_ok as [-> | ->]; cbn in *; lia. }
  unfold blen. rewrite to_bytes_eq, !length_app.
  rewrite (length_concat_entries (skipped st)) by by apply sorted_entries_ok.
  rewrite (Permutation_length (merge_sort_Permutation _ _)), length_map_to_list.
  rewrite !length_be_bytes.
  pose proof (length_write_varint (Z.of_nat (size (skipped st)))).
  pose proof (opt_bytes_le _ (dhr_key32 st)).
  pose proof (opt_bytes_le _ (wf_cks _ Hwf)). pose proof (opt_bytes_le _ (wf_ckr _ Hwf)).
  pose proof (wf_size _ Hwf) as Hs. unfold MAX_STORED_SKIPPED in Hs.
  unfold X25519SecretKey_to_bytes. rewrite xs_length, (wf_rk _ Hwf). cbn [length]. lia.
Qed.

Lemma dhr_roundtrip st (r : Reader) :
  match X25519PublicKey_to_bytes <$> dhr st with
  | Some b => λ s, match st_lift (X25519PublicKey_from_slice b) s with
              | (Ok a, s') => st_ret (Some a) s' | (Err e, s') => (Err e, s') end
  | None => st_ret None
  end r = (Ok (dhr st), r).
Proof.
  destruct (dhr st); cbn [fmap option_fmap option_map]; [|done].
  unfold st_lift. by rewrite X25519PublicKey_roundtrip.
Qed.

Lemma from_bytes_to_bytes st : ratchet_wf st → from_bytes (to_bytes st) = Ok st.
Proof.
  intros Hwf. pose proof (to_bytes_vec_ok _ Hwf) as Hv.
  pose proof (state_flags_bits st) as (Hf1 & Hf2 & Hf4).
  assert (vec_ok (buf (Reader_new (to_bytes st)))) as Hb by exact Hv.
  pose proof (reads_new (to_bytes st)) as Hr. rewrite to_bytes_eq in Hr at 2.
  unfold from_bytes. revert Hb Hr. generalize (Reader_new (to_bytes st)) as r.
  intros r Hb Hr. unfold from_bytes_st, st_bind.
  rewrite (rd_ok _ _ _ _ (read_u8_reads _ _ _ _ Hr)). apply reads_advance1 in Hr.
  rewrite bool_decide_true by done. cbn [negb].
  read_step read_32_reads Hr (xs_length (dhs st)).
  rewrite (rd_ok _ _ _ _ (read_u8_reads _ _ _ _ Hr)). apply reads_advance1 in Hr.
  rewrite (read_opt_32_reads _ _ _ _ _ (proj1 (reads_app _ _ _ _) Hr) Hb (dhr_key32 st) Hf1).
  apply reads_advance in Hr. rewrite dhr_roundtrip.
  read_step read_32_reads Hr (wf_rk _ Hwf).
  rewrite (read_opt_32_reads _ _ _ _ _ (proj1 (reads_app _ _ _ _) Hr) Hb (wf_cks _ Hwf) Hf2).
  apply reads_advance in Hr.
  rewrite (read_opt_32_reads _ _ _ _ _ (proj1 (reads_app _ _ _ _) Hr) Hb (wf_ckr _ Hwf) Hf4).
  apply reads_advance in Hr.
  read_step read_u32_from_reads Hr (wf_ns _ Hwf). read_step read_u32_from_reads Hr (wf_nr _ Hwf).
  read_step read_u32_from_reads Hr (wf_pn _ Hwf).
  assert (is_u64 (Z.of_nat (size (skipped st)))) as Hu.
  { pose proof (wf_size _ Hwf). unfold MAX_STORED_SKIPPED, is_u64, u64_max in *. lia. }
  rewrite (rd_ok _ _ _ _ (read_varint_reads _ _ _ Hu (proj1 (reads_app _ _ _ _) Hr))).
  apply reads_advance in Hr.
  rewrite (proj2 (Z.ltb_ge _ _)) by apply wf_size, Hwf. rewrite Nat2Z.id.
  destruct (read_entries_reads _ ∅ _ _ Hr Hb (sorted_entries_ok _ Hwf)) as [r' Hentries].
  rewrite (Permutation_length (merge_sort_Permutation _ _)), length_map_to_list in Hentries.
  rewrite Hentries.
  rewrite foldl_insert_sorted. cbn. f_equal.
  unfold X25519SecretKey_from_bytes, X25519SecretKey_to_bytes. rewrite xs_from_to.
  rewrite <-(wf_pub _ Hwf). by destruct st.
Qed.

(** ** The encoding is canonical *)

Lemma bytes_cmp_refl a : bytes_cmp a a = Eq.
Proof. induction a as [|x a IH]; cbn; [done|]. by rewrite Z.compare_refl. Qed.

Lemma bytes_cmp_eq a b : bytes_cmp a b = Eq → a = b.
Proof.
  revert b. induction a as [|x a IH]; intros [|y b]; cbn; [done..|].
  destruct (Z.compare_spec (u8 x) (u8 y)) as [E|E|E]; [|done..].
  intros H. f_equal; [by apply u8_inj|by apply IH].
Qed.

Lemma bytes_cmp_antisym a b : bytes_cmp b a = CompOpp (bytes_cmp a b).
Proof.
  revert b. induction a as [|x a IH]; intros [|y b]; cbn; [done..|].
  rewrite (Z.compare_antisym (u8 x)). destruct (u8 x ?= u8 y); cbn; [apply IH|done..].
Qed.

Lemma bytes_cmp_lt_trans a b c : bytes_cmp a b = Lt → bytes_cmp b c = Lt → bytes_cmp a c = Lt.
Proof.
  revert b c. induction a as [|x a IH]; intros [|y b] [|z c]; cbn; [done..|].
  destruct (Z.compare_spec (u8 x) (u8 y)) as [E|E|E], (Z.compare_spec (u8 y) (u8 z)) as [F|F|F];
    try done; intros H1 H2.
  - rewrite E, F, Z.compare_refl. by eapply IH.
  - by rewrite (proj2 (Z.compare_lt_iff _ _)) by lia.
  - by rewrite (proj2 (Z.compare_lt_iff _ _)) by lia.
  - by rewrite (proj2 (Z.compare_lt_iff _ _)) by lia.
Qed.

#[local] Instance entry_le_total : Total entry_le.
Proof.
  intros e f. unfold entry_le. rewrite (bytes_cmp_antisym e.1.1 f.1.1).
  destruct (bytes_cmp e.1.1 f.1.1); cbn; [lia|by left|by right].
Qed.

#[local] Instance entry_le_trans : Transitive entry_le.
Proof.
  intros e f g. unfold entry_le.
  destruct (bytes_cmp e.1.1 f.1.1) eqn:E1, (bytes_cmp f.1.1 g.1.1) eqn:E2; try done.
  - apply bytes_cmp_eq in E1 as ->. rewrite E2. lia.
  - apply bytes_cmp_eq in E1 as ->. by rewrite E2.
  - apply bytes_cmp_eq in E2 as <-. by rewrite E1.
  - by rewrite (bytes_cmp_lt_trans _ _ _ E1 E2).
Qed.

Lemma entry_le_antisym e f : entry_le e f → entry_le f e → e.1 = f.1.
Proof.
  unfold entry_le. rewrite (bytes_cmp_antisym e.1.1 f.1.1).
  destruct (bytes_cmp e.1.1 f.1.1) eqn:E; cbn; [|done..].
  apply bytes_cmp_eq in E. destruct e as [[? ?] ?], f as [[? ?] ?]; cbn in *.
  intros. f_equal; [done|lia].
Qed.

(** Sorting removes the dependence on the iteration order of the [HashMap]. *)
Lemma merge_sort_canonical (m : gmap (bytes * Z) bytes) l :
  l ≡ₚ map_to_list m → merge_sort entry_le l = merge_sort entry_le (map_to_list m).
Proof.
  intros Hp. apply (StronglySorted_unique_strong entry_le).
  - intros [k v] [k' v'] H1 H2 H3 H4. pose proof (entry_le_antisym _ _ H3 H4) as Hk. cbn in Hk.
    subst k'. f_equal.
    rewrite (merge_sort_Permutation entry_le l), Hp in H1. rewrite merge_sort_Permutation in H2.
    apply elem_of_map_to_list in H1. apply elem_of_map_to_list in H2. congruence.
  - apply StronglySorted_merge_sort; apply _.
  - apply StronglySorted_merge_sort; apply _.
  - by rewrite !merge_sort_Permutation.
Qed.
End Persist.

(** ** What [from_bytes] accepts is well formed

    [post m P]: run from a reader within its buffer, a successful [m] returns
    a value satisfying [P] and leaves the reader within its buffer. *)

Definition post {E A} (m : ST Reader E A) (P : A → Prop) : Prop :=
  ∀ r a r', reader_ok r → m r = (Ok a, r') → reader_ok r' ∧ P a.

Lemma post_bind {E A B} (m : ST Reader E A) (k : A → ST Reader E B) P Q :
  post m P → (∀ a, P a → post (k a) Q) → post (st_bind m k) Q.
Proof.
  intros Hm Hk r b r' Hr H. apply st_bind_inv in H as [(a & r1 & H1 & H2)|(e & _ & [=])].
  destruct (Hm _ _ _ Hr H1) as [Hr1 Ha]. by eapply Hk.
Qed.

Lemma post_ret {E A} (a : A) (P : A → Prop) : P a → post (st_ret (E := E) a) P.
Proof. intros HP r a' r' Hr [= <- <-]. done. Qed.

Lemma post_err {E A} (e : E) (P : A → Prop) : post (st_err e) P.
Proof. by intros r a r' Hr [=]. Qed.

Lemma post_lift {E A} (m : Result E A) (P : A → Prop) :
  (∀ a, m = Ok a → P a) → post (st_lift m) P.
Proof. intros HP r a r' Hr [= Hm <-]. auto. Qed.

Lemma post_rd {A} (m : ST Reader WireError A) P : post m P → post (rd m) P.
Proof.
  intros Hm r a r' Hr. unfold rd, st_map_err. destruct (m r) as [[b|e] r1] eqn:E; [|by intros [=]].
  intros [= <- <-]. by eapply Hm.
Qed.

Section Accepts.
Context `{PF : Platform} `{PR : Primitives} `{LX : !X25519Laws}.

Lemma post_read_bytes n : 0 <= n → post (read_bytes n) (λ bs, blen bs = n).
Proof.
  intros Hn r a r' Hr H. apply read_bytes_moved in H as [Hm Ha]; [|done..].
  split; [by eapply moved_ok|]. by apply Ha.
Qed.

Lemma post_read_u8 : post read_u8 (λ _, True).
Proof. intros r a r' Hr H. apply read_u8_moved in H as [Hm _]; [|done]. eauto using moved_ok. Qed.

Lemma post_read_varint : post read_varint is_u64.
Proof.
  intros r a r' Hr H. apply read_varint_moved in H as (Hm & _ & Ha); [|done].
  split; [by eapply moved_ok|]. by apply Ha.
Qed.

Lemma post_read_32 : post read_32 (λ bs, length bs = 32%nat).
Proof.
  apply post_rd. intros r a r' Hr H. apply post_read_bytes in H as [? Hb]; [|lia|done].
  split; [done|]. unfold blen in Hb. lia.
Qed.

Lemma post_read_u32_from : post read_u32_from is_u32.
Proof.
  eapply post_bind; [apply post_rd, (post_read_bytes 4); lia|]. cbv beta. intros bs Hb.
  apply post_lift. unfold read_u32. intros n H. inv_ok.
  apply try_array_inv in Ha as [-> _]. subst n. pose proof (from_be_range bs) as Hr.
  rewrite Hb in Hr. unfold is_u32, u32_max. cbn in *. lia.
Qed.

Lemma post_read_opt_32 flags bit : post (read_opt_32 flags bit) key32.
Proof.
  unfold read_opt_32. destruct (negb _); [|by apply post_ret].
  eapply post_bind; [apply post_read_32|]. cbv beta. intros bs Hb. apply post_ret.
  by intros k [= <-].
Qed.

Lemma post_read_entries n acc :
  map_Forall entry_ok acc →
  post (read_entries n acc)
    (λ m, map_Forall entry_ok m ∧ (size m <= size acc + n)%nat).
Proof.
  revert acc. induction n as [|n IH]; intros acc Hacc; cbn [read_entries].
  { apply post_ret. split; [done|lia]. }
  eapply post_bind; [apply post_read_32|]. cbv beta. intros dh Hdh.
  eapply post_bind; [apply post_read_u32_from|]. cbv beta. intros i Hi.
  eapply post_bind; [apply post_read_32|]. cbv beta. intros mk Hmk.
  intros r m r' Hr H. eapply (IH (<[(dh, i) := mk]> acc)) in H as (Hr' & Hm & Hs); [| |done].
  - split_and!; [done..|]. rewrite map_size_insert in Hs. destruct (acc !! _); cbn in Hs; lia.
  - apply map_Forall_insert_2; [|done]. by split_and!.
Qed.

Lemma post_from_bytes_st : post from_bytes_st ratchet_wf.
Proof.
  unfold from_bytes_st.
  eapply post_bind; [apply post_rd, post_read_u8|]. intros v _. destruct (negb _); [apply post_err|].
  eapply post_bind; [apply post_read_32|]. cbv beta. intros sb _.
  eapply post_bind; [apply post_rd, post_read_u8|]. intros fb _.
  eapply post_bind; [apply post_read_opt_32|]. intros dhr_b _.
  apply (post_bind _ _ (λ _, True)).
  { destruct dhr_b; [|by apply post_ret]. apply (post_bind _ _ (λ _, True)); [by apply post_lift|].
    intros p _. by apply post_ret. }
  intros dhr _.
  eapply post_bind; [apply post_read_32|]. cbv beta. intros rk Hrk.
  eapply post_bind; [apply post_read_opt_32|]. intros cks Hcks.
  eapply post_bind; [apply post_read_opt_32|]. intros ckr Hckr.
  eapply post_bind; [apply post_read_u32_from|]. intros ns Hns.
  eapply post_bind; [apply post_read_u32_from|]. intros nr Hnr.
  eapply post_bind; [apply post_read_u32_from|]. intros pn Hpn.
  eapply post_bind; [apply post_rd, post_read_varint|]. intros count Hcount.
  destruct (Z.ltb_spec MAX_STORED_SKIPPED count); [apply post_err|].
  eapply post_bind; [apply post_read_entries, map_Forall_empty|]. cbv beta. intros sk [Hsk Hsz].
  apply post_ret. split; cbn [dhs dhs_pub Ratchet.rk Ratchet.cks Ratchet.ckr Ratchet.ns
    Ratchet.nr Ratchet.pn skipped]; try done.
  rewrite map_size_empty in Hsz. unfold is_u64 in Hcount. lia.
Qed.

Lemma from_bytes_wf b st : from_bytes b = Ok st → ratchet_wf st.
Proof.
  unfold from_bytes. intros H. destruct (from_bytes_st (Reader_new b)) as [[st'|] r'] eqn:E; [|done].
  injection H as ->. by apply (post_from_bytes_st _ _ _ (reader_ok_new b) E).
Qed.
End Accepts.

