(* ===== verification/RatchetSpec.v ===== *)
(** * Invariants of the ratchet

    Every operation, on success and on failure, preserves [ratchet_wf]; the
    states an endpoint can reach under arbitrary (also hostile) input keep the
    bounds on memory and work. *)

From S2P Require Import Prelude.
From S2P Require Import Wire.
From S2P Require Import Keys.
From S2P Require Import Ratchet.
From S2P Require Import RatchetPersist.
From S2P Require Import ModelCrypto.

(** ** The operations as equations

    [encrypt] and [open_next] either find no chain and change nothing, or
    advance the chain by one step whatever the AEAD answers. *)

Section Equations.
Context `{PF : Platform} `{PR : Primitives}.

Definition set_sending (ck : ChainKey) (st : RatchetState) : RatchetState :=
  {| dhs := dhs st; dhs_pub := dhs_pub st; dhr := dhr st; rk := rk st; cks := Some ck;
     ckr := ckr st; ns := wrap32 (ns st + 1); nr := nr st; pn := pn st; skipped := skipped st |}.

Definition set_receiving (ck : ChainKey) (n : Z) (sk : gmap (bytes * Z) bytes)
    (st : RatchetState) : RatchetState :=
  {| dhs := dhs st; dhs_pub := dhs_pub st; dhr := dhr st; rk := rk st; cks := cks st;
     ckr := Some ck; ns := ns st; nr := n; pn := pn st; skipped := sk |}.

Definition set_skipped (sk : gmap (bytes * Z) bytes) (st : RatchetState) : RatchetState :=
  {| dhs := dhs st; dhs_pub := dhs_pub st; dhr := dhr st; rk := rk st; cks := cks st;
     ckr := ckr st; ns := ns st; nr := nr st; pn := pn st; skipped := sk |}.

Definition next_header (st : RatchetState) : Header :=
  {| h_dh := dhs_pub st; h_pn := pn st; h_n := ns st |}.

(** The message [encrypt] emits under the message key [mk]. *)
Definition seal_message (mk : MessageKey) (h : Header) (pt : bytes) : Result CryptoError bytes :=
  let? ct := seal (message_keys mk).1 (message_keys mk).2 (to_aad h) pt in
  Ok (encode (with_field (header_frame h) TAG_CIPHERTEXT ct)).

Lemma encrypt_eq pt st :
  encrypt pt st =
  match cks st with
  | None => (Err (Ratchet "no sending chain yet"), st)
  | Some ck => (seal_message (kdf_ck ck).2 (next_header st) pt, set_sending (kdf_ck ck).1 st)
  end.
Proof.
  unfold encrypt, st_bind, st_get, st_lift, st_put, st_ret, seal_message, next_header.
  destruct (cks st) as [ck|]; [|done]. cbn [ok_or]. destruct (kdf_ck ck) as [next mk]. cbn.
  destruct (message_keys mk) as [key nonce]. cbn. by destruct (seal _ _ _ _).
Qed.

Lemma open_next_eq aad ct st :
  open_next aad ct st =
  match ckr st with
  | None => (Err (Ratchet "no receiving chain"), st)
  | Some ck => (open_mk (kdf_ck ck).2 aad ct,
                set_receiving (kdf_ck ck).1 (wrap32 (nr st + 1)) (skipped st) st)
  end.
Proof.
  unfold open_next, st_bind, st_get, st_lift, st_put.
  destruct (ckr st) as [ck|]; [|done]. cbn [ok_or]. by destruct (kdf_ck ck).
Qed.

Lemma turn_if_new_eq h rnd st :
  turn_if_new h rnd st =
  if bool_decide ((X25519PublicKey_to_bytes <$> dhr st) = Some (X25519PublicKey_to_bytes (h_dh h)))
  then (Ok tt, st)
  else match skip_message_keys (h_pn h) st with
       | (Ok _, st1) => (Ok tt, dh_ratchet h rnd st1)
       | (Err e, st1) => (Err e, st1)
       end.
Proof.
  unfold turn_if_new, st_bind, st_get, st_ret, st_put. case_bool_decide; [done|].
  by destruct (skip_message_keys _ _) as [[]].
Qed.

Lemma decrypt_eq rnd m st :
  decrypt rnd m st =
  match parse_message m with
  | Err e => (Err e, st)
  | Ok (h, ct) =>
      let key := (X25519PublicKey_to_bytes (h_dh h), h_n h) in
      match skipped st !! key with
      | Some mk => (open_mk mk (to_aad h) ct, set_skipped (delete key (skipped st)) st)
      | None =>
          match turn_if_new h rnd st with
          | (Err e, st1) => (Err e, st1)
          | (Ok _, st1) =>
              match skip_message_keys (h_n h) st1 with
              | (Err e, st2) => (Err e, st2)
              | (Ok _, st2) => open_next (to_aad h) ct st2
              end
          end
      end
  end.
Proof.
  unfold decrypt, st_bind, st_get, st_lift, st_put.
  destruct (parse_message m) as [[h ct]|]; [|done].
  destruct (skipped st !! _) as [mk|]; [done|].
  destruct (turn_if_new h rnd st) as [[] st1]; [|done].
  by destruct (skip_message_keys _ _) as [[]].
Qed.
End Equations.

Section Invariant.
Context `{PF : Platform} `{PR : Primitives} `{LX : !X25519Laws} `{LH : !HkdfLaws}.

Lemma kdf_ck_length ck :
  length (kdf_ck ck).1 = 32%nat ∧ length (kdf_ck ck).2 = 32%nat.
Proof. unfold kdf_ck. cbn [fst snd]. rewrite !expand_length by lia. done. Qed.

Lemma kdf_rk_length k dh :
  length (kdf_rk k dh).1 = 32%nat ∧ length (kdf_rk k dh).2 = 32%nat.
Proof.
  unfold kdf_rk. cbn [fst snd]. rewrite length_take, length_drop, expand_length by lia. lia.
Qed.

Lemma message_keys_length mk :
  length (message_keys mk).1 = KEY_LEN ∧ length (message_keys mk).2 = NONCE_LEN.
Proof.
  unfold message_keys, KEY_LEN, NONCE_LEN. cbn [fst snd].
  rewrite length_take, length_drop, expand_length by lia. lia.
Qed.

Lemma key32_some k : length k = 32%nat → key32 (Some k).
Proof. intros H k' [= <-]. done. Qed.

Lemma key32_none : key32 None.
Proof. by intros k. Qed.

Lemma is_u32_0 : is_u32 0.
Proof. unfold is_u32, u32_max. lia. Qed.

Lemma wrap32_u32 z : is_u32 (wrap32 z).
Proof.
  unfold is_u32, wrap32, u32_max. pose proof (Z.mod_pos_bound z (2 ^ 32) ltac:(lia)). lia.
Qed.

#[local] Hint Resolve key32_some key32_none is_u32_0 wrap32_u32 : buh.

Lemma size_delete_le (m : gmap (bytes * Z) bytes) k : (size (delete k m) <= size m)%nat.
Proof. rewrite map_size_delete. destruct (m !! k); cbn; lia. Qed.

Lemma initiator_wf root remote rnd : ratchet_wf (initiator root remote rnd).
Proof.
  unfold initiator.
  pose proof (kdf_rk_length root (diffie_hellman (X25519SecretKey_generate rnd) remote)) as [H1 H2].
  destruct (kdf_rk _ _) as [k c]. split; cbn in *; auto with buh.
  - rewrite map_size_empty. unfold MAX_STORED_SKIPPED. lia.
  - apply map_Forall_empty.
Qed.

Lemma responder_wf root k : length root = 32%nat → ratchet_wf (responder root k).
Proof.
  intros H. split; cbn; auto with buh.
  - rewrite map_size_empty. unfold MAX_STORED_SKIPPED. lia.
  - apply map_Forall_empty.
Qed.

Lemma encrypt_wf pt st r st' : ratchet_wf st → encrypt pt st = (r, st') → ratchet_wf st'.
Proof.
  rewrite encrypt_eq. intros Hwf H. destruct (cks st) as [ck|]; simplify_eq; [|done].
  pose proof (kdf_ck_length ck) as [Hck _]. destruct Hwf. split; cbn -[kdf_ck]; auto with buh.
Qed.

Lemma skip_loop_wf fuel dhr_b ck until st r st' :
  ratchet_wf st → length dhr_b = 32%nat → is_u32 until →
  skip_loop fuel dhr_b ck until st = (r, st') → ratchet_wf st'.
Proof.
  revert ck st. induction fuel as [|fuel IH]; intros ck st Hwf Hd Hu; cbn [skip_loop].
  { by intros [= <- <-]. }
  destruct (Z.ltb_spec (nr st) until) as [Hlt|]; [|by intros [= <- <-]].
  pose proof (kdf_ck_length ck) as [Hck Hmk]. destruct (kdf_ck ck) as [next mk]. cbn in Hck, Hmk.
  destruct Hwf. destruct (Z.leb_spec MAX_STORED_SKIPPED (Z.of_nat (size (skipped st)))) as [|Hsz].
  { intros [= <- <-]. split; cbn; auto with buh. }
  apply IH; [|done|done]. unfold is_u32 in *. split; cbn; auto with buh; unfold is_u32.
  - lia.
  - rewrite map_size_insert. destruct (skipped st !! _); cbn; lia.
  - apply map_Forall_insert_2; [|done]. repeat split; cbn; auto; lia.
Qed.

Lemma skip_message_keys_wf until st r st' :
  ratchet_wf st → is_u32 until → skip_message_keys until st = (r, st') → ratchet_wf st'.
Proof.
  unfold skip_message_keys. intros Hwf Hu.
  destruct (dhr st) as [p|]; [|by intros [= <- <-]].
  destruct (ckr st) as [ck|]; [|by intros [= <- <-]].
  destruct (_ <? _); [by intros [= <- <-]|].
  apply skip_loop_wf; [done|apply xp_length|done].
Qed.

Lemma dh_ratchet_wf h rnd st : ratchet_wf st → ratchet_wf (dh_ratchet h rnd st).
Proof.
  intros [? ? ? ? ? ? ? ? ?]. unfold dh_ratchet.
  pose proof (kdf_rk_length (rk st) (diffie_hellman (dhs st) (h_dh h))) as [H1 H2].
  destruct (kdf_rk _ _) as [rk1 ck1].
  pose proof (kdf_rk_length rk1 (diffie_hellman (X25519SecretKey_generate rnd) (h_dh h))) as [H3 H4].
  destruct (kdf_rk rk1 _) as [rk2 ck2]. split; cbn in *; auto with buh.
Qed.

Lemma read_u32_u32 bs n : read_u32 bs = Ok n → is_u32 n.
Proof.
  unfold read_u32. intros H. inv_ok. apply try_array_inv in Ha as [-> Hl]. subst n.
  pose proof (from_be_range bs) as Hr. unfold blen in Hr. rewrite Hl in Hr.
  unfold is_u32, u32_max. cbn in *. lia.
Qed.

Lemma parse_message_u32 m h ct :
  parse_message m = Ok (h, ct) → is_u32 (h_pn h) ∧ is_u32 (h_n h).
Proof.
  unfold parse_message. intros H. inv_ok. simplify_eq. cbn.
  split; by eapply read_u32_u32.
Qed.

Lemma turn_if_new_wf h rnd st r st' :
  ratchet_wf st → is_u32 (h_pn h) → turn_if_new h rnd st = (r, st') → ratchet_wf st'.
Proof.
  rewrite turn_if_new_eq. intros Hwf Hu H. case_bool_decide; [by simplify_eq|].
  destruct (skip_message_keys _ _) as [[] st1] eqn:E; simplify_eq;
    apply skip_message_keys_wf in E; auto using dh_ratchet_wf.
Qed.

Lemma open_next_wf aad ct st r st' :
  ratchet_wf st → open_next aad ct st = (r, st') → ratchet_wf st'.
Proof.
  rewrite open_next_eq. intros Hwf H. destruct (ckr st) as [ck|]; simplify_eq; [|done].
  pose proof (kdf_ck_length ck) as [Hck _]. destruct Hwf. split; cbn -[kdf_ck]; auto with buh.
Qed.

Lemma decrypt_wf rnd m st r st' :
  ratchet_wf st → decrypt rnd m st = (r, st') → ratchet_wf st'.
Proof.
  rewrite decrypt_eq. intros Hwf H.
  destruct (parse_message m) as [[h ct]|] eqn:Hp; [|by simplify_eq].
  apply parse_message_u32 in Hp as [Hpn Hn]. cbv zeta in H. destruct (skipped st !! _) as [mk|] eqn:E.
  - simplify_eq. destruct Hwf. split; cbn; auto with buh; [|by apply map_Forall_delete].
    pose proof (size_delete_le (skipped st) (X25519PublicKey_to_bytes (h_dh h), h_n h)). lia.
  - destruct (turn_if_new h rnd st) as [[] st1] eqn:Ht;
      (apply turn_if_new_wf in Ht; [|done..]); [|by simplify_eq].
    destruct (skip_message_keys (h_n h) st1) as [[] st2] eqn:Hs;
      (apply skip_message_keys_wf in Hs; [|done..]); [|by simplify_eq].
    by eapply open_next_wf.
Qed.

(** ** A session driven by arbitrary calls *)

(** One call of the public interface; the message, the plaintext and the drawn
    randomness are whatever the caller supplies. *)
Inductive session_step (st : RatchetState) : RatchetState → Prop :=
| step_encrypt pt r st' : encrypt pt st = (r, st') → session_step st st'
| step_decrypt rnd m r st' : decrypt rnd m st = (r, st') → session_step st st'.

(** The sessions a program can hold: fresh ones, ones restored from any blob
    that [from_bytes] accepts, and what calls, failed ones included, make of
    them. *)
Inductive session_reachable : RatchetState → Prop :=
| reach_initiator root remote rnd : session_reachable (initiator root remote rnd)
| reach_responder root k : length root = 32%nat → session_reachable (responder root k)
| reach_restored b st : from_bytes b = Ok st → session_reachable st
| reach_step st st' : session_reachable st → session_step st st' → session_reachable st'.

Lemma session_reachable_wf st : session_reachable st → ratchet_wf st.
Proof.
  induction 1 as [| | |st st' _ IH Hs].
  - apply initiator_wf.
  - by apply responder_wf.
  - by eapply from_bytes_wf.
  - destruct Hs as [? ? ? H|? ? ? ? H]; [by eapply encrypt_wf|by eapply decrypt_wf].
Qed.
End Invariant.
