(* ===== verification/RatchetDelivery.v ===== *)
(** * Delivery through the ratchet

    What a conversation over an asynchronous, reordering and lossy network
    obtains: every message that reaches the other end once, within the bounds
    on skipped keys, decrypts to what was sent.

    The proof follows the two parties through a single sequence of ratchet
    keys [K 0], [K 1], ...: [K 0] is the responder's signed prekey, [K 1] the
    initiator's first key, and every DH turn appends one.  [chain_of K j] is
    the chain on which the owner of [K j] sends.  A party at level [l] owns
    [K l], sends on chain [l] and receives on chain [l - 1]. *)

From S2P Require Import Prelude.
From S2P Require Import Wire.
From S2P Require Import Keys.
From S2P Require Import Ratchet.
From S2P Require Import RatchetPersist.
From S2P Require Import RatchetSpec.
From S2P Require Import ModelCrypto.

#[local] Arguments kdf_rk : simpl never.
#[local] Arguments kdf_ck : simpl never.
#[local] Arguments diffie_hellman : simpl never.

Section Chains.
Context `{PF : Platform} `{PR : Primitives}.

(** ** Chains and banked keys *)

Definition chain_key (ck : ChainKey) (n : nat) : ChainKey := Nat.iter n (λ c, (kdf_ck c).1) ck.
Definition msg_key (ck : ChainKey) (n : nat) : MessageKey := (kdf_ck (chain_key ck n)).2.

Lemma chain_key_S ck n : chain_key ck (S n) = (kdf_ck (chain_key ck n)).1.
Proof. done. Qed.

(** [m] with the keys of messages [n], ..., [n + k - 1] of the chain [c] added. *)
Fixpoint bank (k : nat) (d : bytes) (c : ChainKey) (n : nat) (m : gmap (bytes * Z) bytes) :
    gmap (bytes * Z) bytes :=
  match k with
  | O => m
  | S k' => bank k' d c (S n) (<[(d, Z.of_nat n) := msg_key c n]> m)
  end.

Lemma bank_out k d c n m d' i :
  d' ≠ d ∨ i < Z.of_nat n ∨ Z.of_nat (n + k) <= i → bank k d c n m !! (d', i) = m !! (d', i).
Proof.
  revert n m. induction k as [|k IH]; intros n m H; cbn [bank]; [done|].
  rewrite IH by (destruct H as [?|[?|?]]; [by left|right; left; lia|right; right; lia]).
  apply lookup_insert_ne. intros Heq. simplify_eq. destruct H as [?|[?|?]]; [done|lia..].
Qed.

Lemma bank_in k d c n m j :
  (n <= j < n + k)%nat → bank k d c n m !! (d, Z.of_nat j) = Some (msg_key c j).
Proof.
  revert n m. induction k as [|k IH]; intros n m H; cbn [bank]; [lia|].
  destruct (decide (j = n)) as [->|]; [|apply IH; lia].
  rewrite bank_out by lia. apply lookup_insert_eq.
Qed.

Lemma bank_inv k d c n m d' i mk :
  bank k d c n m !! (d', i) = Some mk →
  m !! (d', i) = Some mk ∨ d' = d ∧ ∃ j, i = Z.of_nat j ∧ (n <= j < n + k)%nat.
Proof.
  intros H. destruct (decide (d' = d)) as [->|]; [|rewrite bank_out in H by auto; by left].
  destruct (Z_lt_dec i (Z.of_nat n)); [rewrite bank_out in H by lia; by left|].
  destruct (Z_le_dec (Z.of_nat (n + k)) i); [rewrite bank_out in H by lia; by left|].
  right. split; [done|]. exists (Z.to_nat i). lia.
Qed.

Lemma bank_size k d c n m : (size (bank k d c n m) <= size m + k)%nat.
Proof.
  revert n m. induction k as [|k IH]; intros n m; cbn [bank]; [lia|].
  etrans; [apply IH|]. rewrite map_size_insert. destruct (m !! _); cbn; lia.
Qed.

Lemma set_receiving_id ck n st :
  ckr st = Some ck → nr st = n → set_receiving ck n (skipped st) st = st.
Proof. destruct st. unfold set_receiving. cbn. by intros -> ->. Qed.

(** The loop banks exactly the keys it passes, if the store has room. *)
Lemma skip_loop_ok k d c n st :
  ckr st = Some (chain_key c n) → nr st = Z.of_nat n →
  Z.of_nat (size (skipped st) + k) <= MAX_STORED_SKIPPED →
  skip_loop k d (chain_key c n) (Z.of_nat (n + k)) st
  = (Ok tt, set_receiving (chain_key c (n + k)) (Z.of_nat (n + k)) (bank k d c n (skipped st)) st).
Proof.
  revert n st. induction k as [|k IH]; intros n st Hc Hn Hs; cbn [skip_loop bank].
  { rewrite Nat.add_0_r. by rewrite (set_receiving_id _ _ _ Hc Hn). }
  destruct (Z.ltb_spec (nr st) (Z.of_nat (n + S k))); [|lia].
  destruct (kdf_ck (chain_key c n)) as [next mk] eqn:Hk.
  assert (next = chain_key c (S n)) as -> by (by rewrite chain_key_S, Hk).
  assert (mk = msg_key c n) as -> by (unfold msg_key; by rewrite Hk).
  destruct (Z.leb_spec MAX_STORED_SKIPPED (Z.of_nat (size (skipped st)))); [lia|].
  replace (n + S k)%nat with (S n + k)%nat by lia. rewrite IH; cbn [ckr nr skipped].
  - unfold set_receiving. cbn [bank dhs dhs_pub dhr rk cks ns pn skipped]. by rewrite Hn.
  - done.
  - lia.
  - rewrite map_size_insert. destruct (skipped st !! _); cbn [id]; lia.
Qed.

Lemma skip_message_keys_ok d c n u st :
  dhr st = Some d → ckr st = Some (chain_key c n) → nr st = Z.of_nat n →
  Z.of_nat u <= Z.of_nat n + MAX_SKIP → Z.of_nat (max n u) <= u32_max →
  Z.of_nat (size (skipped st) + (u - n)) <= MAX_STORED_SKIPPED →
  skip_message_keys (Z.of_nat u) st
  = (Ok tt, set_receiving (chain_key c (max n u)) (Z.of_nat (max n u))
              (bank (u - n) (X25519PublicKey_to_bytes d) c n (skipped st)) st).
Proof.
  intros Hd Hc Hn Hu Hm Hs. unfold skip_message_keys. rewrite Hd, Hc.
  destruct (Z.ltb_spec (Z.min (nr st + MAX_SKIP) u32_max) (Z.of_nat u)); [unfold MAX_SKIP in *; lia|].
  destruct (le_lt_dec u n).
  - replace (max n u) with n by lia. replace (u - n)%nat with 0%nat by lia.
    cbn [bank]. rewrite set_receiving_id by done. by replace (Z.to_nat (Z.of_nat u - nr st)) with 0%nat by lia.
  - replace (Z.to_nat (Z.of_nat u - nr st)) with (u - n)%nat by lia.
    replace (Z.of_nat u) with (Z.of_nat (n + (u - n))) by lia.
    rewrite skip_loop_ok by done. by replace (n + (u - n))%nat with (max n u) by lia.
Qed.

Lemma skip_message_keys_none u st : ckr st = None → skip_message_keys u st = (Ok tt, st).
Proof. intros H. unfold skip_message_keys. rewrite H. by destruct (dhr st). Qed.

End Chains.

(** ** Messages *)

Section Messages.
Context `{PF : Platform} `{PR : Primitives} `{LX : !X25519Laws}.

Definition header_ok (h : Header) : Prop := is_u32 (h_pn h) ∧ is_u32 (h_n h).

Lemma read_u32_be n : is_u32 n → read_u32 (be_bytes 4 n) = Ok n.
Proof.
  intros H. unfold read_u32. rewrite try_array_ok by apply length_be_bytes. cbn.
  rewrite from_be_be_bytes_id; [done|]. unfold is_u32, u32_max in H. cbn. lia.
Qed.

Lemma message_frame_ok h ct : vec_ok ct → frame_ok (with_field (header_frame h) TAG_CIPHERTEXT ct).
Proof.
  intros Hv. split; [split; vm_compute; discriminate|].
  repeat apply Forall_cons_2; try apply Forall_nil_2;
    (split; [split; vm_compute; discriminate|]); cbn [value]; [..|done]; apply small_vec_ok;
    unfold blen, X25519PublicKey_to_bytes; rewrite ?xp_length, ?length_be_bytes; lia.
Qed.

Lemma field_in_encode f fd : fd ∈ fields f → blen (value fd) <= blen (encode f).
Proof.
  intros Hin. rewrite encode_eq. apply list_elem_of_split in Hin as (l1 & l2 & ->).
  rewrite fmap_app, fmap_cons, concat_app. cbn [concat]. unfold blen.
  rewrite !length_app. unfold field_bytes at 2. rewrite !length_app. lia.
Qed.

(** What the receiver parses is what the sender built. *)
Lemma parse_message_encode h ct :
  header_ok h → vec_ok (encode (with_field (header_frame h) TAG_CIPHERTEXT ct)) →
  parse_message (encode (with_field (header_frame h) TAG_CIPHERTEXT ct)) = Ok (h, ct).
Proof.
  intros [Hpn Hn] Hv. unfold parse_message. rewrite decode_encode; [|apply message_frame_ok|done].
  - cbn [wire_err map_err rbind]. unfold require. cbn [get value fmap].
    unfold get. cbn. rewrite X25519PublicKey_roundtrip. cbn.
    rewrite !read_u32_be by done. cbn. by destruct h.
  - eapply vec_ok_le; [|exact Hv].
    apply (field_in_encode _ {| tag := TAG_CIPHERTEXT; value := ct |}). cbn. set_solver.
Qed.

Lemma open_mk_seal `{LA : !AeadLaws} mk h pt m :
  header_ok h → seal_message mk h pt = Ok m → vec_ok m →
  ∃ ct, parse_message m = Ok (h, ct) ∧ open_mk mk (to_aad h) ct = Ok pt.
Proof.
  intros Hh Hs Hv. unfold seal_message in Hs. inv_ok. subst m. exists a. split.
  - by apply parse_message_encode.
  - unfold open_mk. destruct (message_keys mk). by apply open_seal.
Qed.
End Messages.

(** ** One party *)

Section Party.
Context `{PF : Platform} `{PR : Primitives} `{LX : !X25519Laws} `{LA : !AeadLaws}.
Variable root : bytes.

(** The root and the chain that key number [j] introduces. *)
Fixpoint root_chain (K : nat → X25519SecretKey) (j : nat) : RootKey * ChainKey :=
  match j with
  | O => (root, [])
  | S i => kdf_rk (root_chain K i).1 (diffie_hellman (K i) (public_key (K (S i))))
  end.

Definition root_of K j : RootKey := (root_chain K j).1.
Definition chain_of K j : ChainKey := (root_chain K j).2.
Definition pub_bytes (K : nat → X25519SecretKey) (j : nat) : bytes :=
  X25519PublicKey_to_bytes (public_key (K j)).

(** How many messages the owner of [K j] had sent on its previous chain. *)
Definition prev_count (cnt : nat → nat) (j : nat) : nat :=
  match j with S (S i) => cnt i | _ => 0%nat end.

(** The header of message [n] of chain [j]. *)
Definition header_of K (cnt : nat → nat) (j n : nat) : Header :=
  {| h_dh := public_key (K j); h_pn := Z.of_nat (prev_count cnt j); h_n := Z.of_nat n |}.

(** The party at level [l] that has passed [r] messages of its receiving chain
    needs the stored key of message [n] of chain [j]. *)
Definition passed (l r j n : nat) : Prop := (S j < l)%nat ∨ S j = l ∧ (n < r)%nat.

(** A party at level [l]; [flight] are the (chain, index) pairs on their way
    to it, [cnt j] is the number of messages sent on chain [j]. *)
Record party K (cnt : nat → nat) (flight : list (nat * nat)) (l r : nat)
    (st : RatchetState) : Prop := {
  p_dhs : dhs st = K l;
  p_pub : dhs_pub st = public_key (K l);
  p_rk : rk st = root_of K l;
  p_dhr : dhr st = match l with O => None | S j => Some (public_key (K j)) end;
  p_cks : cks st = match l with O => None | S _ => Some (chain_key (chain_of K l) (cnt l)) end;
  p_ckr : ckr st = match l with S (S j) => Some (chain_key (chain_of K (S j)) r) | _ => None end;
  p_ns : ns st = Z.of_nat (cnt l);
  p_nr : nr st = Z.of_nat r;
  p_pn : pn st = Z.of_nat (prev_count cnt l);
  p_r : Z.of_nat r <= u32_max;
  p_saved : ∀ j n, (j, n) ∈ flight → passed l r j n →
    skipped st !! (pub_bytes K j, Z.of_nat n) = Some (msg_key (chain_of K j) n);
  p_only : ∀ d i mk, skipped st !! (d, i) = Some mk →
    ∃ j n, d = pub_bytes K j ∧ i = Z.of_nat n ∧ passed l r j n;
}.

(** Room in the store and in the skip limit for a message with header [h]. *)
Definition capacity (st : RatchetState) (h : Header) : Prop :=
  match skipped st !! (X25519PublicKey_to_bytes (h_dh h), h_n h) with
  | Some _ => True
  | None =>
      let used := Z.of_nat (size (skipped st)) in
      if bool_decide ((X25519PublicKey_to_bytes <$> dhr st)
                      = Some (X25519PublicKey_to_bytes (h_dh h)))
      then h_n h - nr st <= MAX_SKIP ∧ used + (h_n h - nr st) <= MAX_STORED_SKIPPED
      else
        let gap := match ckr st with Some _ => Z.max 0 (h_pn h - nr st) | None => 0 end in
        gap <= MAX_SKIP ∧ h_n h <= MAX_SKIP ∧ used + gap + h_n h <= MAX_STORED_SKIPPED
  end.

#[global] Instance capacity_dec st h : Decision (capacity st h).
Proof.
  unfold capacity. destruct (skipped st !! _); [apply _|]. cbv zeta.
  destruct (bool_decide _); apply _.
Defined.

Lemma root_chain_ext K K' j :
  (∀ i, (i <= j)%nat → K i = K' i) → root_chain K j = root_chain K' j.
Proof.
  induction j as [|j IH]; intros H; [done|]. cbn [root_chain].
  rewrite IH by (intros; apply H; lia). rewrite (H j), (H (S j)) by lia. done.
Qed.

Lemma chain_of_ext K K' j :
  (∀ i, (i <= j)%nat → K i = K' i) → chain_of K j = chain_of K' j.
Proof. intros H. unfold chain_of. by rewrite (root_chain_ext K K' j H). Qed.

(** A party at level [l] only depends on the keys up to [l]. *)
Lemma party_ext K K' cnt flight l r st :
  (∀ i, (i <= l)%nat → K i = K' i) → party K cnt flight l r st → party K' cnt flight l r st.
Proof.
  intros HK [? ? ? ? ? ? ? ? ? ? Hs Ho].
  assert (∀ j, (j <= l)%nat → chain_of K j = chain_of K' j) as HC.
  { intros j Hj. apply chain_of_ext. intros. apply HK. lia. }
  assert (∀ j n, passed l r j n → (j <= l)%nat) as Hp by (unfold passed; intros; lia).
  split; try done.
  - by rewrite <-HK.
  - by rewrite <-HK.
  - unfold root_of. by rewrite <-(root_chain_ext K K').
  - destruct l; [done|]. by rewrite <-HK by lia.
  - destruct l; [done|]. by rewrite <-HC by lia.
  - destruct l as [|[|l]]; [done..|]. by rewrite <-HC by lia.
  - intros j n Hin Hpa. unfold pub_bytes. rewrite <-HK, <-HC by eauto. by apply Hs.
  - intros d i mk H. destruct (Ho d i mk H) as (j & n & -> & -> & Hpa).
    exists j, n. unfold pub_bytes. rewrite <-HK by eauto. done.
Qed.

Lemma party_cnt K cnt cnt' flight l r st :
  cnt' l = cnt l → prev_count cnt' l = prev_count cnt l →
  party K cnt flight l r st → party K cnt' flight l r st.
Proof. intros H1 H2 []. split; rewrite ?H1, ?H2; done. Qed.

Lemma party_flight K cnt flight flight' l r st :
  (∀ j n, (j, n) ∈ flight' → passed l r j n → (j, n) ∈ flight) →
  party K cnt flight l r st → party K cnt flight' l r st.
Proof. intros H []. split; try done. eauto. Qed.

Lemma dh_comm a b : diffie_hellman a (public_key b) = diffie_hellman b (public_key a).
Proof. apply x_dh_comm. Qed.

Lemma initiator_party K rnd :
  K 1%nat = X25519SecretKey_generate rnd →
  party K (λ _, 0%nat) [] 1 0 (initiator root (public_key (K 0%nat)) rnd).
Proof.
  intros HK. unfold initiator. rewrite <-HK, dh_comm.
  destruct (kdf_rk root _) as [k c] eqn:E.
  split; cbn; try done.
  - unfold root_of. cbn. by rewrite E.
  - unfold chain_of. cbn. by rewrite E.
  - by intros j n H%not_elem_of_nil.
Qed.

Lemma responder_party K : party K (λ _, 0%nat) [] 0 0 (responder root (K 0%nat)).
Proof. split; cbn; try done. by intros j n H%not_elem_of_nil. Qed.
(** ** Receiving *)

Definition distinct_keys (K : nat → X25519SecretKey) (l : nat) : Prop :=
  ∀ i j, (i <= l)%nat → (j <= l)%nat → pub_bytes K i = pub_bytes K j → i = j.

(** What is on its way to a party at level [l] comes from its peer's chains. *)
Definition flight_ok (cnt : nat → nat) (flight : list (nat * nat)) (l : nat) : Prop :=
  ∀ j n, (j, n) ∈ flight → (1 <= j <= S l)%nat ∧ j ≠ l ∧ (n < cnt j)%nat.

Definition extend (K : nat → X25519SecretKey) (l : nat) (k : X25519SecretKey) : nat → X25519SecretKey :=
  λ i, if (i =? l)%nat then k else K i.

Lemma extend_lt K l k i : (i < l)%nat → extend K l k i = K i.
Proof. intros. unfold extend. by rewrite (proj2 (Nat.eqb_neq i l)) by lia. Qed.

Lemma extend_eq K l k : extend K l k l = k.
Proof. unfold extend. by rewrite Nat.eqb_refl. Qed.

(** Receiving the next message of the current chain, possibly past a gap. *)
Lemma receive_in_chain K cnt flight l r st n ct pt :
  party K cnt flight (S (S l)) r st → distinct_keys K (S (S l)) →
  (r <= n)%nat → Z.of_nat n < u32_max → Z.of_nat n - Z.of_nat r <= MAX_SKIP →
  Z.of_nat (size (skipped st)) + (Z.of_nat n - Z.of_nat r) <= MAX_STORED_SKIPPED →
  open_mk (msg_key (chain_of K (S l)) n) (to_aad (header_of K cnt (S l) n)) ct = Ok pt →
  ∃ st1 st2,
    skip_message_keys (Z.of_nat n) st = (Ok tt, st1) ∧
    open_next (to_aad (header_of K cnt (S l) n)) ct st1 = (Ok pt, st2) ∧
    ∀ flight', (∀ j m, (j, m) ∈ flight' → (j, m) ∈ flight ∧ (j, m) ≠ (S l, n)) →
      party K cnt flight' (S (S l)) (S n) st2.
Proof.
  intros Hp HD Hrn Hn Hskip Hroom Hopen.
  eexists _, _. split; [|split].
  - apply (skip_message_keys_ok (public_key (K (S l))) (chain_of K (S l)) r n);
      try apply Hp; lia.
  - rewrite open_next_eq. cbn [ckr set_receiving]. replace (max r n) with n by lia.
    unfold msg_key in Hopen. by rewrite Hopen.
  - cbn [set_receiving nr skipped]. replace (max r n) with n by lia. rewrite <-chain_key_S.
    intros flight' Hf. destruct Hp as [? ? ? ? ? ? ? ? ? ? Hs Ho]. split; cbn; try done.
    + unfold wrap32. rewrite Z.mod_small; unfold u32_max in *; lia.
    + lia.
    + intros j m [Hin Hne]%Hf Hpa. destruct (decide (j = S l)) as [->|].
      * destruct (le_lt_dec r m).
        -- apply bank_in. assert (m ≠ n) by congruence. unfold passed in Hpa. lia.
        -- rewrite bank_out by lia. apply Hs; [done|]. right. lia.
      * rewrite bank_out; [apply Hs; [done|unfold passed in *; lia]|].
        left. intros E. apply HD in E; unfold passed in *; lia.
    + intros d i mk [H|(-> & j & -> & Hj)]%bank_inv.
      * destruct (Ho _ _ _ H) as (j & m & -> & -> & Hpa).
        exists j, m. unfold passed in *. split_and!; [done|done|lia].
      * exists (S l), j. unfold passed. split_and!; [done|done|lia].
Qed.
(** The keys left over of the receiving chain are banked before a DH turn;
    afterwards every message of an older chain still on its way has its key. *)
Lemma bank_before_turn K cnt flight l r st :
  party K cnt flight l r st → distinct_keys K l → flight_ok cnt flight l →
  (∀ j, Z.of_nat (cnt j) <= u32_max) →
  (let gap := match ckr st with
              | Some _ => Z.max 0 (Z.of_nat (prev_count cnt (S l)) - nr st) | None => 0 end in
   gap <= MAX_SKIP ∧ Z.of_nat (size (skipped st)) + gap <= MAX_STORED_SKIPPED →
   ∃ st1,
     skip_message_keys (Z.of_nat (prev_count cnt (S l))) st = (Ok tt, st1) ∧
     dhs st1 = dhs st ∧ rk st1 = rk st ∧ ns st1 = ns st ∧
     Z.of_nat (size (skipped st1)) <= Z.of_nat (size (skipped st)) + gap ∧
     (∀ j n, (j, n) ∈ flight → (j < l)%nat →
        skipped st1 !! (pub_bytes K j, Z.of_nat n) = Some (msg_key (chain_of K j) n)) ∧
     (∀ d i mk, skipped st1 !! (d, i) = Some mk →
        ∃ j n, d = pub_bytes K j ∧ i = Z.of_nat n ∧ (j < l)%nat)).
Proof.
  intros [? ? ? Hdhr ? Hckr ? Hnr ? Hr Hs Ho] HD HF Hcnt gap [Hg Hroom].
  destruct l as [|[|l]].
  1,2: exists st; rewrite skip_message_keys_none by done; subst gap; rewrite Hckr;
    split_and!; [done..|lia| |];
    [ intros j n Hin Hj; apply HF in Hin; lia
    | intros d i mk H'; destruct (Ho _ _ _ H') as (j & n & -> & -> & Hpa);
      exists j, n; unfold passed in Hpa; split_and!; [done|done|lia] ].
  set (u := prev_count cnt (S (S (S l)))) in *. cbn in u.
  assert (u = cnt (S l)) as Hu by done. subst gap. rewrite Hckr, Hnr in *.
  pose proof (Hcnt (S l)) as Hcu.
  eexists. split; [eapply skip_message_keys_ok; [done..|lia|lia|lia]|].
  cbn [set_receiving dhs rk ns skipped]. split_and!; [done..| | |].
  - pose proof (bank_size (u - r) (pub_bytes K (S l)) (chain_of K (S l)) r (skipped st)).
    unfold pub_bytes in *. lia.
  - intros j n Hin Hj. pose proof (HF _ _ Hin) as (? & ? & Hn).
    destruct (decide (j = S l)) as [->|].
    + destruct (le_lt_dec r n); [apply bank_in; lia|].
      rewrite bank_out by lia. apply Hs; [done|]. right. lia.
    + rewrite bank_out; [apply Hs; [done|left; lia]|].
      left. intros E. apply HD in E; lia.
  - intros d i mk [H'|(-> & j & -> & Hj)]%bank_inv.
    + destruct (Ho _ _ _ H') as (j & n & -> & -> & Hpa).
      exists j, n. unfold passed in Hpa. split_and!; [done|done|lia].
    + exists (S l), j. split_and!; [done|done|lia].
Qed.

(** A DH turn takes a party from level [l] to level [l + 2]. *)
Lemma turn_party K cnt flight l r st st1 rnd n :
  let K' := extend K (S (S l)) (X25519SecretKey_generate rnd) in
  party K cnt flight l r st → flight_ok cnt flight l → cnt (S (S l)) = 0%nat →
  dhs st1 = dhs st → rk st1 = rk st → ns st1 = ns st →
  (∀ j n, (j, n) ∈ flight → (j < l)%nat →
     skipped st1 !! (pub_bytes K j, Z.of_nat n) = Some (msg_key (chain_of K j) n)) →
  (∀ d i mk, skipped st1 !! (d, i) = Some mk →
     ∃ j n, d = pub_bytes K j ∧ i = Z.of_nat n ∧ (j < l)%nat) →
  party K' cnt flight (S (S l)) 0 (dh_ratchet (header_of K cnt (S l) n) rnd st1).
Proof.
  intros K' Hp HF Hc Hd Hk Hn Hs Ho.
  assert (∀ i, (i < S (S l))%nat → K' i = K i) as HK by apply extend_lt.
  assert (K' (S (S l)) = X25519SecretKey_generate rnd) as HK2 by apply extend_eq.
  assert (∀ j, (j < S (S l))%nat → root_chain K' j = root_chain K j) as HR.
  { intros j Hj. apply root_chain_ext. intros. apply HK. lia. }
  assert (root_chain K' (S l) = kdf_rk (rk st1) (diffie_hellman (dhs st1) (public_key (K (S l))))) as H1.
  { cbn [root_chain]. rewrite HR, !HK, Hd, Hk by lia. destruct Hp. by rewrite p_dhs0, p_rk0. }
  unfold dh_ratchet. cbn [h_dh header_of]. rewrite <-H1, <-HK2.
  destruct (root_chain K' (S l)) as [rk1 ck1] eqn:E1.
  rewrite dh_comm.
  assert (root_chain K' (S (S l))
          = kdf_rk rk1 (diffie_hellman (K (S l)) (public_key (K' (S (S l)))))) as H2.
  { change (root_chain K' (S (S l))) with
      (kdf_rk (root_chain K' (S l)).1 (diffie_hellman (K' (S l)) (public_key (K' (S (S l)))))).
    by rewrite E1, (HK (S l)) by lia. }
  rewrite <-H2. destruct (root_chain K' (S (S l))) as [rk2 ck2] eqn:E2.
  split; cbn [dhs dhs_pub rk dhr cks ckr ns nr pn skipped]; try done.
  - unfold root_of. by rewrite E2.
  - by rewrite HK by lia.
  - unfold chain_of. by rewrite E2, Hc.
  - unfold chain_of. by rewrite E1.
  - by rewrite Hc.
  - rewrite Hn. apply Hp.
  - intros j m Hin Hpa. unfold pub_bytes, chain_of.
    assert (j < l)%nat by (apply HF in Hin; unfold passed in Hpa; lia).
    rewrite HK, HR by lia. by apply Hs.
  - intros d i mk H. destruct (Ho _ _ _ H) as (j & m & -> & -> & Hj).
    exists j, m. unfold pub_bytes. rewrite HK by lia. split_and!; [done|done|left; lia].
Qed.
Lemma distinct_keys_le K l l' : (l' <= l)%nat → distinct_keys K l → distinct_keys K l'.
Proof. intros Hle H i j Hi Hj. apply H; lia. Qed.

Lemma distinct_keys_extend K l k :
  distinct_keys K l → (∀ i, (i <= l)%nat → pub_bytes K i ≠ X25519PublicKey_to_bytes (public_key k)) →
  distinct_keys (extend K (S l) k) (S l).
Proof.
  intros HD Hf i j Hi Hj. unfold pub_bytes.
  destruct (decide (i = S l)) as [->|], (decide (j = S l)) as [->|]; [done| | |].
  - rewrite extend_eq, (extend_lt K _ _ j) by lia. intros E. destruct (Hf j); [lia|done].
  - rewrite extend_eq, (extend_lt K _ _ i) by lia. intros E. destruct (Hf i); [lia|done].
  - rewrite !extend_lt by lia. apply HD; lia.
Qed.

(** No key is stored for a message the party has not passed. *)
Lemma not_stored K cnt flight l r st j n L :
  party K cnt flight l r st → distinct_keys K L → (l <= L)%nat → (j <= L)%nat → ¬ passed l r j n →
  skipped st !! (pub_bytes K j, Z.of_nat n) = None.
Proof.
  intros Hp HD Hl Hj Hn. destruct (skipped st !! _) as [mk|] eqn:E; [|done].
  destruct (p_only _ _ _ _ _ _ Hp _ _ _ E) as (j' & n' & Hb & Hi & Hpa).
  apply HD in Hb; [|done|unfold passed in *; lia]. by assert (n' = n) as -> by lia; subst.
Qed.

Lemma receive_stored K cnt flight l r st j n ct pt L :
  party K cnt flight l r st → distinct_keys K L → (l <= L)%nat → (j <= L)%nat →
  (j, n) ∈ flight → passed l r j n →
  open_mk (msg_key (chain_of K j) n) (to_aad (header_of K cnt j n)) ct = Ok pt →
  ∀ rnd m, parse_message m = Ok (header_of K cnt j n, ct) →
  ∃ st', decrypt rnd m st = (Ok pt, st') ∧
    ∀ flight', (∀ i k, (i, k) ∈ flight' → (i, k) ∈ flight ∧ (i, k) ≠ (j, n)) →
      party K cnt flight' l r st'.
Proof.
  intros Hp HD Hl Hj Hin Hpa Hopen rnd m Hm. rewrite decrypt_eq, Hm. cbv zeta.
  cbn [h_dh h_n header_of]. fold (pub_bytes K j).
  rewrite (p_saved _ _ _ _ _ _ Hp _ _ Hin Hpa). eexists. split; [by rewrite Hopen|].
  intros flight' Hf. destruct Hp as [? ? ? ? ? ? ? ? ? ? Hs Ho]. split; cbn; try done.
  - intros i k [Hi Hne]%Hf Hpk. rewrite lookup_delete_ne; [by apply Hs|].
    intros E. injection E as Hb E. apply HD in Hb; [|unfold passed in *; lia..].
    apply Hne. f_equal; [done|lia].
  - intros d i mk [_ H]%lookup_delete_Some. eauto.
Qed.

Lemma header_of_ok K cnt j n :
  (∀ i, Z.of_nat (cnt i) <= u32_max) → Z.of_nat n <= u32_max → header_ok (header_of K cnt j n).
Proof.
  intros Hc Hn. split; cbn; unfold is_u32; [|lia].
  destruct j as [|[|j]]; cbn [prev_count]; [unfold u32_max; lia..|]. specialize (Hc j). lia.
Qed.

(** Any message on its way decrypts to its plaintext, and leaves a party that
    can receive all the others. *)
Lemma receive_ok L K cnt flight l r st rnd j n m pt :
  party K cnt flight l r st → distinct_keys K L → (l <= L)%nat → (j <= L)%nat → flight_ok cnt flight l →
  (∀ i, Z.of_nat (cnt i) <= u32_max) → cnt (S (S l)) = 0%nat →
  (∀ i, (i <= L)%nat →
    pub_bytes K i ≠ X25519PublicKey_to_bytes (public_key (X25519SecretKey_generate rnd))) →
  (j, n) ∈ flight →
  seal_message (msg_key (chain_of K j) n) (header_of K cnt j n) pt = Ok m → vec_ok m →
  capacity st (header_of K cnt j n) →
  ∃ K' l' r' st', decrypt rnd m st = (Ok pt, st') ∧
    (∀ flight', (∀ i k, (i, k) ∈ flight' → (i, k) ∈ flight ∧ (i, k) ≠ (j, n)) →
      party K' cnt flight' l' r' st') ∧
    (K' = K ∧ l' = l ∨
     j = S l ∧ l' = S (S l) ∧ K' = extend K (S (S l)) (X25519SecretKey_generate rnd)) ∧
    (l' = l ∧ r' = r ∨ l' = S j ∧ r' = S n).
Proof.
  intros Hp HD HlL HjL HF Hcnt Hnew Hfresh Hin Hseal Hv Hcap.
  destruct (HF _ _ Hin) as (Hj & Hjl & Hn). pose proof (Hcnt j) as Hcj.
  destruct (open_mk_seal _ _ _ _ (header_of_ok K cnt j n Hcnt ltac:(lia)) Hseal Hv)
    as (ct & Hm & Hopen).
  destruct (decide (S j < l ∨ S j = l ∧ n < r)%nat) as [Hpa|Hpa].
  { destruct (receive_stored K cnt flight l r st j n ct pt L Hp HD HlL HjL
      Hin Hpa Hopen rnd m Hm) as (st' & Hd & Hp'). eauto 12. }
  pose proof (not_stored _ _ _ _ _ _ j n _ Hp HD HlL HjL Hpa) as Hno.
  rewrite decrypt_eq, Hm. cbv zeta. cbn [h_dh h_n header_of]. fold (pub_bytes K j).
  rewrite Hno.
  unfold capacity in Hcap. cbn [h_dh h_n h_pn header_of] in Hcap. fold (pub_bytes K j) in Hcap.
  rewrite Hno in Hcap. cbv zeta in Hcap.
  rewrite turn_if_new_eq. cbn [h_dh header_of]. fold (pub_bytes K j).
  assert (S j = l ∧ (r <= n)%nat ∨ j = S l) as [[<- Hrn]| ->] by (unfold passed in Hpa; lia).
  - destruct j as [|i]; [lia|].
    rewrite (p_dhr _ _ _ _ _ _ Hp), bool_decide_true in Hcap |- * by done.
    rewrite (p_nr _ _ _ _ _ _ Hp) in Hcap.
    destruct (receive_in_chain K cnt flight i r st n ct pt Hp) as (st1 & st2 & -> & -> & Hp');
      [eapply distinct_keys_le; [|done]; lia|lia..|done|]. eauto 12.
  - rewrite bool_decide_false in Hcap |- *.
    2,3: rewrite (p_dhr _ _ _ _ _ _ Hp); destruct l; [done|]; intros E; injection E as E;
      apply HD in E; lia.
    destruct Hcap as (Hg & Hsk & Hroom).
    change (h_pn (header_of K cnt (S l) n)) with (Z.of_nat (prev_count cnt (S l))).
    destruct (bank_before_turn K cnt flight l r st Hp (distinct_keys_le K L l HlL HD) HF Hcnt)
      as (st1 & -> & Hd1 & Hk1 & Hn1 & Hsz & Hsaved & Honly); [split; [done|lia]|].
    pose proof (turn_party K cnt flight l r st st1 rnd n Hp HF Hnew Hd1 Hk1 Hn1 Hsaved Honly) as Hp1.
    set (K' := extend K (S (S l)) (X25519SecretKey_generate rnd)) in *.
    assert (public_key (K' (S l)) = public_key (K (S l))) as HKl by (unfold K'; by rewrite extend_lt by lia).
    assert (chain_of K' (S l) = chain_of K (S l)) as HCl.
    { apply chain_of_ext. intros. apply extend_lt. lia. }
    assert (header_of K' cnt (S l) n = header_of K cnt (S l) n) as HHl.
    { unfold header_of. by rewrite HKl. }
    assert (skipped (dh_ratchet (header_of K cnt (S l) n) rnd st1) = skipped st1) as Hsk1.
    { unfold dh_ratchet. by destruct (kdf_rk _ _), (kdf_rk _ _). }
    fold (header_of K cnt (S l) n).
    destruct (receive_in_chain K' cnt flight l 0 _ n ct pt Hp1) as (st2 & st3 & -> & H3 & Hp');
      [apply distinct_keys_extend; [by apply (distinct_keys_le K L)|intros; apply Hfresh; lia]|lia|lia|lia|rewrite Hsk1; lia|by rewrite HCl, HHl|].
    rewrite HHl in H3. rewrite H3. eauto 16.
Qed.
End Party.

(** ** The conversation *)

Inductive side : Type := Alice | Bob.

#[global] Instance side_eq_dec : EqDecision side.
Proof. solve_decision. Defined.

Definition other (s : side) : side := match s with Alice => Bob | Bob => Alice end.

Lemma other_ne s : other s ≠ s.
Proof. by destruct s. Qed.

Section Network.
Context `{PF : Platform} `{PR : Primitives}.

(** An end of the conversation: its session, and the messages on their way to
    it, each with the plaintext the peer gave to [encrypt]. *)
Record endpoint := { session : RatchetState; inbox : list (bytes * bytes) }.

(** [used] are the ratchet keys drawn so far. *)
Record net := { ends : side → endpoint; used : list X25519PublicKey }.

Definition update {A} (f : side → A) (s : side) (a : A) : side → A :=
  λ s', if decide (s' = s) then a else f s'.

Definition net_init (root : bytes) (prekey : X25519SecretKey) (rnd : bytes) : net :=
  {| ends := λ s, match s with
       | Alice => {| session := initiator root (public_key prekey) rnd; inbox := [] |}
       | Bob => {| session := responder root prekey; inbox := [] |}
       end;
     used := [public_key (X25519SecretKey_generate rnd); public_key prekey] |}.

(** The network hands over messages in any order and loses any of them; a
    message is within the limits of the receiver when it arrives. *)
Definition in_limits (st : RatchetState) (m : bytes) : Prop :=
  match parse_message m with Ok (h, _) => capacity st h | Err _ => False end.

Definition fresh (N : net) (rnd : bytes) : Prop :=
  public_key (X25519SecretKey_generate rnd) ∉ used N.

Inductive net_step (N : net) : net → Prop :=
| net_send s pt m st' :
    ns (session (ends N s)) < u32_max →
    encrypt pt (session (ends N s)) = (Ok m, st') → vec_ok m →
    net_step N
      {| ends := update (update (ends N) s {| session := st'; inbox := inbox (ends N s) |})
           (other s) {| session := session (ends N (other s));
                        inbox := inbox (ends N (other s)) ++ [(m, pt)] |};
         used := used N |}
| net_deliver s before m pt after rnd res st' :
    inbox (ends N s) = before ++ (m, pt) :: after →
    in_limits (session (ends N s)) m → fresh N rnd →
    decrypt rnd m (session (ends N s)) = (res, st') →
    net_step N
      {| ends := update (ends N) s {| session := st'; inbox := before ++ after |};
         used := public_key (X25519SecretKey_generate rnd) :: used N |}
| net_drop s before m pt after :
    inbox (ends N s) = before ++ (m, pt) :: after →
    net_step N
      {| ends := update (ends N) s {| session := session (ends N s); inbox := before ++ after |};
         used := used N |}.

Inductive net_reachable : net → Prop :=
| net_start root prekey rnd :
    public_key (X25519SecretKey_generate rnd) ≠ public_key prekey →
    net_reachable (net_init root prekey rnd)
| net_next N N' : net_reachable N → net_step N N' → net_reachable N'.

Context `{LX : !X25519Laws} `{LA : !AeadLaws}.

Definition carries root K cnt (jn : nat * nat) (mp : bytes * bytes) : Prop :=
  seal_message (msg_key (chain_of root K jn.1) jn.2) (header_of K cnt jn.1 jn.2) mp.2 = Ok mp.1
  ∧ vec_ok mp.1.

Record net_inv root K (cnt : nat → nat) (lv rv : side → nat) (fl : side → list (nat * nat))
    (N : net) : Prop := {
  i_party s : party root K cnt (fl s) (lv s) (rv s) (session (ends N s));
  i_adj s : lv s = S (lv (other s)) ∨ lv (other s) = S (lv s);
  i_flight s j n : (j, n) ∈ fl s →
    (1 <= j <= lv (other s))%nat ∧ Nat.even j = Nat.even (lv (other s)) ∧ (n < cnt j)%nat;
  i_msgs s : Forall2 (carries root K cnt) (fl s) (inbox (ends N s));
  i_nodup s : NoDup (fl s);
  i_recv s j : lv s = S j → (rv s <= cnt j)%nat;
  i_cnt j : Z.of_nat (cnt j) <= u32_max;
  i_zero j s : (lv s < j)%nat → (lv (other s) < j)%nat → cnt j = 0%nat;
  i_keys s : distinct_keys K (lv s);
  i_used s i : (i <= lv s)%nat → public_key (K i) ∈ used N;
}.

Lemma net_inv_init root prekey rnd :
  public_key (X25519SecretKey_generate rnd) ≠ public_key prekey →
  let K i := match i with O => prekey | S _ => X25519SecretKey_generate rnd end in
  net_inv root K (λ _, 0%nat) (λ s, match s with Alice => 1%nat | Bob => 0%nat end)
    (λ _, 0%nat) (λ _, []) (net_init root prekey rnd).
Proof.
  intros Hne K. split.
  - intros []; [by apply (initiator_party root K)|apply (responder_party root K)].
  - intros []; cbn; lia.
  - by intros s j n H%not_elem_of_nil.
  - intros []; by constructor.
  - intros s. apply NoDup_nil_2.
  - done.
  - unfold u32_max. lia.
  - done.
  - intros s i j Hi Hj E%X25519PublicKey_to_bytes_inj.
    destruct s, i as [|[|]], j as [|[|]]; try lia; cbn in E; by rewrite E in Hne.
  - intros s i Hi. destruct s, i as [|[|]]; try lia; cbn; set_solver.
Qed.
Lemma update_eq {A} (f : side → A) s a : update f s a s = a.
Proof. unfold update. by rewrite decide_True. Qed.

Lemma update_other {A} (f : side → A) s a : update f s a (other s) = f (other s).
Proof. unfold update. rewrite decide_False; [done|apply other_ne]. Qed.

Lemma update_back {A} (f : side → A) s a : update f (other s) a s = f s.
Proof. unfold update. rewrite decide_False; [done|by destruct s]. Qed.

Lemma Forall2_mono_in {A B} (P Q : A → B → Prop) l k :
  Forall2 P l k → (∀ x y, x ∈ l → P x y → Q x y) → Forall2 Q l k.
Proof. induction 1; intros HPQ; constructor; set_solver. Qed.

Lemma other_other s : other (other s) = s.
Proof. by destruct s. Qed.

(** Two goals for a statement about every side: [s] and [other s]. *)
Lemma sides (P : side → Prop) s : P s → P (other s) → ∀ s', P s'.
Proof. by intros ? ? s'; destruct s, s'. Qed.

Ltac by_side s :=
  let s' := fresh "s" in intros s'; pattern s'; revert s'; apply (sides _ s); cbv beta.

Definition bump (cnt : nat → nat) (l : nat) : nat → nat :=
  λ i, if (i =? l)%nat then S (cnt l) else cnt i.

Lemma bump_eq cnt l : bump cnt l l = S (cnt l).
Proof. unfold bump. by rewrite Nat.eqb_refl. Qed.

Lemma bump_ne cnt l i : i ≠ l → bump cnt l i = cnt i.
Proof. intros. unfold bump. by rewrite (proj2 (Nat.eqb_neq i l)). Qed.

Lemma prev_count_bump cnt l j : j ≠ S (S l) → prev_count (bump cnt l) j = prev_count cnt j.
Proof. intros. destruct j as [|[|j]]; cbn; [done..|]. apply bump_ne. lia. Qed.

Lemma carries_bump root K cnt l jn mp :
  jn.1 ≠ S (S l) → carries root K cnt jn mp → carries root K (bump cnt l) jn mp.
Proof.
  intros Hj [? ?]. unfold carries, header_of. by rewrite prev_count_bump.
Qed.

Lemma party_send root K cnt flight l r st pt m st' :
  party root K cnt flight l r st → ns st < u32_max →
  encrypt pt st = (Ok m, st') → vec_ok m →
  (1 <= l)%nat ∧ carries root K cnt (l, cnt l) (m, pt) ∧
  party root K (bump cnt l) flight l r st'.
Proof.
  intros Hp Hns He Hv. pose proof Hp as [? Hpub ? ? Hcks ? Hcn ? Hpn ? ? ?].
  rewrite encrypt_eq, Hcks in He. destruct l as [|l]; [done|]. injection He as He <-.
  split; [lia|]. split.
  - split; [|done]. cbn [fst snd]. rewrite <-He. unfold msg_key, header_of, next_header.
    by rewrite Hpub, Hcn, Hpn.
  - split; cbn [set_sending dhs dhs_pub dhr rk cks ckr ns nr pn skipped]; try done.
    + by rewrite bump_eq, chain_key_S.
    + rewrite bump_eq, Hcn. unfold wrap32. rewrite Z.mod_small; unfold u32_max in *; lia.
    + by rewrite prev_count_bump by lia.
Qed.

Lemma net_inv_send root K cnt lv rv fl N s pt m st' :
  net_inv root K cnt lv rv fl N →
  ns (session (ends N s)) < u32_max → encrypt pt (session (ends N s)) = (Ok m, st') → vec_ok m →
  net_inv root K (bump cnt (lv s)) lv rv (update fl (other s) (fl (other s) ++ [(lv s, cnt (lv s))]))
    {| ends := update (update (ends N) s {| session := st'; inbox := inbox (ends N s) |})
         (other s) {| session := session (ends N (other s));
                      inbox := inbox (ends N (other s)) ++ [(m, pt)] |};
       used := used N |}.
Proof.
  intros [Hp Hadj Hfl Hms Hnd Hrc Hcnt Hz HD Hu] Hns He Hv.
  destruct (party_send _ _ _ _ _ _ _ _ _ _ (Hp s) Hns He Hv) as (Hl & Hcar & Hps).
  pose proof (Hadj s) as Ha. split; cbn [ends used]; [..|done|done].
  - by_side s.
    + by rewrite !update_back, update_eq.
    + rewrite !update_eq. cbn [session]. eapply party_flight, party_cnt, Hp.
      * intros j n [H|[= -> ->]%list_elem_of_singleton]%elem_of_app Hpa; [done|].
        exfalso. unfold passed in Hpa. pose proof (Hrc (other s) (lv s)). lia.
      * apply bump_ne. lia.
      * apply prev_count_bump. lia.
  - done.
  - assert (∀ j n, (n < cnt j)%nat → (n < bump cnt (lv s) j)%nat) as Hb.
    { intros j n. unfold bump. destruct (Nat.eqb_spec j (lv s)); subst; lia. }
    by_side s.
    + rewrite update_back. intros j n H. apply Hfl in H as (? & ? & ?). auto.
    + rewrite update_eq, other_other.
      intros j n [H|[= -> ->]%list_elem_of_singleton]%elem_of_app.
      * apply Hfl in H as (? & ? & ?). rewrite other_other in *. auto.
      * rewrite bump_eq. split_and!; [lia..|done|lia].
  - by_side s.
    + rewrite !update_back, update_eq. cbn [inbox].
      eapply Forall2_mono_in; [apply Hms|]. intros [j n] mp Hin. apply carries_bump. cbn.
      apply Hfl in Hin. lia.
    + rewrite !update_eq. cbn [inbox]. apply Forall2_app; [|constructor; [|done]].
      * eapply Forall2_mono_in; [apply Hms|]. intros [j n] mp Hin. apply carries_bump. cbn.
        apply Hfl in Hin. rewrite other_other in Hin. lia.
      * apply carries_bump; [cbn; lia|done].
  - by_side s; [by rewrite update_back|]. rewrite update_eq. apply NoDup_app.
    split_and!; [done| |apply NoDup_singleton].
    intros [j n] Hin [= -> ->]%list_elem_of_singleton. apply Hfl in Hin. lia.
  - intros s' j Hj. specialize (Hrc s' j Hj). unfold bump. destruct (Nat.eqb_spec j (lv s)); subst; lia.
  - intros j. specialize (Hcnt j). unfold bump. pose proof (Hp s) as [? ? ? ? ? ? Hn ? ? ? ? ?].
    destruct (Nat.eqb_spec j (lv s)); subst; lia.
  - intros j s' H1 H2. rewrite bump_ne; [by apply (Hz j s')|]. destruct s, s'; cbn in *; lia.
Qed.
(** Removing the entry of a message from the ghost list. *)
Lemma remove_flight fl1 jn fl2 (j n : nat) :
  NoDup (fl1 ++ jn :: fl2) → (j, n) ∈ fl1 ++ fl2 → (j, n) ∈ fl1 ++ jn :: fl2 ∧ (j, n) ≠ jn.
Proof.
  intros Hnd Hin. split; [set_solver|]. intros <-.
  rewrite <-Permutation_middle, NoDup_cons in Hnd. by destruct Hnd.
Qed.

Lemma NoDup_remove (fl1 fl2 : list (nat * nat)) jn : NoDup (fl1 ++ jn :: fl2) → NoDup (fl1 ++ fl2).
Proof. rewrite <-Permutation_middle, NoDup_cons. by intros [_ ?]. Qed.

Lemma net_inv_flight_ok root K cnt lv rv fl N s :
  net_inv root K cnt lv rv fl N → flight_ok cnt (fl s) (lv s).
Proof.
  intros HI j n Hin. destruct (i_flight _ _ _ _ _ _ _ HI s j n Hin) as (Hj & He & Hn).
  pose proof (i_adj _ _ _ _ _ _ _ HI s) as Ha. split_and!; [lia..| |done].
  intros ->. destruct Ha as [E|E]; rewrite E in He; revert He; rewrite Nat.even_succ, <-Nat.negb_even;
    by destruct (Nat.even _).
Qed.

Lemma fresh_keys root K cnt lv rv fl N rnd s i :
  net_inv root K cnt lv rv fl N → fresh N rnd → (i <= lv s)%nat →
  pub_bytes K i ≠ X25519PublicKey_to_bytes (public_key (X25519SecretKey_generate rnd)).
Proof.
  intros HI Hf Hi E%X25519PublicKey_to_bytes_inj. apply Hf. rewrite <-E.
  by eapply (i_used _ _ _ _ _ _ _ HI).
Qed.

(** The message at any place of an inbox decrypts, and the invariant holds of
    what is left. *)
Lemma net_inv_receive root K cnt lv rv fl N s before m pt after rnd :
  net_inv root K cnt lv rv fl N →
  inbox (ends N s) = before ++ (m, pt) :: after →
  in_limits (session (ends N s)) m → fresh N rnd →
  ∃ fl1 j n fl2 K' l' r' st',
    fl s = fl1 ++ (j, n) :: fl2 ∧
    decrypt rnd m (session (ends N s)) = (Ok pt, st') ∧
    party root K' cnt (fl1 ++ fl2) l' r' st' ∧
    Forall2 (carries root K cnt) (fl1 ++ fl2) (before ++ after) ∧
    (K' = K ∧ l' = lv s ∨
     lv (other s) = S (lv s) ∧ l' = S (S (lv s)) ∧
     K' = extend K (S (S (lv s))) (X25519SecretKey_generate rnd)) ∧
    (∀ i, l' = S i → (r' <= cnt i)%nat).
Proof.
  intros HI Hin Hlim Hfr. pose proof (net_inv_flight_ok _ _ _ _ _ _ _ s HI) as HF.
  pose proof HI as [Hp Hadj Hfl Hms Hnd Hrc Hcnt Hz HD Hu].
  pose proof (Hms s) as Hm. rewrite Hin in Hm.
  apply Forall2_app_inv_r in Hm as (fl1 & rest & Hm1 & Hm2 & Hfs).
  apply Forall2_cons_inv_r in Hm2 as ([j n] & fl2 & Hc & Hm2 & ->).
  destruct Hc as [Hseal Hv]. cbn [fst snd] in Hseal, Hv.
  assert ((j, n) ∈ fl s) as Hjn by (rewrite Hfs; set_solver).
  destruct (HF _ _ Hjn) as (Hj & Hjl & Hn). destruct (Hfl _ _ _ Hjn) as (Hj' & _ & _).
  assert (capacity (session (ends N s)) (header_of K cnt j n)) as Hcap.
  { unfold in_limits in Hlim.
    destruct (open_mk_seal _ _ _ _ (header_of_ok K cnt j n Hcnt ltac:(specialize (Hcnt j); lia))
      Hseal Hv) as (ct & Hpm & _). by rewrite Hpm in Hlim. }
  assert (∃ s0, (lv s <= lv s0)%nat ∧ (lv (other s) <= lv s0)%nat) as (s0 & Hs0 & Ho0)
    by (destruct (Hadj s); [exists s|exists (other s)]; lia).
  destruct (receive_ok root (lv s0) K cnt (fl s) (lv s) (rv s) (session (ends N s)) rnd j n m pt)
    as (K' & l' & r' & st' & Hd & Hp' & HK & Hr); try done; [lia| | |].
  { apply (Hz _ s); [lia|]. destruct (Hadj s); lia. }
  { intros i Hi. by eapply fresh_keys. }
  exists fl1, j, n, fl2, K', l', r', st'. rewrite Hfs in *. split_and!; [done|done| | | |].
  - apply Hp'. intros i k. by apply remove_flight; rewrite <-Hfs.
  - by apply Forall2_app.
  - destruct HK as [?|(-> & ? & ?)]; [by left|right]. split_and!; [|done..]. destruct (Hadj s); lia.
  - intros i ->. destruct Hr as [[E ->]|[[= ->] ->]]; [by apply (Hrc s)|lia].
Qed.
Lemma carries_ext root K K' cnt jn mp :
  (∀ i, (i <= jn.1)%nat → K i = K' i) → carries root K cnt jn mp → carries root K' cnt jn mp.
Proof.
  intros HK [H1 H2]. split; [|done]. unfold header_of.
  by rewrite <-HK, <-(chain_of_ext root K K') by done.
Qed.

Lemma net_inv_deliver root K cnt lv rv fl N s before m pt after rnd res st' :
  net_inv root K cnt lv rv fl N →
  inbox (ends N s) = before ++ (m, pt) :: after →
  in_limits (session (ends N s)) m → fresh N rnd →
  decrypt rnd m (session (ends N s)) = (res, st') →
  ∃ K' lv' rv' fl', net_inv root K' cnt lv' rv' fl'
    {| ends := update (ends N) s {| session := st'; inbox := before ++ after |};
       used := public_key (X25519SecretKey_generate rnd) :: used N |}.
Proof.
  intros HI Hin Hlim Hfr Hdec.
  destruct (net_inv_receive _ _ _ _ _ _ _ _ _ _ _ _ _ HI Hin Hlim Hfr)
    as (fl1 & j & n & fl2 & K' & l' & r' & st1 & Hfs & Hd & Hp' & Hms' & HK & Hr).
  rewrite Hdec in Hd. injection Hd as -> ->.
  pose proof HI as [Hp Hadj Hfl Hms Hnd Hrc Hcnt Hz HD Hu]. pose proof (Hadj s) as Ha.
  assert (∀ i, (i <= lv s)%nat ∨ (i <= lv (other s))%nat → K i = K' i) as HKe.
  { destruct HK as [[-> _]|(E & _ & ->)]; [done|]. intros i Hi. rewrite extend_lt; [done|lia]. }
  assert ((lv s <= l')%nat ∧ Nat.even l' = Nat.even (lv s)) as [Hll Hev].
  { destruct HK as [[_ ->]|(_ & -> & _)]; split; [lia|done|lia|done]. }
  assert (∀ i k, (i, k) ∈ fl1 ++ fl2 → (i, k) ∈ fl s) as Hsub by (rewrite Hfs; set_solver).
  exists K', (update lv s l'), (update rv s r'), (update fl s (fl1 ++ fl2)).
  split; cbn [ends used].
  - by_side s; [by rewrite !update_eq|]. rewrite !update_other.
    eapply party_ext; [|apply Hp]. auto.
  - by_side s; rewrite ?other_other, !update_eq, !update_other; destruct HK as [[_ ->]|(? & -> & _)]; lia.
  - by_side s.
    + rewrite update_eq, update_other. intros i k Hik%Hsub. by apply Hfl.
    + rewrite update_other, other_other, update_eq. intros i k Hik. apply Hfl in Hik.
      rewrite other_other in Hik. rewrite Hev. split; [lia|apply Hik].
  - by_side s.
    + rewrite !update_eq. cbn [inbox]. eapply Forall2_mono_in; [apply Hms'|].
      intros [i k] mp Hik%Hsub%Hfl. apply carries_ext. cbn. intros. apply HKe. lia.
    + rewrite !update_other. eapply Forall2_mono_in; [apply Hms|].
      intros [i k] mp Hik%Hfl. rewrite other_other in Hik. apply carries_ext. cbn. intros. apply HKe. lia.
  - by_side s; [rewrite update_eq; eapply NoDup_remove; by rewrite <-Hfs|by rewrite update_other].
  - by_side s; [by rewrite !update_eq|]. rewrite !update_other. apply Hrc.
  - done.
  - intros i. by_side s; rewrite ?other_other, ?update_eq, ?update_other; intros; apply (Hz i s); lia.
  - by_side s; rewrite ?update_eq, ?update_other.
    + destruct HK as [[-> ->]|(E & -> & ->)]; [done|].
      apply distinct_keys_extend; [rewrite <-E; apply HD|]. intros i Hi.
      eapply (fresh_keys _ _ _ _ _ _ _ _ (other s)); [done|done|lia].
    + intros i k Hi Hk. unfold pub_bytes. rewrite <-!HKe by auto. by apply (HD (other s)).
  - by_side s; rewrite ?update_eq, ?update_other; intros i Hi.
    + destruct HK as [[-> ->]|(E & -> & ->)]; [apply list_elem_of_further; by eapply Hu|].
      destruct (decide (i = S (S (lv s)))) as [->|]; [rewrite extend_eq; apply list_elem_of_here|].
      rewrite extend_lt by lia. apply list_elem_of_further, (Hu (other s)). lia.
    + rewrite <-HKe by auto. apply list_elem_of_further. by eapply Hu.
Qed.

Lemma net_inv_drop root K cnt lv rv fl N s before m pt after :
  net_inv root K cnt lv rv fl N → inbox (ends N s) = before ++ (m, pt) :: after →
  ∃ fl', net_inv root K cnt lv rv fl'
    {| ends := update (ends N) s {| session := session (ends N s); inbox := before ++ after |};
       used := used N |}.
Proof.
  intros [Hp Hadj Hfl Hms Hnd Hrc Hcnt Hz HD Hu] Hin. pose proof (Hms s) as Hm. rewrite Hin in Hm.
  apply Forall2_app_inv_r in Hm as (fl1 & rest & Hm1 & Hm2 & Hfs).
  apply Forall2_cons_inv_r in Hm2 as (jn & fl2 & _ & Hm2 & ->).
  assert (∀ i k, (i, k) ∈ fl1 ++ fl2 → (i, k) ∈ fl s) as Hsub by (rewrite Hfs; set_solver).
  exists (update fl s (fl1 ++ fl2)). split; cbn [ends used]; try done.
  - by_side s; rewrite ?update_eq, ?update_other; [|done].
    eapply party_flight; [|apply Hp]. auto.
  - by_side s; rewrite ?update_eq, ?update_other; [|apply Hfl]. intros i k Hik%Hsub. by apply Hfl.
  - by_side s; rewrite ?update_eq, ?update_other; [by apply Forall2_app|done].
  - by_side s; rewrite ?update_eq, ?update_other; [|done]. eapply NoDup_remove. by rewrite <-Hfs.
Qed.

Lemma net_reachable_inv N :
  net_reachable N → ∃ root K cnt lv rv fl, net_inv root K cnt lv rv fl N.
Proof.
  induction 1 as [root prekey rnd Hne|N N' _ (root & K & cnt & lv & rv & fl & HI) Hs].
  { eexists _, _, _, _, _, _. by apply net_inv_init. }
  exists root. destruct Hs as [s pt m st' Hns He Hv|s before m pt after rnd res st' Hin Hl Hf Hd|
                              s before m pt after Hin].
  - eexists _, _, _, _, _. by eapply net_inv_send.
  - destruct (net_inv_deliver _ _ _ _ _ _ _ _ _ _ _ _ _ _ _ HI Hin Hl Hf Hd)
      as (K' & lv' & rv' & fl' & HI'). eauto 10.
  - destruct (net_inv_drop _ _ _ _ _ _ _ _ _ _ _ _ HI Hin) as (fl' & HI'). eauto 10.
Qed.

(** C2: a conversation over a network that reorders, delays and loses messages
    but does not replay or forge them.  In every state two sessions can reach
    from [initiator] and [responder] by sending, receiving and losing messages
    in any interleaving, with DH turns in both directions, any message still
    on its way decrypts to exactly the plaintext that was encrypted, provided
    the receiver's limits on skipped keys allow it and the ratchet key drawn
    for a possible DH turn is a new one. *)
Theorem every_message_decrypts N s before m pt after rnd :
  net_reachable N →
  inbox (ends N s) = before ++ (m, pt) :: after →
  in_limits (session (ends N s)) m → fresh N rnd →
  (decrypt rnd m (session (ends N s))).1 = Ok pt.
Proof.
  intros (root & K & cnt & lv & rv & fl & HI)%net_reachable_inv Hin Hl Hf.
  destruct (net_inv_receive _ _ _ _ _ _ _ _ _ _ _ _ _ HI Hin Hl Hf)
    as (fl1 & j & n & fl2 & K' & l' & r' & st1 & Hfs & Hd & _). by rewrite Hd.
Qed.
End Network.

(** *** The first message of a conversation *)

Section FirstFlight.
Context `{PF : Platform} `{PR : Primitives} `{LX : !X25519Laws} `{LA : !AeadLaws}.

Lemma first_encrypt root remote rnd pt :
  blen pt < AEAD_MAX_LEN →
  ∃ m st', encrypt pt (initiator root remote rnd) = (Ok m, st') ∧ blen m <= 148 + blen pt ∧
    ∃ ct, m = encode (with_field (header_frame (next_header (initiator root remote rnd))) TAG_CIPHERTEXT ct).
Proof.
  intros Hl. rewrite encrypt_eq. unfold initiator. destruct (kdf_rk _ _) as [rk ck]. cbn [cks].
  set (st := Build_RatchetState _ _ _ _ _ _ _ _ _ _). unfold seal_message, seal.
  destruct (aead_seal_total (message_keys (kdf_ck ck).2).1 (message_keys (kdf_ck ck).2).2
    (to_aad (next_header st)) pt Hl) as [ct Hct]. rewrite Hct. cbn [ok_or rbind].
  eexists _, _. split; [done|]. apply aead_seal_length in Hct. split; [|by eexists].
  etransitivity; [apply blen_encode_le|]. unfold frame_size, header_frame.
  cbn [with_field fields Frame_new app foldr value]. rewrite Hct.
  unfold blen at 1, X25519PublicKey_to_bytes. rewrite xp_length, !blen_be_bytes. lia.
Qed.

(** The responder opens the initiator's first message. *)
Lemma first_decrypt root prekey rnd rnd' pt m st' :
  public_key (X25519SecretKey_generate rnd) ≠ public_key prekey →
  public_key (X25519SecretKey_generate rnd') ∉ [public_key (X25519SecretKey_generate rnd); public_key prekey] →
  encrypt pt (initiator root (public_key prekey) rnd) = (Ok m, st') → vec_ok m →
  (∃ ct, m = encode (with_field (header_frame (next_header (initiator root (public_key prekey) rnd)))
                       TAG_CIPHERTEXT ct)) →
  (decrypt rnd' m (responder root prekey)).1 = Ok pt.
Proof.
  intros Hne Hfr He Hv [ct Hm].
  assert (header_ok (next_header (initiator root (public_key prekey) rnd))) as Hh.
  { unfold next_header, initiator. destruct (kdf_rk _ _). split; cbn; apply is_u32_0. }
  destruct (net_reachable_inv {| ends := update (update (ends (net_init root prekey rnd)) Alice
       {| session := st'; inbox := [] |}) Bob {| session := responder root prekey; inbox := [] ++ [(m, pt)] |};
       used := used (net_init root prekey rnd) |}) as (r & K & cnt & lv & rv & fl & HI).
  { apply net_next with (net_init root prekey rnd); [by apply net_start|].
    apply (net_send (net_init root prekey rnd) Alice pt m st'); [|done|done].
    cbn [net_init ends session]. unfold initiator. destruct (kdf_rk _ _). done. }
  edestruct (net_inv_receive _ _ _ _ _ _ _ Bob [] m pt [] rnd' HI) as (? & ? & ? & ? & ? & ? & ? & ? & _ & Hd & _).
  - done.
  - cbn [ends]. rewrite update_eq. cbn [session]. unfold in_limits. rewrite Hm, parse_message_encode by (done || by rewrite <-Hm).
    unfold capacity, responder. cbn [skipped dhr ckr]. rewrite lookup_empty.
    rewrite bool_decide_false by done. rewrite map_size_empty.
    unfold next_header, initiator. destruct (kdf_rk _ _). cbn [h_n ns]. unfold MAX_SKIP, MAX_STORED_SKIPPED. lia.
  - done.
  - cbn [ends] in Hd. rewrite update_eq in Hd. cbn [session] in Hd. by rewrite Hd.
Qed.
End FirstFlight.

(** *** A concrete run: Alice sends two messages, the second arrives first *)

Module Sample.
#[local] Existing Instance model_primitives.

Definition prekey : X25519SecretKey := X25519SecretKey_generate (repeat Byte.x07 32).
Definition root : bytes := repeat Byte.x01 32.
Definition rndA : bytes := repeat Byte.x02 32.
Definition rndB : bytes := repeat Byte.x03 32.
Definition p0 : bytes := bstr "hello".
Definition p1 : bytes := bstr "world".

Definition message (p : bytes) (st : RatchetState) : bytes :=
  match (encrypt p st).1 with Ok m => m | Err _ => [] end.

Lemma message_ok p st :
  is_ok (encrypt p st).1 = true → encrypt p st = (Ok (message p st), (encrypt p st).2).
Proof. unfold message. by destruct (encrypt p st) as [[]]. Qed.

Definition a0 : RatchetState := initiator root (public_key prekey) rndA.
Definition m0 : bytes := message p0 a0.
Definition a1 : RatchetState := (encrypt p0 a0).2.
Definition m1 : bytes := message p1 a1.
Definition a2 : RatchetState := (encrypt p1 a1).2.

Definition N0 : net := net_init root prekey rndA.
Definition N1 : net :=
  {| ends := update (update (ends N0) Alice {| session := a1; inbox := [] |})
       Bob {| session := responder root prekey; inbox := [] ++ [(m0, p0)] |};
     used := used N0 |}.
Definition N2 : net :=
  {| ends := update (update (ends N1) Alice {| session := a2; inbox := [] |})
       Bob {| session := responder root prekey; inbox := [(m0, p0)] ++ [(m1, p1)] |};
     used := used N1 |}.

Lemma N2_reachable : net_reachable N2.
Proof.
  apply net_next with N1.
  - apply net_next with N0.
    + apply net_start. intros E%(f_equal (λ p, hd0 (X25519PublicKey_to_bytes p))). by vm_compute in E.
    + apply (net_send N0 Alice p0 m0 a1); [by vm_compute|apply message_ok; by vm_compute|].
      vm_compute. discriminate.
  - apply (net_send N1 Alice p1 m1 a2); [by vm_compute|apply message_ok; by vm_compute|].
    vm_compute. discriminate.
Qed.

Lemma fresh_rndB : fresh N2 rndB.
Proof.
  intros [E|[E|E%elem_of_nil]%elem_of_cons]%elem_of_cons; [..|done];
    apply (f_equal (λ p, hd0 (X25519PublicKey_to_bytes p))) in E; by vm_compute in E.
Qed.

Lemma m1_in_limits : in_limits (session (ends N2 Bob)) m1.
Proof. unfold in_limits. vm_compute. repeat split; discriminate. Qed.
End Sample.

Lemma every_message_decrypts_witness :
  (decrypt Sample.rndB Sample.m1 (session (ends Sample.N2 Bob))).1 = Ok Sample.p1.
Proof.
  exact (every_message_decrypts Sample.N2 Bob [(Sample.m0, Sample.p0)] Sample.m1 Sample.p1 []
           Sample.rndB Sample.N2_reachable eq_refl Sample.m1_in_limits Sample.fresh_rndB).
Defined.
