(* ===== verification/RatchetTheorems.v ===== *)
(** * Properties of the ratchet as its callers see it

    Bounds and well-formedness under arbitrary calls, persistence, the limits
    on skipping, and what a rejected message does to a session. *)

From S2P Require Import Prelude.
From S2P Require Import Wire.
From S2P Require Import Keys.
From S2P Require Import Ratchet.
From S2P Require Import RatchetPersist.
From S2P Require Import RatchetSpec.
From S2P Require Import RatchetDelivery.
From S2P Require Import ModelCrypto.

Section Claims.
Context `{PF : Platform} `{PR : Primitives} `{LX : !X25519Laws} `{LH : !HkdfLaws}.

(** C11: whatever messages, plaintexts, random draws and stored blobs a session
    is fed with, and whether the calls succeed or fail, it stays well formed:
    the public ratchet key belongs to the secret one, all keys have 32 bytes,
    the counters fit in a [u32], and at most [MAX_STORED_SKIPPED] keys are
    retained. *)
Theorem session_stays_well_formed st : session_reachable st → ratchet_wf st.
Proof. apply session_reachable_wf. Qed.

(** C12: persisting a session and restoring it gives back the same session,
    for every session a program can hold. *)
Theorem session_blob_roundtrip st : session_reachable st → from_bytes (to_bytes st) = Ok st.
Proof. intros H. by apply from_bytes_to_bytes, session_reachable_wf. Qed.

(** the blob does not depend on the iteration order of the [HashMap]: any
    enumeration [l] of the skipped keys serialises to the same bytes. *)
Theorem session_blob_canonical st l :
  l ≡ₚ map_to_list (skipped st) → to_bytes_from l st = to_bytes st.
Proof.
  intros Hp. unfold to_bytes, to_bytes_from. rewrite (merge_sort_canonical _ _ Hp).
  by replace (blen l) with (blen (map_to_list (skipped st))) by (unfold blen; by rewrite Hp).
Qed.

(** inputs refused before any key is derived leave the session untouched:
    bytes that do not parse as a message, a message on the current chain more
    than [MAX_SKIP] ahead, and encryption before a sending chain exists. *)
Theorem early_rejection_changes_nothing st rnd m h ct pt :
  (∀ e, parse_message m = Err e → decrypt rnd m st = (Err e, st)) ∧
  (parse_message m = Ok (h, ct) → dhr st = Some (h_dh h) → is_Some (ckr st) →
   skipped st !! (X25519PublicKey_to_bytes (h_dh h), h_n h) = None →
   Z.min (nr st + MAX_SKIP) u32_max < h_n h →
   decrypt rnd m st = (Err (Ratchet "too many skipped messages"), st)) ∧
  (cks st = None → encrypt pt st = (Err (Ratchet "no sending chain yet"), st)).
Proof.
  split_and!.
  - intros e He. by rewrite decrypt_eq, He.
  - intros Hm Hd [ck Hc] Hs Hn. rewrite decrypt_eq, Hm. cbv zeta. rewrite Hs, turn_if_new_eq, Hd.
    rewrite bool_decide_true by done. unfold skip_message_keys. rewrite Hd, Hc.
    by rewrite (proj2 (Z.ltb_lt _ _) Hn).
  - intros Hc. by rewrite encrypt_eq, Hc.
Qed.

(** skipping is exact: [skip_message_keys until] on a session whose
    receiving chain has passed [n] messages stores the keys of messages
    [n], ..., [until - 1] and no others, and leaves the chain at [until]. *)
Theorem skip_stores_exactly st d c n u :
  dhr st = Some d → ckr st = Some (chain_key c n) → nr st = Z.of_nat n →
  (n <= u)%nat → Z.of_nat u <= Z.of_nat n + MAX_SKIP → Z.of_nat u <= u32_max →
  Z.of_nat (size (skipped st) + (u - n)) <= MAX_STORED_SKIPPED →
  ∃ st', skip_message_keys (Z.of_nat u) st = (Ok tt, st') ∧
    ckr st' = Some (chain_key c u) ∧ nr st' = Z.of_nat u ∧
    (∀ j, (n <= j < u)%nat →
      skipped st' !! (X25519PublicKey_to_bytes d, Z.of_nat j) = Some (msg_key c j)) ∧
    (∀ d' i, d' ≠ X25519PublicKey_to_bytes d ∨ i < Z.of_nat n ∨ Z.of_nat u <= i →
      skipped st' !! (d', i) = skipped st !! (d', i)).
Proof.
  intros Hd Hc Hn Hle Hmax Hu Hs. eexists.
  split; [apply (skip_message_keys_ok d c n u st Hd Hc Hn); [done|lia|done]|].
  replace (max n u) with u by lia. cbn. split_and!; [done..| |].
  - intros j Hj. apply bank_in. lia.
  - intros d' i Hi. apply bank_out. by replace (n + (u - n))%nat with u by lia.
Qed.

Lemma skip_message_keys_noop u st :
  u <= nr st → nr st <= u32_max → skip_message_keys u st = (Ok tt, st).
Proof.
  intros Hu Hm. unfold skip_message_keys. destruct (dhr st); [|done]. destruct (ckr st); [|done].
  rewrite (proj2 (Z.ltb_ge _ _)) by (unfold MAX_SKIP; lia).
  by replace (Z.to_nat (u - nr st)) with 0%nat by lia.
Qed.

(** C39: a message for the current receiving chain whose index has already been
    passed and whose key is not stored (a replay, or a forgery) is tried with
    the key of the next message in line, and the chain is advanced whatever
    the AEAD answers: the key of that next message is gone. *)
Theorem stale_message_consumes_next_key st rnd m h ct c n :
  parse_message m = Ok (h, ct) → dhr st = Some (h_dh h) →
  ckr st = Some (chain_key c n) → nr st = Z.of_nat n → Z.of_nat n < u32_max → 0 <= h_n h <= Z.of_nat n →
  skipped st !! (X25519PublicKey_to_bytes (h_dh h), h_n h) = None →
  decrypt rnd m st
  = (open_mk (msg_key c n) (to_aad h) ct,
     set_receiving (chain_key c (S n)) (Z.of_nat (S n)) (skipped st) st).
Proof.
  intros Hm Hd Hc Hn Hu Hh Hs. rewrite decrypt_eq, Hm. cbv zeta. rewrite Hs, turn_if_new_eq, Hd.
  rewrite bool_decide_true by done.
  rewrite skip_message_keys_noop by (rewrite Hn; unfold u32_max in *; lia).
  rewrite open_next_eq, Hc, Hn. unfold wrap32. rewrite Z.mod_small by (unfold u32_max in *; lia).
  by rewrite <-chain_key_S, Nat2Z.inj_succ.
Qed.

(** when the store of skipped keys is full, the call fails after the
    receiving chain has moved one step but before the counter has: from then
    on the key derived for message [n] of the chain is the one the sender used
    for message [n + 1]. *)
Theorem full_store_shifts_chain st d c n u :
  dhr st = Some d → ckr st = Some (chain_key c n) → nr st = Z.of_nat n →
  Z.of_nat n < u <= Z.min (Z.of_nat n + MAX_SKIP) u32_max →
  MAX_STORED_SKIPPED <= Z.of_nat (size (skipped st)) →
  skip_message_keys u st
  = (Err (Ratchet "skipped-key store full"),
     set_receiving (chain_key c (S n)) (Z.of_nat n) (skipped st) st).
Proof.
  intros Hd Hc Hn Hu Hs. unfold skip_message_keys. rewrite Hd, Hc, Hn.
  rewrite (proj2 (Z.ltb_ge _ _)) by lia.
  destruct (Z.to_nat (u - Z.of_nat n)) as [|k] eqn:Ek; [lia|]. cbn [skip_loop].
  rewrite Hn, (proj2 (Z.ltb_lt _ _)) by lia. rewrite chain_key_S.
  destruct (kdf_ck (chain_key c n)) as [next mk] eqn:E.
  by rewrite (proj2 (Z.leb_le _ _) Hs).
Qed.
Lemma parse_message_flags h ct fl :
  header_ok h → is_u64 fl → vec_ok ct →
  let m := with_flags (with_field (header_frame h) TAG_CIPHERTEXT ct) fl in
  vec_ok (encode m) → parse_message (encode m) = Ok (h, ct).
Proof.
  intros [Hpn Hn] Hfl Hct m Hv. unfold parse_message.
  destruct (message_frame_ok h ct Hct) as [_ Hfs].
  rewrite decode_encode; [|split; [by cbn; rewrite Z.lor_0_l|done]|done].
  cbn [wire_err map_err rbind]. unfold require, get. cbn. rewrite X25519PublicKey_roundtrip. cbn.
  rewrite !read_u32_be by done. cbn. by destruct h.
Qed.

(** the capability flags of a ratchet message are not authenticated: the
    receiver treats a message whose flags were rewritten in transit exactly
    like the original. *)
Theorem message_flags_are_ignored h ct fl rnd st :
  header_ok h → is_u64 fl →
  let m := with_field (header_frame h) TAG_CIPHERTEXT ct in
  vec_ok (encode m) → vec_ok (encode (with_flags m fl)) →
  decrypt rnd (encode (with_flags m fl)) st = decrypt rnd (encode m) st.
Proof.
  intros Hh Hfl m Hv Hv'. rewrite !decrypt_eq.
  assert (vec_ok ct) as Hct.
  { eapply vec_ok_le; [|exact Hv].
    apply (field_in_encode m {| tag := TAG_CIPHERTEXT; value := ct |}). cbn. set_solver. }
  pose proof (parse_message_flags h ct fl Hh Hfl Hct Hv') as H1.
  pose proof (parse_message_encode h ct Hh Hv) as H2.
  fold m in H1, H2. by rewrite H1, H2.
Qed.
End Claims.

(** ** Concrete sessions *)

Module Runs.
Import Sample.
#[local] Existing Instance model_primitives.

Definition b0 : RatchetState := responder root prekey.
Definition b1 : RatchetState := (decrypt rndB m0 b0).2.

(** A forged message: a ratchet key of the attacker's, and no valid ciphertext. *)
Definition forged : bytes :=
  encode (with_field (header_frame {| h_dh := public_key (X25519SecretKey_generate (repeat Byte.x99 32));
                                      h_pn := 0; h_n := 0 |}) TAG_CIPHERTEXT (repeat Byte.x00 16)).

Definition full_store : gmap (bytes * Z) bytes :=
  list_to_map ((λ i, ((repeat Byte.x02 32, Z.of_nat i), repeat Byte.x00 32)) <$> seq 0 2000).

Definition two_keys : gmap (bytes * Z) bytes :=
  <[(repeat Byte.x02 32, 0) := repeat Byte.x0a 32]>
  {[(repeat Byte.x03 32, 7) := repeat Byte.x0b 32]}.

(** Bob with the receiving chain of [b1] and a store of the given content. *)
Definition with_store (m : gmap (bytes * Z) bytes) : RatchetState :=
  {| dhs := prekey; dhs_pub := public_key prekey;
     dhr := Some (public_key (X25519SecretKey_generate rndA)); rk := root;
     cks := None; ckr := Some (chain_key root 1); ns := 0; nr := 1; pn := 0; skipped := m |}.

Definition header (n : Z) : Header :=
  {| h_dh := public_key (X25519SecretKey_generate rndA); h_pn := 0; h_n := n |}.

Definition message_of (n : Z) : bytes :=
  encode (with_field (header_frame (header n)) TAG_CIPHERTEXT (repeat Byte.x00 16)).

Lemma parse_message_of n :
  is_u32 n → vec_ok (message_of n) →
  parse_message (message_of n) = Ok (header n, repeat Byte.x00 16).
Proof. intros Hn Hv. apply parse_message_encode; [split; [by vm_compute|done]|done]. Qed.

Lemma b0_reachable : session_reachable b0.
Proof. by apply reach_responder. Qed.

Lemma b1_reachable : session_reachable b1.
Proof.
  apply reach_step with b0; [apply b0_reachable|].
  apply step_decrypt with rndB m0 (decrypt rndB m0 b0).1. apply surjective_pairing.
Qed.
End Runs.

(** replaying a delivered message at the [RatchetState] interface loses the
    next genuine one.  Alice sends two messages; Bob receives the first; the
    second then decrypts.  If the first is handed to Bob once more, it is
    refused, and after that the genuine second message is refused too. *)
Theorem replay_loses_next_message :
  ∃ (b : RatchetState (PR := model_primitives)) first second text,
    session_reachable b ∧
    (decrypt [] second b).1 = Ok text ∧
    (decrypt [] first b).1 = Err Aead ∧
    (decrypt [] second (decrypt [] first b).2).1 = Err Aead.
Proof.
  exists Runs.b1, Sample.m0, Sample.m1, Sample.p1.
  split; [apply Runs.b1_reachable|]. split_and!; by vm_compute.
Qed.

(** one forged message with a new ratchet key, though refused, makes the
    session lose the messages of the genuine peer. *)
Theorem forgery_turns_the_ratchet :
  ∃ (b : RatchetState (PR := model_primitives)) forged genuine text,
    session_reachable b ∧
    (decrypt [] genuine b).1 = Ok text ∧
    (decrypt [] forged b).1 = Err Aead ∧
    (decrypt [] genuine (decrypt [] forged b).2).1 = Err Aead.
Proof.
  exists Runs.b1, Runs.forged, Sample.m1, Sample.p1.
  split; [apply Runs.b1_reachable|]. split_and!; by vm_compute.
Qed.

(** ** Witnesses *)

Lemma session_stays_well_formed_witness : ratchet_wf Runs.b1.
Proof. exact (session_stays_well_formed Runs.b1 Runs.b1_reachable). Defined.

Lemma session_blob_roundtrip_witness : from_bytes (to_bytes Runs.b1) = Ok Runs.b1.
Proof. exact (session_blob_roundtrip Runs.b1 Runs.b1_reachable). Defined.

Lemma session_blob_canonical_witness :
  to_bytes_from (reverse (map_to_list Runs.two_keys)) (Runs.with_store Runs.two_keys)
  = to_bytes (Runs.with_store Runs.two_keys).
Proof.
  exact (session_blob_canonical (Runs.with_store Runs.two_keys) _
           (reverse_Permutation (map_to_list Runs.two_keys))).
Defined.

Lemma early_rejection_changes_nothing_witness :
  decrypt [] [] Runs.b0 = (Err (Keys.Wire UnexpectedEof), Runs.b0) ∧
  decrypt [] (Runs.message_of 1002) (Runs.with_store ∅)
  = (Err (Ratchet "too many skipped messages"), Runs.with_store ∅) ∧
  encrypt [] Runs.b0 = (Err (Ratchet "no sending chain yet"), Runs.b0).
Proof.
  split_and!.
  - exact (proj1 (early_rejection_changes_nothing Runs.b0 [] [] (Runs.header 0) [] []) _ eq_refl).
  - refine (proj1 (proj2 (early_rejection_changes_nothing (Runs.with_store ∅) []
      (Runs.message_of 1002) (Runs.header 1002) (repeat Byte.x00 16) [])) _ eq_refl _ eq_refl eq_refl).
    + by apply Runs.parse_message_of; vm_compute.
    + by eexists.
  - exact (proj2 (proj2 (early_rejection_changes_nothing Runs.b0 [] [] (Runs.header 0) [] [])) eq_refl).
Defined.

Lemma skip_stores_exactly_witness :
  ∃ st', skip_message_keys 3 (Runs.with_store ∅) = (Ok tt, st') ∧
    skipped st' !! (repeat Byte.x02 32, 2) = Some (msg_key Sample.root 2).
Proof.
  destruct (skip_stores_exactly (Runs.with_store ∅)
    (public_key (X25519SecretKey_generate Sample.rndA)) Sample.root 1 3
    eq_refl eq_refl eq_refl) as (st' & H1 & _ & _ & H2 & _); [lia|by vm_compute..|].
  exists st'. split; [exact H1|]. apply (H2 2%nat). lia.
Defined.

Lemma stale_message_consumes_next_key_witness :
  decrypt [] (Runs.message_of 0) (Runs.with_store ∅)
  = (open_mk (msg_key Sample.root 1) (to_aad (Runs.header 0)) (repeat Byte.x00 16),
     set_receiving (chain_key Sample.root 2) 2 ∅ (Runs.with_store ∅)).
Proof.
  refine (stale_message_consumes_next_key (Runs.with_store ∅) [] (Runs.message_of 0)
    (Runs.header 0) (repeat Byte.x00 16) Sample.root 1 _ eq_refl eq_refl eq_refl _ _ eq_refl).
  - by apply Runs.parse_message_of; vm_compute.
  - by vm_compute.
  - by vm_compute.
Defined.

Lemma full_store_shifts_chain_witness :
  skip_message_keys 5 (Runs.with_store Runs.full_store)
  = (Err (Ratchet "skipped-key store full"),
     set_receiving (chain_key Sample.root 2) 1 Runs.full_store (Runs.with_store Runs.full_store)).
Proof.
  refine (full_store_shifts_chain (Runs.with_store Runs.full_store)
    (public_key (X25519SecretKey_generate Sample.rndA)) Sample.root 1 5
    eq_refl eq_refl eq_refl _ _); by vm_compute.
Defined.

Lemma message_flags_are_ignored_witness :
  let m := with_field (header_frame (Runs.header 0)) TAG_CIPHERTEXT (repeat Byte.x00 16) in
  decrypt [] (encode (with_flags m FLAG_PQ_REKEY)) Runs.b0 = decrypt [] (encode m) Runs.b0.
Proof.
  refine (message_flags_are_ignored (Runs.header 0) (repeat Byte.x00 16) FLAG_PQ_REKEY [] Runs.b0 _ _ _ _);
    [split|..]; by vm_compute.
Defined.
