(* ===== verification/Media.v ===== *)
(** * Media sealing: [buh-crypto/src/media.rs]

    A file is sealed once under a fresh content key; the key travels in the
    ratchet envelope as [key ‖ nonce]. *)

From S2P Require Import Prelude.
From S2P Require Import Wire.
From S2P Require Import Keys.
From S2P Require Import ModelCrypto.

Definition MEDIA_AAD : bytes := bstr "buh-media-v1".
Definition MEDIA_KEY_LEN : nat := KEY_LEN + NONCE_LEN.

Record MediaKey := { mk_key : bytes; mk_nonce : bytes }.

(** The arrays have the lengths of their Rust types. *)
Definition media_key_ok (k : MediaKey) : Prop :=
  length (mk_key k) = KEY_LEN ∧ length (mk_nonce k) = NONCE_LEN.

Definition MediaKey_to_bytes (k : MediaKey) : bytes := mk_key k ++ mk_nonce k.

Definition MediaKey_from_bytes (b : bytes) : Result CryptoError MediaKey :=
  if negb (length b =? MEDIA_KEY_LEN)%nat then Err (malformed "media key")
  else Ok {| mk_key := take KEY_LEN b; mk_nonce := drop KEY_LEN b |}.

Section Media.
Context `{PR : Primitives}.

(** [rnd_key] and [rnd_nonce] are the bytes [getrandom::fill] delivers. *)
Definition MediaKey_generate (rnd_key rnd_nonce : bytes) : MediaKey :=
  {| mk_key := rnd_key; mk_nonce := random_nonce rnd_nonce |}.

(** [None] is the panic of [expect]. *)
Definition seal_media (rnd_key rnd_nonce plaintext : bytes) : option (MediaKey * bytes) :=
  let media_key := MediaKey_generate rnd_key rnd_nonce in
  match seal (mk_key media_key) (mk_nonce media_key) MEDIA_AAD plaintext with
  | Ok ciphertext => Some (media_key, ciphertext)
  | Err _ => None
  end.

Definition open_media (media_key : MediaKey) (ciphertext : bytes) : Result CryptoError bytes :=
  open (mk_key media_key) (mk_nonce media_key) MEDIA_AAD ciphertext.

Context `{LA : !AeadLaws}.

Lemma MediaKey_roundtrip k : media_key_ok k → MediaKey_from_bytes (MediaKey_to_bytes k) = Ok k.
Proof.
  intros [Hk Hn]. unfold MediaKey_from_bytes, MediaKey_to_bytes, MEDIA_KEY_LEN.
  rewrite length_app, Hk, Hn, Nat.eqb_refl. cbn [negb].
  rewrite <-Hk, take_app_length, drop_app_length. by destruct k.
Qed.

(** media sealing works end to end: for a file below the AEAD's message
    limit [seal_media] does not panic, the ciphertext is 16 bytes longer than
    the file, the content key survives its trip through the envelope as bytes,
    and opening with it gives back the file. *)
Theorem media_roundtrip rnd_key rnd_nonce file :
  length rnd_key = KEY_LEN → length rnd_nonce = NONCE_LEN → blen file < AEAD_MAX_LEN →
  ∃ key ct, seal_media rnd_key rnd_nonce file = Some (key, ct) ∧
    blen ct = blen file + 16 ∧
    ∃ key', MediaKey_from_bytes (MediaKey_to_bytes key) = Ok key' ∧ open_media key' ct = Ok file.
Proof.
  intros Hk Hn Hl. unfold seal_media, open_media, MediaKey_generate, random_nonce. cbn [mk_key mk_nonce].
  destruct (aead_seal_total rnd_key rnd_nonce MEDIA_AAD file Hl) as [ct Hct].
  pose proof (proj2 (seal_inv _ _ _ _ _) Hct) as Hs. rewrite Hs.
  eexists _, ct. split; [done|]. split; [by eapply aead_seal_length|].
  eexists. split; [by apply MediaKey_roundtrip|]. by apply open_seal.
Qed.

(** the only way to a result of [open_media] is the ciphertext that
    [seal] produces for that result under the same key, nonce and the media
    domain separator. *)
Theorem open_media_only_sealed key ct file :
  open_media key ct = Ok file → seal (mk_key key) (mk_nonce key) MEDIA_AAD file = Ok ct.
Proof. unfold open_media. rewrite open_inv, seal_inv. apply aead_seal_open. Qed.
End Media.

(** a content-key blob is accepted exactly when it has [MEDIA_KEY_LEN]
    bytes, and an accepted blob re-serialises to itself. *)
Theorem media_key_blob_strict b :
  match MediaKey_from_bytes b with
  | Ok k => length b = MEDIA_KEY_LEN ∧ media_key_ok k ∧ MediaKey_to_bytes k = b
  | Err e => length b ≠ MEDIA_KEY_LEN ∧ e = malformed "media key"
  end.
Proof.
  unfold MediaKey_from_bytes, media_key_ok, MEDIA_KEY_LEN, KEY_LEN, NONCE_LEN.
  destruct (Nat.eqb_spec (length b) (32 + 24)) as [E|E]; cbn [negb]; [|done].
  unfold MediaKey_to_bytes. cbn. rewrite take_drop, length_take, length_drop. split_and!; [lia..|done].
Qed.

Lemma media_roundtrip_witness :
  ∃ key ct, seal_media (repeat Byte.x01 32) (repeat Byte.x02 24) (bstr "file") = Some (key, ct) ∧
    blen ct = blen (bstr "file") + 16 ∧
    ∃ key', MediaKey_from_bytes (MediaKey_to_bytes key) = Ok key' ∧
      open_media key' ct = Ok (bstr "file").
Proof. apply (media_roundtrip (repeat Byte.x01 32) (repeat Byte.x02 24) (bstr "file")); done. Defined.

Lemma open_media_only_sealed_witness :
  seal (repeat Byte.x01 32) (repeat Byte.x02 24) MEDIA_AAD (bstr "file")
  = Ok (match seal (repeat Byte.x01 32) (repeat Byte.x02 24) MEDIA_AAD (bstr "file") with
        | Ok c => c | Err _ => [] end).
Proof.
  apply (open_media_only_sealed {| mk_key := repeat Byte.x01 32; mk_nonce := repeat Byte.x02 24 |}).
  by vm_compute.
Defined.
