(* ===== verification/Prekey.v ===== *)
(** * Prekey bundles: [buh-crypto/src/prekey.rs]

    The secret blob, the signed body, publication and the verifying parser. *)

From S2P Require Import Prelude.
From S2P Require Import Wire.
From S2P Require Import Keys.
From S2P Require Import Ratchet.
From S2P Require Import RatchetPersist.
From S2P Require Import ModelCrypto.

Section Prekey.
Context `{PF : Platform} `{PR : Primitives}.

Definition PREKEY_CONTEXT : bytes := bstr "buh-prekey-bundle-v1".
Definition SECRETS_VERSION : byte := Byte.x01.

Record PrekeySecrets := {
  ps_signed_prekey : X25519SecretKey;
  ps_kem_secret : MlKemSecretKey;
  ps_one_time_prekey : option X25519SecretKey;
}.

Definition PrekeySecrets_to_bytes (s : PrekeySecrets) : bytes :=
  let out := [SECRETS_VERSION] in
  let out := out ++ X25519SecretKey_to_bytes (ps_signed_prekey s) in
  let out := out ++ MlKemSecretKey_to_bytes (ps_kem_secret s) in
  match ps_one_time_prekey s with
  | Some opk => (out ++ [Byte.x01]) ++ X25519SecretKey_to_bytes opk
  | None => out ++ [Byte.x00]
  end.

Definition PrekeySecrets_from_bytes_st : ST Reader CryptoError PrekeySecrets :=
  let! v := rd read_u8 in
  if negb (bool_decide (v = SECRETS_VERSION)) then st_err (malformed "prekey secrets version")
  else
    let! sb := read_32 in
    let signed_prekey := X25519SecretKey_from_bytes sb in
    let! kb := rd (read_bytes (Z.of_nat MLKEM_SECRET_LEN)) in
    let! kem_secret := st_lift (MlKemSecretKey_from_bytes kb) in
    let! flag := rd read_u8 in
    let! one_time_prekey :=
      if bool_decide (flag = Byte.x00) then st_ret None
      else if bool_decide (flag = Byte.x01) then
        let! b := read_32 in st_ret (Some (X25519SecretKey_from_bytes b))
      else st_err (malformed "prekey secrets opk flag") in
    st_ret {| ps_signed_prekey := signed_prekey; ps_kem_secret := kem_secret;
              ps_one_time_prekey := one_time_prekey |}.

Definition PrekeySecrets_from_bytes (b : bytes) : Result CryptoError PrekeySecrets :=
  (PrekeySecrets_from_bytes_st (Reader_new b)).1.

Record PrekeyBundle := {
  pb_identity : IdentityPublicKey;
  pb_signed_prekey : X25519PublicKey;
  pb_kem_key : MlKemPublicKey;
  pb_one_time_prekey : option X25519PublicKey;
  pb_signature : IdentitySignature;
}.

(** The frame that [signing_body] encodes and [encode] extends. *)
Definition body_frame (identity : IdentityPublicKey) (spk : X25519PublicKey)
    (kem : MlKemPublicKey) (opk : option X25519PublicKey) : Frame :=
  let frame := with_field Frame_new TAG_CONTEXT PREKEY_CONTEXT in
  let frame := with_field frame TAG_IDENTITY_PUB (IdentityPublicKey_to_bytes identity) in
  let frame := with_field frame TAG_PREKEY_X25519 (X25519PublicKey_to_bytes spk) in
  let frame := with_field frame TAG_MLKEM_EK (MlKemPublicKey_to_bytes kem) in
  match opk with
  | Some opk => with_field frame TAG_ONETIME_PREKEY (X25519PublicKey_to_bytes opk)
  | None => frame
  end.

Definition signing_body (identity : IdentityPublicKey) (spk : X25519PublicKey)
    (kem : MlKemPublicKey) (opk : option X25519PublicKey) : bytes :=
  encode (body_frame identity spk kem opk).

(** The random draws of [generate]: signed prekey, KEM key, one-time prekey, signature. *)
Definition PrekeyBundle_generate (rs rk ro rsig : bytes) (identity : IdentityKeyPair)
    (with_one_time : bool) : PrekeySecrets * PrekeyBundle :=
  let spk := X25519SecretKey_generate rs in
  let '(kem_dk, kem_ek) := MlKemSecretKey_generate rk in
  let opk := if with_one_time then Some (X25519SecretKey_generate ro) else None in
  let opk_pub := public_key <$> opk in
  let identity_pub := identity_public identity in
  let body := signing_body identity_pub (public_key spk) kem_ek opk_pub in
  let signature := sign identity body rsig in
  ({| ps_signed_prekey := spk; ps_kem_secret := kem_dk; ps_one_time_prekey := opk |},
   {| pb_identity := identity_pub; pb_signed_prekey := public_key spk; pb_kem_key := kem_ek;
      pb_one_time_prekey := opk_pub; pb_signature := signature |}).

Definition PrekeyBundle_encode (b : PrekeyBundle) : bytes :=
  encode (with_field
    (body_frame (pb_identity b) (pb_signed_prekey b) (pb_kem_key b) (pb_one_time_prekey b))
    TAG_SIGNATURE (IdentitySignature_to_bytes (pb_signature b))).

Definition PrekeyBundle_decode (b : bytes) : Result CryptoError PrekeyBundle :=
  let? frame := wire_err (decode b) in
  if negb (bool_decide (get frame TAG_CONTEXT = Some PREKEY_CONTEXT))
  then Err (malformed "prekey bundle context")
  else
    let? ib := wire_err (require frame TAG_IDENTITY_PUB) in
    let? identity := IdentityPublicKey_from_bytes ib in
    let? sb := wire_err (require frame TAG_PREKEY_X25519) in
    let? signed_prekey := X25519PublicKey_from_slice sb in
    let? kb := wire_err (require frame TAG_MLKEM_EK) in
    let? kem_key := MlKemPublicKey_from_slice kb in
    let? one_time_prekey :=
      match get frame TAG_ONETIME_PREKEY with
      | Some b => let? p := X25519PublicKey_from_slice b in Ok (Some p)
      | None => Ok None
      end in
    let? gb := wire_err (require frame TAG_SIGNATURE) in
    let? signature := IdentitySignature_from_bytes gb in
    let body := signing_body identity signed_prekey kem_key one_time_prekey in
    let? _ := verify identity body signature in
    Ok {| pb_identity := identity; pb_signed_prekey := signed_prekey; pb_kem_key := kem_key;
          pb_one_time_prekey := one_time_prekey; pb_signature := signature |}.

(** ** Properties *)

(** What [decode] certifies of a bundle. *)
Definition authentic (b : PrekeyBundle) : Prop :=
  vk_verify (verifying_key (pb_identity b))
    (signing_body (pb_identity b) (pb_signed_prekey b) (pb_kem_key b) (pb_one_time_prekey b))
    (pb_signature b) = true.

Context `{LX : !X25519Laws} `{LK : !MlkemLaws} `{LD : !MldsaLaws}.

Lemma body_frame_ok identity spk kem opk : frame_ok (body_frame identity spk kem opk).
Proof.
  assert (vec_ok (X25519PublicKey_to_bytes spk) ∧ vec_ok (IdentityPublicKey_to_bytes identity) ∧
          vec_ok (MlKemPublicKey_to_bytes kem) ∧ vec_ok PREKEY_CONTEXT ∧
          ∀ p, vec_ok (X25519PublicKey_to_bytes p)) as (? & ? & ? & ? & ?).
  { split_and!; intros; apply small_vec_ok;
      unfold blen, X25519PublicKey_to_bytes, IdentityPublicKey_to_bytes, MlKemPublicKey_to_bytes;
      rewrite ?xp_length, ?vk_length, ?ek_length; [lia..|by vm_compute|lia]. }
  split; [destruct opk; cbn [flags]; split; vm_compute; discriminate|].
  destruct opk; repeat apply Forall_cons_2; try apply Forall_nil_2; known_field; auto.
Qed.

Lemma bundle_frame_ok b :
  frame_ok (with_field
    (body_frame (pb_identity b) (pb_signed_prekey b) (pb_kem_key b) (pb_one_time_prekey b))
    TAG_SIGNATURE (IdentitySignature_to_bytes (pb_signature b))).
Proof.
  destruct (body_frame_ok (pb_identity b) (pb_signed_prekey b) (pb_kem_key b) (pb_one_time_prekey b))
    as [Hfl Hfs].
  split; [done|]. cbn [with_field fields]. apply Forall_app. split; [done|].
  apply Forall_singleton. known_field. apply small_vec_ok.
  unfold blen, IdentitySignature_to_bytes. rewrite sig_length. lia.
Qed.
End Prekey.

Section PrekeyTheorems.
Context `{PF : Platform} `{PR : Primitives}.
Context `{LX : !X25519Laws} `{LK : !MlkemLaws} `{LD : !MldsaLaws}.

Lemma bundle_vec_ok b : vec_ok (PrekeyBundle_encode b).
Proof.
  apply frame_vec_ok. unfold frame_size, body_frame.
  destruct (pb_one_time_prekey b); cbn -[blen Z.add Z.le]; unfold blen,
    X25519PublicKey_to_bytes, IdentityPublicKey_to_bytes, MlKemPublicKey_to_bytes,
    IdentitySignature_to_bytes;
    rewrite ?xp_length, ?vk_length, ?ek_length, ?sig_length; cbn; lia.
Qed.

(** The parser inverts [encode] on every bundle whose signature verifies. *)
Lemma bundle_decode_encode b :
  authentic b → PrekeyBundle_decode (PrekeyBundle_encode b) = Ok b.
Proof.
  intros Ha. pose proof (bundle_vec_ok b) as Hv. unfold PrekeyBundle_decode, PrekeyBundle_encode in *.
  rewrite decode_encode by (done || apply bundle_frame_ok). unfold authentic in Ha.
  destruct b as [id spk kem opk sg]. cbn [pb_identity pb_signed_prekey pb_kem_key
    pb_one_time_prekey pb_signature] in *.
  cbn [wire_err map_err rbind]. rewrite bool_decide_true by (by destruct opk). cbn [negb].
  unfold require.
  destruct opk; unfold get; cbn -[signing_body IdentityPublicKey_from_bytes X25519PublicKey_from_slice
    MlKemPublicKey_from_slice IdentitySignature_from_bytes IdentityPublicKey_to_bytes
    X25519PublicKey_to_bytes MlKemPublicKey_to_bytes IdentitySignature_to_bytes verify];
    rewrite IdentityPublicKey_roundtrip, X25519PublicKey_roundtrip, MlKemPublicKey_roundtrip,
      IdentitySignature_roundtrip, ?X25519PublicKey_roundtrip; cbn [rbind];
    rewrite ?X25519PublicKey_roundtrip; cbn [rbind];
    unfold verify; by rewrite Ha.
Qed.

Lemma bundle_decode_authentic bs b : PrekeyBundle_decode bs = Ok b → authentic b.
Proof.
  unfold PrekeyBundle_decode. intros H. inv_ok. destruct (negb _); [done|]. inv_ok. subst b.
  unfold authentic, verify in *. cbn. by destruct (vk_verify _ _ _).
Qed.

Lemma generate_authentic rs rk ro rsig id ot s b :
  PrekeyBundle_generate rs rk ro rsig id ot = (s, b) → authentic b.
Proof.
  unfold PrekeyBundle_generate. destruct (MlKemSecretKey_generate rk) as [dk ek].
  intros [= <- <-]. unfold authentic. cbn. apply verify_sign.
Qed.

Lemma IdentityPublicKey_to_bytes_inj i i' :
  IdentityPublicKey_to_bytes i = IdentityPublicKey_to_bytes i' → i = i'.
Proof.
  intros H. apply (f_equal IdentityPublicKey_from_bytes) in H.
  rewrite !IdentityPublicKey_roundtrip in H. by injection H.
Qed.

Lemma MlKemPublicKey_to_bytes_inj k k' :
  MlKemPublicKey_to_bytes k = MlKemPublicKey_to_bytes k' → k = k'.
Proof.
  intros H. apply (f_equal MlKemPublicKey_from_slice) in H.
  rewrite !MlKemPublicKey_roundtrip in H. by injection H.
Qed.

Lemma body_vec_ok i s k o : vec_ok (signing_body i s k o).
Proof.
  apply frame_vec_ok. unfold frame_size, body_frame.
  destruct o; cbn -[blen Z.add Z.le]; unfold blen,
    X25519PublicKey_to_bytes, IdentityPublicKey_to_bytes, MlKemPublicKey_to_bytes;
    rewrite ?xp_length, ?vk_length, ?ek_length; cbn; lia.
Qed.
Lemma secrets_to_bytes_eq s :
  PrekeySecrets_to_bytes s =
  [SECRETS_VERSION] ++ X25519SecretKey_to_bytes (ps_signed_prekey s)
  ++ MlKemSecretKey_to_bytes (ps_kem_secret s)
  ++ match ps_one_time_prekey s with
     | Some opk => [Byte.x01] ++ X25519SecretKey_to_bytes opk
     | None => [Byte.x00]
     end.
Proof. unfold PrekeySecrets_to_bytes. destruct (ps_one_time_prekey s); by rewrite <-!app_assoc. Qed.

Lemma secrets_vec_ok s : vec_ok (PrekeySecrets_to_bytes s).
Proof.
  apply small_vec_ok. rewrite secrets_to_bytes_eq, !blen_app.
  unfold blen, X25519SecretKey_to_bytes, MlKemSecretKey_to_bytes.
  destruct (ps_one_time_prekey s); rewrite ?length_app, ?xs_length, ?dk_length; cbn; lia.
Qed.

Lemma secrets_roundtrip s : PrekeySecrets_from_bytes (PrekeySecrets_to_bytes s) = Ok s.
Proof.
  pose proof (secrets_vec_ok s) as Hv.
  assert (vec_ok (buf (Reader_new (PrekeySecrets_to_bytes s)))) as Hb by exact Hv.
  pose proof (reads_new (PrekeySecrets_to_bytes s)) as Hr. rewrite secrets_to_bytes_eq in Hr at 2.
  unfold PrekeySecrets_from_bytes. revert Hb Hr.
  generalize (Reader_new (PrekeySecrets_to_bytes s)) as r. intros r Hb Hr.
  unfold PrekeySecrets_from_bytes_st, st_bind.
  rewrite (rd_ok _ _ _ _ (read_u8_reads _ _ _ _ Hr)). apply reads_advance1 in Hr.
  rewrite bool_decide_true by done. cbn [negb].
  rewrite (read_32_reads _ _ _ (proj1 (reads_app _ _ _ _) Hr) Hb (xs_length _)).
  apply reads_advance in Hr.
  replace (Z.of_nat MLKEM_SECRET_LEN) with (blen (MlKemSecretKey_to_bytes (ps_kem_secret s)))
    by (unfold blen, MlKemSecretKey_to_bytes; by rewrite dk_length).
  assert (vec_ok (buf (advance (advance r 1)
    (blen (X25519SecretKey_to_bytes (ps_signed_prekey s)))))) as Hb1 by exact Hb.
  rewrite (rd_ok _ _ _ _ (read_bytes_reads _ _ _ Hb1 (proj1 (reads_app _ _ _ _) Hr))).
  apply reads_advance in Hr. unfold st_lift. rewrite MlKemSecretKey_roundtrip.
  unfold X25519SecretKey_from_bytes, X25519SecretKey_to_bytes in *. rewrite xs_from_to.
  destruct s as [spk kem [opk|]]; cbn [ps_signed_prekey ps_kem_secret ps_one_time_prekey] in *.
  - rewrite (rd_ok _ _ _ _ (read_u8_reads _ _ _ _ Hr)). apply reads_advance1 in Hr.
    rewrite bool_decide_false by done. rewrite bool_decide_true by done.
    rewrite <-(app_nil_r (xs_to_bytes opk)) in Hr.
    rewrite (read_32_reads _ _ _ (proj1 (reads_app _ _ _ _) Hr) Hb (xs_length _)).
    cbn [st_ret fst]. by rewrite xs_from_to.
  - by rewrite (rd_ok _ _ _ _ (read_u8_reads _ _ _ _ Hr)).
Qed.

(** publishing and fetching a bundle: what [generate] returns is accepted
    unchanged by the verifying parser, its public halves belong to the
    retained secrets, which survive storage, and a one-time prekey is present
    exactly when asked for. *)
Theorem published_bundle_is_accepted rs rk ro rsig id ot s b :
  PrekeyBundle_generate rs rk ro rsig id ot = (s, b) →
  PrekeyBundle_decode (PrekeyBundle_encode b) = Ok b ∧
  pb_identity b = identity_public id ∧
  pb_signed_prekey b = public_key (ps_signed_prekey s) ∧
  pb_one_time_prekey b = public_key <$> ps_one_time_prekey s ∧
  bool_decide (is_Some (pb_one_time_prekey b)) = ot ∧
  PrekeySecrets_from_bytes (PrekeySecrets_to_bytes s) = Ok s.
Proof.
  intros H. split; [by eapply bundle_decode_encode, generate_authentic|].
  unfold PrekeyBundle_generate in H. destruct (MlKemSecretKey_generate rk) as [dk ek].
  injection H as <- <-. cbn. split_and!; [done..|by destruct ot|apply secrets_roundtrip].
Qed.

(** a bundle that parses is authentic: its identity key verifies the
    signature over exactly the keys the parsed value carries. *)
Theorem parsed_bundle_is_authentic bs b : PrekeyBundle_decode bs = Ok b → authentic b.
Proof. apply bundle_decode_authentic. Qed.

(** the signed byte string determines all the keys it covers, so a
    signature on one set of prekeys is a signature on no other. *)
Theorem signing_body_binds_all_keys i s k o i' s' k' o' :
  signing_body i s k o = signing_body i' s' k' o' → i = i' ∧ s = s' ∧ k = k' ∧ o = o'.
Proof.
  intros H. apply encode_inj in H; [|apply body_frame_ok|apply body_frame_ok|apply body_vec_ok].
  unfold body_frame in H. destruct o, o'; cbn in H; injection H; intros; try done;
    split_and!; auto using IdentityPublicKey_to_bytes_inj, MlKemPublicKey_to_bytes_inj,
      X25519PublicKey_to_bytes_inj; f_equal; auto using X25519PublicKey_to_bytes_inj.
Qed.

End PrekeyTheorems.

(** ** Witnesses *)

Module PrekeySample.
#[local] Existing Instance model_primitives.
Definition id : IdentityKeyPair := IdentityKeyPair_generate [Byte.x05].
Definition pair : PrekeySecrets * PrekeyBundle :=
  PrekeyBundle_generate [Byte.x01] [Byte.x02] [Byte.x03] [Byte.x04] id true.
Definition secrets : PrekeySecrets := pair.1.
Definition bundle : PrekeyBundle := pair.2.
End PrekeySample.

Lemma published_bundle_is_accepted_witness :
  PrekeyBundle_decode (PrekeyBundle_encode PrekeySample.bundle) = Ok PrekeySample.bundle.
Proof.
  exact (proj1 (published_bundle_is_accepted [Byte.x01] [Byte.x02] [Byte.x03] [Byte.x04]
    PrekeySample.id true PrekeySample.secrets PrekeySample.bundle eq_refl)).
Defined.

Lemma parsed_bundle_is_authentic_witness : authentic PrekeySample.bundle.
Proof.
  exact (parsed_bundle_is_authentic (PrekeyBundle_encode PrekeySample.bundle) PrekeySample.bundle
    (bundle_decode_encode PrekeySample.bundle
       (generate_authentic [Byte.x01] [Byte.x02] [Byte.x03] [Byte.x04] PrekeySample.id true
          PrekeySample.secrets PrekeySample.bundle eq_refl))).
Defined.

Lemma signing_body_binds_all_keys_witness :
  pb_identity PrekeySample.bundle = pb_identity PrekeySample.bundle ∧
  pb_signed_prekey PrekeySample.bundle = pb_signed_prekey PrekeySample.bundle ∧
  pb_kem_key PrekeySample.bundle = pb_kem_key PrekeySample.bundle ∧
  pb_one_time_prekey PrekeySample.bundle = pb_one_time_prekey PrekeySample.bundle.
Proof. exact (signing_body_binds_all_keys _ _ _ _ _ _ _ _ eq_refl). Defined.
