(* ===== verification/Pqxdh.v ===== *)
(** * The handshake: [buh-crypto/src/pqxdh.rs]

    Initiator and responder derive the same root key from an X25519 exchange
    and an ML-KEM encapsulation, bound to a signed transcript. *)

From S2P Require Import Prelude.
From S2P Require Import Wire.
From S2P Require Import Keys.
From S2P Require Import Prekey.
From S2P Require Import ModelCrypto.

Section Pqxdh.
Context `{PF : Platform} `{PR : Primitives}.

Definition KDF_CONTEXT : bytes := bstr "buh-pqxdh-root-v1".
Definition TRANSCRIPT_CONTEXT : bytes := bstr "buh-pqxdh-transcript-v1".
Definition ROOT_KEY_LEN : nat := 32.

Record InitialMessage := {
  im_initiator_identity : IdentityPublicKey;
  im_ephemeral : X25519PublicKey;
  im_kem_ciphertext : bytes;
  im_signature : IdentitySignature;
}.

Record ResponderView := {
  rv_identity : IdentityPublicKey;
  rv_signed_prekey : X25519PublicKey;
  rv_kem_key_bytes : bytes;
  rv_one_time_prekey : option X25519PublicKey;
}.

Definition from_bundle (bundle : PrekeyBundle) : ResponderView :=
  {| rv_identity := pb_identity bundle;
     rv_signed_prekey := pb_signed_prekey bundle;
     rv_kem_key_bytes := MlKemPublicKey_to_bytes (pb_kem_key bundle);
     rv_one_time_prekey := pb_one_time_prekey bundle |}.

Definition transcript_frame (responder : ResponderView) (initiator_identity : IdentityPublicKey)
    (ephemeral : X25519PublicKey) (kem_ciphertext : bytes) : Frame :=
  let frame := with_field Frame_new TAG_CONTEXT TRANSCRIPT_CONTEXT in
  let frame := with_field frame TAG_IDENTITY_PUB (IdentityPublicKey_to_bytes (rv_identity responder)) in
  let frame := with_field frame TAG_PREKEY_X25519
                 (X25519PublicKey_to_bytes (rv_signed_prekey responder)) in
  let frame := with_field frame TAG_MLKEM_EK (rv_kem_key_bytes responder) in
  let frame := match rv_one_time_prekey responder with
               | Some opk => with_field frame TAG_ONETIME_PREKEY (X25519PublicKey_to_bytes opk)
               | None => frame
               end in
  let frame := with_field frame TAG_IDENTITY_PUB (IdentityPublicKey_to_bytes initiator_identity) in
  let frame := with_field frame TAG_EPHEMERAL_X25519 (X25519PublicKey_to_bytes ephemeral) in
  with_field frame TAG_KEM_CT kem_ciphertext.

Definition transcript (responder : ResponderView) (initiator_identity : IdentityPublicKey)
    (ephemeral : X25519PublicKey) (kem_ciphertext : bytes) : bytes :=
  encode (transcript_frame responder initiator_identity ephemeral kem_ciphertext).

Definition derive_root (ikm transcript : bytes) : bytes :=
  hkdf_expand (hkdf_extract (Some KDF_CONTEXT) ikm) transcript ROOT_KEY_LEN.

(** The draws: ephemeral key, encapsulation, signature. *)
Definition initiate (re rk rs : bytes) (initiator : IdentityKeyPair) (responder : PrekeyBundle) :
    InitialMessage * bytes :=
  let ephemeral := X25519SecretKey_generate re in
  let dh_spk := diffie_hellman ephemeral (pb_signed_prekey responder) in
  let '(kem_ciphertext, ss) := encapsulate (pb_kem_key responder) rk in
  let ikm := dh_spk in
  let ikm := match pb_one_time_prekey responder with
             | Some opk => ikm ++ diffie_hellman ephemeral opk
             | None => ikm
             end in
  let ikm := ikm ++ ss in
  let view := from_bundle responder in
  let initiator_identity := identity_public initiator in
  let script := transcript view initiator_identity (public_key ephemeral) kem_ciphertext in
  let root := derive_root ikm script in
  let signature := sign initiator script rs in
  ({| im_initiator_identity := initiator_identity; im_ephemeral := public_key ephemeral;
      im_kem_ciphertext := kem_ciphertext; im_signature := signature |}, root).

Definition respond (bundle : PrekeyBundle) (secrets : PrekeySecrets) (message : InitialMessage) :
    Result CryptoError bytes :=
  let view := from_bundle bundle in
  let script := transcript view (im_initiator_identity message) (im_ephemeral message)
                  (im_kem_ciphertext message) in
  let? _ := verify (im_initiator_identity message) script (im_signature message) in
  let dh_spk := diffie_hellman (ps_signed_prekey secrets) (im_ephemeral message) in
  let? ss := decapsulate (ps_kem_secret secrets) (im_kem_ciphertext message) in
  let ikm := dh_spk in
  let ikm := match ps_one_time_prekey secrets with
             | Some opk => ikm ++ diffie_hellman opk (im_ephemeral message)
             | None => ikm
             end in
  let ikm := ikm ++ ss in
  Ok (derive_root ikm script).

Definition InitialMessage_frame (m : InitialMessage) : Frame :=
  let frame := with_field Frame_new TAG_CONTEXT TRANSCRIPT_CONTEXT in
  let frame := with_field frame TAG_IDENTITY_PUB
                 (IdentityPublicKey_to_bytes (im_initiator_identity m)) in
  let frame := with_field frame TAG_EPHEMERAL_X25519 (X25519PublicKey_to_bytes (im_ephemeral m)) in
  let frame := with_field frame TAG_KEM_CT (im_kem_ciphertext m) in
  with_field frame TAG_SIGNATURE (IdentitySignature_to_bytes (im_signature m)).

Definition InitialMessage_encode (m : InitialMessage) : bytes := encode (InitialMessage_frame m).

Definition InitialMessage_decode (b : bytes) : Result CryptoError InitialMessage :=
  let? frame := wire_err (decode b) in
  if negb (bool_decide (get frame TAG_CONTEXT = Some TRANSCRIPT_CONTEXT))
  then Err (malformed "handshake context")
  else
    let? ib := wire_err (require frame TAG_IDENTITY_PUB) in
    let? initiator_identity := IdentityPublicKey_from_bytes ib in
    let? eb := wire_err (require frame TAG_EPHEMERAL_X25519) in
    let? ephemeral := X25519PublicKey_from_slice eb in
    let? kem_ciphertext := wire_err (require frame TAG_KEM_CT) in
    let? gb := wire_err (require frame TAG_SIGNATURE) in
    let? signature := IdentitySignature_from_bytes gb in
    Ok {| im_initiator_identity := initiator_identity; im_ephemeral := ephemeral;
          im_kem_ciphertext := kem_ciphertext; im_signature := signature |}.

(** ** Properties *)

Context `{LX : !X25519Laws} `{LK : !MlkemLaws} `{LD : !MldsaLaws} `{LH : !HkdfLaws}.

(** Lengths of the fixed-size fields, for the [Vec] bounds. *)
Lemma key_lengths :
  (∀ p, blen (X25519PublicKey_to_bytes p) = 32) ∧
  (∀ i, blen (IdentityPublicKey_to_bytes i) = 1952) ∧
  (∀ k, blen (MlKemPublicKey_to_bytes k) = 1184) ∧
  (∀ s, blen (IdentitySignature_to_bytes s) = 3309).
Proof.
  unfold blen, X25519PublicKey_to_bytes, IdentityPublicKey_to_bytes, MlKemPublicKey_to_bytes,
    IdentitySignature_to_bytes.
  split_and!; intros; by rewrite ?xp_length, ?vk_length, ?ek_length, ?sig_length.
Qed.

Lemma im_frame_size m : frame_size (InitialMessage_frame m) = 5428 + blen (im_kem_ciphertext m).
Proof.
  destruct key_lengths as (H1 & H2 & H3 & H4).
  unfold frame_size, InitialMessage_frame. cbn [with_field fields Frame_new app foldr value].
  rewrite H1, H2, H4. change (blen TRANSCRIPT_CONTEXT) with 23. lia.
Qed.

Lemma im_frame_ok m : blen (im_kem_ciphertext m) <= 2 ^ 30 → frame_ok (InitialMessage_frame m).
Proof.
  intros Hct. destruct key_lengths as (H1 & H2 & H3 & H4).
  split; [cbn [flags]; split; vm_compute; discriminate|].
  repeat apply Forall_cons_2; try apply Forall_nil_2; known_field; apply small_vec_ok;
    rewrite ?H1, ?H2, ?H4; try lia. change (blen TRANSCRIPT_CONTEXT) with 23. lia.
Qed.

Lemma im_roundtrip m :
  blen (im_kem_ciphertext m) <= 2 ^ 30 → InitialMessage_decode (InitialMessage_encode m) = Ok m.
Proof.
  intros Hct. unfold InitialMessage_decode, InitialMessage_encode.
  rewrite decode_encode; [|by apply im_frame_ok|apply frame_vec_ok; rewrite im_frame_size; lia].
  cbn [wire_err map_err rbind]. rewrite bool_decide_true by done. cbn [negb].
  unfold require, get. cbn -[IdentityPublicKey_from_bytes X25519PublicKey_from_slice
    IdentitySignature_from_bytes IdentityPublicKey_to_bytes X25519PublicKey_to_bytes
    IdentitySignature_to_bytes].
  rewrite IdentityPublicKey_roundtrip, X25519PublicKey_roundtrip, IdentitySignature_roundtrip.
  cbn. by destruct m.
Qed.

Lemma initiate_ct_length re rk rs id b :
  length (im_kem_ciphertext (initiate re rk rs id b).1) = MLKEM_CIPHERTEXT_LEN.
Proof.
  unfold initiate. pose proof (mlkem_ct_length (pb_kem_key b) rk) as Hl. unfold encapsulate.
  destruct (ek_encapsulate _ _) as [ct ss]. exact Hl.
Qed.

Lemma respond_initiate re rk rs id rs' rk' ro rsig rid ot secrets bundle :
  PrekeyBundle_generate rs' rk' ro rsig rid ot = (secrets, bundle) →
  respond bundle secrets (initiate re rk rs id bundle).1 = Ok (initiate re rk rs id bundle).2.
Proof.
  unfold PrekeyBundle_generate. destruct (MlKemSecretKey_generate rk') as [dk ek] eqn:Hg.
  intros [= <- <-]. unfold respond, initiate. cbn [pb_kem_key].
  destruct (encapsulate ek rk) as [ct ss] eqn:He.
  cbn [fst snd im_initiator_identity im_signature im_ephemeral im_kem_ciphertext
    ps_signed_prekey ps_kem_secret ps_one_time_prekey pb_signed_prekey pb_one_time_prekey].
  rewrite verify_sign_ok. cbn [rbind]. rewrite (decapsulate_agree rk' dk ek rk ct ss) by done.
  cbn [rbind]. unfold diffie_hellman, public_key. rewrite x_dh_comm.
  destruct ot; cbn [fmap option_fmap option_map]; [|done]. by rewrite (x_dh_comm (X25519SecretKey_generate ro)).
Qed.
Lemma transcript_frame_ok v i e ct :
  blen (rv_kem_key_bytes v) <= 2 ^ 28 → blen ct <= 2 ^ 28 →
  frame_ok (transcript_frame v i e ct) ∧ vec_ok (transcript v i e ct).
Proof.
  intros Hk Hc. destruct key_lengths as (H1 & H2 & _ & _).
  assert (∀ p, vec_ok (X25519PublicKey_to_bytes p)) by (intros; apply small_vec_ok; rewrite H1; lia).
  assert (∀ p, vec_ok (IdentityPublicKey_to_bytes p)) by (intros; apply small_vec_ok; rewrite H2; lia).
  assert (vec_ok (rv_kem_key_bytes v) ∧ vec_ok ct ∧ vec_ok TRANSCRIPT_CONTEXT) as (? & ? & ?)
    by (split_and!; apply small_vec_ok; [lia..|by vm_compute]).
  split.
  - split; [unfold transcript_frame; destruct (rv_one_time_prekey v); cbn [flags];
            split; vm_compute; discriminate|].
    unfold transcript_frame.
    destruct (rv_one_time_prekey v); repeat apply Forall_cons_2; try apply Forall_nil_2;
      known_field; auto.
  - apply frame_vec_ok. unfold frame_size, transcript_frame.
    destruct (rv_one_time_prekey v); cbn [with_field fields Frame_new app foldr value];
      rewrite ?H1, ?H2; change (blen TRANSCRIPT_CONTEXT) with 23; lia.
Qed.

(** C3: the handshake agrees.  The responder publishes a bundle; the initiator
    parses it and runs [initiate]; the first flight crosses the wire; the
    responder's [respond] succeeds with exactly the initiator's root key, with
    and without a one-time prekey. *)
Theorem handshake_agrees re rk rs id rs' rk' ro rsig rid ot secrets bundle :
  PrekeyBundle_generate rs' rk' ro rsig rid ot = (secrets, bundle) →
  ∃ parsed received root,
    PrekeyBundle_decode (PrekeyBundle_encode bundle) = Ok parsed ∧
    initiate re rk rs id parsed = (received, root) ∧
    InitialMessage_decode (InitialMessage_encode received) = Ok received ∧
    respond bundle secrets received = Ok root ∧ length root = ROOT_KEY_LEN.
Proof.
  intros Hg. exists bundle. pose proof (initiate_ct_length re rk rs id bundle) as Hct.
  pose proof (respond_initiate re rk rs id _ _ _ _ _ _ _ _ Hg) as Hr.
  assert (length (initiate re rk rs id bundle).2 = ROOT_KEY_LEN) as Hl.
  { unfold initiate. destruct (encapsulate _ _). cbn [snd]. apply expand_length.
    unfold ROOT_KEY_LEN. lia. }
  destruct (initiate re rk rs id bundle) as [m root]. exists m, root.
  split_and!; [|done| |done|done].
  - by eapply bundle_decode_encode, generate_authentic.
  - apply im_roundtrip. unfold blen. cbn in Hct. rewrite Hct. unfold MLKEM_CIPHERTEXT_LEN. lia.
Qed.

(** C21: the responder authenticates first.  Unless the named initiator's key
    verifies the signature over the transcript of this bundle and this
    message, [respond] returns [BadSignature]; if it returns a root, the
    signature verified. *)
Theorem respond_authenticates bundle secrets m :
  let script := transcript (from_bundle bundle) (im_initiator_identity m) (im_ephemeral m)
                  (im_kem_ciphertext m) in
  (vk_verify (verifying_key (im_initiator_identity m)) script (im_signature m) = false →
   respond bundle secrets m = Err BadSignature) ∧
  (∀ root, respond bundle secrets m = Ok root →
   vk_verify (verifying_key (im_initiator_identity m)) script (im_signature m) = true).
Proof.
  cbv zeta. unfold respond, verify. destruct (vk_verify _ _ _); cbn [rbind]; split; done.
Qed.

(** C22: the transcript binds every public value of both sides: equal
    transcripts come from equal bundles' keys, initiator identities,
    ephemerals and ciphertexts; in particular the presence of a one-time
    prekey cannot be hidden. *)
Theorem transcript_binds_both_sides v i e ct v' i' e' ct' :
  blen (rv_kem_key_bytes v) <= 2 ^ 28 → blen ct <= 2 ^ 28 →
  blen (rv_kem_key_bytes v') <= 2 ^ 28 → blen ct' <= 2 ^ 28 →
  transcript v i e ct = transcript v' i' e' ct' → v = v' ∧ i = i' ∧ e = e' ∧ ct = ct'.
Proof.
  intros H1 H2 H3 H4 H.
  destruct (transcript_frame_ok v i e ct H1 H2) as [Hf Hv].
  destruct (transcript_frame_ok v' i' e' ct' H3 H4) as [Hf' _].
  apply encode_inj in H; [|done..].
  destruct v as [vi vs vk vo], v' as [vi' vs' vk' vo']. unfold transcript_frame in H.
  cbn [rv_identity rv_signed_prekey rv_kem_key_bytes rv_one_time_prekey] in H.
  assert (vo = vo' ∧ vi = vi' ∧ vs = vs' ∧ vk = vk' ∧ i = i' ∧ e = e' ∧ ct = ct') as
    (-> & -> & -> & -> & -> & -> & ->); [|done].
  destruct vo, vo'; cbn [with_field fields Frame_new app] in H; injection H; intros;
    try discriminate;
    split_and!; auto using IdentityPublicKey_to_bytes_inj, X25519PublicKey_to_bytes_inj;
    f_equal; auto using X25519PublicKey_to_bytes_inj.
Qed.
(** the handshake decoder does not apply [reject_reserved_pq]: a first
    flight that carries a reserved PQ field besides the genuine ones decodes to
    the same message as without it, although the frame is one that
    [reject_reserved_pq] refuses. *)
Theorem handshake_skips_reserved_tag m v :
  let smuggled := with_field (InitialMessage_frame m) TAG_PQ_KEM_CT v in
  blen (im_kem_ciphertext m) <= 2 ^ 28 → blen v <= 2 ^ 28 →
  InitialMessage_decode (encode smuggled) = Ok m ∧
  reject_reserved_pq smuggled = Err (ReservedTag TAG_PQ_KEM_CT).
Proof.
  intros smuggled Hct Hv. split; [|done].
  assert (frame_ok smuggled ∧ vec_ok (encode smuggled)) as [Hf Hve].
  { destruct (im_frame_ok m ltac:(lia)) as [Hfl Hfs]. split.
    - split; [done|]. cbn [smuggled with_field fields]. apply Forall_app. split; [done|].
      apply Forall_singleton. known_field. apply small_vec_ok. lia.
    - apply frame_vec_ok. pose proof (im_frame_size m) as Hs. unfold frame_size in *.
      cbn [smuggled with_field fields InitialMessage_frame Frame_new app foldr value] in *. lia. }
  unfold InitialMessage_decode. rewrite decode_encode by done.
  cbn [wire_err map_err rbind]. rewrite bool_decide_true by done. cbn [negb].
  unfold require, get. cbn -[IdentityPublicKey_from_bytes X25519PublicKey_from_slice
    IdentitySignature_from_bytes IdentityPublicKey_to_bytes X25519PublicKey_to_bytes
    IdentitySignature_to_bytes].
  rewrite IdentityPublicKey_roundtrip, X25519PublicKey_roundtrip, IdentitySignature_roundtrip.
  cbn. by destruct m.
Qed.
End Pqxdh.

Module PqxdhSample.
#[local] Existing Instance model_primitives.
Definition alice : IdentityKeyPair := IdentityKeyPair_generate [Byte.x09].
Definition flight : InitialMessage :=
  (initiate [Byte.x0a] [Byte.x0b] [Byte.x0c] alice PrekeySample.bundle).1.
Definition root : bytes :=
  (initiate [Byte.x0a] [Byte.x0b] [Byte.x0c] alice PrekeySample.bundle).2.
End PqxdhSample.

Lemma handshake_agrees_witness :
  ∃ parsed received root,
    PrekeyBundle_decode (PrekeyBundle_encode PrekeySample.bundle) = Ok parsed ∧
    initiate [Byte.x0a] [Byte.x0b] [Byte.x0c] PqxdhSample.alice parsed = (received, root) ∧
    InitialMessage_decode (InitialMessage_encode received) = Ok received ∧
    respond PrekeySample.bundle PrekeySample.secrets received = Ok root ∧
    length root = ROOT_KEY_LEN.
Proof.
  exact (handshake_agrees [Byte.x0a] [Byte.x0b] [Byte.x0c] PqxdhSample.alice
    [Byte.x01] [Byte.x02] [Byte.x03] [Byte.x04] PrekeySample.id true
    PrekeySample.secrets PrekeySample.bundle eq_refl).
Defined.

Lemma respond_authenticates_witness :
  let script := transcript (from_bundle PrekeySample.bundle)
                  (im_initiator_identity PqxdhSample.flight) (im_ephemeral PqxdhSample.flight)
                  (im_kem_ciphertext PqxdhSample.flight) in
  vk_verify (verifying_key (im_initiator_identity PqxdhSample.flight)) script
    (im_signature PqxdhSample.flight) = true.
Proof.
  exact (proj2 (respond_authenticates PrekeySample.bundle PrekeySample.secrets PqxdhSample.flight)
    PqxdhSample.root
    (respond_initiate [Byte.x0a] [Byte.x0b] [Byte.x0c] PqxdhSample.alice
       [Byte.x01] [Byte.x02] [Byte.x03] [Byte.x04] PrekeySample.id true
       PrekeySample.secrets PrekeySample.bundle eq_refl)).
Defined.

Lemma transcript_binds_both_sides_witness :
  from_bundle PrekeySample.bundle = from_bundle PrekeySample.bundle ∧
  im_initiator_identity PqxdhSample.flight = im_initiator_identity PqxdhSample.flight ∧
  im_ephemeral PqxdhSample.flight = im_ephemeral PqxdhSample.flight ∧
  im_kem_ciphertext PqxdhSample.flight = im_kem_ciphertext PqxdhSample.flight.
Proof.
  refine (transcript_binds_both_sides _ _ _ _ _ _ _ _ _ _ _ _ eq_refl); by vm_compute.
Defined.

Lemma handshake_skips_reserved_tag_witness :
  let smuggled := with_field (InitialMessage_frame PqxdhSample.flight) TAG_PQ_KEM_CT [Byte.x01] in
  InitialMessage_decode (encode smuggled) = Ok PqxdhSample.flight ∧
  reject_reserved_pq smuggled = Err (ReservedTag TAG_PQ_KEM_CT).
Proof. refine (handshake_skips_reserved_tag PqxdhSample.flight [Byte.x01] _ _); by vm_compute. Defined.
