(* ===== verification/Invite.v ===== *)
(** * Invites: [buh-crypto/src/invite.rs]

    The signed capability a contact is given: queue descriptor, prekey bundle,
    nonce and expiry.  A Rust [String] is the list of its UTF-8 bytes. *)

From S2P Require Import Prelude.
From S2P Require Import Wire.
From S2P Require Import Keys.
From S2P Require Import Prekey.
From S2P Require Import Pqxdh.
From S2P Require Import ModelCrypto.

(** ** [core::str::from_utf8] *)

Definition in_range (lo hi : Z) (b : byte) : bool := (lo <=? u8 b) && (u8 b <=? hi).

Fixpoint utf8_valid (bs : bytes) : bool :=
  match bs with
  | [] => true
  | a :: r =>
      if in_range 0x00 0x7f a then utf8_valid r
      else if in_range 0xc2 0xdf a then
        match r with b :: r => in_range 0x80 0xbf b && utf8_valid r | _ => false end
      else
        match r with
        | b :: c :: r3 =>
            if in_range 0xe0 0xef a then
              let lo := if u8 a =? 0xe0 then 0xa0 else 0x80 in
              let hi := if u8 a =? 0xed then 0x9f else 0xbf in
              in_range lo hi b && in_range 0x80 0xbf c && utf8_valid r3
            else if in_range 0xf0 0xf4 a then
              let lo := if u8 a =? 0xf0 then 0x90 else 0x80 in
              let hi := if u8 a =? 0xf4 then 0x8f else 0xbf in
              match r3 with
              | d :: r4 =>
                  in_range lo hi b && in_range 0x80 0xbf c && in_range 0x80 0xbf d && utf8_valid r4
              | [] => false
              end
            else false
        | _ => false
        end
  end.

Definition from_utf8 (b : bytes) (e : CryptoError) : Result CryptoError bytes :=
  if utf8_valid b then Ok b else Err e.

Section Invite.
Context `{PF : Platform} `{PR : Primitives}.

Definition INVITE_NONCE_LEN : nat := 16.
Definition CA_FINGERPRINT_LEN : nat := 32.
Definition INVITE_PREFIX : string := "buh1:".
Definition INVITE_CONTEXT : bytes := bstr "buh-invite-v1".

Record QueueDescriptor := { queue_id : bytes; relay_url : bytes; ca_fingerprint : bytes }.

Definition queue_frame (q : QueueDescriptor) : Frame :=
  let frame := with_field Frame_new TAG_QUEUE_ID (queue_id q) in
  let frame := with_field frame TAG_RELAY_URL (relay_url q) in
  with_field frame TAG_CA_FINGERPRINT (ca_fingerprint q).

Definition QueueDescriptor_encode (q : QueueDescriptor) : bytes := encode (queue_frame q).

Definition QueueDescriptor_decode (b : bytes) : Result CryptoError QueueDescriptor :=
  let? frame := wire_err (decode b) in
  let? qb := wire_err (require frame TAG_QUEUE_ID) in
  let? queue_id := try_array 32 qb (malformed "queue id") in
  let? rb := wire_err (require frame TAG_RELAY_URL) in
  let? relay_url := from_utf8 rb (malformed "relay url") in
  let? cb := wire_err (require frame TAG_CA_FINGERPRINT) in
  let? ca_fingerprint := try_array CA_FINGERPRINT_LEN cb (malformed "ca fingerprint") in
  Ok {| queue_id := queue_id; relay_url := relay_url; ca_fingerprint := ca_fingerprint |}.

Record Invite := {
  iv_queue : QueueDescriptor;
  iv_bundle : PrekeyBundle;
  iv_nonce : bytes;
  iv_expiry_ms : Z;
  iv_signature : IdentitySignature;
}.

Definition invite_body_frame (queue : QueueDescriptor) (identity : IdentityPublicKey)
    (bundle_bytes nonce : bytes) (expiry_ms : Z) : Frame :=
  let frame := with_field Frame_new TAG_CONTEXT INVITE_CONTEXT in
  let frame := with_field frame TAG_QUEUE_URI (QueueDescriptor_encode queue) in
  let frame := with_field frame TAG_IDENTITY_PUB (IdentityPublicKey_to_bytes identity) in
  let frame := with_field frame TAG_PREKEY_BUNDLE bundle_bytes in
  let frame := with_field frame TAG_INVITE_NONCE nonce in
  with_field frame TAG_EXPIRY (be_bytes 8 expiry_ms).

Definition invite_signing_body (queue : QueueDescriptor) (identity : IdentityPublicKey)
    (bundle_bytes nonce : bytes) (expiry_ms : Z) : bytes :=
  encode (invite_body_frame queue identity bundle_bytes nonce expiry_ms).

Definition Invite_create (rsig : bytes) (identity : IdentityKeyPair) (queue : QueueDescriptor)
    (bundle : PrekeyBundle) (nonce : bytes) (expiry_ms : Z) : Invite :=
  let bundle_bytes := PrekeyBundle_encode bundle in
  let body := invite_signing_body queue (identity_public identity) bundle_bytes nonce expiry_ms in
  let signature := sign identity body rsig in
  {| iv_queue := queue; iv_bundle := bundle; iv_nonce := nonce; iv_expiry_ms := expiry_ms;
     iv_signature := signature |}.

Definition Invite_frame (i : Invite) : Frame :=
  with_field
    (invite_body_frame (iv_queue i) (pb_identity (iv_bundle i)) (PrekeyBundle_encode (iv_bundle i))
       (iv_nonce i) (iv_expiry_ms i))
    TAG_SIGNATURE (IdentitySignature_to_bytes (iv_signature i)).

Definition Invite_encode (i : Invite) : bytes := encode (Invite_frame i).

Definition to_uri (i : Invite) : string := String.append INVITE_PREFIX (b64url_encode (Invite_encode i)).

Definition Invite_decode (b : bytes) : Result CryptoError Invite :=
  let? frame := wire_err (decode b) in
  if negb (bool_decide (get frame TAG_CONTEXT = Some INVITE_CONTEXT))
  then Err (malformed "invite context")
  else
    let? qb := wire_err (require frame TAG_QUEUE_URI) in
    let? queue := QueueDescriptor_decode qb in
    let? ib := wire_err (require frame TAG_IDENTITY_PUB) in
    let? identity := IdentityPublicKey_from_bytes ib in
    let? bundle_bytes := wire_err (require frame TAG_PREKEY_BUNDLE) in
    let? nb := wire_err (require frame TAG_INVITE_NONCE) in
    let? nonce := try_array INVITE_NONCE_LEN nb (malformed "invite nonce") in
    let? eb := wire_err (require frame TAG_EXPIRY) in
    let? expiry_bytes := try_array 8 eb (malformed "invite expiry") in
    let expiry_ms := from_be expiry_bytes in
    let? gb := wire_err (require frame TAG_SIGNATURE) in
    let? signature := IdentitySignature_from_bytes gb in
    let? bundle := PrekeyBundle_decode bundle_bytes in
    if negb (bool_decide (IdentityPublicKey_to_bytes (pb_identity bundle)
                          = IdentityPublicKey_to_bytes identity))
    then Err (malformed "invite identity mismatch")
    else
      let body := invite_signing_body queue identity bundle_bytes nonce expiry_ms in
      let? _ := verify identity body signature in
      Ok {| iv_queue := queue; iv_bundle := bundle; iv_nonce := nonce;
            iv_expiry_ms := expiry_ms; iv_signature := signature |}.

(** [str::strip_prefix]. *)
Fixpoint strip_prefix (p s : string) : option string :=
  match p, s with
  | EmptyString, _ => Some s
  | String a p', String b s' => if bool_decide (a = b) then strip_prefix p' s' else None
  | String _ _, EmptyString => None
  end.

Definition Invite_parse (uri : string) : Result CryptoError Invite :=
  let? b64 := ok_or (strip_prefix INVITE_PREFIX uri) (malformed "invite scheme") in
  let? b := ok_or (b64url_decode b64) (malformed "invite base64") in
  Invite_decode b.

(** ** Properties *)

(** What the Rust types say of a descriptor; the URL leaves room for a [Vec]. *)
Definition queue_ok (q : QueueDescriptor) : Prop :=
  length (queue_id q) = 32%nat ∧ utf8_valid (relay_url q) = true ∧ blen (relay_url q) <= 2 ^ 28 ∧
  length (ca_fingerprint q) = CA_FINGERPRINT_LEN.

Context `{LX : !X25519Laws} `{LK : !MlkemLaws} `{LD : !MldsaLaws}.

Lemma queue_size q : queue_ok q → frame_size (queue_frame q) <= 136 + 2 ^ 28.
Proof.
  intros (H1 & _ & H2 & H3). unfold frame_size. cbn [queue_frame with_field fields Frame_new app foldr value].
  unfold blen at 1 3. rewrite H1, H3. unfold CA_FINGERPRINT_LEN. lia.
Qed.

Lemma queue_frame_ok q : queue_ok q → frame_ok (queue_frame q).
Proof.
  intros (H1 & _ & H2 & H3). split; [cbn [flags]; split; vm_compute; discriminate|].
  repeat apply Forall_cons_2; try apply Forall_nil_2; known_field; apply small_vec_ok; [| lia |];
    unfold blen; rewrite ?H1, ?H3; unfold CA_FINGERPRINT_LEN; lia.
Qed.

Lemma queue_vec_ok q : queue_ok q → vec_ok (QueueDescriptor_encode q).
Proof. intros Hq. apply frame_vec_ok. pose proof (queue_size q Hq). lia. Qed.

Lemma queue_roundtrip q : queue_ok q → QueueDescriptor_decode (QueueDescriptor_encode q) = Ok q.
Proof.
  intros Hq. unfold QueueDescriptor_decode, QueueDescriptor_encode.
  rewrite decode_encode by (by apply queue_frame_ok || by apply queue_vec_ok).
  destruct Hq as (H1 & H2 & _ & H3).
  cbn [wire_err map_err rbind]. unfold require, get. cbn -[try_array from_utf8].
  rewrite try_array_ok by done. cbn [rbind]. unfold from_utf8. rewrite H2. cbn -[try_array].
  rewrite try_array_ok by done. cbn. by destruct q.
Qed.

Definition invite_ok (i : Invite) : Prop :=
  queue_ok (iv_queue i) ∧ authentic (iv_bundle i) ∧ length (iv_nonce i) = INVITE_NONCE_LEN ∧
  is_u64 (iv_expiry_ms i) ∧
  vk_verify (verifying_key (pb_identity (iv_bundle i)))
    (invite_signing_body (iv_queue i) (pb_identity (iv_bundle i))
       (PrekeyBundle_encode (iv_bundle i)) (iv_nonce i) (iv_expiry_ms i))
    (iv_signature i) = true.

Lemma bundle_len b : blen (PrekeyBundle_encode b) <= 7000.
Proof.
  destruct key_lengths as (H1 & H2 & H3 & H4).
  etrans; [apply blen_encode_le|]. unfold frame_size, body_frame.
  destruct (pb_one_time_prekey b); cbn [with_field fields Frame_new app foldr value];
    rewrite ?H1, ?H2, ?H3, ?H4; change (blen PREKEY_CONTEXT) with 20; lia.
Qed.

Lemma queue_encode_len q : queue_ok q → blen (QueueDescriptor_encode q) <= 136 + 2 ^ 28.
Proof. intros Hq. etrans; [apply blen_encode_le|]. by apply queue_size. Qed.

Lemma invite_frame_ok i :
  queue_ok (iv_queue i) → length (iv_nonce i) = INVITE_NONCE_LEN →
  frame_ok (Invite_frame i) ∧ vec_ok (Invite_encode i).
Proof.
  intros Hq Hn. destruct key_lengths as (H1 & H2 & H3 & H4).
  pose proof (bundle_len (iv_bundle i)) as Hb. pose proof (queue_encode_len _ Hq) as Hqe.
  assert (blen (iv_nonce i) = 16) as Hn' by (unfold blen; by rewrite Hn).
  split; [split; [cbn [flags]; split; vm_compute; discriminate|]|].
  - repeat apply Forall_cons_2; try apply Forall_nil_2; known_field; apply small_vec_ok;
      rewrite ?H2, ?H4, ?Hn', ?blen_be_bytes; try lia. by vm_compute.
  - apply frame_vec_ok. unfold frame_size, Invite_frame, invite_body_frame.
    cbn [with_field fields Frame_new app foldr value].
    rewrite H2, H4, Hn', blen_be_bytes. change (blen INVITE_CONTEXT) with 13. lia.
Qed.

Lemma invite_body_ok q i b n e :
  queue_ok q → blen b <= 2 ^ 28 → length n = INVITE_NONCE_LEN →
  frame_ok (invite_body_frame q i b n e) ∧ vec_ok (invite_signing_body q i b n e).
Proof.
  intros Hq Hb Hn. destruct key_lengths as (H1 & H2 & H3 & H4).
  pose proof (queue_encode_len _ Hq) as Hqe.
  assert (blen n = 16) as Hn' by (unfold blen; by rewrite Hn).
  split; [split; [cbn [flags]; split; vm_compute; discriminate|]|].
  - repeat apply Forall_cons_2; try apply Forall_nil_2; known_field; apply small_vec_ok;
      rewrite ?H2, ?Hn', ?blen_be_bytes; try lia. by vm_compute.
  - apply frame_vec_ok. unfold frame_size, invite_body_frame.
    cbn [with_field fields Frame_new app foldr value].
    rewrite H2, Hn', blen_be_bytes. change (blen INVITE_CONTEXT) with 13. lia.
Qed.

Lemma invite_decode_encode i : invite_ok i → Invite_decode (Invite_encode i) = Ok i.
Proof.
  intros (Hq & Hb & Hn & He & Hs). destruct (invite_frame_ok i Hq Hn) as [Hf Hv].
  unfold Invite_decode, Invite_encode in *. rewrite decode_encode by done.
  destruct i as [q b n e sg].
  cbn [iv_queue iv_bundle iv_nonce iv_expiry_ms iv_signature] in *.
  cbn [wire_err map_err rbind]. rewrite bool_decide_true by done. cbn [negb].
  unfold require, get. cbn -[try_array QueueDescriptor_encode QueueDescriptor_decode
    IdentityPublicKey_from_bytes IdentityPublicKey_to_bytes PrekeyBundle_encode PrekeyBundle_decode
    IdentitySignature_from_bytes IdentitySignature_to_bytes invite_signing_body from_be verify].
  rewrite queue_roundtrip by done. cbn [rbind]. rewrite IdentityPublicKey_roundtrip. cbn [rbind].
  rewrite try_array_ok by done. cbn [rbind]. rewrite try_array_ok by apply length_be_bytes. cbn [rbind].
  rewrite IdentitySignature_roundtrip. cbn [rbind]. rewrite bundle_decode_encode by done. cbn [rbind].
  rewrite bool_decide_true by done. cbn [negb].
  rewrite from_be_be_bytes_id by (unfold is_u64, u64_max in He; cbn; lia).
  unfold verify. by rewrite Hs.
Qed.

Lemma strip_prefix_append p s : strip_prefix p (String.append p s) = Some s.
Proof. induction p as [|a p IH]; [done|].
  change (String.append (String a p) s) with (String a (String.append p s)). cbn [strip_prefix].
  by rewrite bool_decide_true. Qed.

Lemma create_ok rsig id q b n e :
  queue_ok q → authentic b → pb_identity b = identity_public id →
  length n = INVITE_NONCE_LEN → is_u64 e → invite_ok (Invite_create rsig id q b n e).
Proof.
  intros Hq Hb Hi Hn He. unfold invite_ok, Invite_create.
  cbn [iv_queue iv_bundle iv_nonce iv_expiry_ms iv_signature].
  split_and!; [done..|]. rewrite Hi. apply verify_sign.
Qed.

(** C23: an invite created for one's own bundle parses back from its [buh1:]
    string to the same invite. *)
Theorem invite_uri_roundtrip `{LB : !Base64Laws} rsig id q b n e :
  queue_ok q → authentic b → pb_identity b = identity_public id →
  length n = INVITE_NONCE_LEN → is_u64 e →
  Invite_parse (to_uri (Invite_create rsig id q b n e)) = Ok (Invite_create rsig id q b n e).
Proof.
  intros. unfold Invite_parse, to_uri. rewrite strip_prefix_append. cbn [ok_or rbind].
  rewrite b64url_decode_encode. cbn [ok_or rbind]. by apply invite_decode_encode, create_ok.
Qed.

(** C24: a parsed invite is authentic: its bundle verifies on its own, the
    identity the bundle names verifies the outer signature over the queue, the
    carried bundle bytes, the nonce and the expiry of the result, and the
    fields have the sizes of their types. *)
Theorem parsed_invite_is_authentic b i :
  Invite_decode b = Ok i →
  ∃ bundle_bytes,
    PrekeyBundle_decode bundle_bytes = Ok (iv_bundle i) ∧ authentic (iv_bundle i) ∧
    vk_verify (verifying_key (pb_identity (iv_bundle i)))
      (invite_signing_body (iv_queue i) (pb_identity (iv_bundle i)) bundle_bytes
         (iv_nonce i) (iv_expiry_ms i)) (iv_signature i) = true ∧
    length (queue_id (iv_queue i)) = 32%nat ∧ utf8_valid (relay_url (iv_queue i)) = true ∧
    length (ca_fingerprint (iv_queue i)) = CA_FINGERPRINT_LEN ∧
    length (iv_nonce i) = INVITE_NONCE_LEN ∧ is_u64 (iv_expiry_ms i).
Proof.
  unfold Invite_decode, QueueDescriptor_decode. intros H. inv_ok.
  destruct (negb _); [done|]. inv_ok. case_bool_decide as Hid; cbn [negb] in H; [|done]. inv_ok.
  repeat match goal with
  | H : try_array _ _ _ = Ok _ |- _ => apply try_array_inv in H as [-> ?]
  end.
  apply IdentityPublicKey_to_bytes_inj in Hid. subst i.
  cbn [iv_queue iv_bundle iv_nonce iv_expiry_ms iv_signature].
  subst. cbn [queue_id relay_url ca_fingerprint].
  eexists. split; [done|]. split; [by eapply bundle_decode_authentic|].
  unfold verify in *. destruct (vk_verify _ _ _) eqn:Hv; [|done]. split; [done|].
  unfold from_utf8 in *. destruct (utf8_valid _) eqn:Hu; [|done]. inv_ok. subst.
  split_and!; try done. pose proof (from_be_range a7) as Hr.
  unfold blen in Hr. rewrite H0 in Hr. unfold is_u64, u64_max. cbn in *. lia.
Qed.

(** the outer signature covers everything the invite says: equal signed
    strings come from the same queue, identity, bundle bytes, nonce and
    expiry. *)
Theorem invite_body_binds q i b n e q' i' b' n' e' :
  queue_ok q → queue_ok q' → blen b <= 2 ^ 28 → blen b' <= 2 ^ 28 →
  length n = INVITE_NONCE_LEN → length n' = INVITE_NONCE_LEN → is_u64 e → is_u64 e' →
  invite_signing_body q i b n e = invite_signing_body q' i' b' n' e' →
  q = q' ∧ i = i' ∧ b = b' ∧ n = n' ∧ e = e'.
Proof.
  intros Hq Hq' Hb Hb' Hn Hn' He He' H.
  destruct (invite_body_ok q i b n e Hq Hb Hn) as [Hf Hv].
  destruct (invite_body_ok q' i' b' n' e' Hq' Hb' Hn') as [Hf' _].
  apply encode_inj in H; [|done..].
  assert (∀ t, get (invite_body_frame q i b n e) t = get (invite_body_frame q' i' b' n' e') t) as Hg
    by (intros; by rewrite H).
  pose proof (Hg TAG_QUEUE_URI) as [= Eq]. pose proof (Hg TAG_IDENTITY_PUB) as [= Ei].
  pose proof (Hg TAG_PREKEY_BUNDLE) as [= Eb]. pose proof (Hg TAG_INVITE_NONCE) as [= En].
  assert (be_bytes 8 e = be_bytes 8 e') as Ee
    by exact (f_equal (default []) (Hg TAG_EXPIRY)).
  split_and!; [|by apply IdentityPublicKey_to_bytes_inj|done|done|].
  - apply (f_equal QueueDescriptor_decode) in Eq. rewrite !queue_roundtrip in Eq by done.
    by injection Eq.
  - rewrite <-(from_be_be_bytes_id 8 e), <-(from_be_be_bytes_id 8 e'), Ee;
      [done|unfold is_u64, u64_max in *; cbn; lia..].
Qed.
End Invite.

(** ** Witnesses and a non-canonical invite *)

Module InviteSample.
#[local] Existing Instance model_primitives.
Definition queue : QueueDescriptor :=
  {| queue_id := repeat Byte.x11 32; relay_url := bstr "https://relay.example:8443";
     ca_fingerprint := repeat Byte.x22 32 |}.
Definition nonce : bytes := repeat Byte.x33 16.
Definition invite : Invite :=
  Invite_create [Byte.x00] PrekeySample.id queue PrekeySample.bundle nonce 1900000000000.

Lemma queue_fine : queue_ok queue.
Proof. repeat split; by vm_compute. Qed.

Lemma bundle_authentic : authentic PrekeySample.bundle.
Proof.
  exact (generate_authentic [Byte.x01] [Byte.x02] [Byte.x03] [Byte.x04] PrekeySample.id true
           PrekeySample.secrets PrekeySample.bundle eq_refl).
Qed.

(** The genuine bundle with an unknown field appended, which the bundle parser
    skips, and the inviter's signature over the bytes as they are. *)
Definition padded_bundle : bytes := PrekeyBundle_encode PrekeySample.bundle ++ [Byte.x7f; Byte.x00].
Definition signature : IdentitySignature :=
  sign PrekeySample.id
    (invite_signing_body queue (identity_public PrekeySample.id) padded_bundle nonce 7) [].
Definition padded_invite : bytes :=
  encode (with_field
    (invite_body_frame queue (identity_public PrekeySample.id) padded_bundle nonce 7)
    TAG_SIGNATURE (IdentitySignature_to_bytes signature)).
End InviteSample.

(** an accepted invite need not survive re-encoding: the inviter's
    signature covers the bundle bytes as they arrived, [encode] writes the
    bundle's canonical form.  Bytes with an unknown field inside the bundle are
    accepted, and encoding the result gives bytes that are refused with
    [BadSignature]. *)
Theorem accepted_invite_may_not_reencode :
  match Invite_decode InviteSample.padded_invite with
  | Ok i => match Invite_decode (Invite_encode i) with
            | Err e => e = BadSignature
            | Ok _ => False
            end
  | Err _ => False
  end.
Proof. by vm_compute. Qed.

Lemma invite_uri_roundtrip_witness :
  Invite_parse (to_uri InviteSample.invite) = Ok InviteSample.invite.
Proof.
  refine (invite_uri_roundtrip [Byte.x00] PrekeySample.id InviteSample.queue PrekeySample.bundle
    InviteSample.nonce 1900000000000 InviteSample.queue_fine InviteSample.bundle_authentic
    eq_refl eq_refl _). by vm_compute.
Defined.

Lemma parsed_invite_is_authentic_witness :
  ∃ bundle_bytes,
    PrekeyBundle_decode bundle_bytes = Ok (iv_bundle InviteSample.invite).
Proof.
  destruct (parsed_invite_is_authentic (Invite_encode InviteSample.invite) InviteSample.invite)
    as (bb & H & _); [|by exists bb].
  apply invite_decode_encode, create_ok;
    [apply InviteSample.queue_fine|apply InviteSample.bundle_authentic|done|done|by vm_compute].
Defined.

Lemma invite_body_binds_witness : InviteSample.queue = InviteSample.queue ∧ 7 = 7.
Proof.
  destruct (invite_body_binds InviteSample.queue (identity_public PrekeySample.id) []
    InviteSample.nonce 7 InviteSample.queue (identity_public PrekeySample.id) [] InviteSample.nonce 7
    InviteSample.queue_fine InviteSample.queue_fine) as (H1 & _ & _ & _ & H2);
    [by vm_compute..|split; [exact H1|exact H2]].
Defined.
