(* ===== verification/Ffi.v ===== *)
(** * The session facade: [buh-crypto/src/ffi.rs]

    A state-returning interface over opaque blobs: each call takes the blobs it
    needs and returns new ones; an error returns none.  The theorems reduce the
    facade to the typed sessions of [Ratchet] and [Pqxdh]. *)

From S2P Require Import Prelude.
From S2P Require Import Wire.
From S2P Require Import Keys.
From S2P Require Import Ratchet.
From S2P Require Import RatchetPersist.
From S2P Require Import RatchetSpec.
From S2P Require Import RatchetDelivery.
From S2P Require Import Media.
From S2P Require Import Prekey.
From S2P Require Import Pqxdh.
From S2P Require Import Invite.
From S2P Require Import ModelCrypto.

(** The causes whose text a [JsError] carries. *)
Inductive JsError : Type :=
| JsCrypto (e : CryptoError)
| JsLength (n : nat) (what : string).

(** ** The casts between [f64] and [u64]

    A finite [f64] is [m * 2^e]. *)
Inductive F64 : Type :=
| F64_nan
| F64_inf (negative : bool)
| F64_fin (m e : Z).

(** [x as u64]: truncates towards zero, saturates, and sends NaN to 0. *)
Definition f64_as_u64 (x : F64) : Z :=
  match x with
  | F64_nan => 0
  | F64_inf negative => if negative then 0 else u64_max
  | F64_fin m e =>
      let t := if 0 <=? e then m * 2 ^ e else Z.quot m (2 ^ (- e)) in
      Z.max 0 (Z.min t u64_max)
  end.

(** [n as f64]: exact below 2^53, otherwise rounded to 53 bits, ties to even. *)
Definition u64_as_f64 (n : Z) : F64 :=
  if n <? 2 ^ 53 then F64_fin n 0
  else
    let k := Z.log2 n - 52 in
    let q := n / 2 ^ k in
    let r := n mod 2 ^ k in
    let half := 2 ^ (k - 1) in
    let up := (half <? r) || ((half =? r) && Z.odd q) in
    F64_fin (if up then q + 1 else q) k.

Section Facade.
Context `{PF : Platform} `{PR : Primitives}.

Definition QUEUE_ID_LEN : nat := 32.

Definition js {A} (m : Result CryptoError A) : Result JsError A := map_err JsCrypto m.

Definition fixed (n : nat) (b : bytes) (what : string) : Result JsError bytes :=
  try_array n b (JsLength n what).

(** ** Self tests *)

(** The package version of the workspace. *)
Definition VERSION : string := "0.1.0".
Definition version : string := VERSION.
Definition echo (b : bytes) : bytes := b.

Definition wire_self_test : bool :=
  let frame := with_field
    (with_field (with_flags Frame_new FLAG_HANDSHAKE) TAG_IDENTITY_PUB [Byte.x01; Byte.x02; Byte.x03])
    TAG_SIGNATURE (repeat Byte.x09 8) in
  match decode (encode frame) with
  | Err _ => false
  | Ok back => bool_decide (back = frame) && is_ok (reject_reserved_pq back)
  end.

Definition kat_bytes (first : Z) (n : nat) : bytes := (λ i, byte_of (first + Z.of_nat i)) <$> seq 0 n.

Definition aead_self_test : bool :=
  let key := kat_bytes 0x80 32 in
  let nonce := kat_bytes 0x40 24 in
  let aad := kat_bytes 0x50 4 ++ kat_bytes 0xc0 8 in
  let plaintext := bstr "Ladies and Gentlemen of the class of '99: If I could offer you only one tip for the future, sunscreen would be it." in
  match seal key nonce aad plaintext with
  | Err _ => false
  | Ok sealed => bool_decide (open key nonce aad sealed = Ok plaintext)
  end.

Definition identity_self_test (rnd rsig : bytes) : bool :=
  let id := IdentityKeyPair_generate rnd in
  let pk := identity_public id in
  let msg := bstr "buh wasm boundary" in
  let sig := sign id msg rsig in
  is_ok (verify pk msg sig) && negb (is_ok (verify pk (bstr "tampered") sig)).

(** ** Identities and prekeys *)

Definition generate_identity (rnd : bytes) : bytes := to_seed (IdentityKeyPair_generate rnd).

Definition identity_public_key (identity : bytes) : Result JsError bytes :=
  let? seed := fixed SEED_LEN identity "identity" in
  let id := from_seed seed in
  Ok (IdentityPublicKey_to_bytes (identity_public id)).

Record PrekeyMaterial := { pm_secrets : bytes; pm_bundle : bytes }.

Definition publishable_prekey_bundle (rs rk ro rsig identity : bytes) : Result JsError PrekeyMaterial :=
  let? seed := fixed SEED_LEN identity "identity" in
  let id := from_seed seed in
  let '(secrets, bundle) := PrekeyBundle_generate rs rk ro rsig id true in
  Ok {| pm_secrets := PrekeySecrets_to_bytes secrets; pm_bundle := PrekeyBundle_encode bundle |}.

(** ** Invites *)

Definition create_invite (rsig identity queue_id relay_url ca_fingerprint bundle nonce : bytes)
    (expiry_ms : F64) : Result JsError string :=
  let? seed := fixed SEED_LEN identity "identity" in
  let id := from_seed seed in
  let? queue_id := fixed QUEUE_ID_LEN queue_id "queue id" in
  let? ca_fingerprint := fixed CA_FINGERPRINT_LEN ca_fingerprint "ca fingerprint" in
  let queue := {| Invite.queue_id := queue_id; Invite.relay_url := relay_url;
                  Invite.ca_fingerprint := ca_fingerprint |} in
  let? bundle := js (PrekeyBundle_decode bundle) in
  let? nonce := fixed INVITE_NONCE_LEN nonce "invite nonce" in
  let invite := Invite_create rsig id queue bundle nonce (f64_as_u64 expiry_ms) in
  Ok (to_uri invite).

Record ParsedInvite := {
  pi_queue_id : bytes;
  pi_relay_url : bytes;
  pi_ca_fingerprint : bytes;
  pi_identity_public_key : bytes;
  pi_bundle : bytes;
  pi_expiry_ms : F64;
}.

Definition parse_invite (uri : string) : Result JsError ParsedInvite :=
  let? invite := js (Invite_parse uri) in
  Ok {| pi_queue_id := queue_id (iv_queue invite);
        pi_relay_url := relay_url (iv_queue invite);
        pi_ca_fingerprint := ca_fingerprint (iv_queue invite);
        pi_identity_public_key := IdentityPublicKey_to_bytes (pb_identity (iv_bundle invite));
        pi_bundle := PrekeyBundle_encode (iv_bundle invite);
        pi_expiry_ms := u64_as_f64 (iv_expiry_ms invite) |}.

(** ** Sessions *)

Record InitiatedSession := { is_session : bytes; is_initial_message : bytes }.

(** The draws: those of [initiate], then the first ratchet key. *)
Definition initiate_session (re rk rs rratchet identity bundle : bytes) : Result JsError InitiatedSession :=
  let? seed := fixed SEED_LEN identity "identity" in
  let id := from_seed seed in
  let? bundle := js (PrekeyBundle_decode bundle) in
  let '(message, root) := initiate re rk rs id bundle in
  let session := initiator root (pb_signed_prekey bundle) rratchet in
  Ok {| is_session := to_bytes session; is_initial_message := InitialMessage_encode message |}.

Definition accept_session (secrets bundle initial_message : bytes) : Result JsError bytes :=
  let? secrets := js (PrekeySecrets_from_bytes secrets) in
  let? bundle := js (PrekeyBundle_decode bundle) in
  let? message := js (InitialMessage_decode initial_message) in
  let? root := js (respond bundle secrets message) in
  let session := responder root (ps_signed_prekey secrets) in
  Ok (to_bytes session).

Record EncryptedMessage := { em_session : bytes; em_message : bytes }.

Definition encrypt_message (session plaintext : bytes) : Result JsError EncryptedMessage :=
  let? state := js (from_bytes session) in
  let '(r, state) := encrypt plaintext state in
  let? message := js r in
  Ok {| em_session := to_bytes state; em_message := message |}.

Record DecryptedMessage := { dm_session : bytes; dm_plaintext : bytes }.

Definition decrypt_message (rnd session message : bytes) : Result JsError DecryptedMessage :=
  let? state := js (from_bytes session) in
  let '(r, state) := decrypt rnd message state in
  let? plaintext := js r in
  Ok {| dm_session := to_bytes state; dm_plaintext := plaintext |}.

(** ** Media *)

Record SealedMedia := { sm_key_material : bytes; sm_ciphertext : bytes }.

Definition ffi_seal_media (rnd_key rnd_nonce plaintext : bytes) : option SealedMedia :=
  match seal_media rnd_key rnd_nonce plaintext with
  | Some (key, ciphertext) =>
      Some {| sm_key_material := MediaKey_to_bytes key; sm_ciphertext := ciphertext |}
  | None => None
  end.

Definition ffi_open_media (key_material ciphertext : bytes) : Result JsError bytes :=
  let? key := js (MediaKey_from_bytes key_material) in
  js (open_media key ciphertext).

(** ** Properties *)

Context `{LX : !X25519Laws} `{LK : !MlkemLaws} `{LD : !MldsaLaws} `{LH : !HkdfLaws}.

Lemma encrypt_message_eq st pt :
  ratchet_wf st →
  encrypt_message (to_bytes st) pt =
  match encrypt pt st with
  | (Ok m, st') => Ok {| em_session := to_bytes st'; em_message := m |}
  | (Err e, _) => Err (JsCrypto e)
  end.
Proof.
  intros Hwf. unfold encrypt_message, js. rewrite from_bytes_to_bytes by done. cbn [map_err rbind].
  by destruct (encrypt pt st) as [[] st'].
Qed.

Lemma decrypt_message_eq st rnd m :
  ratchet_wf st →
  decrypt_message rnd (to_bytes st) m =
  match decrypt rnd m st with
  | (Ok pt, st') => Ok {| dm_session := to_bytes st'; dm_plaintext := pt |}
  | (Err e, _) => Err (JsCrypto e)
  end.
Proof.
  intros Hwf. unfold decrypt_message, js. rewrite from_bytes_to_bytes by done. cbn [map_err rbind].
  by destruct (decrypt rnd m st) as [[] st'].
Qed.

(** C4: the facade refines the typed sessions.  On the blob of any session a
    program can hold, [encrypt_message] and [decrypt_message] return exactly
    what [encrypt] and [decrypt] return, with the blob of the session they
    leave behind; when they fail the caller gets the error and no new blob,
    so the session it holds is unchanged. *)
Theorem facade_refines_sessions st rnd m pt :
  session_reachable st →
  encrypt_message (to_bytes st) pt =
  match encrypt pt st with
  | (Ok c, st') => Ok {| em_session := to_bytes st'; em_message := c |}
  | (Err e, _) => Err (JsCrypto e)
  end ∧
  decrypt_message rnd (to_bytes st) m =
  match decrypt rnd m st with
  | (Ok p, st') => Ok {| dm_session := to_bytes st'; dm_plaintext := p |}
  | (Err e, _) => Err (JsCrypto e)
  end.
Proof.
  intros Hr%session_reachable_wf. split; [by apply encrypt_message_eq|by apply decrypt_message_eq].
Qed.

(** opening a session through the facade: the prekey material one client
    publishes, the first flight another client makes from it, and the first
    client's acceptance lead to the two blobs of the initial state
    [net_init root prekey rnd] of a conversation, from one root key. *)
Theorem facade_opens_session rs rk ro rsig re rke rsi rr bob alice material :
  length alice = SEED_LEN →
  publishable_prekey_bundle rs rk ro rsig bob = Ok material →
  ∃ root opened,
    let N := net_init root (X25519SecretKey_generate rs) rr in
    initiate_session re rke rsi rr alice (pm_bundle material) = Ok opened ∧
    is_session opened = to_bytes (session (ends N Alice)) ∧
    accept_session (pm_secrets material) (pm_bundle material) (is_initial_message opened)
    = Ok (to_bytes (session (ends N Bob))).
Proof.
  intros Ha Hp. unfold publishable_prekey_bundle in Hp. inv_ok.
  destruct (PrekeyBundle_generate rs rk ro rsig (from_seed a) true) as [secrets bundle] eqn:Hg.
  injection Hp as <-. cbn [pm_secrets pm_bundle].
  assert (PrekeyBundle_decode (PrekeyBundle_encode bundle) = Ok bundle) as Hb
    by (by eapply bundle_decode_encode, generate_authentic).
  pose proof (respond_initiate re rke rsi (from_seed alice) _ _ _ _ _ _ _ _ Hg) as Hr.
  pose proof (initiate_ct_length re rke rsi (from_seed alice) bundle) as Hct.
  assert (ps_signed_prekey secrets = X25519SecretKey_generate rs ∧
          pb_signed_prekey bundle = public_key (X25519SecretKey_generate rs)) as [Hs Hsp].
  { unfold PrekeyBundle_generate in Hg. destruct (MlKemSecretKey_generate rk).
    by injection Hg as <- <-. }
  destruct (initiate re rke rsi (from_seed alice) bundle) as [m root] eqn:Hi.
  exists root, {| is_session := to_bytes (initiator root (pb_signed_prekey bundle) rr);
                  is_initial_message := InitialMessage_encode m |}.
  cbv zeta. split_and!.
  - unfold initiate_session, fixed, js. rewrite try_array_ok by done. cbn [rbind].
    rewrite Hb. cbn [map_err rbind]. by rewrite Hi.
  - cbn [is_session net_init ends session]. by rewrite Hsp.
  - unfold accept_session, js. rewrite secrets_roundtrip. cbn [map_err rbind]. rewrite Hb.
    cbn [map_err rbind is_initial_message]. rewrite im_roundtrip.
    + cbn [map_err rbind]. cbn [fst snd] in Hr. rewrite Hr. cbn [map_err rbind]. by rewrite Hs.
    + unfold blen. cbn [fst] in Hct. rewrite Hct. unfold MLKEM_CIPHERTEXT_LEN. lia.
Qed.
Lemma f64_as_u64_range x : is_u64 (f64_as_u64 x).
Proof.
  unfold is_u64, f64_as_u64, u64_max. destruct x as [|[]|m e]; [lia..|]. cbv zeta.
  destruct (0 <=? e); lia.
Qed.

Lemma u64_as_f64_exact n : 0 <= n <= 2 ^ 53 → f64_as_u64 (u64_as_f64 n) = n.
Proof.
  intros Hn. unfold u64_as_f64. destruct (Z.ltb_spec n (2 ^ 53)).
  - cbn. rewrite Z.mul_1_r. unfold u64_max. lia.
  - assert (n = 2 ^ 53) as -> by lia. by vm_compute.
Qed.

(** invites through the facade: a client that makes an invite from its own
    identity blob and the prekey material it published obtains a string that
    any client parses to the same queue, relay, pinned fingerprint, identity
    and bundle, and to the same expiry for every time below 2^53 ms. *)
Theorem facade_invite_roundtrip `{LB : !Base64Laws}
    rs rk ro rsig rinv identity qid url ca nonce expiry material :
  publishable_prekey_bundle rs rk ro rsig identity = Ok material →
  queue_ok {| Invite.queue_id := qid; Invite.relay_url := url; Invite.ca_fingerprint := ca |} →
  length nonce = INVITE_NONCE_LEN → 0 <= expiry <= 2 ^ 53 →
  ∃ uri pub parsed,
    create_invite rinv identity qid url ca (pm_bundle material) nonce (u64_as_f64 expiry) = Ok uri ∧
    identity_public_key identity = Ok pub ∧
    parse_invite uri = Ok parsed ∧
    pi_queue_id parsed = qid ∧ pi_relay_url parsed = url ∧ pi_ca_fingerprint parsed = ca ∧
    pi_identity_public_key parsed = pub ∧ pi_bundle parsed = pm_bundle material ∧
    f64_as_u64 (pi_expiry_ms parsed) = expiry.
Proof.
  intros Hp Hq Hn He. unfold publishable_prekey_bundle in Hp. inv_ok.
  apply try_array_inv in Ha as [-> Hl].
  destruct (PrekeyBundle_generate rs rk ro rsig (from_seed identity) true) as [secrets bundle] eqn:Hg.
  injection Hp as <-. cbn [pm_secrets pm_bundle].
  pose proof (generate_authentic _ _ _ _ _ _ _ _ Hg) as Hauth.
  assert (pb_identity bundle = identity_public (from_seed identity)) as Hid.
  { unfold PrekeyBundle_generate in Hg. destruct (MlKemSecretKey_generate rk).
    by injection Hg as <- <-. }
  set (q := {| Invite.queue_id := qid; Invite.relay_url := url; Invite.ca_fingerprint := ca |}) in *.
  pose proof Hq as (Hq1 & _ & _ & Hq3). cbn in Hq1, Hq3.
  set (i := Invite_create rinv (from_seed identity) q bundle nonce expiry).
  assert (Invite_parse (to_uri i) = Ok i) as Hi.
  { unfold Invite_parse, to_uri. rewrite strip_prefix_append. cbn [ok_or rbind].
    rewrite b64url_decode_encode. cbn [ok_or rbind].
    apply invite_decode_encode, create_ok; try done. unfold is_u64, u64_max. lia. }
  eexists _, _, _. split_and!.
  - unfold create_invite, fixed, js. rewrite !try_array_ok by done. cbn [rbind].
    rewrite bundle_decode_encode by done. cbn [map_err rbind]. by rewrite u64_as_f64_exact.
  - unfold identity_public_key, fixed. by rewrite try_array_ok.
  - unfold parse_invite, js. fold q i. by rewrite Hi.
  - done.
  - done.
  - done.
  - cbn [pi_identity_public_key i Invite_create iv_bundle]. by rewrite Hid.
  - done.
  - cbn [pi_expiry_ms i Invite_create iv_expiry_ms]. by apply u64_as_f64_exact.
Qed.

(** media through the facade: the sealed file opens with the key material
    that travelled in the envelope, and the boundary checks that the browser
    build runs on itself succeed. *)
Theorem facade_media_and_self_tests `{LA : !AeadLaws} rnd_key rnd_nonce file :
  length rnd_key = KEY_LEN → length rnd_nonce = NONCE_LEN → blen file < AEAD_MAX_LEN →
  (∃ sealed, ffi_seal_media rnd_key rnd_nonce file = Some sealed ∧
     ffi_open_media (sm_key_material sealed) (sm_ciphertext sealed) = Ok file) ∧
  wire_self_test = true ∧ aead_self_test = true.
Proof.
  intros Hk Hn Hf. split_and!.
  - destruct (aead_seal_total rnd_key rnd_nonce MEDIA_AAD file Hf) as [ct Hct].
    apply seal_inv in Hct. eexists. split.
    + unfold ffi_seal_media, seal_media, MediaKey_generate, random_nonce. cbn [mk_key mk_nonce].
      by rewrite Hct.
    + unfold ffi_open_media, js. cbn [sm_key_material sm_ciphertext].
      rewrite MediaKey_roundtrip by done. cbn [map_err rbind].
      unfold open_media. cbn [mk_key mk_nonce]. by rewrite (open_seal _ _ _ _ _ Hct).
  - unfold wire_self_test. rewrite decode_encode; [by rewrite bool_decide_true| |].
    + split; [cbn [flags]; split; vm_compute; discriminate|].
      repeat apply Forall_cons_2; try apply Forall_nil_2; known_field; apply small_vec_ok; by vm_compute.
    + apply frame_vec_ok. by vm_compute.
  - unfold aead_self_test.
    set (k := kat_bytes _ 32). set (n := kat_bytes _ 24). set (a := _ ++ _). set (p := bstr _).
    destruct (aead_seal_total k n a p) as [ct Hct]; [by vm_compute|].
    apply seal_inv in Hct. rewrite Hct. by rewrite bool_decide_true by (by apply open_seal).
Qed.
End Facade.

(** ** Witnesses *)

Module FfiSample.
#[local] Existing Instance model_primitives.
Definition bob : bytes := repeat Byte.x05 32.
Definition alice : bytes := repeat Byte.x09 32.
Definition material : PrekeyMaterial :=
  match publishable_prekey_bundle [Byte.x01] [Byte.x02] [Byte.x03] [Byte.x04] bob with
  | Ok m => m | Err _ => {| pm_secrets := []; pm_bundle := [] |}
  end.

Lemma material_published :
  publishable_prekey_bundle [Byte.x01] [Byte.x02] [Byte.x03] [Byte.x04] bob = Ok material.
Proof. reflexivity. Qed.
End FfiSample.

Lemma facade_refines_sessions_witness :
  decrypt_message Sample.rndB (to_bytes (responder Sample.root Sample.prekey)) Sample.m0 =
  match decrypt Sample.rndB Sample.m0 (responder Sample.root Sample.prekey) with
  | (Ok p, st') => Ok {| dm_session := to_bytes st'; dm_plaintext := p |}
  | (Err e, _) => Err (JsCrypto e)
  end.
Proof.
  exact (proj2 (facade_refines_sessions (responder Sample.root Sample.prekey) Sample.rndB Sample.m0
    [] (reach_responder Sample.root Sample.prekey eq_refl))).
Defined.

Lemma facade_opens_session_witness :
  ∃ root opened,
    let N := net_init root (X25519SecretKey_generate [Byte.x01]) Sample.rndA in
    initiate_session [Byte.x0a] [Byte.x0b] [Byte.x0c] Sample.rndA FfiSample.alice
      (pm_bundle FfiSample.material) = Ok opened ∧
    is_session opened = to_bytes (session (ends N Alice)) ∧
    accept_session (pm_secrets FfiSample.material) (pm_bundle FfiSample.material)
      (is_initial_message opened) = Ok (to_bytes (session (ends N Bob))).
Proof.
  exact (facade_opens_session [Byte.x01] [Byte.x02] [Byte.x03] [Byte.x04] [Byte.x0a] [Byte.x0b]
    [Byte.x0c] Sample.rndA FfiSample.bob FfiSample.alice FfiSample.material
    eq_refl FfiSample.material_published).
Defined.

Lemma facade_invite_roundtrip_witness :
  ∃ uri parsed,
    create_invite [] FfiSample.bob (repeat Byte.x11 32) (bstr "https://relay.example:8443")
      (repeat Byte.x22 32) (pm_bundle FfiSample.material) InviteSample.nonce
      (u64_as_f64 1900000000000) = Ok uri ∧
    parse_invite uri = Ok parsed ∧ f64_as_u64 (pi_expiry_ms parsed) = 1900000000000.
Proof.
  destruct (facade_invite_roundtrip [Byte.x01] [Byte.x02] [Byte.x03] [Byte.x04] [] FfiSample.bob
    (repeat Byte.x11 32) (bstr "https://relay.example:8443") (repeat Byte.x22 32) InviteSample.nonce
    1900000000000 FfiSample.material FfiSample.material_published InviteSample.queue_fine eq_refl)
    as (uri & pub & parsed & H1 & _ & H2 & _ & _ & _ & _ & _ & H3); [by vm_compute|].
  exists uri, parsed. split; [exact H1|split; [exact H2|exact H3]].
Defined.

Lemma facade_media_and_self_tests_witness :
  (∃ sealed, ffi_seal_media (repeat Byte.x01 32) (repeat Byte.x02 24) (bstr "file") = Some sealed ∧
     ffi_open_media (sm_key_material sealed) (sm_ciphertext sealed) = Ok (bstr "file")) ∧
  wire_self_test = true ∧ aead_self_test = true.
Proof.
  apply (facade_media_and_self_tests (repeat Byte.x01 32) (repeat Byte.x02 24) (bstr "file")); done.
Defined.
