(* ===== verification/TestsWire.v ===== *)
(** * The unit tests of the wire format, run on the model

    Each test of [wire/codec.rs] and [wire/v1.rs], and the fuzz target of the
    decoder, as a function on the model's definitions; [None] is an assertion that fails or an [unwrap] that panics.
    The tests pin golden bytes, so running them ties the model to the bytes the
    crate puts on the wire. *)

From S2P Require Import Prelude.
From S2P Require Import Wire.
#[local] Open Scope Z_scope.

(** ** Assertions *)

Definition assert_ (b : bool) : option unit := if b then Some tt else None.
Definition assert_eq {A} `{EqDecision A} (x y : A) : option unit := assert_ (bool_decide (x = y)).
Definition assert_ne {A} `{EqDecision A} (x y : A) : option unit := assert_ (bool_decide (x ≠ y)).
Definition unwrap {E A} (r : Result E A) : option A := match r with Ok a => Some a | Err _ => None end.
Definition is_err {E A} (r : Result E A) : bool := negb (is_ok r).
Definition passes (t : option unit) : bool := match t with Some _ => true | None => false end.

(** A call with [&mut self], unwrapped. *)
Definition unwrap_call {S E A} (m : ST S E A) (s : S) : option (A * S) :=
  match m s with (Ok a, s') => Some (a, s') | (Err _, _) => None end.

#[export] Instance Result_eq_dec {E A} `{EqDecision E} `{EqDecision A} : EqDecision (Result E A).
Proof. solve_decision. Defined.

(** Byte literals. *)
Definition bs (l : list Z) : bytes := byte_of <$> l.

Section Tests.
Context `{PF : Platform}.

(** ** [wire/codec.rs] *)

Definition test_roundtrip (v : Z) : option bytes :=
  let out := write_varint [] v in
  '(x, r) ← unwrap_call read_varint (Reader_new out);
  _ ← assert_eq x v;
  _ ← assert_ (is_empty r);
  Some out.

Definition varint_golden_bytes : option unit :=
  let golden v expected := out ← test_roundtrip v; assert_eq out (bs expected) in
  _ ← golden 0 [0x00];
  _ ← golden 1 [0x01];
  _ ← golden 127 [0x7f];
  _ ← golden 128 [0x80; 0x01];
  _ ← golden 300 [0xac; 0x02];
  golden u64_max [0xff; 0xff; 0xff; 0xff; 0xff; 0xff; 0xff; 0xff; 0xff; 0x01].

Definition varint_rejects_overlong : option unit :=
  assert_eq (read_varint (Reader_new (repeat Byte.x80 11))).1 (Err VarintOverflow).

Definition varint_rejects_overflow_in_last_group : option unit :=
  let b := bs [0x80; 0x80; 0x80; 0x80; 0x80; 0x80; 0x80; 0x80; 0x80; 0x02] in
  assert_eq (read_varint (Reader_new b)).1 (Err VarintOverflow).

Definition read_bytes_bounds_checked : option unit :=
  let '(r1, r) := read_bytes 4 (Reader_new (bs [1; 2; 3])) in
  _ ← assert_ (is_err r1);
  '(b, r) ← unwrap_call (read_bytes 2) r;
  _ ← assert_eq b (bs [1; 2]);
  assert_eq (remaining r) 1.

(** ** [wire/v1.rs] *)

Definition golden_bytes : option unit :=
  let frame := with_field (with_flags Frame_new FLAG_HANDSHAKE) TAG_IDENTITY_PUB (bs [0xaa; 0xbb]) in
  assert_eq (encode frame) (bs [0xb0; 0x01; 0x01; 0x01; 0x02; 0xaa; 0xbb]).

Definition aad_is_prelude_plus_flags : option unit :=
  assert_eq (aad (with_flags Frame_new FLAG_HANDSHAKE)) (bs [0xb0; 0x01; 0x01]).

Definition roundtrips_with_multiple_fields : option unit :=
  let frame := with_flags Frame_new FLAG_HANDSHAKE in
  let frame := with_field frame TAG_IDENTITY_PUB (bs [1; 2; 3]) in
  let frame := with_field frame TAG_SIGNATURE (repeat Byte.x09 64) in
  let frame := with_field frame TAG_EXPIRY [] in
  let b := encode frame in
  back ← unwrap (decode b);
  _ ← assert_eq back frame;
  v ← unwrap (require back TAG_IDENTITY_PUB);
  _ ← assert_eq v (bs [1; 2; 3]);
  e ← get back TAG_EXPIRY;
  _ ← assert_eq e [];
  _ ← assert_ (has_flag back FLAG_HANDSHAKE);
  assert_ (negb (has_flag back FLAG_PQ_REKEY)).

Definition rejects_bad_magic_and_version : option unit :=
  _ ← assert_eq (decode (bs [0x00; 0x01])) (Err (BadMagic Byte.x00));
  _ ← assert_eq (decode (bs [0xb0; 0x02])) (Err (UnsupportedVersion Byte.x02));
  assert_eq (decode []) (Err UnexpectedEof).

Definition truncated_field_is_rejected_not_panicked : option unit :=
  let b := bs [0xb0; 0x01; 0x00; TAG_SIGNATURE; 0xc8; 0x01] in
  assert_eq (decode b) (Err UnexpectedEof).

Definition missing_required_field : option unit :=
  assert_eq (require Frame_new TAG_SIGNATURE) (Err (MissingField TAG_SIGNATURE)).

Definition reserved_pq_skipped_in_messaging_rejected_in_handshake : option unit :=
  let frame := with_field Frame_new TAG_PQ_EPOCH (bs [0x07]) in
  back ← unwrap (decode (encode frame));
  v ← get back TAG_PQ_EPOCH;
  _ ← assert_eq v (bs [0x07]);
  _ ← assert_eq (reject_reserved_pq back) (Err (ReservedTag TAG_PQ_EPOCH));
  assert_ (is_ok (reject_reserved_pq (with_field Frame_new TAG_IDENTITY_PUB (bs [1])))).

Definition v1_encoder_never_emits_reserved_tags : option unit :=
  assert_ (forallb (λ tag, negb (PQ_RESERVED_TAGS_contains tag))
    [TAG_IDENTITY_PUB; TAG_PREKEY_BUNDLE; TAG_QUEUE_URI; TAG_INVITE_NONCE; TAG_EXPIRY; TAG_SIGNATURE;
     TAG_RATCHET_DH; TAG_RATCHET_PN; TAG_RATCHET_N; TAG_CIPHERTEXT]).

Definition wire_tests : list (option unit) :=
  [varint_golden_bytes; varint_rejects_overlong; varint_rejects_overflow_in_last_group;
   read_bytes_bounds_checked; golden_bytes; aad_is_prelude_plus_flags; roundtrips_with_multiple_fields;
   rejects_bad_magic_and_version; truncated_field_is_rejected_not_panicked; missing_required_field;
   reserved_pq_skipped_in_messaging_rejected_in_handshake; v1_encoder_never_emits_reserved_tags].

(** ** [fuzz_targets/wire_decode.rs] *)

Definition wire_decode_target (data : bytes) : option unit :=
  match decode data with
  | Ok frame =>
      let reencoded := encode frame in
      again ← unwrap (decode reencoded);
      assert_eq frame again
  | Err _ => Some tt
  end.

(** the fuzz target of the decoder finds nothing, on any input. *)
Theorem wire_decode_target_passes data : vec_ok data → wire_decode_target data = Some tt.
Proof.
  intros Hv. unfold wire_decode_target. destruct (decode data) as [f|e] eqn:E; [|done].
  destruct (decode_reencode_stable data f Hv E) as (_ & _ & ->). cbn. unfold assert_eq.
  by rewrite bool_decide_true.
Qed.
End Tests.

(** the model passes the crate's own tests of the wire format, golden bytes
    included, on 64-bit targets and on 32-bit targets such as wasm. *)
Theorem wire_tests_pass :
  forallb passes (wire_tests (PF := native64)) = true ∧ forallb passes (wire_tests (PF := wasm32)) = true.
Proof. split; vm_compute; reflexivity. Qed.
