(* ===== verification/TestsCrypto.v ===== *)
(** * The unit tests of the client's cryptography, run on the model

    The tests of [ratchet/chain.rs], [ratchet/header.rs], [ratchet/mod.rs],
    [aead.rs], [kem.rs], [identity.rs], [media.rs], [prekey.rs], [pqxdh.rs],
    [invite.rs], [lib.rs], the integration tests [tests/session_flow.rs] and
    [tests/wasm.rs] and the fuzz target of the invite parser, as functions of the
    random draws [rng] they make.  They are run on the instance of the primitives
    in [ModelCrypto].  Left out are the tests that pin bytes of the primitives
    themselves ([xchacha20poly1305_kat], [deterministic_kat_digests], and their
    like in [tests/wasm.rs]) and [random_nonces_differ].  The two property tests
    are run at one input each: what they state is proved for all as
    [every_message_decrypts]. *)

From stdpp Require Import pretty.
From S2P Require Import Prelude.
From S2P Require Import Text.
From S2P Require Import Wire.
From S2P Require Import Keys.
From S2P Require Import ModelCrypto.
From S2P Require Import Ratchet.
From S2P Require Import Media.
From S2P Require Import Prekey.
From S2P Require Import Pqxdh.
From S2P Require Import Invite.
From S2P Require Import Ffi.
From S2P Require Import TestsWire.
#[local] Open Scope Z_scope.

Section Tests.
Context `{PF : Platform} `{PR : Primitives}.

(** [v[i] ^= 0x01]. *)
Definition flip (i : nat) (b : bytes) : bytes := alter (λ x, byte_of (Z.lxor (u8 x) 1)) i b.
Definition flip_last (b : bytes) : bytes := flip (length b - 1) b.

Definition Rng : Type := nat → bytes.
Definition after (k : nat) (rng : Rng) : Rng := λ i, rng (k + i)%nat.

(** ** [ratchet/chain.rs], [ratchet/header.rs] *)

Definition kdf_rk_is_deterministic_and_separates_outputs : option unit :=
  let rk := repeat Byte.x01 32 in
  let dh := repeat Byte.x02 32 in
  let '(rk1, ck1) := kdf_rk rk dh in
  let '(rk2, ck2) := kdf_rk rk dh in
  _ ← assert_eq (rk1, ck1) (rk2, ck2);
  _ ← assert_ne rk1 ck1;
  assert_ne rk1 rk.

Definition kdf_ck_advances : option unit :=
  let ck := repeat Byte.x09 32 in
  let '(next, mk) := kdf_ck ck in
  _ ← assert_ne next ck;
  _ ← assert_ne next mk;
  assert_eq (kdf_ck ck) (next, mk).

Definition message_keys_split_key_and_nonce : option unit :=
  let '(k_a, n_a) := message_keys (repeat Byte.x07 32) in
  let '(k_b, n_b) := message_keys (repeat Byte.x08 32) in
  _ ← assert_ne k_a k_b;
  _ ← assert_ne n_a n_b;
  assert_eq (message_keys (repeat Byte.x07 32)) (k_a, n_a).

Definition aad_is_deterministic (rng : Rng) : option unit :=
  let dh := public_key (X25519SecretKey_generate (rng 0%nat)) in
  let h := {| h_dh := dh; h_pn := 3; h_n := 7 |} in
  _ ← assert_eq (to_aad h) (to_aad h);
  let h2 := {| h_dh := dh; h_pn := 3; h_n := 8 |} in
  assert_ne (to_aad h) (to_aad h2).

Definition read_u32_roundtrip_and_length_check : option unit :=
  n ← unwrap (read_u32 (be_bytes 4 42));
  _ ← assert_eq n 42;
  assert_ (is_err (read_u32 (bs [0; 1; 2]))).

(** ** [aead.rs] *)

Definition roundtrip_with_empty_and_aad : option unit :=
  let key := repeat Byte.x07 KEY_LEN in
  let nonce := repeat Byte.x09 NONCE_LEN in
  sealed ← unwrap (seal key nonce (bstr "prelude") (bstr "hello buh"));
  _ ← assert_eq (length sealed) (length (bstr "hello buh") + TAG_LEN)%nat;
  opened ← unwrap (open key nonce (bstr "prelude") sealed);
  assert_eq opened (bstr "hello buh").

Definition aead_tamper_is_rejected : option unit :=
  let key := repeat Byte.x07 KEY_LEN in
  let nonce := repeat Byte.x09 NONCE_LEN in
  let aad := bstr "v1" in
  sealed ← unwrap (seal key nonce aad (bstr "secret"));
  _ ← assert_eq (open key nonce aad (flip 0 sealed)) (Err Aead);
  _ ← assert_eq (open key nonce aad (flip_last sealed)) (Err Aead);
  good ← unwrap (seal key nonce aad (bstr "secret"));
  _ ← assert_eq (open key nonce (bstr "v2") good) (Err Aead);
  assert_eq (open (repeat Byte.x08 KEY_LEN) nonce aad good) (Err Aead).

(** ** [kem.rs] *)

Definition x25519_dh_agrees (rng : Rng) : option unit :=
  let a := X25519SecretKey_generate (rng 0%nat) in
  let b := X25519SecretKey_generate (rng 1%nat) in
  let ab := diffie_hellman a (public_key b) in
  let ba := diffie_hellman b (public_key a) in
  _ ← assert_eq ab ba;
  assert_ne ab (repeat Byte.x00 32).

Definition x25519_encoding_roundtrips (rng : Rng) : option unit :=
  let sk := X25519SecretKey_generate (rng 0%nat) in
  let sk2 := X25519SecretKey_from_bytes (X25519SecretKey_to_bytes sk) in
  _ ← assert_eq (X25519PublicKey_to_bytes (public_key sk)) (X25519PublicKey_to_bytes (public_key sk2));
  let pk := public_key sk in
  pk2 ← unwrap (X25519PublicKey_from_slice (X25519PublicKey_to_bytes pk));
  _ ← assert_eq (X25519PublicKey_to_bytes pk) (X25519PublicKey_to_bytes pk2);
  assert_ (is_err (X25519PublicKey_from_slice (repeat Byte.x00 31))).

Definition mlkem_encapsulate_decapsulate_agrees (rng : Rng) : option unit :=
  let '(dk, ek) := MlKemSecretKey_generate (rng 0%nat) in
  let '(ct, ss_sender) := encapsulate ek (rng 1%nat) in
  _ ← assert_eq (length ct) MLKEM_CIPHERTEXT_LEN;
  ss_receiver ← unwrap (decapsulate dk ct);
  assert_eq ss_sender ss_receiver.

Definition mlkem_public_key_roundtrips (rng : Rng) : option unit :=
  let '(dk, ek) := MlKemSecretKey_generate (rng 0%nat) in
  let b := MlKemPublicKey_to_bytes ek in
  _ ← assert_eq (length b) MLKEM_ENCAPS_KEY_LEN;
  ek2 ← unwrap (MlKemPublicKey_from_slice b);
  let '(ct, ss) := encapsulate ek2 (rng 1%nat) in
  ss2 ← unwrap (decapsulate dk ct);
  _ ← assert_eq ss2 ss;
  assert_ (is_err (MlKemPublicKey_from_slice (take 10 b))).

Definition mlkem_secret_key_roundtrips (rng : Rng) : option unit :=
  let '(dk, ek) := MlKemSecretKey_generate (rng 0%nat) in
  let b := MlKemSecretKey_to_bytes dk in
  _ ← assert_eq (length b) MLKEM_SECRET_LEN;
  dk2 ← unwrap (MlKemSecretKey_from_bytes b);
  let '(ct, ss) := encapsulate ek (rng 1%nat) in
  ss2 ← unwrap (decapsulate dk2 ct);
  _ ← assert_eq ss2 ss;
  assert_ (is_err (MlKemSecretKey_from_bytes (take 10 b))).

Definition mlkem_wrong_key_disagrees (rng : Rng) : option unit :=
  let '(dk_a, _) := MlKemSecretKey_generate (rng 0%nat) in
  let '(_, ek_b) := MlKemSecretKey_generate (rng 1%nat) in
  let '(ct, ss_sender) := encapsulate ek_b (rng 2%nat) in
  ss_wrong ← unwrap (decapsulate dk_a ct);
  assert_ne ss_sender ss_wrong.

(** ** [identity.rs] *)

Definition sign_verify_roundtrip_hedged (rng : Rng) : option unit :=
  let id := IdentityKeyPair_generate (rng 0%nat) in
  let pk := identity_public id in
  let msg := bstr "the user is their key" in
  let sig := sign id msg (rng 1%nat) in
  _ ← assert_ (is_ok (verify pk msg sig));
  _ ← assert_eq (verify pk (bstr "tampered") sig) (Err BadSignature);
  let other := identity_public (IdentityKeyPair_generate (rng 2%nat)) in
  assert_eq (verify other msg sig) (Err BadSignature).

Definition seed_roundtrip_is_deterministic : option unit :=
  let seed := repeat Byte.x2a SEED_LEN in
  let a := from_seed seed in
  let b := from_seed seed in
  _ ← assert_eq (to_seed a) seed;
  assert_eq (IdentityPublicKey_to_bytes (identity_public a)) (IdentityPublicKey_to_bytes (identity_public b)).

Definition encoding_roundtrips_and_lengths : option unit :=
  let id := from_seed (repeat Byte.x07 SEED_LEN) in
  let pk_bytes := IdentityPublicKey_to_bytes (identity_public id) in
  _ ← assert_eq (length pk_bytes) PUBLIC_KEY_LEN;
  pk ← unwrap (IdentityPublicKey_from_bytes pk_bytes);
  let sig := sign_deterministic id (bstr "hello") in
  let sig_bytes := IdentitySignature_to_bytes sig in
  _ ← assert_eq (length sig_bytes) SIGNATURE_LEN;
  sig ← unwrap (IdentitySignature_from_bytes sig_bytes);
  _ ← assert_ (is_ok (verify pk (bstr "hello") sig));
  _ ← assert_ (is_err (IdentityPublicKey_from_bytes (take 10 pk_bytes)));
  assert_ (is_err (IdentitySignature_from_bytes (bstr "short"))).

Definition echo_roundtrips : option unit := assert_eq (echo (bstr "buh")) (bstr "buh").

(** ** [media.rs] *)

Definition media_roundtrips (rng : Rng) : option unit :=
  let plaintext := bstr "a media file's worth of bytes, sealed once under a per-file key" in
  '(key, ciphertext) ← seal_media (rng 0%nat) (take 24 (rng 1%nat)) plaintext;
  _ ← assert_ne ciphertext plaintext;
  opened ← unwrap (open_media key ciphertext);
  assert_eq opened plaintext.

Definition media_key_blob_roundtrips (rng : Rng) : option unit :=
  '(key, ciphertext) ← seal_media (rng 0%nat) (take 24 (rng 1%nat)) (bstr "hello");
  let folded := MediaKey_to_bytes key in
  _ ← assert_eq (length folded) MEDIA_KEY_LEN;
  recovered ← unwrap (MediaKey_from_bytes folded);
  opened ← unwrap (open_media recovered ciphertext);
  assert_eq opened (bstr "hello").

Definition fresh_key_and_nonce_each_call (rng : Rng) : option unit :=
  '(a, _) ← seal_media (rng 0%nat) (take 24 (rng 1%nat)) (bstr "x");
  '(b, _) ← seal_media (rng 2%nat) (take 24 (rng 3%nat)) (bstr "x");
  _ ← assert_ne (mk_key a) (mk_key b);
  assert_ne (mk_nonce a) (mk_nonce b).

Definition wrong_key_is_rejected (rng : Rng) : option unit :=
  '(_, ciphertext) ← seal_media (rng 0%nat) (take 24 (rng 1%nat)) (bstr "secret file");
  let other := MediaKey_generate (rng 2%nat) (take 24 (rng 3%nat)) in
  assert_eq (open_media other ciphertext) (Err Aead).

Definition media_tamper_is_rejected (rng : Rng) : option unit :=
  '(key, ciphertext) ← seal_media (rng 0%nat) (take 24 (rng 1%nat)) (bstr "secret file");
  assert_eq (open_media key (flip 0 ciphertext)) (Err Aead).

Definition short_media_key_blob_errors : option unit :=
  _ ← assert_ (is_err (MediaKey_from_bytes (repeat Byte.x00 (MEDIA_KEY_LEN - 1))));
  assert_ (is_err (MediaKey_from_bytes (repeat Byte.x00 (MEDIA_KEY_LEN + 1)))).

(** ** [prekey.rs] *)

(** [PrekeyBundle::generate]: four draws. *)
Definition bundle_of (rng : Rng) (id : IdentityKeyPair) (with_opk : bool) : PrekeySecrets * PrekeyBundle :=
  PrekeyBundle_generate (rng 0%nat) (rng 1%nat) (rng 2%nat) (rng 3%nat) id with_opk.

Definition bundle_roundtrips_and_verifies (rng : Rng) : option unit :=
  let id := IdentityKeyPair_generate (rng 0%nat) in
  let check with_opk :=
    let '(_, bundle) := bundle_of (after 1 rng) id with_opk in
    parsed ← unwrap (PrekeyBundle_decode (PrekeyBundle_encode bundle));
    _ ← assert_eq (IdentityPublicKey_to_bytes (pb_identity parsed))
                  (IdentityPublicKey_to_bytes (identity_public id));
    _ ← assert_eq (X25519PublicKey_to_bytes (pb_signed_prekey parsed))
                  (X25519PublicKey_to_bytes (pb_signed_prekey bundle));
    assert_eq (match pb_one_time_prekey parsed with Some _ => true | None => false end) with_opk in
  _ ← check false;
  check true.

Definition secrets_roundtrip (rng : Rng) : option unit :=
  let id := IdentityKeyPair_generate (rng 0%nat) in
  let '(secrets, bundle) := bundle_of (after 1 rng) id true in
  parsed ← unwrap (PrekeySecrets_from_bytes (PrekeySecrets_to_bytes secrets));
  _ ← assert_eq (X25519PublicKey_to_bytes (public_key (ps_signed_prekey parsed)))
                (X25519PublicKey_to_bytes (pb_signed_prekey bundle));
  _ ← assert_ (match ps_one_time_prekey parsed with Some _ => true | None => false end);
  let '(ct, ss) := encapsulate (pb_kem_key bundle) (rng 5%nat) in
  ss2 ← unwrap (decapsulate (ps_kem_secret parsed) ct);
  _ ← assert_eq ss2 ss;
  assert_ (is_err (PrekeySecrets_from_bytes (Byte.x02 :: bstr "bad"))).

Definition tampered_prekey_is_rejected_on_parse (rng : Rng) : option unit :=
  let id := IdentityKeyPair_generate (rng 0%nat) in
  let '(_, bundle) := bundle_of (after 1 rng) id false in
  let attacker_spk := public_key (X25519SecretKey_generate (rng 5%nat)) in
  let forged := {| pb_identity := pb_identity bundle; pb_signed_prekey := attacker_spk;
                   pb_kem_key := pb_kem_key bundle; pb_one_time_prekey := pb_one_time_prekey bundle;
                   pb_signature := pb_signature bundle |} in
  assert_ (match PrekeyBundle_decode (PrekeyBundle_encode forged) with Err BadSignature => true | _ => false end).

Definition wrong_identity_signature_is_rejected (rng : Rng) : option unit :=
  let alice := IdentityKeyPair_generate (rng 0%nat) in
  let mallory := IdentityKeyPair_generate (rng 1%nat) in
  let '(_, bundle) := bundle_of (after 2 rng) alice true in
  let forged := {| pb_identity := identity_public mallory; pb_signed_prekey := pb_signed_prekey bundle;
                   pb_kem_key := pb_kem_key bundle; pb_one_time_prekey := pb_one_time_prekey bundle;
                   pb_signature := pb_signature bundle |} in
  assert_ (is_err (PrekeyBundle_decode (PrekeyBundle_encode forged))).

(** ** [pqxdh.rs] *)

Definition test_handshake (rng : Rng) (with_opk : bool) : option (bytes * bytes) :=
  let alice := IdentityKeyPair_generate (rng 0%nat) in
  let bob := IdentityKeyPair_generate (rng 1%nat) in
  let '(bob_secrets, bob_bundle) := bundle_of (after 2 rng) bob with_opk in
  let '(msg, alice_root) := initiate (rng 6%nat) (rng 7%nat) (rng 8%nat) alice bob_bundle in
  msg ← unwrap (InitialMessage_decode (InitialMessage_encode msg));
  bob_root ← unwrap (respond bob_bundle bob_secrets msg);
  Some (alice_root, bob_root).

Definition both_sides_agree_with_and_without_opk (rng : Rng) : option unit :=
  let check with_opk :=
    '(a, b) ← test_handshake rng with_opk;
    _ ← assert_eq a b;
    assert_ne a (repeat Byte.x00 ROOT_KEY_LEN) in
  _ ← check false;
  check true.

Definition forged_initiator_signature_is_rejected (rng : Rng) : option unit :=
  let alice := IdentityKeyPair_generate (rng 0%nat) in
  let mallory := IdentityKeyPair_generate (rng 1%nat) in
  let bob := IdentityKeyPair_generate (rng 2%nat) in
  let '(bob_secrets, bob_bundle) := bundle_of (after 3 rng) bob true in
  let '(msg, _) := initiate (rng 7%nat) (rng 8%nat) (rng 9%nat) alice bob_bundle in
  let msg := {| im_initiator_identity := identity_public mallory; im_ephemeral := im_ephemeral msg;
                im_kem_ciphertext := im_kem_ciphertext msg; im_signature := im_signature msg |} in
  assert_eq (respond bob_bundle bob_secrets msg) (Err BadSignature).

Definition tampered_ciphertext_breaks_agreement (rng : Rng) : option unit :=
  let alice := IdentityKeyPair_generate (rng 0%nat) in
  let bob := IdentityKeyPair_generate (rng 1%nat) in
  let '(bob_secrets, bob_bundle) := bundle_of (after 2 rng) bob false in
  let '(msg, _) := initiate (rng 6%nat) (rng 7%nat) (rng 8%nat) alice bob_bundle in
  let msg := {| im_initiator_identity := im_initiator_identity msg; im_ephemeral := im_ephemeral msg;
                im_kem_ciphertext := flip 0 (im_kem_ciphertext msg); im_signature := im_signature msg |} in
  assert_ (is_err (respond bob_bundle bob_secrets msg)).

(** ** [invite.rs] *)

Definition sample_queue : QueueDescriptor :=
  {| queue_id := repeat Byte.x11 32; relay_url := bstr "https://relay.example:8443";
     ca_fingerprint := repeat Byte.x22 CA_FINGERPRINT_LEN |}.

Definition sample_invite (rng : Rng) : IdentityKeyPair * Invite :=
  let id := IdentityKeyPair_generate (rng 0%nat) in
  let '(_, bundle) := bundle_of (after 1 rng) id true in
  (id, Invite_create (rng 5%nat) id sample_queue bundle (repeat Byte.x33 INVITE_NONCE_LEN) 1900000000000).

Definition uri_roundtrips_and_verifies (rng : Rng) : option unit :=
  let '(_, invite) := sample_invite rng in
  let uri := to_uri invite in
  _ ← assert_ (String.prefix "buh1:" uri);
  parsed ← unwrap (Invite_parse uri);
  _ ← assert_eq (queue_id (iv_queue parsed), relay_url (iv_queue parsed), ca_fingerprint (iv_queue parsed))
                (queue_id sample_queue, relay_url sample_queue, ca_fingerprint sample_queue);
  _ ← assert_eq (iv_nonce parsed) (repeat Byte.x33 INVITE_NONCE_LEN);
  _ ← assert_eq (iv_expiry_ms parsed) 1900000000000;
  assert_eq (IdentityPublicKey_to_bytes (pb_identity (iv_bundle parsed)))
            (IdentityPublicKey_to_bytes (pb_identity (iv_bundle invite))).

Definition tampered_queue_is_rejected (rng : Rng) : option unit :=
  let '(_, invite) := sample_invite rng in
  let queue := {| queue_id := queue_id (iv_queue invite); relay_url := relay_url (iv_queue invite);
                  ca_fingerprint := repeat Byte.xff CA_FINGERPRINT_LEN |} in
  let forged := {| iv_queue := queue; iv_bundle := iv_bundle invite; iv_nonce := iv_nonce invite;
                   iv_expiry_ms := iv_expiry_ms invite; iv_signature := iv_signature invite |} in
  assert_ (match Invite_decode (Invite_encode forged) with Err BadSignature => true | _ => false end).

Definition swapped_bundle_identity_is_rejected (rng : Rng) : option unit :=
  let '(_, invite) := sample_invite rng in
  let mallory := IdentityKeyPair_generate (rng 6%nat) in
  let '(_, mallory_bundle) := bundle_of (after 7 rng) mallory false in
  let forged := {| iv_queue := iv_queue invite; iv_bundle := mallory_bundle; iv_nonce := iv_nonce invite;
                   iv_expiry_ms := iv_expiry_ms invite; iv_signature := iv_signature invite |} in
  assert_ (is_err (Invite_decode (Invite_encode forged))).

Definition rejects_bad_scheme_and_base64 : option unit :=
  _ ← assert_ (is_err (Invite_parse "nope:abc"));
  assert_ (is_err (Invite_parse "buh1:!!!!")).

(** ** [ratchet/mod.rs] *)

Definition test_session (rng : Rng) : option (RatchetState * RatchetState) :=
  let alice := IdentityKeyPair_generate (rng 0%nat) in
  let bob := IdentityKeyPair_generate (rng 1%nat) in
  let '(bob_secrets, bob_bundle) := bundle_of (after 2 rng) bob true in
  let '(msg, root_a) := initiate (rng 6%nat) (rng 7%nat) (rng 8%nat) alice bob_bundle in
  msg ← unwrap (InitialMessage_decode (InitialMessage_encode msg));
  root_b ← unwrap (respond bob_bundle bob_secrets msg);
  _ ← assert_eq root_a root_b;
  Some (initiator root_a (pb_signed_prekey bob_bundle) (rng 9%nat),
        responder root_b (ps_signed_prekey bob_secrets)).

(** The tests below run on the pair [s] that [session()] returned. *)

(** [assert_eq!(to.decrypt(&from.encrypt(pt).unwrap()).unwrap(), pt)]. *)
Definition exchange (rnd pt : bytes) (from to : RatchetState) : option (RatchetState * RatchetState) :=
  '(m, from) ← unwrap_call (encrypt pt) from;
  '(x, to) ← unwrap_call (decrypt rnd m) to;
  _ ← assert_eq x pt;
  Some (from, to).

Fixpoint chat_turns (n : nat) (i : Z) (a_pt b_pt : Z → bytes) (rng : Rng) (alice bob : RatchetState) :
    option unit :=
  match n with
  | O => Some tt
  | S n =>
      '(alice, bob) ← exchange (rng 0%nat) (a_pt i) alice bob;
      '(bob, alice) ← exchange (rng 1%nat) (b_pt i) bob alice;
      chat_turns n (i + 1) a_pt b_pt (after 2 rng) alice bob
  end.

Definition full_handshake_then_bidirectional_chat (s : option (RatchetState * RatchetState)) (rng : Rng)  : option unit :=
  '(alice, bob) ← s;
  _ ← assert_ (is_err (encrypt (bstr "premature") bob).1);
  '(alice, bob) ← exchange (rng 10%nat) (bstr "hello bob") alice bob;
  '(bob, alice) ← exchange (rng 11%nat) (bstr "hi alice") bob alice;
  chat_turns 5 0 (λ i, repeat (byte_of i) 4) (λ i, repeat (byte_of (i + 100)) 4) (after 12 rng) alice bob.

(** Bob opens [m] and finds [pt]. *)
Definition opens (rnd m pt : bytes) (st : RatchetState) : option RatchetState :=
  '(x, st) ← unwrap_call (decrypt rnd m) st;
  _ ← assert_eq x pt;
  Some st.

Definition out_of_order_within_a_chain (s : option (RatchetState * RatchetState)) (rng : Rng)  : option unit :=
  '(alice, bob) ← s;
  '(m1, alice) ← unwrap_call (encrypt (bstr "one")) alice;
  '(m2, alice) ← unwrap_call (encrypt (bstr "two")) alice;
  '(m3, alice) ← unwrap_call (encrypt (bstr "three")) alice;
  bob ← opens (rng 10%nat) m1 (bstr "one") bob;
  bob ← opens (rng 11%nat) m3 (bstr "three") bob;
  _ ← opens (rng 12%nat) m2 (bstr "two") bob;
  Some tt.

Definition dropped_message_does_not_block_later_ones (s : option (RatchetState * RatchetState)) (rng : Rng)  : option unit :=
  '(alice, bob) ← s;
  '(_, alice) ← unwrap_call (encrypt (bstr "lost")) alice;
  '(m2, alice) ← unwrap_call (encrypt (bstr "arrives")) alice;
  _ ← opens (rng 10%nat) m2 (bstr "arrives") bob;
  Some tt.

Definition tampered_ciphertext_is_rejected (s : option (RatchetState * RatchetState)) (rng : Rng)  : option unit :=
  '(alice, bob) ← s;
  '(m, alice) ← unwrap_call (encrypt (bstr "secret")) alice;
  assert_eq (decrypt (rng 10%nat) (flip_last m) bob).1 (Err Aead).

Definition state_survives_serialization_mid_conversation (s : option (RatchetState * RatchetState)) (rng : Rng)  : option unit :=
  '(alice, bob) ← s;
  '(alice, bob) ← exchange (rng 10%nat) (bstr "one") alice bob;
  '(bob, alice) ← exchange (rng 11%nat) (bstr "two") bob alice;
  '(m2, alice) ← unwrap_call (encrypt (bstr "skipped")) alice;
  '(alice, bob) ← exchange (rng 12%nat) (bstr "three") alice bob;
  alice ← unwrap (from_bytes (to_bytes alice));
  bob ← unwrap (from_bytes (to_bytes bob));
  bob ← opens (rng 13%nat) m2 (bstr "skipped") bob;
  '(alice, bob) ← exchange (rng 14%nat) (bstr "four") alice bob;
  '(bob, alice) ← exchange (rng 15%nat) (bstr "five") bob alice;
  assert_ (is_err (from_bytes (Byte.x02 :: bstr "bad"))).

Definition replay_is_rejected (s : option (RatchetState * RatchetState)) (rng : Rng)  : option unit :=
  '(alice, bob) ← s;
  '(m, alice) ← unwrap_call (encrypt (bstr "once")) alice;
  bob ← opens (rng 10%nat) m (bstr "once") bob;
  assert_ (is_err (decrypt (rng 11%nat) m bob).1).

(** The shuffle of the property tests: positions [k] down to 1, each swapped
    with a position at most itself. *)
Definition swap {A} (l : list A) (i j : nat) : list A :=
  match l !! i, l !! j with Some x, Some y => <[i := y]> (<[j := x]> l) | _, _ => l end.

Fixpoint shuffle_from (k : nat) (order : list nat) (seed : Z) : list nat :=
  match k with
  | O => order
  | S k' =>
      let seed := wrap64 (wrap64 (seed * 6364136223846793005) + 1442695040888963407) in
      let j := Z.to_nat (Z.shiftr seed 33 mod (Z.of_nat k + 1)) in
      shuffle_from k' (swap order k j) seed
  end.

Definition shuffle (order : list nat) (seed : Z) : list nat := shuffle_from (length order - 1) order seed.

Fixpoint encrypt_all (pts : list bytes) (st : RatchetState) : option (list bytes * RatchetState) :=
  match pts with
  | [] => Some ([], st)
  | pt :: pts =>
      '(c, st) ← unwrap_call (encrypt pt) st;
      '(cs, st) ← encrypt_all pts st;
      Some (c :: cs, st)
  end.

Fixpoint deliver (rng : Rng) (drops : Z) (pts cs : list bytes) (order : list nat) (st : RatchetState) :
    option unit :=
  match order with
  | [] => Some tt
  | i :: order =>
      if Z.testbit drops (Z.of_nat i mod 64) then deliver (after 1 rng) drops pts cs order st
      else
        c ← cs !! i; pt ← pts !! i;
        st ← opens (rng 0%nat) c pt st;
        deliver (after 1 rng) drops pts cs order st
  end.

(** [format!("msg-{i}")], [format!("a{i}")] and [format!("b{i}")]. *)
Definition numbered (p : string) (i : Z) : bytes := bstr (p +:+ pretty i).

Definition permuted_and_dropped_delivery (s : option (RatchetState * RatchetState)) (rng : Rng) (seed : Z) (n : nat) (drops : Z)  : option unit :=
  '(alice, bob) ← s;
  let plaintexts := (λ i, numbered "msg-" (Z.of_nat i)) <$> seq 0 n in
  '(ciphertexts, alice) ← encrypt_all plaintexts alice;
  deliver (after 10 rng) drops plaintexts ciphertexts (shuffle (seq 0 n) seed) bob.

Definition bidirectional_in_order (s : option (RatchetState * RatchetState)) (rng : Rng) (rounds : nat)  : option unit :=
  '(alice, bob) ← s;
  chat_turns rounds 0 (numbered "a") (numbered "b") (after 10 rng) alice bob.

(** ** [tests/session_flow.rs] *)

Definition reload_session (st : RatchetState) : option RatchetState := unwrap (from_bytes (to_bytes st)).

Fixpoint reloading_turns (n : nat) (i : Z) (rng : Rng) (alice bob : RatchetState) : option unit :=
  match n with
  | O => Some tt
  | S n =>
      bob ← reload_session bob;
      '(m, bob) ← unwrap_call (encrypt (repeat (byte_of i) 3)) bob;
      alice ← reload_session alice;
      alice ← opens (rng 0%nat) m (repeat (byte_of i) 3) alice;
      '(alice, bob) ← exchange (rng 1%nat) (repeat (byte_of (i + 50)) 3) alice bob;
      reloading_turns n (i + 1) (after 2 rng) alice bob
  end.

Definition invite_to_ratcheted_conversation_over_blobs (rng : Rng) : option unit :=
  let alice_id := from_seed (to_seed (IdentityKeyPair_generate (rng 0%nat))) in
  let '(alice_secrets, alice_bundle) := bundle_of (after 1 rng) alice_id true in
  let alice_secrets_blob := PrekeySecrets_to_bytes alice_secrets in
  let alice_bundle_blob := PrekeyBundle_encode alice_bundle in
  let queue := {| queue_id := repeat Byte.x41 32; relay_url := bstr "https://relay.test:8443";
                  ca_fingerprint := repeat Byte.x42 CA_FINGERPRINT_LEN |} in
  own ← unwrap (PrekeyBundle_decode alice_bundle_blob);
  let invite_uri := to_uri (Invite_create (rng 5%nat) alice_id queue own
                              (repeat Byte.x43 INVITE_NONCE_LEN) 4000000000000) in
  parsed ← unwrap (Invite_parse invite_uri);
  _ ← assert_eq (queue_id (iv_queue parsed)) (repeat Byte.x41 32);
  let bob_id := from_seed (to_seed (IdentityKeyPair_generate (rng 6%nat))) in
  let '(handshake, root_bob) := initiate (rng 7%nat) (rng 8%nat) (rng 9%nat) bob_id (iv_bundle parsed) in
  let initial_message_bytes := InitialMessage_encode handshake in
  let bob_session := initiator root_bob (pb_signed_prekey (iv_bundle parsed)) (rng 10%nat) in
  '(hello, bob_session) ← unwrap_call (encrypt (bstr "hello alice")) bob_session;
  alice_secrets ← unwrap (PrekeySecrets_from_bytes alice_secrets_blob);
  alice_bundle ← unwrap (PrekeyBundle_decode alice_bundle_blob);
  message ← unwrap (InitialMessage_decode initial_message_bytes);
  root_alice ← unwrap (respond alice_bundle alice_secrets message);
  let alice_session := responder root_alice (ps_signed_prekey alice_secrets) in
  alice_session ← opens (rng 11%nat) hello (bstr "hello alice") alice_session;
  alice_session ← reload_session alice_session;
  bob_session ← reload_session bob_session;
  '(alice_session, bob_session) ← exchange (rng 12%nat) (bstr "hi bob") alice_session bob_session;
  reloading_turns 3 0 (after 13 rng) alice_session bob_session.

(** ** [tests/wasm.rs] *)

Definition wire_roundtrip_and_pq_gate : option unit :=
  let frame := with_flags Frame_new FLAG_HANDSHAKE in
  let frame := with_field frame TAG_IDENTITY_PUB (bs [1; 2; 3]) in
  let frame := with_field frame TAG_SIGNATURE (repeat Byte.x09 8) in
  back ← unwrap (decode (encode frame));
  _ ← assert_eq back frame;
  _ ← assert_ (is_ok (reject_reserved_pq back));
  pq ← unwrap (decode (encode (with_field Frame_new TAG_PQ_EPOCH (bs [1]))));
  assert_ (is_err (reject_reserved_pq pq)).

Definition identity_keygen_sign_verify (rng : Rng) : option unit :=
  let id := IdentityKeyPair_generate (rng 0%nat) in
  let pk := identity_public id in
  let msg := bstr "buh wasm boundary" in
  let sig := sign id msg (rng 1%nat) in
  _ ← assert_ (is_ok (verify pk msg sig));
  assert_ (is_err (verify pk (bstr "tampered") sig)).

Definition full_handshake_and_ratchet_in_wasm (rng : Rng) : option unit :=
  '(alice_r, bob_r) ← test_session rng;
  '(alice_r, bob_r) ← exchange (rng 10%nat) (bstr "hello from wasm") alice_r bob_r;
  '(bob_r, alice_r) ← exchange (rng 11%nat) (bstr "hi back") bob_r alice_r;
  Some tt.

(** ** [fuzz_targets/invite_parse.rs] *)

Definition invite_parse_target (data : bytes) : option unit :=
  _ ← match Invite_decode data with
      | Ok invite =>
          reparsed ← unwrap (Invite_decode (Invite_encode invite));
          _ ← assert_eq (iv_nonce invite) (iv_nonce reparsed);
          assert_eq (iv_expiry_ms invite) (iv_expiry_ms reparsed)
      | Err _ => Some tt
      end;
  let _ := Invite_parse (to_string (utf8_lossy data)) in
  Some tt.
End Tests.

(** ** The run *)

Definition sample_rng : Rng := λ i, repeat (byte_of (Z.of_nat i * 11 + 3)) 32.

Definition crypto_tests (rng : Rng) : list (option unit) :=
  let s := test_session rng in
  [kdf_rk_is_deterministic_and_separates_outputs; kdf_ck_advances; message_keys_split_key_and_nonce;
   aad_is_deterministic rng; read_u32_roundtrip_and_length_check; roundtrip_with_empty_and_aad;
   aead_tamper_is_rejected; x25519_dh_agrees rng; x25519_encoding_roundtrips rng;
   mlkem_encapsulate_decapsulate_agrees rng; mlkem_public_key_roundtrips rng;
   mlkem_secret_key_roundtrips rng; mlkem_wrong_key_disagrees rng; sign_verify_roundtrip_hedged rng;
   seed_roundtrip_is_deterministic; encoding_roundtrips_and_lengths; echo_roundtrips;
   media_roundtrips rng; media_key_blob_roundtrips rng; fresh_key_and_nonce_each_call rng;
   wrong_key_is_rejected rng; media_tamper_is_rejected rng; short_media_key_blob_errors;
   bundle_roundtrips_and_verifies rng; secrets_roundtrip rng; tampered_prekey_is_rejected_on_parse rng;
   wrong_identity_signature_is_rejected rng; both_sides_agree_with_and_without_opk rng;
   forged_initiator_signature_is_rejected rng; tampered_ciphertext_breaks_agreement rng;
   uri_roundtrips_and_verifies rng; tampered_queue_is_rejected rng;
   swapped_bundle_identity_is_rejected rng; rejects_bad_scheme_and_base64;
   full_handshake_then_bidirectional_chat s rng; out_of_order_within_a_chain s rng;
   dropped_message_does_not_block_later_ones s rng; tampered_ciphertext_is_rejected s rng;
   state_survives_serialization_mid_conversation s rng; replay_is_rejected s rng;
   permuted_and_dropped_delivery s rng 20240607 9 0x12; bidirectional_in_order s rng 4;
   invite_to_ratcheted_conversation_over_blobs rng].

(** the model passes the crate's own unit tests. *)
Theorem crypto_tests_pass : forallb passes (crypto_tests sample_rng) = true.
Proof. vm_cast_no_check (eq_refl true). Qed.

(** the model passes the tests for the browser, with 32-bit sizes. *)
Theorem wasm_tests_pass :
  forallb passes
    [wire_roundtrip_and_pq_gate (PF := wasm32); identity_keygen_sign_verify sample_rng;
     full_handshake_and_ratchet_in_wasm (PF := wasm32) sample_rng] = true.
Proof. vm_cast_no_check (eq_refl true). Qed.

(** the fuzz target of the invite parser holds for what [create] makes, but not
    for every accepted input: on the padded invite its [expect] panics. *)
Theorem invite_parse_target_can_fail :
  passes (invite_parse_target (Invite_encode InviteSample.invite)) = true ∧
  passes (invite_parse_target InviteSample.padded_invite) = false.
Proof. split; [vm_cast_no_check (eq_refl true)|vm_cast_no_check (eq_refl false)]. Qed.
