(* ===== verification/Entities.v ===== *)
(** * Domain types and policy: [buh-entities], [buh-core/src/{error,context}.rs]

    Queue ids, errors, node policy, and the mapping of errors to HTTP
    responses ([buh-api/src/error.rs]).  The [hex], [uuid] and [chrono] crates
    are the parameters of the class [Externals]. *)

From S2P Require Import Prelude.
From stdpp Require Import pretty.
#[local] Open Scope Z_scope.

Class Externals := {
  (** [uuid]: text form and parser (the error is the parser's message). *)
  Uuid : Type;
  uuid_eq_dec :: EqDecision Uuid;
  uuid_fmt : Uuid → string;
  uuid_parse : string → Result string Uuid;
  (** [hex]. *)
  hex_encode : bytes → string;
  hex_decode : string → Result string bytes;
  (** Whether [chrono] can represent this number of milliseconds. *)
  dt_in_range : Z → bool;
}.

Class ExternalLaws `{Externals} : Prop := {
  uuid_parse_fmt u : uuid_parse (uuid_fmt u) = Ok u;
  hex_decode_encode b : hex_decode (hex_encode b) = Ok b;
  hex_encode_length b : String.length (hex_encode b) = (2 * length b)%nat;
}.

(** ** Errors *)

Inductive EntityError : Type :=
| InvalidQueueId (s : string)
| InvalidTtl (s : string)
| InvalidPayload (s : string)
| InvalidBase64 (s : string)
| Empty (s : string).

Inductive CoreError : Type :=
| NotFound
| Conflict (s : string)
| Validation (e : EntityError)
| Repo (s : string)
| Storage (s : string)
| Unimplemented (s : string)
| Internal (s : string).

#[export] Instance EntityError_eq_dec : EqDecision EntityError.
Proof. solve_decision. Defined.
#[export] Instance CoreError_eq_dec : EqDecision CoreError.
Proof. solve_decision. Defined.

(** The [#[error(..)]] texts. *)
Definition EntityError_to_string (e : EntityError) : string :=
  match e with
  | InvalidQueueId s => "invalid queue id: " +:+ s
  | InvalidTtl s => "invalid ttl: " +:+ s
  | InvalidPayload s => "invalid payload: " +:+ s
  | InvalidBase64 s => "invalid base64: " +:+ s
  | Empty s => "field must not be empty: " +:+ s
  end.

Definition CoreError_to_string (e : CoreError) : string :=
  match e with
  | NotFound => "not found"
  | Conflict s => "conflict: " +:+ s
  | Validation e => EntityError_to_string e
  | Repo s => "repository error: " +:+ s
  | Storage s => "storage error: " +:+ s
  | Unimplemented s => "not implemented: " +:+ s
  | Internal s => "internal error: " +:+ s
  end.

(** [ApiError::into_response]: status code and the [error] member of the body. *)
Definition into_response (e : CoreError) : Z * string :=
  match e with
  | NotFound => (404, CoreError_to_string e)
  | Validation _ => (400, CoreError_to_string e)
  | Conflict _ => (409, CoreError_to_string e)
  | Unimplemented _ => (501, CoreError_to_string e)
  | Repo _ | Storage _ | Internal _ => (500, "internal error")
  end.

(** error responses do not leak: every storage, repository or internal
    failure is answered with status 500 and the same fixed text, whatever its
    detail; client errors keep their own status, and no error is answered as a
    success. *)
Theorem error_responses_do_not_leak e :
  let '(status, message) := into_response e in
  (status = 500 ↔ ∃ s, e = Repo s ∨ e = Storage s ∨ e = Internal s) ∧
  (status = 500 → message = "internal error") ∧
  (status = 404 ↔ e = NotFound) ∧
  (status = 400 ↔ ∃ v, e = Validation v) ∧
  400 <= status <= 501.
Proof. destruct e; cbn; naive_solver lia. Qed.

(** ** [QueueId] *)

Section QueueId.
Context `{EX : Externals}.

Definition QUEUE_ID_LEN : nat := 32.

Record QueueId := { queue_bytes : bytes }.

Definition QueueId_from_bytes (b : bytes) : QueueId := {| queue_bytes := b |}.

Definition QueueId_from_slice (slice : bytes) : Result EntityError QueueId :=
  if (length slice =? QUEUE_ID_LEN)%nat then Ok {| queue_bytes := slice |}
  else Err (InvalidQueueId ("expected 32 bytes, got " +:+ pretty (length slice))).

Definition QueueId_to_string (q : QueueId) : string := hex_encode (queue_bytes q).

Definition QueueId_from_str (s : string) : Result EntityError QueueId :=
  let? b := map_err (λ e, InvalidQueueId ("not valid hex: " +:+ e)) (hex_decode s) in
  QueueId_from_slice b.

(** queue ids: the hex form has 64 characters and parses back to the same
    id; parsing accepts only strings that decode to exactly 32 bytes, and says
    what is wrong otherwise. *)
Theorem queue_id_text_roundtrip `{EL : !ExternalLaws} :
  (∀ q, length (queue_bytes q) = QUEUE_ID_LEN →
     String.length (QueueId_to_string q) = 64%nat ∧ QueueId_from_str (QueueId_to_string q) = Ok q) ∧
  (∀ s q, QueueId_from_str s = Ok q →
     hex_decode s = Ok (queue_bytes q) ∧ length (queue_bytes q) = QUEUE_ID_LEN) ∧
  (∀ s b, hex_decode s = Ok b → length b ≠ QUEUE_ID_LEN →
     QueueId_from_str s = Err (InvalidQueueId ("expected 32 bytes, got " +:+ pretty (length b)))).
Proof.
  unfold QueueId_from_str, QueueId_to_string, QueueId_from_slice. split_and!.
  - intros [b] Hb. cbn in *. rewrite hex_encode_length, Hb, hex_decode_encode. split; [done|]. cbn.
    by rewrite Hb.
  - intros s q H. inv_ok. destruct (Nat.eqb_spec (length a) QUEUE_ID_LEN) as [E|]; [|done].
    inv_ok. subst q. done.
  - intros s b -> Hn. cbn [map_err rbind]. by rewrite (proj2 (Nat.eqb_neq _ _) Hn).
Qed.
End QueueId.

#[export] Instance QueueId_eq_dec : EqDecision QueueId.
Proof. solve_decision. Defined.

(** ** Node policy: [context.rs] and [config.rs] *)

Record CoreConfig := {
  default_ttl_seconds : Z;
  max_ttl_seconds : Z;
  max_payload_bytes : Z;
  max_pull_limit : Z;
  max_blob_bytes : Z;
}.

Definition CoreConfig_default : CoreConfig :=
  {| default_ttl_seconds := 60 * 60 * 24 * 7;
     max_ttl_seconds := 60 * 60 * 24 * 30;
     max_payload_bytes := 256 * 1024;
     max_pull_limit := 100;
     max_blob_bytes := 64 * 1024 * 1024 |}.

(** The relay and blob sections of the daemon configuration. *)
Record RelayConfig := {
  rc_default_ttl_seconds : Z;
  rc_max_ttl_seconds : Z;
  rc_max_payload_bytes : Z;
  rc_max_pull_limit : Z;
  rc_max_wait_seconds : Z;
  rc_sweep_interval_seconds : Z;
}.

Record BlobConfig := {
  bc_enabled : bool;
  bc_backend : string;
  bc_fs_root : string;
  bc_max_blob_bytes : Z;
  bc_s3_endpoint : string;
  bc_s3_region : string;
  bc_s3_access_key : string;
  bc_s3_secret_key : string;
}.

Definition RelayConfig_default : RelayConfig :=
  {| rc_default_ttl_seconds := default_ttl_seconds CoreConfig_default;
     rc_max_ttl_seconds := max_ttl_seconds CoreConfig_default;
     rc_max_payload_bytes := max_payload_bytes CoreConfig_default;
     rc_max_pull_limit := max_pull_limit CoreConfig_default;
     rc_max_wait_seconds := 30;
     rc_sweep_interval_seconds := 3600 |}.

Definition BlobConfig_default : BlobConfig :=
  {| bc_enabled := false;
     bc_backend := "fs";
     bc_fs_root := "buh-blobs";
     bc_max_blob_bytes := max_blob_bytes CoreConfig_default;
     bc_s3_endpoint := EmptyString;
     bc_s3_region := "us-east-1";
     bc_s3_access_key := EmptyString;
     bc_s3_secret_key := EmptyString |}.

Definition core_config (relay : RelayConfig) (blob : BlobConfig) : CoreConfig :=
  {| default_ttl_seconds := rc_default_ttl_seconds relay;
     max_ttl_seconds := rc_max_ttl_seconds relay;
     max_payload_bytes := rc_max_payload_bytes relay;
     max_pull_limit := rc_max_pull_limit relay;
     max_blob_bytes := bc_max_blob_bytes blob |}.

(** ** A concrete instance of the external crates *)

Definition hex_digit (n : Z) : Ascii.ascii :=
  Ascii.ascii_of_N (Z.to_N (if n <? 10 then 48 + n else 87 + n)).

Definition hex_value (c : Ascii.ascii) : option Z :=
  let n := Z.of_N (Ascii.N_of_ascii c) in
  if (48 <=? n) && (n <=? 57) then Some (n - 48)
  else if (97 <=? n) && (n <=? 102) then Some (n - 87)
  else if (65 <=? n) && (n <=? 70) then Some (n - 55)
  else None.

Fixpoint hex_enc (b : bytes) : string :=
  match b with
  | [] => EmptyString
  | x :: b => String (hex_digit (u8 x / 16)) (String (hex_digit (u8 x mod 16)) (hex_enc b))
  end.

Fixpoint hex_dec (s : string) : Result string bytes :=
  match s with
  | EmptyString => Ok []
  | String _ EmptyString => Err "Odd number of digits"
  | String a (String b s) =>
      match hex_value a, hex_value b with
      | Some x, Some y => let? r := hex_dec s in Ok (byte_of (16 * x + y) :: r)
      | _, _ => Err "Invalid character"
      end
  end.

Lemma hex_dec_enc b : hex_dec (hex_enc b) = Ok b.
Proof.
  induction b as [|x b IH]; [done|]. cbn [hex_enc hex_dec].
  assert (hex_value (hex_digit (u8 x / 16)) = Some (u8 x / 16) ∧
          hex_value (hex_digit (u8 x mod 16)) = Some (u8 x mod 16)) as [-> ->]
    by (destruct x; by vm_compute).
  rewrite IH. cbn [rbind]. rewrite <-Z.div_mod by lia. by rewrite byte_of_u8.
Qed.

Definition uuid_enc (b : bytes) : string := String (hex_digit 0) (hex_enc b).
Definition uuid_dec (s : string) : Result string bytes :=
  match s with String _ s => hex_dec s | EmptyString => Err "invalid length" end.

#[export] Program Instance model_externals : Externals := {|
  Uuid := bytes;
  uuid_fmt := uuid_enc;
  uuid_parse := uuid_dec;
  hex_encode := hex_enc;
  hex_decode := hex_dec;
  dt_in_range ms := (-8334601228800000 <=? ms) && (ms <=? 8210266876799999);
|}.

#[export] Instance model_external_laws : ExternalLaws.
Proof.
  split; cbn [uuid_parse uuid_fmt hex_decode hex_encode model_externals]; intros.
  - apply hex_dec_enc.
  - apply hex_dec_enc.
  - induction b as [|x b IH]; [done|]. cbn [hex_enc String.length length]. rewrite IH. lia.
Qed.

Lemma queue_id_text_roundtrip_witness :
  QueueId_from_str (QueueId_to_string {| queue_bytes := repeat Byte.x11 32 |})
  = Ok {| queue_bytes := repeat Byte.x11 32 |}.
Proof. exact (proj2 (proj1 queue_id_text_roundtrip {| queue_bytes := repeat Byte.x11 32 |} eq_refl)). Defined.
