(* ===== verification/Mailbox.v ===== *)
(** * The mailbox: [buh-data/src/turso_mailbox.rs], [buh-core/src/mailbox.rs]

    The two tables of [migrations/0001_init.sql] are lists of rows in insertion
    order; each SQL statement of the source is a function on them.  A call of
    the datastore can fail: [Faults] gives the error, if any, of the [i]-th
    call an operation makes, and a failed call changes nothing.  [id] is an
    [INTEGER PRIMARY KEY], assigned one above the largest in the table. *)

From S2P Require Import Prelude.
From S2P Require Import Entities.
From stdpp Require Import pretty.
#[local] Open Scope Z_scope.

Definition i64_min : Z := - 2 ^ 63.
Definition i64_max : Z := 2 ^ 63 - 1.
Definition sat64 (z : Z) : Z := Z.max i64_min (Z.min i64_max z).

(** ** Rows and statements *)

Record EnvRow := {
  er_id : Z;
  er_queue : bytes;
  er_envelope : string;
  er_payload : bytes;
  er_received : Z;
  er_expires : Z;
  er_delivered : option Z;
}.

Record ReceiptRow := { rr_queue : bytes; rr_envelope : string; rr_pulled : Z }.

Record Db := { envelopes : list EnvRow; receipts : list ReceiptRow }.

(** The repository: the datastore, and per queue the long-polls registered with
    its [Notify]; [woken] are the ones a notification has reached. *)
Record MailRepo := { db : Db; waiters : gmap bytes (gset nat); woken : gset nat }.

Definition with_db (d : Db) (s : MailRepo) : MailRepo :=
  {| db := d; waiters := waiters s; woken := woken s |}.

Definition Faults : Type := nat → option string.

Definition db_call {A} (f : Faults) (i : nat) (m : Db → Result string A * Db) :
    ST MailRepo CoreError A :=
  λ s, match f i with
       | Some e => (Err (Repo e), s)
       | None => let '(r, d) := m (db s) in (map_err Repo r, with_db d s)
       end.

Definition connect : Db → Result string unit * Db := λ db, (Ok tt, db).

Definition max_id (rows : list EnvRow) : Z := foldr (λ r, Z.max (er_id r)) 0 rows.

(** [INSERT INTO envelopes ...]; the unique index is on (queue_id, envelope_id). *)
Definition insert_envelope (queue : bytes) (envelope : string) (payload : bytes)
    (received expires : Z) : Db → Result string Z * Db := λ db,
  if existsb (λ r, bool_decide (er_queue r = queue ∧ er_envelope r = envelope)) (envelopes db)
  then (Err "UNIQUE constraint failed", db)
  else
    (Ok 1,
     {| envelopes := envelopes db ++
          [{| er_id := max_id (envelopes db) + 1; er_queue := queue; er_envelope := envelope;
              er_payload := payload; er_received := received; er_expires := expires;
              er_delivered := None |}];
        receipts := receipts db |}).

(** [ORDER BY received_at ASC, id ASC]. *)
Definition row_le (r s : EnvRow) : Prop :=
  er_received r < er_received s ∨ er_received r = er_received s ∧ er_id r <= er_id s.

#[export] Instance row_le_dec r s : Decision (row_le r s).
Proof. unfold row_le. apply _. Defined.

(** [WHERE queue_id = ?1 AND delivered_at IS NULL AND expires_at > ?2]. *)
Definition live (queue : bytes) (now : Z) (r : EnvRow) : Prop :=
  er_queue r = queue ∧ er_delivered r = None ∧ now < er_expires r.

#[export] Instance live_dec queue now r : Decision (live queue now r).
Proof. unfold live. apply _. Defined.

(** [LIMIT ?3]: a negative limit is no limit. *)
Definition sql_limit {A} (limit : Z) (l : list A) : list A :=
  if limit <? 0 then l else take (Z.to_nat limit) l.

Definition select_live (queue : bytes) (now limit : Z) : Db → Result string (list EnvRow) * Db := λ db,
  (Ok (sql_limit limit (merge_sort row_le (filter (live queue now) (envelopes db)))), db).

(** [WHERE queue_id = ?1 AND envelope_id = ?2 AND delivered_at IS NULL]. *)
Definition ack_matches (queue : bytes) (envelope : string) (r : EnvRow) : Prop :=
  er_queue r = queue ∧ er_envelope r = envelope ∧ er_delivered r = None.

#[export] Instance ack_matches_dec queue envelope r : Decision (ack_matches queue envelope r).
Proof. unfold ack_matches. apply _. Defined.

Definition set_delivered (at_ms : Z) (r : EnvRow) : EnvRow :=
  {| er_id := er_id r; er_queue := er_queue r; er_envelope := er_envelope r;
     er_payload := er_payload r; er_received := er_received r; er_expires := er_expires r;
     er_delivered := Some at_ms |}.

Definition update_delivered (queue : bytes) (envelope : string) (at_ms : Z) :
    Db → Result string Z * Db := λ db,
  (Ok (blen (filter (ack_matches queue envelope) (envelopes db))),
   {| envelopes := (λ r, if decide (ack_matches queue envelope r) then set_delivered at_ms r else r)
                     <$> envelopes db;
      receipts := receipts db |}).

Definition insert_receipt (queue : bytes) (envelope : string) (at_ms : Z) :
    Db → Result string Z * Db := λ db,
  (Ok 1,
   {| envelopes := envelopes db;
      receipts := receipts db ++ [{| rr_queue := queue; rr_envelope := envelope; rr_pulled := at_ms |}] |}).

Definition delete_expired (now : Z) : Db → Result string Z * Db := λ db,
  (Ok (blen (filter (λ r, er_expires r <= now) (envelopes db))),
   {| envelopes := filter (λ r, ¬ er_expires r <= now) (envelopes db); receipts := receipts db |}).

(** ** [TursoMailboxRepo] *)

Section Repo.
Context `{EX : Externals}.

Definition EnvelopeId : Type := Uuid.

Record NewEnvelope := { ne_payload : bytes; ne_ttl_seconds : Z }.

Record StoredEnvelope := {
  se_envelope_id : EnvelopeId;
  se_payload : bytes;
  se_received_at : Z;
  se_expires_at : Z;
}.

Definition ms_to_dt (ms : Z) : Result CoreError Z :=
  if dt_in_range ms then Ok ms else Err (Repo ("timestamp out of range: " +:+ pretty ms)).

(** The columns have the types the schema gives them, so the type checks of
    [value_text], [value_blob] and [value_int] succeed. *)
Definition row_to_envelope (r : EnvRow) : Result CoreError StoredEnvelope :=
  let? envelope_id := map_err (λ e, Repo ("bad envelope_id: " +:+ e)) (uuid_parse (er_envelope r)) in
  let payload := er_payload r in
  let? received_at := ms_to_dt (er_received r) in
  let? expires_at := ms_to_dt (er_expires r) in
  Ok {| se_envelope_id := envelope_id; se_payload := payload;
        se_received_at := received_at; se_expires_at := expires_at |}.

(** The [while let Some(row) = rows.next()] loop: call [i] fetches a row, and
    one more call finds the end. *)
Fixpoint collect_rows (f : Faults) (i : nat) (rows : list EnvRow) (out : list StoredEnvelope) :
    Result CoreError (list StoredEnvelope) :=
  match f i with
  | Some e => Err (Repo e)
  | None =>
      match rows with
      | [] => Ok out
      | r :: rows =>
          let? env := row_to_envelope r in
          collect_rows f (S i) rows (out ++ [env])
      end
  end.

(** [self.notifier(queue_id).notify_waiters()]: every registered waiter of the
    queue is woken; the entry of the queue exists afterwards. *)
Definition notify_waiters (queue : bytes) : ST MailRepo CoreError unit := λ s,
  (Ok tt,
   {| db := db s; waiters := <[queue := ∅]> (waiters s);
      woken := woken s ∪ default ∅ (waiters s !! queue) |}).

(** [wait_for_envelope] in two halves: creating the [notified()] future
    registers the waiter [w]; when it completes or the timeout elapses, it
    reports whether it was woken. *)
Definition wait_begin (queue_id : QueueId) (w : nat) (s : MailRepo) : MailRepo :=
  {| db := db s;
     waiters := <[queue_bytes queue_id := {[w]} ∪ default ∅ (waiters s !! queue_bytes queue_id)]>
                  (waiters s);
     woken := woken s |}.

Definition wait_end (queue_id : QueueId) (w : nat) (s : MailRepo) : bool * MailRepo :=
  (bool_decide (w ∈ woken s),
   {| db := db s;
      waiters := <[queue_bytes queue_id := default ∅ (waiters s !! queue_bytes queue_id) ∖ {[w]}]>
                   (waiters s);
      woken := woken s ∖ {[w]} |}).

(** [id] is what [EnvelopeId::new] draws, [now] what [Utc::now()] reads. *)
Definition repo_push (f : Faults) (id : EnvelopeId) (now : Z) (queue_id : QueueId)
    (envelope : NewEnvelope) : ST MailRepo CoreError EnvelopeId :=
  let! _ := db_call f 0 connect in
  let expires := sat64 (now + sat64 (ne_ttl_seconds envelope * 1000)) in
  let! _ := db_call f 1 (insert_envelope (queue_bytes queue_id) (uuid_fmt id) (ne_payload envelope)
                           now expires) in
  let! _ := notify_waiters (queue_bytes queue_id) in
  st_ret id.

Definition repo_pull (f : Faults) (now : Z) (queue_id : QueueId) (limit : Z) :
    ST MailRepo CoreError (list StoredEnvelope) :=
  let! _ := db_call f 0 connect in
  let! rows := db_call f 1 (select_live (queue_bytes queue_id) now limit) in
  st_lift (collect_rows f 2 rows []).

Definition repo_ack (f : Faults) (queue_id : QueueId) (envelope_id : EnvelopeId) (at_ms : Z) :
    ST MailRepo CoreError bool :=
  let! _ := db_call f 0 connect in
  let! affected := db_call f 1 (update_delivered (queue_bytes queue_id) (uuid_fmt envelope_id) at_ms) in
  if affected =? 0 then st_ret false
  else
    let! _ := db_call f 2 (insert_receipt (queue_bytes queue_id) (uuid_fmt envelope_id) at_ms) in
    st_ret true.

Definition repo_expire (f : Faults) (now : Z) : ST MailRepo CoreError Z :=
  let! _ := db_call f 0 connect in
  db_call f 1 (delete_expired now).

(** ** [core/mailbox.rs] *)

Record PushEnvelope := { pe_payload : bytes; pe_ttl_seconds : Z }.

Definition clamp_ttl (requested : Z) (config : CoreConfig) : Z :=
  if requested <=? 0 then default_ttl_seconds config
  else Z.min requested (max_ttl_seconds config).

Definition push (config : CoreConfig) (f : Faults) (id : EnvelopeId) (now : Z) (queue_id : QueueId)
    (req : PushEnvelope) : ST MailRepo CoreError EnvelopeId :=
  if blen (pe_payload req) =? 0 then st_err (Validation (InvalidPayload "empty"))
  else if max_payload_bytes config <? blen (pe_payload req)
  then st_err (Validation (InvalidPayload "exceeds size limit"))
  else
    let ttl := clamp_ttl (pe_ttl_seconds req) config in
    repo_push f id now queue_id {| ne_payload := pe_payload req; ne_ttl_seconds := ttl |}.

(** [i64::clamp], which panics ([None]) when [min > max]. *)
Definition clamp (z lo hi : Z) : option Z :=
  if hi <? lo then None else Some (Z.max lo (Z.min z hi)).

Definition pull (config : CoreConfig) (f : Faults) (now : Z) (queue_id : QueueId) (limit : Z) :
    MailRepo → option (Result CoreError (list StoredEnvelope) * MailRepo) := λ s,
  match clamp limit 1 (max_pull_limit config) with
  | None => None
  | Some limit => Some (repo_pull f now queue_id limit s)
  end.

Definition ack (f : Faults) (now : Z) (queue_id : QueueId) (envelope_id : EnvelopeId) :
    ST MailRepo CoreError bool :=
  repo_ack f queue_id envelope_id now.

Definition sweep (f : Faults) (now : Z) : ST MailRepo CoreError Z := repo_expire f now.
End Repo.
