(* ===== verification/Json.v ===== *)
(** * JSON bodies: [buh-entities/src/{dto,b64,envelope}.rs] and the bodies of
    [buh-api/src/{handlers,admin,error}.rs]

    [Json] is [serde_json::Value] restricted to the integers the program uses;
    an object lists its members by increasing key, as [serde_json]'s map does.
    Printing and parsing, standard base64 and RFC 3339 times are the class
    [Formats].  The serialisers that [derive] generates send a structure to the
    object of its fields; the deserialisers look every field up. *)

From S2P Require Import Prelude.
From S2P Require Import Text.
From S2P Require Import Entities.
From S2P Require Import Mailbox.
#[local] Open Scope Z_scope.

Inductive Json : Type :=
| JNull
| JBool (b : bool)
| JNum (n : Z)
| JStr (t : text)
| JArr (l : list Json)
| JObj (m : list (text * Json)).

(** ** Access *)

Fixpoint member (key : text) (m : list (text * Json)) : option Json :=
  match m with
  | [] => None
  | (k, v) :: m => if bool_decide (k = key) then Some v else member key m
  end.

(** [Value::get] with a string. *)
Definition get (key : string) (v : Json) : option Json :=
  match v with JObj m => member (chars key) m | _ => None end.

(** [v[key]]: [Null] when there is no such member. *)
Definition index (v : Json) (key : string) : Json := default JNull (get key v).

Definition as_str (v : Json) : option text := match v with JStr t => Some t | _ => None end.
Definition as_bool (v : Json) : option bool := match v with JBool b => Some b | _ => None end.
Definition as_array (v : Json) : option (list Json) := match v with JArr l => Some l | _ => None end.

(** ** Well-formed values: strings hold characters, numbers fit [i64] or
    [u64], members are sorted *)

Definition is_char_b (c : Z) : bool :=
  ((0 <=? c) && (c <? 0xD800)) || ((0xE000 <=? c) && (c <=? 0x10FFFF)).

Fixpoint text_ltb (a b : text) : bool :=
  match a, b with
  | _, [] => false
  | [], _ :: _ => true
  | x :: a, y :: b => (x <? y) || ((x =? y) && text_ltb a b)
  end.

Fixpoint keys_sorted (m : list (text * Json)) : bool :=
  match m with
  | (k, _) :: r => match r with (k', _) :: _ => text_ltb k k' && keys_sorted r | [] => true end
  | [] => true
  end.

Fixpoint json_ok (v : Json) : bool :=
  match v with
  | JNull | JBool _ => true
  | JNum n => (i64_min <=? n) && (n <=? u64_max)
  | JStr t => forallb is_char_b t
  | JArr l => forallb json_ok l
  | JObj m => keys_sorted m && forallb (λ kv, forallb is_char_b kv.1 && json_ok kv.2) m
  end.

(** ** Libraries *)

Class Formats := {
  (** [serde_json]: [to_string], [from_str], [from_slice]. *)
  json_to_string : Json → text;
  json_from_str : text → Result string Json;
  json_from_slice : bytes → Result string Json;
  (** [base64]'s engine [STANDARD]. *)
  b64_encode : bytes → text;
  b64_decode : text → Result string bytes;
  (** [DateTime<Utc>], a number of milliseconds, as RFC 3339 text. *)
  dt_fmt : Z → text;
  dt_parse : text → Result string Z;
}.

Class FormatLaws `{EX : Externals} `{FM : Formats} : Prop := {
  from_str_to_string v : json_ok v = true → json_from_str (json_to_string v) = Ok v;
  from_slice_utf8 t : Forall is_char t → json_from_slice (utf8_encode t) = json_from_str t;
  json_text_chars v : json_ok v = true → Forall is_char (json_to_string v);
  json_text_trim v : trim (json_to_string v) = json_to_string v;
  b64_decode_encode b : b64_decode (b64_encode b) = Ok b;
  b64_ascii b : Forall is_ascii (b64_encode b);
  dt_parse_fmt t : dt_in_range t = true → dt_parse (dt_fmt t) = Ok t;
  dt_ascii t : dt_in_range t = true → Forall is_ascii (dt_fmt t);
}.

(** Characters of hexadecimal and of hyphenated UUID text. *)
Definition is_id_char (c : Z) : bool :=
  is_digit c || ((97 <=? c) && (c <=? 102)) || (c =? 45).

Class IdTextLaws `{EX : Externals} : Prop := {
  uuid_fmt_chars u : Forall (λ c, is_id_char c = true) (chars (uuid_fmt u)) ∧ uuid_fmt u ≠ EmptyString;
  hex_encode_chars b : Forall (λ c, is_id_char c = true) (chars (hex_encode b));
}.

(** ** Data transfer objects *)

Section Dto.
Context `{EX : Externals} `{FM : Formats}.

Definition field (v : Json) (name : string) : Result string Json :=
  ok_or (get name v) ("missing field `" +:+ name +:+ "`").

Definition de_string (v : Json) : Result string text :=
  ok_or (as_str v) "invalid type: expected a string".

Definition de_i64 (v : Json) : Result string Z :=
  match v with
  | JNum n => if (i64_min <=? n) && (n <=? i64_max) then Ok n else Err "invalid value: expected i64"
  | _ => Err "invalid type: expected i64"
  end.

(** [b64::serialize] and [b64::deserialize]. *)
Definition b64_serialize (b : bytes) : Json := JStr (b64_encode b).

Definition b64_deserialize (v : Json) : Result string bytes :=
  let? s := de_string v in
  b64_decode s.

Definition EnvelopeId_to_json (id : EnvelopeId) : Json := JStr (chars (uuid_fmt id)).

Definition EnvelopeId_from_json (v : Json) : Result string EnvelopeId :=
  let? s := de_string v in
  uuid_parse (to_string s).

Definition PushEnvelope_to_json (p : PushEnvelope) : Json :=
  JObj [(chars "payload", b64_serialize (pe_payload p));
        (chars "ttl_seconds", JNum (pe_ttl_seconds p))].

Definition PushEnvelope_from_json (v : Json) : Result string PushEnvelope :=
  let? payload := rbind (field v "payload") b64_deserialize in
  let? ttl := rbind (field v "ttl_seconds") de_i64 in
  Ok {| pe_payload := payload; pe_ttl_seconds := ttl |}.

Record EnvelopeAccepted := { ea_envelope_id : EnvelopeId }.

Definition EnvelopeAccepted_to_json (a : EnvelopeAccepted) : Json :=
  JObj [(chars "envelope_id", EnvelopeId_to_json (ea_envelope_id a))].

Definition EnvelopeAccepted_from_json (v : Json) : Result string EnvelopeAccepted :=
  let? id := rbind (field v "envelope_id") EnvelopeId_from_json in
  Ok {| ea_envelope_id := id |}.

Definition de_time (v : Json) : Result string Z :=
  let? s := de_string v in
  dt_parse s.

Definition StoredEnvelope_to_json (e : StoredEnvelope) : Json :=
  JObj [(chars "envelope_id", EnvelopeId_to_json (se_envelope_id e));
        (chars "expires_at", JStr (dt_fmt (se_expires_at e)));
        (chars "payload", b64_serialize (se_payload e));
        (chars "received_at", JStr (dt_fmt (se_received_at e)))].

Definition StoredEnvelope_from_json (v : Json) : Result string StoredEnvelope :=
  let? id := rbind (field v "envelope_id") EnvelopeId_from_json in
  let? payload := rbind (field v "payload") b64_deserialize in
  let? received := rbind (field v "received_at") de_time in
  let? expires := rbind (field v "expires_at") de_time in
  Ok {| se_envelope_id := id; se_payload := payload; se_received_at := received;
        se_expires_at := expires |}.

Fixpoint de_vec {A} (de : Json → Result string A) (l : list Json) : Result string (list A) :=
  match l with
  | [] => Ok []
  | v :: l =>
      let? a := de v in
      let? r := de_vec de l in
      Ok (a :: r)
  end.

Record PullResponse := { pl_envelopes : list StoredEnvelope }.

Definition PullResponse_to_json (p : PullResponse) : Json :=
  JObj [(chars "envelopes", JArr (StoredEnvelope_to_json <$> pl_envelopes p))].

Definition PullResponse_from_json (v : Json) : Result string PullResponse :=
  let? l := rbind (field v "envelopes") (λ v, ok_or (as_array v) "invalid type: expected a sequence") in
  let? envs := de_vec StoredEnvelope_from_json l in
  Ok {| pl_envelopes := envs |}.

Record AckAccepted := { aa_acknowledged : bool }.

Definition AckAccepted_to_json (a : AckAccepted) : Json :=
  JObj [(chars "acknowledged", JBool (aa_acknowledged a))].

Definition AckAccepted_from_json (v : Json) : Result string AckAccepted :=
  let? b := rbind (field v "acknowledged")
              (λ v, ok_or (as_bool v) "invalid type: expected a boolean") in
  Ok {| aa_acknowledged := b |}.

(** [DeliveryReceipt]; the queue id goes through its text form. *)
Record DeliveryReceipt := { dr_queue_id : QueueId; dr_envelope_id : EnvelopeId; dr_pulled_at : Z }.

Definition DeliveryReceipt_to_json (r : DeliveryReceipt) : Json :=
  JObj [(chars "envelope_id", EnvelopeId_to_json (dr_envelope_id r));
        (chars "pulled_at", JStr (dt_fmt (dr_pulled_at r)));
        (chars "queue_id", JStr (chars (QueueId_to_string (dr_queue_id r))))].

Definition QueueId_from_json (v : Json) : Result string QueueId :=
  let? s := de_string v in
  map_err EntityError_to_string (QueueId_from_str (to_string s)).

Definition DeliveryReceipt_from_json (v : Json) : Result string DeliveryReceipt :=
  let? q := rbind (field v "queue_id") QueueId_from_json in
  let? id := rbind (field v "envelope_id") EnvelopeId_from_json in
  let? at_ms := rbind (field v "pulled_at") de_time in
  Ok {| dr_queue_id := q; dr_envelope_id := id; dr_pulled_at := at_ms |}.

(** ** Bodies of the node's own answers *)

Definition note_json (note : option text) : Json :=
  match note with Some n => JStr n | None => JNull end.

(** [GET /v1/health]. *)
Definition health_json (ca_fingerprint : option text) : Json :=
  match ca_fingerprint with
  | Some fp => JObj [(chars "ca_fingerprint", JStr fp); (chars "status", JStr (chars "ok"))]
  | None => JObj [(chars "status", JStr (chars "ok"))]
  end.

(** The body of an [ApiError]. *)
Definition error_json (message : string) : Json :=
  JObj [(chars "error", JStr (literal message))].

(** [TrustRequest]: the note may be missing. *)
Record TrustRequest := { tr_ca_fingerprint : text; tr_note : option text }.

Definition de_note (v : Json) : Result string (option text) :=
  match get "note" v with
  | None | Some JNull => Ok None
  | Some v => rbind (de_string v) (λ n, Ok (Some n))
  end.

Definition TrustRequest_from_json (v : Json) : Result string TrustRequest :=
  let? fp := rbind (field v "ca_fingerprint") de_string in
  let? note := de_note v in
  Ok {| tr_ca_fingerprint := fp; tr_note := note |}.

Definition info_json (own : text) (trusted_peers : Z) : Json :=
  JObj [(chars "ca_fingerprint", JStr own); (chars "trusted_peers", JNum trusted_peers)].

Definition peer_json (p : text * option text * Z) : Json :=
  let '(fp, note, at_ms) := p in
  JObj [(chars "ca_fingerprint", JStr fp); (chars "note", note_json note);
        (chars "trusted_at_ms", JNum at_ms)].

Definition peers_json (peers : list (text * option text * Z)) : Json :=
  JObj [(chars "peers", JArr (peer_json <$> peers))].

Definition trusted_json (fp : text) : Json := JObj [(chars "trusted", JStr fp)].
Definition removed_json (removed : bool) : Json := JObj [(chars "removed", JBool removed)].
End Dto.

(** ** Round trips *)

Section DtoLaws.
Context `{EX : Externals} `{EL : !ExternalLaws} `{FM : Formats} `{FL : !FormatLaws} `{IL : !IdTextLaws}.

Lemma id_char_ascii c : is_id_char c = true → is_ascii c.
Proof. unfold is_id_char, is_digit, is_ascii. lia. Qed.

Lemma Forall_id_ascii t : Forall (λ c, is_id_char c = true) t → Forall is_ascii t.
Proof. intros H. eapply Forall_impl; [exact H|]. apply id_char_ascii. Qed.

Lemma ascii_chars_b t : Forall is_ascii t → forallb is_char_b t = true.
Proof.
  intros H. apply forallb_forall. intros c Hc%list_elem_of_In. rewrite Forall_forall in H.
  specialize (H c Hc). unfold is_ascii in H. unfold is_char_b. lia.
Qed.

Lemma is_char_b_spec t : forallb is_char_b t = true ↔ Forall is_char t.
Proof.
  unfold is_char_b, is_char. induction t as [|c t IH]; [done|].
  cbn [forallb]. rewrite Forall_cons, <-IH, andb_true_iff. split; intros [H ?]; (split; [lia|done]).
Qed.

Lemma uuid_text_ascii u : Forall is_ascii (chars (uuid_fmt u)).
Proof. apply Forall_id_ascii, uuid_fmt_chars. Qed.

Lemma queue_text_ascii q : Forall is_ascii (chars (QueueId_to_string q)).
Proof. apply Forall_id_ascii, hex_encode_chars. Qed.

Lemma EnvelopeId_json_roundtrip id : EnvelopeId_from_json (EnvelopeId_to_json id) = Ok id.
Proof.
  unfold EnvelopeId_from_json, EnvelopeId_to_json. cbn [de_string as_str ok_or rbind].
  rewrite to_string_chars by apply uuid_text_ascii. apply uuid_parse_fmt.
Qed.

Lemma PushEnvelope_json_roundtrip p :
  i64_min <= pe_ttl_seconds p <= i64_max → PushEnvelope_from_json (PushEnvelope_to_json p) = Ok p.
Proof.
  intros H. unfold PushEnvelope_from_json, field.
  change (get "payload" _) with (Some (b64_serialize (pe_payload p))).
  change (get "ttl_seconds" _) with (Some (JNum (pe_ttl_seconds p))).
  cbn [ok_or rbind b64_deserialize b64_serialize de_string as_str].
  rewrite b64_decode_encode. cbn [rbind de_i64].
  replace ((i64_min <=? pe_ttl_seconds p) && (pe_ttl_seconds p <=? i64_max)) with true by lia.
  by destruct p.
Qed.

Definition times_in_range (e : StoredEnvelope) : Prop :=
  dt_in_range (se_received_at e) = true ∧ dt_in_range (se_expires_at e) = true.

Lemma StoredEnvelope_json_roundtrip e :
  times_in_range e → StoredEnvelope_from_json (StoredEnvelope_to_json e) = Ok e.
Proof.
  intros [H1 H2]. unfold StoredEnvelope_from_json, field.
  change (get "envelope_id" _) with (Some (EnvelopeId_to_json (se_envelope_id e))).
  change (get "payload" _) with (Some (b64_serialize (se_payload e))).
  change (get "received_at" _) with (Some (JStr (dt_fmt (se_received_at e)))).
  change (get "expires_at" _) with (Some (JStr (dt_fmt (se_expires_at e)))).
  cbn [ok_or rbind]. rewrite EnvelopeId_json_roundtrip.
  cbn [rbind b64_deserialize b64_serialize de_string as_str ok_or de_time].
  rewrite b64_decode_encode. cbn [rbind]. rewrite !dt_parse_fmt by done. cbn [rbind]. by destruct e.
Qed.

Lemma de_vec_roundtrip {A} (ser : A → Json) (de : Json → Result string A) l :
  Forall (λ a, de (ser a) = Ok a) l → de_vec de (ser <$> l) = Ok l.
Proof.
  induction 1 as [|a l Ha _ IH]; [done|]. rewrite fmap_cons. cbn [de_vec].
  by rewrite Ha; cbn [rbind]; rewrite IH.
Qed.

Lemma PullResponse_json_roundtrip p :
  Forall times_in_range (pl_envelopes p) → PullResponse_from_json (PullResponse_to_json p) = Ok p.
Proof.
  intros H. unfold PullResponse_from_json, field.
  change (get "envelopes" _) with (Some (JArr (StoredEnvelope_to_json <$> pl_envelopes p))).
  cbn [ok_or rbind as_array]. rewrite de_vec_roundtrip; [by destruct p|].
  eapply Forall_impl; [exact H|]. apply StoredEnvelope_json_roundtrip.
Qed.

Lemma AckAccepted_json_roundtrip a : AckAccepted_from_json (AckAccepted_to_json a) = Ok a.
Proof. by destruct a. Qed.

(** *** The values are well formed *)

Lemma json_ok_id id : json_ok (EnvelopeId_to_json id) = true.
Proof. apply ascii_chars_b, uuid_text_ascii. Qed.

Lemma json_ok_b64 b : json_ok (b64_serialize b) = true.
Proof. apply ascii_chars_b, b64_ascii. Qed.

Lemma json_ok_time t : dt_in_range t = true → json_ok (JStr (dt_fmt t)) = true.
Proof. intros H. apply ascii_chars_b, dt_ascii, H. Qed.

(** An object of fixed keys is well formed when its values are. *)
Lemma json_ok_obj m :
  keys_sorted m = true → forallb (λ kv, forallb is_char_b kv.1) m = true →
  Forall (λ kv, json_ok kv.2 = true) m → json_ok (JObj m) = true.
Proof.
  intros Hs Hk Hv. cbn [json_ok]. rewrite Hs. cbn [andb]. apply forallb_forall. intros kv Hin.
  rewrite forallb_forall in Hk. rewrite Forall_forall in Hv.
  rewrite (Hk kv Hin), (Hv kv) by by apply list_elem_of_In. done.
Qed.

Lemma json_ok_push p :
  i64_min <= pe_ttl_seconds p <= i64_max → json_ok (PushEnvelope_to_json p) = true.
Proof.
  intros H. apply json_ok_obj; [done..|]. repeat constructor; cbn [snd]; [apply json_ok_b64|].
  cbn [json_ok]. unfold i64_max, u64_max in *. lia.
Qed.

Lemma json_ok_accepted a : json_ok (EnvelopeAccepted_to_json a) = true.
Proof. apply json_ok_obj; [done..|]. repeat constructor. apply json_ok_id. Qed.

Lemma json_ok_stored e : times_in_range e → json_ok (StoredEnvelope_to_json e) = true.
Proof.
  intros [H1 H2]. apply json_ok_obj; [done..|].
  repeat constructor; cbn [snd]; auto using json_ok_id, json_ok_time, json_ok_b64.
Qed.

Lemma json_ok_arr l : Forall (λ v, json_ok v = true) l → json_ok (JArr l) = true.
Proof.
  intros H. cbn [json_ok]. apply forallb_forall. intros v Hv. rewrite Forall_forall in H.
  by apply H, list_elem_of_In.
Qed.

Lemma json_ok_pull p : Forall times_in_range (pl_envelopes p) → json_ok (PullResponse_to_json p) = true.
Proof.
  intros H. apply json_ok_obj; [done..|]. constructor; [|done]. cbn [snd]. apply json_ok_arr.
  apply Forall_fmap. eapply Forall_impl; [exact H|]. apply json_ok_stored.
Qed.

Lemma json_ok_ack a : json_ok (AckAccepted_to_json a) = true.
Proof. done. Qed.

(** C26: bodies round trip: what the node or a client writes as JSON text reads
    back as the same request or answer; an identifier, a payload of any bytes
    and both time stamps survive. *)
Theorem bodies_roundtrip :
  (∀ p, i64_min <= pe_ttl_seconds p <= i64_max →
     rbind (json_from_str (json_to_string (PushEnvelope_to_json p))) PushEnvelope_from_json = Ok p) ∧
  (∀ a, rbind (json_from_str (json_to_string (EnvelopeAccepted_to_json a)))
          EnvelopeAccepted_from_json = Ok a) ∧
  (∀ p, Forall times_in_range (pl_envelopes p) →
     rbind (json_from_str (json_to_string (PullResponse_to_json p))) PullResponse_from_json = Ok p) ∧
  (∀ a, rbind (json_from_str (json_to_string (AckAccepted_to_json a))) AckAccepted_from_json = Ok a) ∧
  (∀ r, length (queue_bytes (dr_queue_id r)) = QUEUE_ID_LEN → dt_in_range (dr_pulled_at r) = true →
     rbind (json_from_str (json_to_string (DeliveryReceipt_to_json r))) DeliveryReceipt_from_json = Ok r).
Proof.
  split_and!.
  - intros p H. rewrite from_str_to_string by by apply json_ok_push. by apply PushEnvelope_json_roundtrip.
  - intros a. rewrite from_str_to_string by apply json_ok_accepted. cbn [rbind].
    unfold EnvelopeAccepted_from_json, field.
    change (get "envelope_id" _) with (Some (EnvelopeId_to_json (ea_envelope_id a))).
    cbn [ok_or rbind]. rewrite EnvelopeId_json_roundtrip. by destruct a.
  - intros p H. rewrite from_str_to_string by by apply json_ok_pull. by apply PullResponse_json_roundtrip.
  - intros a. rewrite from_str_to_string by done. apply AckAccepted_json_roundtrip.
  - intros [[q] id at_ms]. cbn [dr_queue_id queue_bytes dr_pulled_at]. intros Hq Ht.
    rewrite from_str_to_string.
    + cbn [rbind]. unfold DeliveryReceipt_from_json, field. cbn [DeliveryReceipt_to_json dr_envelope_id dr_pulled_at dr_queue_id].
      change (get "envelope_id" _) with (Some (EnvelopeId_to_json id)).
      change (get "queue_id" _) with (Some (JStr (chars (QueueId_to_string {| queue_bytes := q |})))).
      change (get "pulled_at" _) with (Some (JStr (dt_fmt at_ms))).
      cbn [ok_or rbind QueueId_from_json de_string as_str].
      rewrite to_string_chars by apply queue_text_ascii.
      unfold QueueId_from_str, QueueId_to_string. rewrite hex_decode_encode. cbn [map_err rbind queue_bytes].
      unfold QueueId_from_slice. rewrite Hq, Nat.eqb_refl. cbn [map_err rbind].
      rewrite EnvelopeId_json_roundtrip. cbn [rbind de_time de_string as_str ok_or].
      by rewrite dt_parse_fmt.
    + apply json_ok_obj; [done..|]. repeat constructor; cbn [snd dr_envelope_id dr_pulled_at];
        [apply json_ok_id|by apply json_ok_time|]. apply ascii_chars_b, queue_text_ascii.
Qed.
End DtoLaws.
