(* ===== verification/ModelFormats.v ===== *)
(** * An instance of the format libraries

    A self-delimiting notation for JSON values and decimal milliseconds for
    time stamps.  It shows that the laws of [Json] can hold together, and lets
    witnesses compute. *)

From S2P Require Import Prelude.
From S2P Require Import Text.
From S2P Require Import Entities.
From S2P Require Import Mailbox.
From S2P Require Import Json.
#[local] Open Scope Z_scope.

(** ** Notation *)

(** Characters behind a mark each, closed by ['e']. *)
Fixpoint put_text (t : text) : text :=
  match t with [] => [101] | c :: t => 120 :: c :: put_text t end.

Fixpoint take_text (t : text) : option (text * text) :=
  match t with
  | m :: t =>
      if m =? 101 then Some ([], t)
      else match t with
           | c :: t => match take_text t with Some (x, r) => Some (c :: x, r) | None => None end
           | [] => None
           end
  | [] => None
  end.

Definition put_int (n : Z) : text := (if n <? 0 then [45] else [43]) ++ put_text (decimal (Z.abs n)).

Definition int_of (t : text) : option Z :=
  match t with
  | s :: t => match parse_uint (2 ^ 64) t with
              | Some n => Some (if s =? 45 then - n else n)
              | None => None
              end
  | [] => None
  end.

Definition take_int (t : text) : option (Z * text) :=
  match t with
  | s :: t => match take_text t with
              | Some (x, r) => match int_of (s :: x) with Some n => Some (n, r) | None => None end
              | None => None
              end
  | [] => None
  end.

Fixpoint put (v : Json) : text :=
  match v with
  | JNull => [110]
  | JBool b => [if b then 116 else 102]
  | JNum n => 105 :: put_int n
  | JStr t => 115 :: put_text t
  | JArr l => 108 :: (fix go l := match l with [] => [101] | v :: l => put v ++ go l end) l
  | JObj m =>
      100 :: (fix go m := match m with [] => [101] | (k, v) :: m => 107 :: put_text k ++ put v ++ go m end) m
  end.

Fixpoint take_value (n : nat) (t : text) : option (Json * text) :=
  match n with
  | O => None
  | S n =>
      match t with
      | [] => None
      | c :: t =>
          if c =? 110 then Some (JNull, t)
          else if c =? 116 then Some (JBool true, t)
          else if c =? 102 then Some (JBool false, t)
          else if c =? 105 then match take_int t with Some (z, r) => Some (JNum z, r) | None => None end
          else if c =? 115 then match take_text t with Some (x, r) => Some (JStr x, r) | None => None end
          else if c =? 108 then match take_items n t with Some (l, r) => Some (JArr l, r) | None => None end
          else if c =? 100 then match take_members n t with Some (m, r) => Some (JObj m, r) | None => None end
          else None
      end
  end
with take_items (n : nat) (t : text) : option (list Json * text) :=
  match n with
  | O => None
  | S n =>
      match t with
      | [] => None
      | c :: t' =>
          if c =? 101 then Some ([], t')
          else match take_value n t with
               | Some (v, r) => match take_items n r with Some (l, r) => Some (v :: l, r) | None => None end
               | None => None
               end
      end
  end
with take_members (n : nat) (t : text) : option (list (text * Json) * text) :=
  match n with
  | O => None
  | S n =>
      match t with
      | [] => None
      | c :: t =>
          if c =? 101 then Some ([], t)
          else match take_text t with
               | Some (k, r) =>
                   match take_value n r with
                   | Some (v, r) =>
                       match take_members n r with Some (m, r) => Some ((k, v) :: m, r) | None => None end
                   | None => None
                   end
               | None => None
               end
      end
  end.

Definition read_value (t : text) : Result string Json :=
  match take_value (length t) t with
  | Some (v, []) => Ok v
  | _ => Err "expected value"
  end.

Definition unhex (t : text) : Result string bytes := hex_dec (to_string t).

#[export] Instance model_formats : Formats := {|
  json_to_string := put;
  json_from_str := read_value;
  json_from_slice b := read_value (utf8_lossy b);
  b64_encode b := chars (hex_enc b);
  b64_decode := unhex;
  dt_fmt n := (if n <? 0 then [45] else [43]) ++ decimal (Z.abs n);
  dt_parse t := ok_or (int_of t) "premature end of input";
|}.

(** ** Its laws *)

(** Induction over values through the lists in them. *)
Section Json_ind.
Context (P : Json → Prop).
Hypothesis (Hnull : P JNull) (Hbool : ∀ b, P (JBool b)) (Hnum : ∀ n, P (JNum n)) (Hstr : ∀ t, P (JStr t))
  (Harr : ∀ l, Forall P l → P (JArr l)) (Hobj : ∀ m, Forall (λ kv, P kv.2) m → P (JObj m)).

Fixpoint Json_nested_ind (v : Json) : P v :=
  match v with
  | JNull => Hnull | JBool b => Hbool b | JNum n => Hnum n | JStr t => Hstr t
  | JArr l => Harr l ((fix go l : Forall P l := match l with
      | [] => @List.Forall_nil _ P | v :: l => @List.Forall_cons _ P v l (Json_nested_ind v) (go l) end) l)
  | JObj m => Hobj m ((fix go m : Forall (λ kv, P kv.2) m := match m with
      | [] => @List.Forall_nil _ (λ kv, P kv.2)
      | (k, v) :: m => @List.Forall_cons _ (λ kv, P kv.2) (k, v) m (Json_nested_ind v) (go m) end) m)
  end.
End Json_ind.

Definition put_items := fix go (l : list Json) : text :=
  match l with [] => [101] | v :: l => put v ++ go l end.
Definition put_members := fix go (m : list (text * Json)) : text :=
  match m with [] => [101] | (k, v) :: m => 107 :: put_text k ++ put v ++ go m end.

Lemma take_put_text t rest : take_text (put_text t ++ rest) = Some (t, rest).
Proof. induction t as [|c t IH]; [done|]. cbn. by rewrite IH. Qed.

Lemma int_of_put n : - 2 ^ 64 <= n <= 2 ^ 64 →
  int_of ((if n <? 0 then [45] else [43]) ++ decimal (Z.abs n)) = Some n.
Proof.
  intros Hn. assert (∀ s, int_of (s :: decimal (Z.abs n)) = Some (if s =? 45 then - Z.abs n else Z.abs n)) as H.
  { intros s. cbn [int_of]. by rewrite parse_decimal by lia. }
  destruct (Z.ltb_spec n 0); cbn [app]; rewrite H; cbn; f_equal; lia.
Qed.

Lemma take_put_int n rest : - 2 ^ 64 <= n <= 2 ^ 64 → take_int (put_int n ++ rest) = Some (n, rest).
Proof.
  intros Hn. unfold put_int. pose proof (int_of_put n Hn) as H.
  destruct (n <? 0); cbn [app take_int] in *; by rewrite take_put_text, H.
Qed.

Lemma put_head v : ∃ c r, put v = c :: r ∧ c ≠ 101 ∧ is_whitespace c = false.
Proof.
  destruct v as [|b| | | |]; cbn [put]; try (eexists _, _; split_and!; [reflexivity|done|done]).
  destruct b; eexists _, _; split_and!; done.
Qed.

Lemma take_items_eq l n rest :
  Forall (λ v, ∀ n rest, json_ok v = true → (length (put v) <= n)%nat →
            take_value n (put v ++ rest) = Some (v, rest)) l →
  forallb json_ok l = true → (length (put_items l) <= n)%nat →
  take_items n (put_items l ++ rest) = Some (l, rest).
Proof.
  intros H. revert n. induction H as [|v l Hv _ IH]; intros n Hok Hn.
  - destruct n as [|n]; [cbn in Hn; lia|]. done.
  - cbn [forallb] in Hok. apply andb_true_iff in Hok as [Hok1 Hok2].
    change (put_items (v :: l)) with (put v ++ put_items l) in *. rewrite length_app in Hn.
    destruct (put_head v) as (c & r & E & Hc & _).
    destruct n as [|n]; [rewrite E in Hn; cbn in Hn; lia|]. cbn [take_items].
    rewrite <-app_assoc. destruct (put v ++ put_items l ++ rest) as [|a w] eqn:Ew; [by rewrite E in Ew|].
    assert (a = c) as -> by (rewrite E in Ew; by injection Ew).
    rewrite (proj2 (Z.eqb_neq _ _) Hc). rewrite <-Ew.
    assert (1 <= length (put_items l))%nat as Hl.
    { destruct l as [|v' l]; [done|]. change (put_items (v' :: l)) with (put v' ++ put_items l).
      destruct (put_head v') as (c' & r' & -> & _). cbn. lia. }
    rewrite Hv by (done || lia). rewrite IH; [done|done|]. rewrite E in Hn. cbn in Hn. lia.
Qed.

Lemma take_members_eq m n rest :
  Forall (λ kv, ∀ n rest, json_ok kv.2 = true → (length (put kv.2) <= n)%nat →
            take_value n (put kv.2 ++ rest) = Some (kv.2, rest)) m →
  forallb (λ kv, json_ok kv.2) m = true → (length (put_members m) <= n)%nat →
  take_members n (put_members m ++ rest) = Some (m, rest).
Proof.
  intros H. revert n. induction H as [|[k v] m Hv _ IH]; intros n Hok Hn.
  - destruct n as [|n]; [cbn in Hn; lia|]. done.
  - cbn [forallb snd] in Hok, Hv. apply andb_true_iff in Hok as [Hok1 Hok2].
    change (put_members ((k, v) :: m)) with (107 :: put_text k ++ put v ++ put_members m) in *.
    cbn [length] in Hn. rewrite !length_app in Hn.
    destruct n as [|n]; [lia|]. cbn [app take_members Z.eqb Pos.eqb].
    rewrite <-!app_assoc, take_put_text, Hv by (done || lia).
    rewrite IH; [done|done|lia].
Qed.

Lemma take_put v n rest :
  json_ok v = true → (length (put v) <= n)%nat → take_value n (put v ++ rest) = Some (v, rest).
Proof.
  revert n rest. induction v as [|b|z|t|l Hl|m Hm] using Json_nested_ind; intros n rest Hok Hn;
    (destruct n as [|n]; [cbn in Hn; lia|]).
  - done.
  - by destruct b.
  - cbn [put app take_value Z.eqb Pos.eqb]. rewrite take_put_int; [done|].
    cbn [json_ok] in Hok. unfold i64_min, u64_max in Hok. lia.
  - cbn [put app take_value Z.eqb Pos.eqb]. by rewrite take_put_text.
  - change (put (JArr l)) with (108 :: put_items l) in *. cbn [app take_value Z.eqb Pos.eqb].
    cbn [json_ok length] in *. by rewrite take_items_eq by (done || lia).
  - change (put (JObj m)) with (100 :: put_members m) in *. cbn [app take_value Z.eqb Pos.eqb].
    cbn [length] in Hn. rewrite take_members_eq; [done|done| |lia].
    cbn [json_ok] in Hok. apply andb_true_iff in Hok as [_ Hok].
    rewrite forallb_forall in Hok. apply forallb_forall. intros kv Hkv.
    specialize (Hok kv Hkv). by apply andb_true_iff in Hok as [_ ?].
Qed.

(** Every printed value ends with a letter. *)
Lemma put_last v : ∃ u d, put v = u ++ [d] ∧ is_whitespace d = false.
Proof.
  assert (∀ t, ∃ u, put_text t = u ++ [101]) as Ht.
  { induction t as [|c t [u IH]]; [by exists []|]. exists (120 :: c :: u). cbn. by rewrite IH. }
  assert (∀ l, ∃ u, put_items l = u ++ [101]) as Hi.
  { induction l as [|w l [u IH]]; [by exists []|]. exists (put w ++ u).
    change (put_items (w :: l)) with (put w ++ put_items l). by rewrite IH, app_assoc. }
  assert (∀ m, ∃ u, put_members m = u ++ [101]) as Hm.
  { induction m as [|[k w] m [u IH]]; [by exists []|]. exists (107 :: put_text k ++ put w ++ u).
    change (put_members ((k, w) :: m)) with (107 :: put_text k ++ put w ++ put_members m).
    rewrite IH. cbn. by rewrite <-!app_assoc. }
  destruct v as [|b|z|t|l|m].
  - by exists [], 110.
  - exists [], (if b then 116 else 102). by destruct b.
  - destruct (Ht (decimal (Z.abs z))) as [u E]. exists (105 :: (if z <? 0 then [45] else [43]) ++ u), 101.
    cbn [put]. unfold put_int. rewrite E. cbn. by rewrite <-app_assoc.
  - destruct (Ht t) as [u E]. exists (115 :: u), 101. cbn [put]. by rewrite E.
  - destruct (Hi l) as [u E]. exists (108 :: u), 101. change (put (JArr l)) with (108 :: put_items l). by rewrite E.
  - destruct (Hm m) as [u E]. exists (100 :: u), 101. change (put (JObj m)) with (100 :: put_members m). by rewrite E.
Qed.

(** Printed characters are characters. *)
Lemma put_text_char t : Forall is_char t → Forall is_char (put_text t).
Proof.
  induction 1 as [|c t Hc _ IH]; cbn; [repeat constructor; lia|].
  constructor; [unfold is_char; lia|]. by constructor.
Qed.

Lemma decimal_char n : 0 <= n → Forall is_char (decimal n).
Proof. intros H. eapply Forall_impl; [by apply decimal_digit|]. cbn. auto with buh. Qed.

Lemma put_char v : json_ok v = true → Forall is_char (put v).
Proof.
  assert (∀ c, 0 <= c < 256 → is_char c) as Hsmall by (unfold is_char; lia).
  induction v as [|b|z|t|l Hl|m Hm] using Json_nested_ind; intros Hok.
  - constructor; [apply Hsmall; lia|done].
  - constructor; [|done]. apply Hsmall. destruct b; lia.
  - cbn [put]. constructor; [apply Hsmall; lia|]. unfold put_int. apply Forall_app. split.
    + destruct (z <? 0); (constructor; [apply Hsmall; lia|done]).
    + apply put_text_char, decimal_char. lia.
  - cbn [put json_ok] in *. constructor; [apply Hsmall; lia|]. by apply put_text_char, is_char_b_spec.
  - change (put (JArr l)) with (108 :: put_items l). constructor; [apply Hsmall; lia|].
    cbn [json_ok] in Hok. induction Hl as [|v l Hv _ IH]; [constructor; [apply Hsmall; lia|done]|].
    cbn [forallb] in Hok. apply andb_true_iff in Hok as [H1 H2].
    change (put_items (v :: l)) with (put v ++ put_items l). apply Forall_app. auto.
  - change (put (JObj m)) with (100 :: put_members m). constructor; [apply Hsmall; lia|].
    cbn [json_ok] in Hok. apply andb_true_iff in Hok as [_ Hok].
    induction Hm as [|[k v] m Hv _ IH]; [constructor; [apply Hsmall; lia|done]|].
    cbn [forallb fst snd] in Hok. apply andb_true_iff in Hok as [[H0 H1]%andb_true_iff H2].
    change (put_members ((k, v) :: m)) with (107 :: put_text k ++ put v ++ put_members m).
    constructor; [apply Hsmall; lia|]. rewrite !Forall_app. split_and!; [|by apply Hv|by apply IH].
    by apply put_text_char, is_char_b_spec.
Qed.

Lemma hex_enc_chars b : Forall (λ c, is_id_char c = true) (chars (hex_enc b)).
Proof.
  induction b as [|x b IH]; [constructor|]. change (chars (hex_enc (x :: b)))
    with (Z.of_N (Ascii.N_of_ascii (hex_digit (u8 x / 16))) ::
          Z.of_N (Ascii.N_of_ascii (hex_digit (u8 x mod 16))) :: chars (hex_enc b)).
  repeat constructor; [| |done]; by destruct x.
Qed.

Lemma range_64 t : dt_in_range t = true → - 2 ^ 64 <= t <= 2 ^ 64.
Proof. cbn [dt_in_range model_externals]. lia. Qed.

#[export] Instance model_format_laws : FormatLaws.
Proof.
  split; cbn [json_to_string json_from_str json_from_slice b64_encode b64_decode dt_fmt dt_parse model_formats].
  - intros v Hv. unfold read_value. rewrite <-(app_nil_r (put v)) at 2. by rewrite take_put.
  - intros t Ht. by rewrite utf8_lossy_encode.
  - apply put_char.
  - intros v. destruct (put_head v) as (c & r & E & _ & Hc), (put_last v) as (u & d & E' & Hd).
    rewrite E in *. by eapply trim_id.
  - intros b. unfold unhex. rewrite to_string_chars; [apply hex_dec_enc|].
    eapply Forall_impl; [apply hex_enc_chars|]. apply id_char_ascii.
  - intros b. eapply Forall_impl; [apply hex_enc_chars|]. apply id_char_ascii.
  - intros t Ht. rewrite int_of_put by by apply range_64. done.
  - intros t Ht. apply Forall_app. split; [destruct (t <? 0); repeat constructor; unfold is_ascii; lia|].
    eapply Forall_impl; [apply decimal_digit; lia|]. cbn. auto with buh.
Qed.

#[export] Instance model_id_text_laws : IdTextLaws.
Proof.
  split; cbn [uuid_fmt hex_encode model_externals].
  - intros u. split; [|done]. unfold uuid_enc.
    change (chars (String _ (hex_enc u))) with (48 :: chars (hex_enc u)).
    constructor; [done|apply hex_enc_chars].
  - apply hex_enc_chars.
Qed.

Lemma bodies_roundtrip_witness :
  let p := {| pe_payload := [Byte.x00; Byte.xff]; pe_ttl_seconds := -1 |} in
  rbind (json_from_str (json_to_string (PushEnvelope_to_json p))) PushEnvelope_from_json = Ok p.
Proof. apply (proj1 bodies_roundtrip). split; vm_compute; discriminate. Defined.
