(* ===== verification/MailboxSpec.v ===== *)
(** * The mailbox as a set of queues

    The abstract mailbox is a list of items in the order they were pushed;
    [sim] relates it to the tables of [Mailbox], and every request answers the
    same on both sides.  Further theorems: isolation of queues, failures of the
    datastore, long polling. *)

From S2P Require Import Prelude.
From S2P Require Import Entities.
From S2P Require Import Mailbox.

Lemma Forall2_filter {A B} (R : A → B → Prop) (P : A → Prop) (Q : B → Prop)
    `{∀ x, Decision (P x)} `{∀ y, Decision (Q y)} (l : list A) (k : list B) :
  (∀ x y, R x y → P x ↔ Q y) → Forall2 R l k → Forall2 R (filter P l) (filter Q k).
Proof.
  intros HPQ. induction 1 as [|x y l k Hxy _ IH]; [done|].
  rewrite !filter_cons. specialize (HPQ x y Hxy).
  destruct (decide (P x)), (decide (Q y)); try tauto. by constructor.
Qed.

Lemma filter_all {A} (P : A → Prop) `{∀ x, Decision (P x)} (l : list A) : Forall P l → filter P l = l.
Proof. induction 1 as [|x l Hx _ IH]; [done|]. by rewrite filter_cons_True, IH. Qed.

Lemma filter_none {A} (P : A → Prop) `{∀ x, Decision (P x)} (l : list A) :
  Forall (λ x, ¬ P x) l → filter P l = [].
Proof. induction 1 as [|x l Hx _ IH]; [done|]. by rewrite filter_cons_False. Qed.

Lemma filter_fmap_other {A} (P Q : A → Prop) (g : A → A) `{∀ x, Decision (P x)} `{∀ x, Decision (Q x)} (l : list A) :
  (∀ x, Q x → ¬ P (g x)) →
  filter P ((λ x, if decide (Q x) then g x else x) <$> l) = filter (λ x, ¬ Q x) (filter P l).
Proof.
  intros HQ. induction l as [|x l IH]; [done|]. rewrite fmap_cons, !filter_cons.
  destruct (decide (Q x)) as [Hq|Hq].
  - rewrite decide_False by auto. destruct (decide (P x)); [|done].
    rewrite filter_cons_False by tauto. done.
  - destruct (decide (P x)); [|done]. rewrite filter_cons_True by done. by rewrite IH.
Qed.

(** ** Order of the table *)

Definition row_lt (r s : EnvRow) : Prop := er_received r <= er_received s ∧ er_id r < er_id s.

Lemma StronglySorted_filter {A} (R : A → A → Prop) (P : A → Prop) `{∀ x, Decision (P x)} (l : list A) :
  StronglySorted R l → StronglySorted R (filter P l).
Proof.
  induction 1 as [|x l Hl IH Hx]; [constructor|]. rewrite filter_cons.
  destruct (decide (P x)); [|done]. constructor; [done|].
  rewrite Forall_forall in *. intros y [_ Hy]%list_elem_of_filter. auto.
Qed.

#[export] Instance row_le_total : Total row_le.
Proof. intros r s. unfold row_le. lia. Qed.
#[export] Instance row_le_trans : Transitive row_le.
Proof. intros r s t. unfold row_le. lia. Qed.

(** A table in insertion order is already in the order [SELECT] asks for. *)
Lemma merge_sort_in_order l : StronglySorted row_lt l → merge_sort row_le l = l.
Proof.
  intros Hs. apply (StronglySorted_unique_strong row_le).
  - intros r s Hr Hs' H1 H2. rewrite merge_sort_Permutation in Hr.
    assert (er_id r = er_id s) as Hid by (unfold row_le in *; lia). clear H1 H2.
    induction Hs as [|x l _ IH Hx]; [set_solver|]. rewrite Forall_forall in Hx.
    apply elem_of_cons in Hr as [->|Hr], Hs' as [->|Hs']; [done| | |by apply IH].
    + specialize (Hx _ Hs'). unfold row_lt in Hx. lia.
    + specialize (Hx _ Hr). unfold row_lt in Hx. lia.
  - apply StronglySorted_merge_sort; apply _.
  - clear -Hs. induction Hs as [|x l _ IH Hx]; constructor; [done|].
    eapply Forall_impl; [exact Hx|]. unfold row_lt, row_le. intros; lia.
  - by rewrite merge_sort_Permutation.
Qed.

Lemma max_id_bound rows r : r ∈ rows → er_id r <= max_id rows.
Proof.
  induction rows as [|x rows IH]; [by intros ?%not_elem_of_nil|].
  cbn [max_id foldr]. fold (max_id rows). intros [->|H]%elem_of_cons; [lia|]. specialize (IH H). lia.
Qed.

(** ** The abstract mailbox *)

Section Refinement.
Context `{EX : Externals}.

Record Item := { it_queue : bytes; it_env : StoredEnvelope }.

Definition q_push (queue : bytes) (env : StoredEnvelope) (m : list Item) : list Item :=
  m ++ [{| it_queue := queue; it_env := env |}].

Definition q_pull (queue : bytes) (now limit : Z) (m : list Item) : list StoredEnvelope :=
  sql_limit limit
    (it_env <$> filter (λ i, it_queue i = queue ∧ now < se_expires_at (it_env i)) m).

Definition is_item (queue : bytes) (id : EnvelopeId) (i : Item) : Prop :=
  it_queue i = queue ∧ se_envelope_id (it_env i) = id.

#[global] Instance is_item_dec queue id i : Decision (is_item queue id i).
Proof. unfold is_item. apply _. Defined.

Definition q_ack (queue : bytes) (id : EnvelopeId) (m : list Item) : bool * list Item :=
  (bool_decide (Exists (is_item queue id) m), filter (λ i, ¬ is_item queue id i) m).

Definition q_sweep (now : Z) (m : list Item) : list Item :=
  filter (λ i, ¬ se_expires_at (it_env i) <= now) m.

(** ** The simulation *)

Definition undelivered (r : EnvRow) : Prop := er_delivered r = None.

#[global] Instance undelivered_dec r : Decision (undelivered r).
Proof. unfold undelivered. apply _. Defined.

Definition row_item (r : EnvRow) (i : Item) : Prop :=
  er_queue r = it_queue i ∧ er_envelope r = uuid_fmt (se_envelope_id (it_env i)) ∧
  er_payload r = se_payload (it_env i) ∧ er_received r = se_received_at (it_env i) ∧
  er_expires r = se_expires_at (it_env i) ∧
  dt_in_range (er_received r) = true ∧ dt_in_range (er_expires r) = true.

(** At clock [t], the tables [d] hold the queues [m]. *)
Record sim (t : Z) (d : Db) (m : list Item) : Prop := {
  sim_order : StronglySorted row_lt (envelopes d);
  sim_clock : Forall (λ r, er_received r <= t) (envelopes d);
  sim_items : Forall2 row_item (filter undelivered (envelopes d)) m;
}.

Context `{EL : !ExternalLaws}.

Lemma uuid_fmt_inj u v : uuid_fmt u = uuid_fmt v → u = v.
Proof.
  intros H. apply (f_equal uuid_parse) in H. rewrite !uuid_parse_fmt in H. by injection H.
Qed.

Lemma row_to_envelope_item r i : row_item r i → row_to_envelope r = Ok (it_env i).
Proof.
  intros (_ & He & Hp & Hr & Hx & Hd1 & Hd2). unfold row_to_envelope, ms_to_dt.
  rewrite He, uuid_parse_fmt. cbn [map_err rbind]. rewrite Hd1, Hd2. cbn [rbind].
  rewrite Hp, Hr, Hx. by destruct (it_env i).
Qed.

Lemma collect_rows_items rows items i out :
  Forall2 row_item rows items →
  collect_rows (λ _, None) i rows out = Ok (out ++ (it_env <$> items)).
Proof.
  intros H. revert i out. induction H as [|r it rows items Hri _ IH]; intros i out; cbn [collect_rows].
  - by rewrite app_nil_r.
  - rewrite (row_to_envelope_item r it Hri). cbn [rbind]. rewrite IH, fmap_cons, <-app_assoc. done.
Qed.

Lemma sql_limit_fmap {A B} (f : A → B) limit (l : list A) : f <$> sql_limit limit l = sql_limit limit (f <$> l).
Proof. unfold sql_limit. destruct (limit <? 0); [done|]. by rewrite fmap_take. Qed.

Lemma Forall2_sql_limit {A B} (R : A → B → Prop) limit l k :
  Forall2 R l k → Forall2 R (sql_limit limit l) (sql_limit limit k).
Proof. intros H. unfold sql_limit. destruct (limit <? 0); [done|]. by apply Forall2_take. Qed.

Lemma filter_live queue now (rows : list EnvRow) :
  filter (live queue now) rows
  = filter (λ r, er_queue r = queue ∧ now < er_expires r) (filter undelivered rows).
Proof.
  rewrite list_filter_filter. apply list_filter_iff. unfold live, undelivered. intros r. tauto.
Qed.

Lemma pull_sim t s m queue now limit :
  sim t (db s) m →
  repo_pull (λ _, None) now queue limit s = (Ok (q_pull (queue_bytes queue) now limit m), s).
Proof.
  intros [Ho Hc Hi]. unfold repo_pull, st_bind, db_call, connect, select_live, st_lift.
  cbn [map_err]. unfold with_db. cbn [db waiters woken].
  rewrite merge_sort_in_order by (by apply StronglySorted_filter).
  rewrite filter_live.
  rewrite (collect_rows_items _ (sql_limit limit
    (filter (λ i, it_queue i = queue_bytes queue ∧ now < se_expires_at (it_env i)) m))).
  - cbn [app]. rewrite sql_limit_fmap. by destruct s as [[]].
  - apply Forall2_sql_limit. eapply Forall2_filter; [|exact Hi].
    intros r i (Hq & _ & _ & _ & Hx & _). by rewrite Hq, Hx.
Qed.

Definition stored (id : EnvelopeId) (env : NewEnvelope) (now : Z) : StoredEnvelope :=
  {| se_envelope_id := id; se_payload := ne_payload env; se_received_at := now;
     se_expires_at := sat64 (now + sat64 (ne_ttl_seconds env * 1000)) |}.

(** The id is new in the queue and both times can be represented. *)
Definition push_ok (d : Db) (queue : QueueId) (id : EnvelopeId) (env : NewEnvelope) (now : Z) : Prop :=
  Forall (λ r, ¬ (er_queue r = queue_bytes queue ∧ er_envelope r = uuid_fmt id)) (envelopes d) ∧
  dt_in_range now = true ∧ dt_in_range (se_expires_at (stored id env now)) = true.

Lemma push_sim t s m queue id env now :
  sim t (db s) m → t <= now → push_ok (db s) queue id env now →
  ∃ s', repo_push (λ _, None) id now queue env s = (Ok id, s') ∧
    sim now (db s') (q_push (queue_bytes queue) (stored id env now) m).
Proof.
  intros [Ho Hc Hi] Ht (Hu & Hd1 & Hd2).
  unfold repo_push, st_bind, db_call, connect, insert_envelope, notify_waiters, st_ret.
  cbn [map_err]. unfold with_db. cbn [db waiters woken].
  destruct (existsb _ _) eqn:Hex; cycle 1; [eexists; split; [done|]|].
  - cbn [db envelopes receipts]. split; cbn [envelopes].
    + apply StronglySorted_app_2; [|done|repeat constructor].
      intros r r' Hr ->%list_elem_of_singleton. unfold row_lt. cbn.
      rewrite Forall_forall in Hc. specialize (Hc r Hr). pose proof (max_id_bound _ _ Hr). lia.
    + apply Forall_app. split; [|repeat constructor; cbn; lia].
      eapply Forall_impl; [exact Hc|]. cbn. intros. lia.
    + rewrite filter_app. apply Forall2_app; [done|]. rewrite filter_cons_True by done.
      constructor; [|constructor]. by repeat split.
  - apply existsb_exists in Hex as (r & Hr & H%bool_decide_eq_true).
    rewrite Forall_forall in Hu. destruct (Hu r); [|done]. by apply list_elem_of_In.
Qed.
Lemma StronglySorted_fmap_pres {A} (R : A → A → Prop) (g : A → A) l :
  (∀ x y, R x y → R (g x) (g y)) → StronglySorted R l → StronglySorted R (g <$> l).
Proof.
  intros Hg. induction 1 as [|x l _ IH Hx]; [constructor|]. rewrite fmap_cons.
  constructor; [done|]. apply Forall_fmap. eapply Forall_impl; [exact Hx|]. auto.
Qed.

Lemma ack_matches_item queue id r i :
  row_item r i → undelivered r → (ack_matches queue (uuid_fmt id) r ↔ is_item queue id i).
Proof.
  intros (Hq & He & _) Hu. unfold ack_matches, is_item. rewrite Hq, He.
  split; [|naive_solver]. intros (-> & H & _). split; [done|]. by apply uuid_fmt_inj.
Qed.

Lemma Forall2_undelivered rows m :
  Forall2 row_item (filter undelivered rows) m →
  Forall2 (λ r i, row_item r i ∧ undelivered r) (filter undelivered rows) m.
Proof.
  intros H. apply Forall2_same_length_lookup in H as [Hl H].
  apply Forall2_same_length_lookup. split; [done|]. intros k r i Hr Hi. split; [by eapply H|].
  apply list_elem_of_lookup_2, list_elem_of_filter in Hr. tauto.
Qed.

Lemma Forall2_Exists {A B} (R : A → B → Prop) (P : A → Prop) (Q : B → Prop) l k :
  (∀ x y, R x y → P x ↔ Q y) → Forall2 R l k → Exists P l ↔ Exists Q k.
Proof.
  intros H. induction 1 as [|x y l k Hxy _ IH]; [by rewrite !Exists_nil|].
  by rewrite !Exists_cons, IH, (H x y Hxy).
Qed.

Lemma affected_count queue envelope rows :
  (blen (filter (ack_matches queue envelope) rows) =? 0)
  = negb (bool_decide (Exists (ack_matches queue envelope) (filter undelivered rows))).
Proof.
  case_bool_decide as H; cbn.
  - apply Z.eqb_neq. apply Exists_exists in H as (r & [_ Hr]%list_elem_of_filter & Hm).
    assert (r ∈ filter (ack_matches queue envelope) rows) as Hin by by apply list_elem_of_filter.
    unfold blen. destruct (filter _ _); [by apply not_elem_of_nil in Hin|]. cbn. lia.
  - apply Z.eqb_eq. destruct (filter (ack_matches queue envelope) rows) as [|r l] eqn:E; [done|].
    destruct H. assert (r ∈ filter (ack_matches queue envelope) rows) as Hr by (rewrite E; set_solver).
    apply list_elem_of_filter in Hr as [Hm Hr]. apply Exists_exists. exists r. split; [|done].
    apply list_elem_of_filter. split; [|done]. by destruct Hm as (_ & _ & ?).
Qed.

Lemma ack_sim t s m queue id now :
  sim t (db s) m →
  ∃ s', repo_ack (λ _, None) queue id now s = (Ok (q_ack (queue_bytes queue) id m).1, s') ∧
    sim t (db s') (q_ack (queue_bytes queue) id m).2.
Proof.
  intros [Ho Hc Hi]. apply Forall2_undelivered in Hi.
  set (upd := λ r, if decide (ack_matches (queue_bytes queue) (uuid_fmt id) r)
                   then set_delivered now r else r).
  assert (Forall2 row_item (filter undelivered (upd <$> envelopes (db s)))
            (filter (λ i, ¬ is_item (queue_bytes queue) id i) m)) as Hi'.
  { unfold upd. rewrite filter_fmap_other by (by intros r _ [=]).
    eapply Forall2_impl; [eapply Forall2_filter; [|exact Hi]|by intros ? ? [? _]].
    intros r i [Hri Hu]. by rewrite (ack_matches_item _ id _ _ Hri Hu). }
  assert (sim t {| envelopes := upd <$> envelopes (db s); receipts := receipts (db s) |}
            (filter (λ i, ¬ is_item (queue_bytes queue) id i) m)) as Hsim.
  { split; [|cbn [envelopes]|done].
    - apply StronglySorted_fmap_pres; [|done]. intros r r'. unfold row_lt, upd.
      by repeat destruct (decide _).
    - apply Forall_fmap. eapply Forall_impl; [exact Hc|]. cbn. unfold upd. intros r.
      by destruct (decide _). }
  pose proof (affected_count (queue_bytes queue) (uuid_fmt id) (envelopes (db s))) as Ha.
  assert (bool_decide (Exists (ack_matches (queue_bytes queue) (uuid_fmt id))
            (filter undelivered (envelopes (db s))))
          = bool_decide (Exists (is_item (queue_bytes queue) id) m)) as Hb.
  { apply bool_decide_ext. eapply Forall2_Exists; [|exact Hi].
    intros r i [Hri Hu]. by apply ack_matches_item. }
  unfold repo_ack, st_bind, db_call, connect, update_delivered, insert_receipt, st_ret.
  cbn [map_err]. unfold with_db. cbn [db waiters woken envelopes receipts].
  rewrite Ha, Hb. clear Ha Hb. unfold q_ack. cbn [fst snd].
  case_bool_decide; cbn [negb]; eexists; (split; [reflexivity|]); cbn [db]; [|done].
  destruct Hsim. by split.
Qed.

Lemma sweep_sim t s m now :
  sim t (db s) m →
  ∃ n s', repo_expire (λ _, None) now s = (Ok n, s') ∧ sim t (db s') (q_sweep now m) ∧
    n = blen (envelopes (db s)) - blen (envelopes (db s')).
Proof.
  intros [Ho Hc Hi]. unfold repo_expire, st_bind, db_call, connect, delete_expired.
  cbn [map_err]. unfold with_db. cbn [db waiters woken envelopes receipts].
  eexists _, _. split; [done|]. cbn [db envelopes]. split; [split; cbn [envelopes]|].
  - by apply StronglySorted_filter.
  - rewrite Forall_forall in *. intros r [_ Hr]%list_elem_of_filter. auto.
  - unfold q_sweep.
    replace (filter undelivered (filter (λ r, ¬ er_expires r <= now) (envelopes (db s))))
      with (filter (λ r, ¬ er_expires r <= now) (filter undelivered (envelopes (db s)))).
    + eapply Forall2_filter; [|exact Hi]. intros r i (_ & _ & _ & _ & Hx & _). by rewrite Hx.
    + rewrite !list_filter_filter. apply list_filter_iff. intros. tauto.
  - unfold blen. clear. induction (envelopes (db s)) as [|r rows IH]; [done|].
    rewrite !filter_cons. destruct (decide (er_expires r <= now));
      [rewrite decide_False by tauto|rewrite decide_True by tauto]; cbn [length]; lia.
Qed.
Lemma sim_mono t t' d m : t <= t' → sim t d m → sim t' d m.
Proof.
  intros Ht [? Hc ?]. split; [done| |done]. eapply Forall_impl; [exact Hc|]. cbn. intros. lia.
Qed.

(** ** Requests *)

Inductive request : Type :=
| RPush (queue : QueueId) (id : EnvelopeId) (env : NewEnvelope)
| RPull (queue : QueueId) (limit : Z)
| RAck (queue : QueueId) (id : EnvelopeId)
| RSweep.

Inductive answer : Type :=
| Pushed (id : EnvelopeId)
| Pulled (envs : list StoredEnvelope)
| Acked (found : bool)
| Swept.

Definition exec (now : Z) (req : request) : ST MailRepo CoreError answer :=
  match req with
  | RPush q id env => let! i := repo_push (λ _, None) id now q env in st_ret (Pushed i)
  | RPull q limit => let! l := repo_pull (λ _, None) now q limit in st_ret (Pulled l)
  | RAck q id => let! b := repo_ack (λ _, None) q id now in st_ret (Acked b)
  | RSweep => let! _ := repo_expire (λ _, None) now in st_ret Swept
  end.

Definition spec_exec (now : Z) (req : request) (m : list Item) : answer * list Item :=
  match req with
  | RPush q id env => (Pushed id, q_push (queue_bytes q) (stored id env now) m)
  | RPull q limit => (Pulled (q_pull (queue_bytes q) now limit m), m)
  | RAck q id => let '(b, m') := q_ack (queue_bytes q) id m in (Acked b, m')
  | RSweep => (Swept, q_sweep now m)
  end.

Definition request_ok (d : Db) (now : Z) (req : request) : Prop :=
  match req with RPush q id env => push_ok d q id env now | _ => True end.

(** C5: the datastore implements the queues.  As long as the clock does not go
    back and envelope ids are fresh, every request on tables that hold the
    queues [m] gives exactly the answer of the abstract mailbox, and leaves
    tables that hold the queues it leaves: pushes append, a pull returns the
    oldest unexpired envelopes of its queue in the order they were pushed, up
    to the limit, without removing them, an acknowledgement removes exactly
    the named envelope, a sweep removes exactly the expired ones. *)
Theorem mailbox_refines_queues t now s m req :
  sim t (db s) m → t <= now → request_ok (db s) now req →
  ∃ s', exec now req s = (Ok (spec_exec now req m).1, s') ∧ sim now (db s') (spec_exec now req m).2.
Proof.
  intros Hs Ht Hok. destruct req as [q id env|q limit|q id|]; cbn [exec spec_exec fst snd]; unfold st_bind.
  - destruct (push_sim t s m q id env now Hs Ht Hok) as (s' & -> & Hs'). by eexists.
  - rewrite (pull_sim t s m q now limit Hs). eexists. split; [done|]. by eapply sim_mono.
  - destruct (ack_sim t s m q id now Hs) as (s' & -> & Hs').
    destruct (q_ack _ _ _) as [b m']. eexists. split; [done|]. by eapply sim_mono.
  - destruct (sweep_sim t s m now Hs) as (n & s' & -> & Hs' & _). eexists. split; [done|].
    by eapply sim_mono.
Qed.

(** queues are isolated and failed writes are harmless: whatever the
    datastore answers, a push or acknowledgement on one queue leaves the rows
    of every other queue as they were; a push that fails leaves the whole
    repository as it was; a pull never changes it. *)
Theorem queues_are_isolated f id now q q' env limit s r s' :
  queue_bytes q' ≠ queue_bytes q →
  (repo_push f id now q env s = (r, s') →
   filter (λ x, er_queue x = queue_bytes q') (envelopes (db s'))
   = filter (λ x, er_queue x = queue_bytes q') (envelopes (db s)) ∧
   (is_ok r = false → s' = s)) ∧
  (∀ b, repo_ack f q id now s = (b, s') →
   filter (λ x, er_queue x = queue_bytes q') (envelopes (db s'))
   = filter (λ x, er_queue x = queue_bytes q') (envelopes (db s))) ∧
  (∀ l, repo_pull f now q limit s = (l, s') → s' = s).
Proof.
  intros Hq. split_and!.
  - unfold repo_push, st_bind, db_call, connect, insert_envelope, notify_waiters, st_ret.
    destruct (f 0%nat); [by intros [= <- <-]|]. cbn [map_err with_db db].
    destruct (f 1%nat); [by intros [= <- <-]; destruct s|].
    destruct (existsb _ _); cbn [map_err]; intros [= <- <-]; [by destruct s as [[]]|].
    cbn [with_db db envelopes]. split; [|done].
    rewrite filter_app, filter_cons_False, filter_nil, app_nil_r; [done|]. cbn. congruence.
  - intros b. unfold repo_ack, st_bind, db_call, connect, update_delivered, insert_receipt, st_ret.
    assert (∀ rows : list EnvRow, filter (λ x, er_queue x = queue_bytes q')
        ((λ r, if decide (ack_matches (queue_bytes q) (uuid_fmt id) r) then set_delivered now r else r)
           <$> rows)
      = filter (λ x, er_queue x = queue_bytes q') rows) as Hf.
    { intros rows. induction rows as [|x rows IH]; [done|]. rewrite fmap_cons, !filter_cons, IH.
      destruct (decide (ack_matches _ _ x)) as [(E & _ & _)|]; [|done].
      rewrite !decide_False; cbn; congruence. }
    destruct (f 0%nat); [by intros [= <- <-]|]. cbn [map_err with_db db].
    destruct (f 1%nat); [by intros [= <- <-]|]. cbn [map_err with_db db].
    destruct (_ =? 0); [intros [= <- <-]; apply Hf|].
    destruct (f 2%nat); intros [= <- <-]; apply Hf.
  - intros l. unfold repo_pull, st_bind, db_call, connect, select_live, st_lift.
    destruct (f 0%nat); [by intros [= <- <-]|]. cbn [map_err with_db db].
    destruct (f 1%nat); intros [= <- <-]; by destruct s as [[]].
Qed.

(** C40: an acknowledgement is not atomic.  If the datastore fails between the
    [UPDATE] and the [INSERT] of the receipt, the caller gets an error, but the
    envelope is already gone: acknowledging it again answers [false], and no
    receipt is ever recorded. *)
Theorem failed_ack_loses_receipt t s m q id now now' e :
  sim t (db s) m → Exists (is_item (queue_bytes q) id) m →
  ∃ s' s'',
    repo_ack (λ i, if (i =? 2)%nat then Some e else None) q id now s = (Err (Repo e), s') ∧
    repo_ack (λ _, None) q id now' s' = (Ok false, s'') ∧
    receipts (db s'') = receipts (db s).
Proof.
  intros Hs Hm.
  destruct (ack_sim t s m q id now Hs) as (s1 & H1 & Hs1).
  unfold q_ack in H1, Hs1. cbn [fst snd] in H1, Hs1. rewrite bool_decide_true in H1 by done.
  unfold repo_ack, st_bind, db_call, connect, update_delivered, insert_receipt, st_ret in H1 |- *.
  cbn [map_err with_db db envelopes receipts Nat.eqb] in H1 |- *.
  destruct (_ =? 0) eqn:Hn in H1; [by injection H1|]. injection H1 as <-. rewrite Hn.
  eexists _, _. split; [done|]. unfold with_db. cbn [db envelopes receipts waiters woken].
  pose proof (affected_count (queue_bytes q) (uuid_fmt id)
    ((λ r, if decide (ack_matches (queue_bytes q) (uuid_fmt id) r) then set_delivered now r else r)
       <$> envelopes (db s))) as Ha.
  rewrite bool_decide_false in Ha.
  - cbn [negb] in Ha. rewrite Ha. split; [done|]. done.
  - rewrite filter_fmap_other by (by intros r _ [=]). rewrite Exists_exists.
    intros (r & [Hr _]%list_elem_of_filter & Hx). done.
Qed.
End Refinement.

Section Policy.
Context `{EX : Externals} `{EL : !ExternalLaws}.

(** an envelope that has expired but was not yet swept is acknowledged as
    present: pulling no longer returns it, yet [ack] answers [true] and records
    a receipt. *)
Theorem expired_envelope_is_acked t s m q id now limit :
  sim t (db s) m → Exists (is_item (queue_bytes q) id) m →
  Forall (λ i, is_item (queue_bytes q) id i → se_expires_at (it_env i) <= now) m →
  (∃ l, repo_pull (λ _, None) now q limit s = (Ok l, s) ∧
        Forall (λ e, se_envelope_id e ≠ id) l) ∧
  (repo_ack (λ _, None) q id now s).1 = Ok true.
Proof.
  intros Hs Hm Hx. split.
  - rewrite (pull_sim t s m q now limit Hs). eexists. split; [done|].
    unfold q_pull. apply Forall_forall. intros e He.
    assert (e ∈ it_env <$> filter
      (λ i, it_queue i = queue_bytes q ∧ now < se_expires_at (it_env i)) m) as Hin.
    { unfold sql_limit in He. destruct (limit <? 0); [done|]. by eapply (subseteq_take _ _). }
    apply list_elem_of_fmap in Hin as (i & -> & [(Hq & Hlt) Hi]%list_elem_of_filter).
    intros Hid. rewrite Forall_forall in Hx. specialize (Hx i Hi (conj Hq Hid)). lia.
  - destruct (ack_sim t s m q id now Hs) as (s' & -> & _). cbn. by rewrite bool_decide_true.
Qed.

(** node policy on pushes.  An empty or oversized payload is refused with a
    validation error and nothing is stored; otherwise the payload is stored
    verbatim, with the requested lifetime if it lies in [1, max], the maximum
    if it is longer, and the node's default if it is not positive.  With a
    sensible configuration the lifetime is between one second and the
    maximum. *)
Theorem push_applies_policy config f id now q req s :
  let n := blen (pe_payload req) in
  let ttl := clamp_ttl (pe_ttl_seconds req) config in
  (n = 0 → push config f id now q req s = (Err (Validation (InvalidPayload "empty")), s)) ∧
  (n <> 0 → max_payload_bytes config < n →
   push config f id now q req s = (Err (Validation (InvalidPayload "exceeds size limit")), s)) ∧
  (n <> 0 → n <= max_payload_bytes config →
   push config f id now q req s
   = repo_push f id now q {| ne_payload := pe_payload req; ne_ttl_seconds := ttl |} s) ∧
  (1 <= pe_ttl_seconds req <= max_ttl_seconds config → ttl = pe_ttl_seconds req) ∧
  (max_ttl_seconds config < pe_ttl_seconds req → 1 <= pe_ttl_seconds req →
   ttl = max_ttl_seconds config) ∧
  (pe_ttl_seconds req <= 0 → ttl = default_ttl_seconds config) ∧
  (1 <= default_ttl_seconds config <= max_ttl_seconds config → 1 <= ttl <= max_ttl_seconds config).
Proof.
  cbv zeta. unfold push, clamp_ttl, st_err.
  destruct (Z.eqb_spec (blen (pe_payload req)) 0), (Z.ltb_spec (max_payload_bytes config) (blen (pe_payload req))),
    (Z.leb_spec (pe_ttl_seconds req) 0); split_and!; intros; try done; lia.
Qed.

Lemma collect_rows_length f i rows out l :
  collect_rows f i rows out = Ok l → length l = (length out + length rows)%nat.
Proof.
  revert i out. induction rows as [|r rows IH]; intros i out; cbn [collect_rows];
    (destruct (f i); [done|]).
  - intros [= <-]. cbn. lia.
  - intros H. inv_ok. apply IH in H. rewrite H, length_app. cbn. lia.
Qed.

(** a pull is bounded whatever the client asks for: it returns at most
    [max_pull_limit] envelopes, and asks the datastore for at least one.  With
    a configured limit below one the handler panics on every pull. *)
Theorem pull_is_bounded config f now q limit s :
  (1 <= max_pull_limit config →
   ∃ r s' eff, pull config f now q limit s = Some (r, s') ∧
     1 <= eff <= max_pull_limit config ∧ repo_pull f now q eff s = (r, s') ∧
     (1 <= limit <= max_pull_limit config → eff = limit) ∧
     ∀ l, r = Ok l → blen l <= max_pull_limit config) ∧
  (max_pull_limit config < 1 → pull config f now q limit s = None).
Proof.
  unfold pull, clamp. split; intros H; [|by rewrite (proj2 (Z.ltb_lt _ _) H)].
  rewrite (proj2 (Z.ltb_ge _ _) H). set (eff := Z.max 1 (Z.min limit (max_pull_limit config))).
  destruct (repo_pull f now q eff s) as [r s'] eqn:E. exists r, s', eff.
  split_and!; [done|lia|lia|done|lia|]. intros l ->.
  unfold repo_pull, st_bind, db_call, connect, select_live, st_lift in E.
  destruct (f 0%nat); [done|]. cbn [map_err with_db db] in E. destruct (f 1%nat); [done|].
  cbn [map_err] in E. injection E as E _. apply collect_rows_length in E. unfold blen. rewrite E.
  unfold sql_limit. rewrite (proj2 (Z.ltb_ge _ _)) by lia. cbn [length]. rewrite length_take. lia.
Qed.
End Policy.

(** ** Witnesses *)

Module MailboxSample.
#[local] Existing Instance model_externals.
Definition q1 : QueueId := {| queue_bytes := repeat Byte.x11 32 |}.
Definition q2 : QueueId := {| queue_bytes := repeat Byte.x22 32 |}.
Definition id1 : EnvelopeId := [Byte.x01].
Definition env1 : NewEnvelope := {| ne_payload := bstr "sealed"; ne_ttl_seconds := 60 |}.
Definition empty : MailRepo :=
  {| db := {| envelopes := []; receipts := [] |}; waiters := ∅; woken := ∅ |}.
Definition one : MailRepo := (repo_push (λ _, None) id1 1000 q1 env1 empty).2.
Definition items : list Item := [{| it_queue := queue_bytes q1; it_env := stored id1 env1 1000 |}].

Lemma sim_empty : sim 0 (db empty) [].
Proof. split; constructor. Qed.

Lemma push_fine : push_ok (db empty) q1 id1 env1 1000.
Proof. repeat split; constructor. Qed.

Lemma sim_one : sim 1000 (db one) items.
Proof.
  destruct (push_sim 0 empty [] q1 id1 env1 1000 sim_empty ltac:(lia) push_fine) as (s' & H & Hs).
  unfold one. rewrite H. exact Hs.
Qed.
End MailboxSample.

Lemma mailbox_refines_queues_witness :
  ∃ s', exec 2000 (RPull MailboxSample.q1 10) MailboxSample.one
        = (Ok (Pulled [stored MailboxSample.id1 MailboxSample.env1 1000]), s').
Proof.
  destruct (mailbox_refines_queues 1000 2000 MailboxSample.one MailboxSample.items
    (RPull MailboxSample.q1 10) MailboxSample.sim_one ltac:(lia) I) as (s' & H & _).
  exists s'. exact H.
Defined.

Lemma queues_are_isolated_witness :
  filter (λ x, er_queue x = queue_bytes MailboxSample.q2) (envelopes (db MailboxSample.one))
  = filter (λ x, er_queue x = queue_bytes MailboxSample.q2) (envelopes (db MailboxSample.empty)).
Proof.
  refine (proj1 (proj1 (queues_are_isolated (λ _, None) MailboxSample.id1 1000 MailboxSample.q1
    MailboxSample.q2 MailboxSample.env1 10 MailboxSample.empty (Ok MailboxSample.id1)
    MailboxSample.one _) eq_refl)).
  discriminate.
Defined.

Lemma failed_ack_loses_receipt_witness :
  ∃ s' s'',
    repo_ack (λ i, if (i =? 2)%nat then Some "disk full" else None) MailboxSample.q1
      MailboxSample.id1 1500 MailboxSample.one = (Err (Repo "disk full"), s') ∧
    repo_ack (λ _, None) MailboxSample.q1 MailboxSample.id1 1600 s' = (Ok false, s'') ∧
    receipts (db s'') = receipts (db MailboxSample.one).
Proof.
  refine (failed_ack_loses_receipt 1000 MailboxSample.one MailboxSample.items MailboxSample.q1
    MailboxSample.id1 1500 1600 "disk full" MailboxSample.sim_one _).
  by constructor.
Defined.

Lemma expired_envelope_is_acked_witness :
  (repo_ack (λ _, None) MailboxSample.q1 MailboxSample.id1 99999 MailboxSample.one).1 = Ok true.
Proof.
  refine (proj2 (expired_envelope_is_acked 1000 MailboxSample.one MailboxSample.items MailboxSample.q1
    MailboxSample.id1 99999 10 MailboxSample.sim_one _ _)); [by constructor|].
  repeat constructor. intros _. by vm_compute.
Defined.

Lemma push_applies_policy_witness :
  1 <= clamp_ttl (-5) CoreConfig_default <= max_ttl_seconds CoreConfig_default.
Proof.
  refine (proj2 (proj2 (proj2 (proj2 (proj2 (proj2 (push_applies_policy CoreConfig_default
    (λ _, None) MailboxSample.id1 0 MailboxSample.q1
    {| pe_payload := []; pe_ttl_seconds := -5 |} MailboxSample.empty)))))) _).
  cbn. lia.
Defined.

Lemma pull_is_bounded_witness :
  ∃ r s' eff, pull CoreConfig_default (λ _, None) 2000 MailboxSample.q1 5000 MailboxSample.one
      = Some (r, s') ∧ 1 <= eff <= 100 ∧
    repo_pull (λ _, None) 2000 MailboxSample.q1 eff MailboxSample.one = (r, s').
Proof.
  destruct (proj1 (pull_is_bounded CoreConfig_default (λ _, None) 2000 MailboxSample.q1 5000
    MailboxSample.one) ltac:(cbn; lia)) as (r & s' & eff & H1 & H2 & H3 & _).
  exists r, s', eff. split; [exact H1|split; [exact H2|exact H3]].
Defined.
