(* ===== verification/Relay.v ===== *)
(** * The relay's HTTP handlers: [buh-api/src/handlers.rs]

    Push, pull with long polling, and ack.  A handler that awaits runs
    interleaved with other requests: what they do to the repository between
    two of its awaits is a function argument. *)

From S2P Require Import Prelude.
From S2P Require Import Entities.
From S2P Require Import Mailbox.
From S2P Require Import MailboxSpec.

Section Relay.
Context `{EX : Externals}.

(** [AppState], without the ports: policy and the longest wait, in seconds. *)
Record AppState := { st_config : CoreConfig; st_max_wait : Z }.

(** The [?] on an [EntityError]. *)
Definition entity_err {A} (m : Result EntityError A) : Result CoreError A := map_err Validation m.

Definition handle_push (st : AppState) (f : Faults) (id : EnvelopeId) (now : Z) (queue_hex : string)
    (body : PushEnvelope) : ST MailRepo CoreError EnvelopeId :=
  let! queue_id := st_lift (entity_err (QueueId_from_str queue_hex)) in
  push (st_config st) f id now queue_id body.

(** [Duration::from_secs(wait).min(state.max_wait)]. *)
Definition effective_wait (st : AppState) (wait : Z) : Z := Z.min wait (st_max_wait st).

(** [f1], [now1] and [f2], [now2] belong to the two pulls; [env1] is what other
    requests do between the first pull and the registration with the notifier,
    [env2 d] what they do until the wait ends, at the latest after [d]
    seconds; [w] names this poll.  [None] is a panic. *)
Definition handle_pull (st : AppState) (f1 f2 : Faults) (now1 now2 : Z) (w : nat)
    (env1 : MailRepo → MailRepo) (env2 : Z → MailRepo → MailRepo)
    (queue_hex : string) (limit wait : option Z) (s : MailRepo) :
    option (Result CoreError (list StoredEnvelope) * MailRepo) :=
  match entity_err (QueueId_from_str queue_hex) with
  | Err e => Some (Err e, s)
  | Ok queue_id =>
      let limit := default (max_pull_limit (st_config st)) limit in
      match pull (st_config st) f1 now1 queue_id limit s with
      | None => None
      | Some (Err e, s) => Some (Err e, s)
      | Some (Ok envelopes, s) =>
          match envelopes, wait with
          | [], Some wait =>
              if 0 <? wait then
                let s := wait_begin queue_id w (env1 s) in
                let s := env2 (effective_wait st wait) s in
                let '(woken, s) := wait_end queue_id w s in
                if woken then pull (st_config st) f2 now2 queue_id limit s
                else Some (Ok envelopes, s)
              else Some (Ok envelopes, s)
          | _, _ => Some (Ok envelopes, s)
          end
      end
  end.

Definition handle_ack (f : Faults) (now : Z) (queue_hex envelope_id : string) :
    ST MailRepo CoreError bool :=
  let! queue_id := st_lift (entity_err (QueueId_from_str queue_hex)) in
  let! envelope_id := st_lift (map_err (λ _, Validation (Empty "envelope_id"))
                                 (uuid_parse envelope_id)) in
  ack f now queue_id envelope_id.

Context `{EL : !ExternalLaws}.

(** A push on [q] by another client, as an environment step. *)
Definition push_step (id : EnvelopeId) (now : Z) (q : QueueId) (env : NewEnvelope) (s : MailRepo) :
    MailRepo := (repo_push (λ _, None) id now q env s).2.

Lemma QueueId_text q :
  length (queue_bytes q) = QUEUE_ID_LEN → QueueId_from_str (QueueId_to_string q) = Ok q.
Proof.
  intros Hq. unfold QueueId_from_str, QueueId_to_string. rewrite hex_decode_encode.
  cbn [map_err rbind]. unfold QueueId_from_slice. rewrite Hq, Nat.eqb_refl. by destruct q.
Qed.

Lemma pull_eq config now q limit s t m :
  1 <= limit <= max_pull_limit config → sim t (db s) m →
  pull config (λ _, None) now q limit s = Some (Ok (q_pull (queue_bytes q) now limit m), s).
Proof.
  intros Hl Hs. unfold pull, clamp. rewrite (proj2 (Z.ltb_ge _ _)) by lia.
  replace (Z.max 1 (Z.min limit (max_pull_limit config))) with limit by lia.
  by rewrite (pull_sim t s m q now limit Hs).
Qed.

Lemma push_wakes id now q env s w t m :
  sim t (db s) m → t <= now → push_ok (db s) q id env now →
  ∃ s', push_step id now q env (wait_begin q w s) = s' ∧ w ∈ woken s' ∧
    sim now (db s') (q_push (queue_bytes q) (stored id env now) m).
Proof.
  intros Hs Ht Hok. eexists. split; [done|].
  unfold push_step.
  destruct (push_sim t (wait_begin q w s) m q id env now Hs Ht Hok) as (s' & Hp & Hs').
  rewrite Hp. cbn [snd]. split; [|done].
  unfold repo_push, st_bind, db_call, connect, insert_envelope, notify_waiters, st_ret in Hp.
  cbn [map_err wait_begin with_db db waiters woken] in Hp.
  destruct (existsb _ _); cbn [map_err] in Hp; [done|]. injection Hp as <-.
  cbn [woken waiters with_db]. rewrite lookup_insert_eq. cbn. set_solver.
Qed.

Lemma q_pull_only queue now limit env m :
  Forall (λ i, it_queue i ≠ queue) m → 1 <= limit → now < se_expires_at env →
  q_pull queue now limit (q_push queue env m) = [env].
Proof.
  intros Hm Hl Hx. unfold q_pull, q_push. rewrite filter_app.
  assert (filter (λ i, it_queue i = queue ∧ now < se_expires_at (it_env i)) m = []) as ->.
  { rewrite Forall_forall in Hm. apply list_nil_subseteq.
    intros i [[Hi _] Him]%list_elem_of_filter. by destruct (Hm i). }
  rewrite filter_cons_True by done. rewrite filter_nil.
  unfold sql_limit. rewrite (proj2 (Z.ltb_ge _ _)) by lia.
  destruct (Z.to_nat limit) as [|k] eqn:Hk; [lia|]. cbn. by rewrite take_nil.
Qed.

(** a long poll sees an arrival.  If the queue is empty when the client
    polls with a positive wait, and an envelope is pushed while it waits, the
    poll returns that envelope. *)
Theorem long_poll_returns_arrival st q id env now now1 now2 w wait limit s t m :
  length (queue_bytes q) = QUEUE_ID_LEN → sim t (db s) m →
  1 <= limit <= max_pull_limit (st_config st) → 0 < wait →
  q_pull (queue_bytes q) now1 limit m = [] →
  Forall (λ i, it_queue i ≠ queue_bytes q) m →
  t <= now → push_ok (db s) q id env now → now2 < se_expires_at (stored id env now) →
  ∃ s', handle_pull st (λ _, None) (λ _, None) now1 now2 w (λ s, s) (λ _, push_step id now q env)
          (QueueId_to_string q) (Some limit) (Some wait) s
        = Some (Ok [stored id env now], s').
Proof.
  intros Hq Hs Hl Hw Hempty Hm Ht Hok Hx. unfold handle_pull. rewrite QueueId_text by done.
  cbn [entity_err map_err]. change (default _ (Some limit)) with limit.
  rewrite (pull_eq _ now1 q limit s t m Hl Hs). rewrite Hempty.
  rewrite (proj2 (Z.ltb_lt _ _) Hw).
  destruct (push_wakes id now q env s w t m Hs Ht Hok) as (s1 & -> & Hwk & Hs1).
  unfold wait_end. rewrite bool_decide_true by done.
  rewrite (pull_eq _ now2 q limit _ now (q_push (queue_bytes q) (stored id env now) m) Hl) by exact Hs1.
  rewrite q_pull_only by (done || lia). by eexists.
Qed.

(** a wake-up can be lost.  If the envelope is pushed after the poll's
    first look at the queue but before it registers with the notifier, and
    nothing else arrives, the poll waits to its end and returns nothing,
    although the envelope is there to be pulled. *)
Theorem long_poll_can_miss_arrival st q id env now now1 now2 w wait limit s t m :
  length (queue_bytes q) = QUEUE_ID_LEN → sim t (db s) m → w ∉ woken s →
  (∀ k, w ∉ default ∅ (waiters s !! k)) →
  1 <= limit <= max_pull_limit (st_config st) → 0 < wait →
  q_pull (queue_bytes q) now1 limit m = [] →
  t <= now → push_ok (db s) q id env now → now2 < se_expires_at (stored id env now) →
  ∃ s', handle_pull st (λ _, None) (λ _, None) now1 now2 w (push_step id now q env) (λ _ s, s)
          (QueueId_to_string q) (Some limit) (Some wait) s = Some (Ok [], s') ∧
    ∃ l, repo_pull (λ _, None) now2 q limit s' = (Ok l, s') ∧ l ≠ [].
Proof.
  intros Hq Hs Hwk Hwt Hl Hw Hempty Ht Hok Hx. unfold handle_pull. rewrite QueueId_text by done.
  cbn [entity_err map_err]. change (default _ (Some limit)) with limit.
  rewrite (pull_eq _ now1 q limit s t m Hl Hs). rewrite Hempty.
  rewrite (proj2 (Z.ltb_lt _ _) Hw).
  destruct (push_sim t s m q id env now Hs Ht Hok) as (s1 & Hp & Hs1).
  assert (woken s1 = woken s ∪ default ∅ (waiters s !! queue_bytes q)) as Hwk1.
  { unfold repo_push, st_bind, db_call, connect, insert_envelope, notify_waiters, st_ret in Hp.
    cbn [map_err with_db db waiters woken] in Hp.
    destruct (existsb _ _); cbn [map_err] in Hp; [done|]. by injection Hp as <-. }
  unfold push_step. rewrite Hp. cbn [snd]. unfold wait_end.
  assert (w ∉ woken (wait_begin q w s1)) as Hn.
  { cbn [wait_begin woken]. rewrite Hwk1. specialize (Hwt (queue_bytes q)). set_solver. }
  rewrite bool_decide_false by exact Hn. eexists. split; [done|].
  rewrite (pull_sim now _ (q_push (queue_bytes q) (stored id env now) m)) by exact Hs1.
  eexists. split; [done|]. unfold q_pull, q_push. rewrite filter_app, fmap_app.
  rewrite (filter_cons_True _ {| it_queue := _; it_env := _ |}) by done.
  unfold sql_limit. rewrite (proj2 (Z.ltb_ge _ _)) by lia.
  destruct (Z.to_nat limit) as [|k] eqn:Hk; [lia|].
  destruct (it_env <$> filter _ m); done.
Qed.

(** a path that is not a queue id is refused before anything is read or
    written, on all three endpoints, with a validation error. *)
Theorem bad_queue_path_changes_nothing st f f2 id now now2 w env1 env2 hex body limit wait eid s e :
  QueueId_from_str hex = Err e →
  handle_push st f id now hex body s = (Err (Validation e), s) ∧
  handle_pull st f f2 now now2 w env1 env2 hex limit wait s = Some (Err (Validation e), s) ∧
  handle_ack f now hex eid s = (Err (Validation e), s).
Proof.
  intros He. unfold handle_push, handle_pull, handle_ack, st_bind, st_lift, entity_err. rewrite He. done.
Qed.

(** a poll waits at most the node's limit, whatever the client asks. *)
Theorem long_poll_wait_is_bounded st wait : 0 < wait → 0 < st_max_wait st →
  0 < effective_wait st wait <= st_max_wait st.
Proof. unfold effective_wait. lia. Qed.
End Relay.

(** ** Witnesses *)

Module RelaySample.
Import MailboxSample.
#[local] Existing Instance model_externals.
Definition st : AppState := {| st_config := CoreConfig_default; st_max_wait := 30 |}.
End RelaySample.

Lemma long_poll_returns_arrival_witness :
  ∃ s', handle_pull RelaySample.st (λ _, None) (λ _, None) 500 2000 7 (λ s, s)
          (λ _, push_step MailboxSample.id1 1000 MailboxSample.q1 MailboxSample.env1)
          (QueueId_to_string MailboxSample.q1) (Some 10) (Some 20) MailboxSample.empty
        = Some (Ok [stored MailboxSample.id1 MailboxSample.env1 1000], s').
Proof.
  refine (long_poll_returns_arrival RelaySample.st MailboxSample.q1 MailboxSample.id1
    MailboxSample.env1 1000 500 2000 7 20 10 MailboxSample.empty 0 [] eq_refl
    MailboxSample.sim_empty _ _ eq_refl _ _ MailboxSample.push_fine _);
    [cbn; lia|lia|constructor|lia|by vm_compute].
Defined.

Lemma long_poll_can_miss_arrival_witness :
  ∃ s', handle_pull RelaySample.st (λ _, None) (λ _, None) 500 2000 7
          (push_step MailboxSample.id1 1000 MailboxSample.q1 MailboxSample.env1) (λ _ s, s)
          (QueueId_to_string MailboxSample.q1) (Some 10) (Some 20) MailboxSample.empty
        = Some (Ok [], s') ∧
    ∃ l, repo_pull (λ _, None) 2000 MailboxSample.q1 10 s' = (Ok l, s') ∧ l ≠ [].
Proof.
  refine (long_poll_can_miss_arrival RelaySample.st MailboxSample.q1 MailboxSample.id1
    MailboxSample.env1 1000 500 2000 7 20 10 MailboxSample.empty 0 [] eq_refl
    MailboxSample.sim_empty _ _ _ _ eq_refl _ MailboxSample.push_fine _);
    [set_solver|intros k; cbn; rewrite lookup_empty; set_solver|cbn; lia|lia|lia|by vm_compute].
Defined.

Lemma bad_queue_path_changes_nothing_witness :
  handle_ack (λ _, None) 0 "zz" "x" MailboxSample.empty
  = (Err (Validation (InvalidQueueId "not valid hex: Invalid character")), MailboxSample.empty).
Proof.
  exact (proj2 (proj2 (bad_queue_path_changes_nothing RelaySample.st (λ _, None) (λ _, None)
    MailboxSample.id1 0 0 7 (λ s, s) (λ _ s, s) "zz" {| pe_payload := []; pe_ttl_seconds := 0 |}
    None None "x" MailboxSample.empty (InvalidQueueId "not valid hex: Invalid character") eq_refl))).
Defined.

Lemma long_poll_wait_is_bounded_witness : 0 < effective_wait RelaySample.st 9999 <= 30.
Proof. refine (long_poll_wait_is_bounded RelaySample.st 9999 _ _); cbn; lia. Defined.
