(* ===== verification/RelayConcurrent.v ===== *)
(** * Concurrent requests on the relay: [buh-api/src/handlers.rs],
    [buh-core/src/mailbox.rs], [buh-data/src/turso_mailbox.rs]

    The handlers run as tasks of one process.  A task is interrupted where its
    code awaits, and before the synchronous notification that follows an
    insert; each stage below is the code between two such points.  A SQL
    statement is one step.  [relay_step] interleaves the stages of any number
    of tasks; the lemmas on stages check that a task that is not interrupted
    computes what the handler of [Relay] computes. *)

From S2P Require Import Prelude.
From S2P Require Import Entities.
From S2P Require Import Mailbox.
From S2P Require Import MailboxSpec.
From S2P Require Import Relay.
#[local] Open Scope Z_scope.

Section Stages.
Context `{EX : Externals}.

Inductive RelayRequest : Type :=
| QPush (queue_hex : string) (body : PushEnvelope)
| QPull (queue_hex : string) (limit wait : option Z)
| QAck (queue_hex envelope_id : string)
| QSweep.

(** Where a task stands: before its first instruction, before a statement of
    the datastore, around the wait of a long poll, or finished. *)
Inductive Stage : Type :=
| Start (req : RelayRequest)
| Insert (queue_id : QueueId) (id : EnvelopeId) (envelope : NewEnvelope) (now : Z)
| Notify (queue_id : QueueId) (id : EnvelopeId)
| Select (queue_id : QueueId) (limit eff now : Z) (wait : option Z)
| Register (queue_id : QueueId) (limit wait : Z)
| Waiting (queue_id : QueueId) (limit deadline : Z)
| Update (queue_id : QueueId) (id : EnvelopeId) (at_ms : Z)
| Receipt (queue_id : QueueId) (id : EnvelopeId) (at_ms : Z)
| Delete (now : Z)
| Finished (r : Result CoreError answer)
| Panicked.

(** The [?] of a handler: an error is its answer. *)
Definition settle (o : Result CoreError Stage * MailRepo) : Stage * MailRepo :=
  match o with (Ok g, s) => (g, s) | (Err e, s) => (Finished (Err e), s) end.

(** [mailbox::push] up to its [execute]. *)
Definition push_begin (st : AppState) (f : Faults) (id : EnvelopeId) (now : Z) (queue_hex : string)
    (body : PushEnvelope) : ST MailRepo CoreError Stage :=
  let! queue_id := st_lift (entity_err (QueueId_from_str queue_hex)) in
  if blen (pe_payload body) =? 0 then st_err (Validation (InvalidPayload "empty"))
  else if max_payload_bytes (st_config st) <? blen (pe_payload body)
  then st_err (Validation (InvalidPayload "exceeds size limit"))
  else
    let! _ := db_call f 0 connect in
    let ttl := clamp_ttl (pe_ttl_seconds body) (st_config st) in
    st_ret (Insert queue_id id {| ne_payload := pe_payload body; ne_ttl_seconds := ttl |} now).

Definition push_insert (f : Faults) (queue_id : QueueId) (id : EnvelopeId) (envelope : NewEnvelope)
    (now : Z) : ST MailRepo CoreError Stage :=
  let expires := sat64 (now + sat64 (ne_ttl_seconds envelope * 1000)) in
  let! _ := db_call f 0 (insert_envelope (queue_bytes queue_id) (uuid_fmt id) (ne_payload envelope)
                           now expires) in
  st_ret (Notify queue_id id).

Definition push_notify (queue_id : QueueId) (id : EnvelopeId) : ST MailRepo CoreError Stage :=
  let! _ := notify_waiters (queue_bytes queue_id) in
  st_ret (Finished (Ok (Pushed id))).

(** A [mailbox::pull] up to its [query]; [None] is the panic of [clamp]. *)
Definition pull_begin (st : AppState) (f : Faults) (now : Z) (queue_id : QueueId) (limit : Z)
    (wait : option Z) : ST MailRepo CoreError Stage :=
  match clamp limit 1 (max_pull_limit (st_config st)) with
  | None => st_ret Panicked
  | Some eff =>
      let! _ := db_call f 0 connect in
      st_ret (Select queue_id limit eff now wait)
  end.

Definition pull_start (st : AppState) (f : Faults) (now : Z) (queue_hex : string)
    (limit wait : option Z) : ST MailRepo CoreError Stage :=
  let! queue_id := st_lift (entity_err (QueueId_from_str queue_hex)) in
  pull_begin st f now queue_id (default (max_pull_limit (st_config st)) limit) wait.

(** The rows of a pull, and what the handler does with them: an empty first
    pull with a positive wait goes on to wait. *)
Definition pull_select (f : Faults) (queue_id : QueueId) (limit eff now : Z) (wait : option Z) :
    ST MailRepo CoreError Stage :=
  let! rows := db_call f 0 (select_live (queue_bytes queue_id) now eff) in
  let! envelopes := st_lift (collect_rows (λ i, f (S i)) 0 rows []) in
  match envelopes, wait with
  | [], Some wait =>
      if 0 <? wait then st_ret (Register queue_id limit wait)
      else st_ret (Finished (Ok (Pulled [])))
  | _, _ => st_ret (Finished (Ok (Pulled envelopes)))
  end.

(** [tokio::time::timeout] over the [notified()] future; the deadline is in
    milliseconds, the wait in seconds. *)
Definition pull_register (st : AppState) (now : Z) (queue_id : QueueId) (limit wait : Z) (w : nat)
    (s : MailRepo) : Stage * MailRepo :=
  (Waiting queue_id limit (now + effective_wait st wait * 1000), wait_begin queue_id w s).

(** The wait is over, by a notification or by the timeout. *)
Definition pull_resume (st : AppState) (f : Faults) (now : Z) (queue_id : QueueId) (limit : Z)
    (w : nat) (s : MailRepo) : Stage * MailRepo :=
  let '(woken, s) := wait_end queue_id w s in
  if woken then settle (pull_begin st f now queue_id limit None s)
  else (Finished (Ok (Pulled [])), s).

Definition ack_begin (f : Faults) (now : Z) (queue_hex envelope_id : string) :
    ST MailRepo CoreError Stage :=
  let! queue_id := st_lift (entity_err (QueueId_from_str queue_hex)) in
  let! envelope_id := st_lift (map_err (λ _, Validation (Empty "envelope_id"))
                                 (uuid_parse envelope_id)) in
  let! _ := db_call f 0 connect in
  st_ret (Update queue_id envelope_id now).

Definition ack_update (f : Faults) (queue_id : QueueId) (id : EnvelopeId) (at_ms : Z) :
    ST MailRepo CoreError Stage :=
  let! affected := db_call f 0 (update_delivered (queue_bytes queue_id) (uuid_fmt id) at_ms) in
  if affected =? 0 then st_ret (Finished (Ok (Acked false)))
  else st_ret (Receipt queue_id id at_ms).

Definition ack_receipt (f : Faults) (queue_id : QueueId) (id : EnvelopeId) (at_ms : Z) :
    ST MailRepo CoreError Stage :=
  let! _ := db_call f 0 (insert_receipt (queue_bytes queue_id) (uuid_fmt id) at_ms) in
  st_ret (Finished (Ok (Acked true))).

Definition sweep_begin (f : Faults) (now : Z) : ST MailRepo CoreError Stage :=
  let! _ := db_call f 0 connect in st_ret (Delete now).

Definition sweep_delete (f : Faults) (now : Z) : ST MailRepo CoreError Stage :=
  let! _ := db_call f 0 (delete_expired now) in st_ret (Finished (Ok Swept)).

(** One turn of task [w] at clock [now]: the datastore fails as [f] says, and
    [id] is what [EnvelopeId::new] draws if the turn calls it. *)
Definition turn (st : AppState) (w : nat) (f : Faults) (id : EnvelopeId) (now : Z) (g : Stage)
    (s : MailRepo) : Stage * MailRepo :=
  match g with
  | Start (QPush hex body) => settle (push_begin st f id now hex body s)
  | Start (QPull hex limit wait) => settle (pull_start st f now hex limit wait s)
  | Start (QAck hex eid) => settle (ack_begin f now hex eid s)
  | Start QSweep => settle (sweep_begin f now s)
  | Insert q id env at_ms => settle (push_insert f q id env at_ms s)
  | Notify q id => settle (push_notify q id s)
  | Select q limit eff at_ms wait => settle (pull_select f q limit eff at_ms wait s)
  | Register q limit wait => pull_register st now q limit wait w s
  | Waiting q limit _ => pull_resume st f now q limit w s
  | Update q id at_ms => settle (ack_update f q id at_ms s)
  | Receipt q id at_ms => settle (ack_receipt f q id at_ms s)
  | Delete at_ms => settle (sweep_delete f at_ms s)
  | Finished _ | Panicked => (g, s)
  end.

(** ** Interleaving *)

(** A request in the relay: what was asked, at which time, and its stage. *)
Record Task := { tk_req : RelayRequest; tk_since : Z; tk_stage : Stage }.

Record RelayState := { rs_repo : MailRepo; rs_tasks : gmap nat Task; rs_clock : Z }.

Inductive RelayEvent : Type :=
| Arrive (w : nat) (req : RelayRequest)
| Turn (w : nat) (f : Faults) (id : EnvelopeId)
| Tick (t : Z).

(** A poll that waits goes on when it was notified or its time is up; every
    other task can go on at any time. *)
Definition runnable (c : RelayState) (w : nat) (g : Stage) : bool :=
  match g with
  | Waiting _ _ deadline => bool_decide (w ∈ woken (rs_repo c)) || (deadline <=? rs_clock c)
  | _ => true
  end.

Definition relay_step (st : AppState) (c : RelayState) (ev : RelayEvent) : option RelayState :=
  match ev with
  | Arrive w req =>
      match rs_tasks c !! w with
      | Some _ => None
      | None =>
          Some {| rs_repo := rs_repo c;
                  rs_tasks := <[w := {| tk_req := req; tk_since := rs_clock c;
                                        tk_stage := Start req |}]> (rs_tasks c);
                  rs_clock := rs_clock c |}
      end
  | Turn w f id =>
      match rs_tasks c !! w with
      | None => None
      | Some tk =>
          if runnable c w (tk_stage tk) then
            let '(g, s) := turn st w f id (rs_clock c) (tk_stage tk) (rs_repo c) in
            Some {| rs_repo := s;
                    rs_tasks := <[w := {| tk_req := tk_req tk; tk_since := tk_since tk;
                                          tk_stage := g |}]> (rs_tasks c);
                    rs_clock := rs_clock c |}
          else None
      end
  | Tick t =>
      if rs_clock c <=? t
      then Some {| rs_repo := rs_repo c; rs_tasks := rs_tasks c; rs_clock := t |} else None
  end.

Fixpoint relay_run (st : AppState) (c : RelayState) (es : list RelayEvent) : option RelayState :=
  match es with
  | [] => Some c
  | ev :: es => c' ← relay_step st c ev; relay_run st c' es
  end.

(** ** The handlers are their stages *)

(** The answer of a task that has finished; [None] is a panic. *)
Definition outcome (o : Stage * MailRepo) : option (Result CoreError answer * MailRepo) :=
  match o with (Finished r, s) => Some (r, s) | _ => None end.

Definition as_answer {A} (k : A → answer) (o : Result CoreError A * MailRepo) :
    Result CoreError answer * MailRepo :=
  match o with (Ok a, s) => (Ok (k a), s) | (Err e, s) => (Err e, s) end.

Definition ended (g : Stage) : bool :=
  match g with Finished _ | Panicked => true | _ => false end.

(** Turns of task [w] until it ends, each with its faults, its clock and what
    the other requests do before it. *)
Fixpoint turns (st : AppState) (w : nat) (id : EnvelopeId)
    (l : list (Faults * Z * (MailRepo → MailRepo))) (o : Stage * MailRepo) : Stage * MailRepo :=
  match l with
  | [] => o
  | (f, now, env) :: l =>
      if ended o.1 then o else turns st w id l (turn st w f id now o.1 (env o.2))
  end.

Definition alone : MailRepo → MailRepo := λ s, s.

(** The faults of a handler from its [i]-th call on. *)
Definition from_call (i : nat) (f : Faults) : Faults := λ k, f (i + k)%nat.

Lemma turns_finished st w id l r s : turns st w id l (Finished r, s) = (Finished r, s).
Proof. by destruct l as [|[[f now] env] l]. Qed.

Lemma turns_panicked st w id l s : turns st w id l (Panicked, s) = (Panicked, s).
Proof. by destruct l as [|[[f now] env] l]. Qed.

Lemma turns_cons st w id f now env l g s :
  ended g = false →
  turns st w id ((f, now, env) :: l) (g, s) = turns st w id l (turn st w f id now g (env s)).
Proof. by destruct g. Qed.

Lemma with_db_same s : with_db (db s) s = s.
Proof. by destruct s. Qed.

Lemma db_call_connect f i s :
  db_call f i connect s = match f i with Some e => (Err (Repo e), s) | None => (Ok tt, s) end.
Proof. unfold db_call, connect. destruct (f i); [done|]. cbn. by rewrite with_db_same. Qed.

Lemma collect_rows_shift f k i rows out :
  collect_rows (λ j, f (k + j)%nat) i rows out = collect_rows f (k + i) rows out.
Proof.
  revert i out. induction rows as [|r rows IH]; intros i out; cbn [collect_rows]; [done|].
  destruct (f (k + i)%nat); [done|]. destruct (row_to_envelope r); cbn [rbind]; [|done].
  rewrite IH. by rewrite Nat.add_succ_r.
Qed.

(** Stages of one pull, as the port's [pull]. *)
Lemma pull_stages st w id f now now' q limit wait l s :
  turns st w id ((from_call 1 f, now', alone) :: l) (settle (pull_begin st f now q limit wait s))
  = match pull (st_config st) f now q limit s with
    | None => (Panicked, s)
    | Some (Err e, s) => (Finished (Err e), s)
    | Some (Ok [], s) =>
        turns st w id l
          (match wait with
           | Some wait => if 0 <? wait then Register q limit wait else Finished (Ok (Pulled []))
           | None => Finished (Ok (Pulled []))
           end, s)
    | Some (Ok envelopes, s) => (Finished (Ok (Pulled envelopes)), s)
    end.
Proof.
  unfold pull, pull_begin. destruct (clamp _ _ _) as [eff|]; [|done].
  unfold repo_pull, st_bind. rewrite db_call_connect. destruct (f 0%nat); [done|].
  cbn [settle st_ret]. rewrite turns_cons by done. cbn [turn alone]. unfold pull_select, st_bind.
  replace (db_call (from_call 1 f) 0 _ s) with (db_call f 1 (select_live (queue_bytes q) now eff) s) by done.
  destruct (db_call f 1 _ s) as [[rows|e] s1]; cbn [settle]; [|by rewrite turns_finished].
  unfold st_lift.
  change (collect_rows (λ i, from_call 1 f (S i)) 0 rows [])
    with (collect_rows (λ j, f (2 + j)%nat) 0 rows []).
  rewrite (collect_rows_shift f 2 0 rows []). cbn [Nat.add].
  destruct (collect_rows f 2 rows []) as [[|x envs]|e]; unfold st_ret; cbn [settle];
    [|by rewrite turns_finished|by rewrite turns_finished].
  destruct wait as [wait|]; [|done]. by destruct (0 <? wait).
Qed.

Ltac next_turn :=
  rewrite turns_cons by done; cbn [turn]; unfold pull_register;
  repeat match goal with |- context [alone ?s] => change (alone s) with s end.

Lemma push_stages st w id f f2 now t1 t2 hex body s :
  outcome (turns st w id [(f, now, alone); (from_call 1 f, t1, alone); (f2, t2, alone)]
             (Start (QPush hex body), s))
  = Some (as_answer Pushed (handle_push st f id now hex body s)).
Proof.
  next_turn. unfold push_begin, handle_push, push, repo_push, st_bind, st_lift, st_err.
  destruct (entity_err (QueueId_from_str hex)) as [q|e]; [|done].
  destruct (_ =? 0); [done|]. destruct (_ <? _); [done|].
  rewrite !db_call_connect. destruct (f 0%nat); [done|]. unfold st_ret. cbn [settle]. next_turn.
  unfold push_insert, st_bind, db_call, from_call. cbn [Nat.add ne_ttl_seconds ne_payload].
  destruct (f 1%nat); [done|]. by destruct (insert_envelope _ _ _ _ _ _) as [[] ?].
Qed.

Lemma long_poll_stages st w id f f2 now now2 t1 t2 t3 env1 env2 hex limit wait s :
  outcome (turns st w id [(f, now, alone); (from_call 1 f, t1, alone); (f2, t2, env1);
                          (f2, now2, env2); (from_call 1 f2, t3, alone)]
             (Start (QPull hex limit wait), s))
  = as_answer Pulled <$> handle_pull st f f2 now now2 w env1 (λ _, env2) hex limit wait s.
Proof.
  next_turn. unfold pull_start, handle_pull, st_bind, st_lift.
  destruct (entity_err (QueueId_from_str hex)) as [q|e]; [|done].
  set (lim := default _ limit). rewrite pull_stages.
  destruct (pull (st_config st) f now q lim s) as [[[[|x envs]|e] s1]|]; try done.
  destruct wait as [wait|]; [|done]. destruct (0 <? wait); [|done].
  next_turn. next_turn. unfold pull_resume.
  destruct (wait_end q w (env2 (wait_begin q w (env1 s1)))) as [[] s2]; [|done].
  rewrite pull_stages.
  by destruct (pull (st_config st) f2 now2 q lim s2) as [[[[|x envs]|e] s3]|].
Qed.

Lemma ack_stages st w id f now t1 t2 hex eid s :
  outcome (turns st w id [(f, now, alone); (from_call 1 f, t1, alone); (from_call 2 f, t2, alone)]
             (Start (QAck hex eid), s))
  = Some (as_answer Acked (handle_ack f now hex eid s)).
Proof.
  next_turn. unfold ack_begin, handle_ack, ack, repo_ack, st_bind, st_lift.
  destruct (entity_err (QueueId_from_str hex)) as [q|e]; [|done].
  destruct (map_err _ (uuid_parse eid)) as [i|e]; [|done].
  rewrite !db_call_connect. destruct (f 0%nat); [done|]. unfold st_ret. cbn [settle]. next_turn.
  unfold ack_update, st_bind, st_ret.
  replace (db_call (from_call 1 f) 0 _ s)
    with (db_call f 1 (update_delivered (queue_bytes q) (uuid_fmt i) now) s) by done.
  destruct (db_call f 1 _ s) as [[n|e] s1]; [|done]. destruct (n =? 0); [done|].
  cbn [settle]. next_turn. unfold ack_receipt, st_bind.
  replace (db_call (from_call 2 f) 0 _ s1)
    with (db_call f 2 (insert_receipt (queue_bytes q) (uuid_fmt i) now) s1) by done.
  by destruct (db_call f 2 _ s1) as [[n'|e] s2].
Qed.

Lemma sweep_stages st w id f now t1 s :
  outcome (turns st w id [(f, now, alone); (from_call 1 f, t1, alone)] (Start QSweep, s))
  = Some (as_answer (λ _, Swept) (sweep f now s)).
Proof.
  next_turn. unfold sweep_begin, sweep, repo_expire, st_bind.
  rewrite !db_call_connect. destruct (f 0%nat); [done|]. unfold st_ret. cbn [settle]. next_turn.
  unfold sweep_delete, st_bind.
  replace (db_call (from_call 1 f) 0 _ s) with (db_call f 1 (delete_expired now) s) by done.
  by destruct (db_call f 1 _ s) as [[n|e] s1].
Qed.

End Stages.
