(* ===== verification/RelayLinear.v ===== *)
(** * Concurrent requests take effect one at a time

    The specification executes abstract requests on the queues, one at a time,
    on behalf of the clients' tasks.  Every run of [RelayConcurrent] is matched
    by such an execution: a turn of a task performs at most one abstract
    request, and a task that has finished answers what the last abstract
    request made on its behalf answered.  Overlapping pushes may reach the
    table out of the order of their time stamps; the queues are in the order
    of the time stamps. *)

From S2P Require Import Prelude.
From S2P Require Import Entities.
From S2P Require Import Mailbox.
From S2P Require Import MailboxSpec.
From S2P Require Import Relay.
From S2P Require Import RelayConcurrent.
#[local] Open Scope Z_scope.

(** ** Tables in the order of their ids *)

Definition id_lt (r s : EnvRow) : Prop := er_id r < er_id s.

Lemma id_lt_unique rows r s :
  StronglySorted id_lt rows → r ∈ rows → s ∈ rows → er_id r = er_id s → r = s.
Proof.
  unfold id_lt. induction 1 as [|x l _ IH Hx]; [set_solver|]. rewrite Forall_forall in Hx.
  rewrite !elem_of_cons. intros [->|Hr] [->|Hs] E; [done| | |by apply IH].
  - specialize (Hx _ Hs). lia.
  - specialize (Hx _ Hr). lia.
Qed.

(** What [ORDER BY received_at ASC, id ASC] gives is determined by the rows. *)
Lemma sorted_is_merge_sort rows l :
  StronglySorted id_lt rows → l ≡ₚ rows → StronglySorted row_le l → merge_sort row_le rows = l.
Proof.
  intros Hid Hp Hl. apply (StronglySorted_unique_strong row_le).
  - intros r s Hr Hs H1 H2. rewrite merge_sort_Permutation in Hr. rewrite Hp in Hs.
    apply (id_lt_unique rows); [done..|]. unfold row_le in *. lia.
  - apply StronglySorted_merge_sort; apply _.
  - done.
  - by rewrite merge_sort_Permutation.
Qed.

Lemma merge_sort_filter (P : EnvRow → Prop) `{∀ r, Decision (P r)} rows :
  StronglySorted id_lt rows →
  merge_sort row_le (filter P rows) = filter P (merge_sort row_le rows).
Proof.
  intros Hid. apply sorted_is_merge_sort.
  - by apply StronglySorted_filter.
  - by rewrite merge_sort_Permutation.
  - apply StronglySorted_filter, StronglySorted_merge_sort; apply _.
Qed.

(** A new row goes behind the rows that are not younger than it. *)
Lemma merge_sort_snoc rows r :
  StronglySorted id_lt (rows ++ [r]) →
  merge_sort row_le (rows ++ [r])
  = filter (λ x, er_received x <= er_received r) (merge_sort row_le rows) ++ [r]
    ++ filter (λ x, ¬ er_received x <= er_received r) (merge_sort row_le rows).
Proof.
  intros Hid. apply sorted_is_merge_sort; [done| |].
  - rewrite (Permutation_app_comm [r]), app_assoc, filter_app_complement. by rewrite merge_sort_Permutation.
  - assert (StronglySorted row_le (merge_sort row_le rows)) as Hs
      by (apply StronglySorted_merge_sort; apply _).
    assert (∀ x, x ∈ merge_sort row_le rows → er_id x < er_id r) as Hlt.
    { intros x Hx. rewrite merge_sort_Permutation in Hx.
      apply (StronglySorted_app_1_elem_of id_lt rows [r]); [done|done|]. by apply list_elem_of_singleton. }
    apply StronglySorted_app_2; [|by apply StronglySorted_filter|
      apply StronglySorted_app_2; [|repeat constructor|by apply StronglySorted_filter]].
    + intros x y [Hx Hin]%list_elem_of_filter [->%list_elem_of_singleton|[Hy _]%list_elem_of_filter]%elem_of_app;
        unfold row_le; [|lia]. specialize (Hlt x Hin). lia.
    + intros x y ->%list_elem_of_singleton [Hy _]%list_elem_of_filter. unfold row_le. lia.
Qed.

(** ** The abstract queues *)

Section Linear.
Context `{EX : Externals}.

(** A push goes behind the items that are not younger. *)
Definition q_insert (queue : bytes) (env : StoredEnvelope) (m : list Item) : list Item :=
  filter (λ i, se_received_at (it_env i) <= se_received_at env) m
  ++ [{| it_queue := queue; it_env := env |}]
  ++ filter (λ i, ¬ se_received_at (it_env i) <= se_received_at env) m.

Definition queue_exec (now : Z) (req : request) (m : list Item) : answer * list Item :=
  match req with
  | RPush q id env => (Pushed id, q_insert (queue_bytes q) (stored id env now) m)
  | _ => spec_exec now req m
  end.

(** The tables hold the queues [m], whatever order the rows came in. *)
Record holds (d : Db) (m : list Item) : Prop := {
  holds_ids : StronglySorted id_lt (envelopes d);
  holds_items : Forall2 row_item (merge_sort row_le (filter undelivered (envelopes d))) m;
}.

(** Pushes that do not overlap append. *)
Lemma q_insert_in_order queue env m :
  Forall (λ i, se_received_at (it_env i) <= se_received_at env) m →
  q_insert queue env m = q_push queue env m.
Proof.
  intros Hm. unfold q_insert, q_push. rewrite filter_all by done. rewrite filter_none; [done|].
  eapply Forall_impl; [exact Hm|]. cbn. tauto.
Qed.

Lemma sim_holds t d m : sim t d m → holds d m.
Proof.
  intros [Ho _ Hi]. split.
  - clear -Ho. induction Ho as [|x l _ IH Hx]; constructor; [done|].
    eapply Forall_impl; [exact Hx|]. unfold row_lt, id_lt. intros; lia.
  - rewrite merge_sort_in_order; [done|]. by apply StronglySorted_filter.
Qed.

Context `{EL : !ExternalLaws}.

(** ** Statements on the queues *)

Lemma select_holds d m q now eff rows d' :
  holds d m → select_live (queue_bytes q) now eff d = (Ok rows, d') →
  d' = d ∧ ∃ items, Forall2 row_item rows items ∧
    it_env <$> items = q_pull (queue_bytes q) now eff m.
Proof.
  intros [Hid Hi] [= <- <-]. split; [done|].
  exists (sql_limit eff (filter (λ i, it_queue i = queue_bytes q ∧ now < se_expires_at (it_env i)) m)).
  split; [|by rewrite sql_limit_fmap]. apply Forall2_sql_limit.
  rewrite filter_live, merge_sort_filter by (by apply StronglySorted_filter).
  eapply Forall2_filter; [|exact Hi]. intros r i (Hq & _ & _ & _ & Hx & _). by rewrite Hq, Hx.
Qed.

(** With faults, the loop over the rows fails or gives all of them. *)
Lemma collect_rows_faulty f i rows items out l :
  Forall2 row_item rows items → collect_rows f i rows out = Ok l → l = out ++ (it_env <$> items).
Proof.
  intros H. revert i out. induction H as [|r it rows items Hri _ IH]; intros i out; cbn [collect_rows];
    (destruct (f i); [done|]).
  - intros [= <-]. by rewrite app_nil_r.
  - rewrite (row_to_envelope_item r it Hri). cbn [rbind]. intros H%IH.
    rewrite H, fmap_cons, <-app_assoc. done.
Qed.

Lemma insert_holds d m q id env now n d' :
  holds d m → dt_in_range now = true → dt_in_range (se_expires_at (stored id env now)) = true →
  insert_envelope (queue_bytes q) (uuid_fmt id) (ne_payload env) now
    (sat64 (now + sat64 (ne_ttl_seconds env * 1000))) d = (Ok n, d') →
  holds d' (q_insert (queue_bytes q) (stored id env now) m).
Proof.
  intros [Hid Hi] Hd1 Hd2. unfold insert_envelope. destruct (existsb _ _); [done|]. intros [= <- <-].
  set (r := {| er_id := _ |}).
  assert (StronglySorted id_lt (envelopes d ++ [r])) as Hs.
  { apply StronglySorted_app_2; [|done|repeat constructor].
    intros x y Hx ->%list_elem_of_singleton. unfold id_lt. cbn. pose proof (max_id_bound _ _ Hx). lia. }
  split; cbn [envelopes]; [done|].
  rewrite filter_app, (filter_cons_True _ r), filter_nil by done.
  rewrite merge_sort_snoc.
  - unfold q_insert. apply Forall2_app; [|apply Forall2_app; [|]].
    + eapply Forall2_filter; [|exact Hi]. intros x i (_ & _ & _ & Hr & _). cbn. by rewrite Hr.
    + constructor; [|constructor]. by repeat split.
    + eapply Forall2_filter; [|exact Hi]. intros x i (_ & _ & _ & Hr & _). cbn. by rewrite Hr.
  - apply (StronglySorted_filter _ undelivered) in Hs. by rewrite filter_app in Hs.
Qed.

Lemma update_holds d m q id at_ms n d' :
  holds d m → update_delivered (queue_bytes q) (uuid_fmt id) at_ms d = (Ok n, d') →
  holds d' (q_ack (queue_bytes q) id m).2 ∧ (n =? 0) = negb (q_ack (queue_bytes q) id m).1.
Proof.
  intros [Hid Hi] [= <- <-]. set (P := ack_matches (queue_bytes q) (uuid_fmt id)).
  assert (Forall2 (λ r i, row_item r i ∧ undelivered r)
    (merge_sort row_le (filter undelivered (envelopes d))) m) as Hi'.
  { rewrite merge_sort_filter in Hi |- * by done. by apply Forall2_undelivered. }
  assert (∀ r i, row_item r i ∧ undelivered r → P r ↔ is_item (queue_bytes q) id i) as HP.
  { intros r i [Hri Hu]. by apply ack_matches_item. }
  split; [split; cbn [envelopes]|].
  - apply StronglySorted_fmap_pres; [|done]. intros r r'. unfold id_lt. by repeat destruct (decide _).
  - rewrite filter_fmap_other by (by intros r _ [=]).
    rewrite merge_sort_filter by (by apply StronglySorted_filter).
    eapply Forall2_impl; [eapply Forall2_filter; [|exact Hi']|by intros ? ? [? _]].
    intros r i H. by rewrite (HP r i H).
  - unfold P at 1. rewrite affected_count. f_equal. unfold q_ack. cbn [fst]. apply bool_decide_ext.
    rewrite <-(Forall2_Exists _ P _ _ _ HP Hi'). by rewrite merge_sort_Permutation.
Qed.

Lemma delete_holds d m now n d' :
  holds d m → delete_expired now d = (Ok n, d') → holds d' (q_sweep now m).
Proof.
  intros [Hid Hi] [= <- <-]. split; cbn [envelopes]; [by apply StronglySorted_filter|].
  replace (filter undelivered (filter (λ r, ¬ er_expires r <= now) (envelopes d)))
    with (filter (λ r, ¬ er_expires r <= now) (filter undelivered (envelopes d))).
  - rewrite merge_sort_filter by (by apply StronglySorted_filter).
    eapply Forall2_filter; [|exact Hi]. intros r i (_ & _ & _ & _ & Hx & _). by rewrite Hx.
  - rewrite !list_filter_filter. apply list_filter_iff. intros. tauto.
Qed.

(** ** The specification: one abstract request at a time *)

(** The queues, and what the last abstract request made for each task
    answered. *)
Record Spec := { sp_items : list Item; sp_seen : gmap nat answer }.

Definition spec_op (w : nat) (now : Z) (req : request) (a : Spec) : Spec :=
  let '(r, m) := queue_exec now req (sp_items a) in
  {| sp_items := m; sp_seen := <[w := r]> (sp_seen a) |}.

(** The abstract request is the one the client asked for, under the node's
    policy. *)
Definition serves (st : AppState) (rq : RelayRequest) (req : request) : Prop :=
  match rq, req with
  | QPush hex body, RPush q _ env =>
      QueueId_from_str hex = Ok q ∧
      env = {| ne_payload := pe_payload body;
               ne_ttl_seconds := clamp_ttl (pe_ttl_seconds body) (st_config st) |}
  | QPull hex limit _, RPull q eff =>
      QueueId_from_str hex = Ok q ∧
      clamp (default (max_pull_limit (st_config st)) limit) 1 (max_pull_limit (st_config st)) = Some eff
  | QAck hex eid, RAck q id => QueueId_from_str hex = Ok q ∧ uuid_parse eid = Ok id
  | QSweep, RSweep => True
  | _, _ => False
  end.

(** Nothing was done for the task yet, but for an empty pull. *)
Definition unserved (seen : option answer) : Prop := seen = None ∨ seen = Some (Pulled []).

(** Event [ev] from [c] does nothing to the queues, or one abstract request for
    the task that runs, with a time the clock showed since the task arrived. *)
Definition follows (st : AppState) (c : RelayState) (ev : RelayEvent) (a a' : Spec) : Prop :=
  a' = a ∨
  ∃ w f id tk now req, ev = Turn w f id ∧ rs_tasks c !! w = Some tk ∧
    serves st (tk_req tk) req ∧ tk_since tk <= now <= rs_clock c ∧
    unserved (sp_seen a !! w) ∧ a' = spec_op w now req a.

Inductive linearized (st : AppState) : RelayState → Spec → list RelayEvent → RelayState → Spec → Prop :=
| lin_nil c a : linearized st c a [] c a
| lin_cons c a ev c1 a1 es c2 a2 :
    relay_step st c ev = Some c1 → follows st c ev a a1 →
    linearized st c1 a1 es c2 a2 → linearized st c a (ev :: es) c2 a2.

(** A request that failed had no effect, unless it is an acknowledgement whose
    receipt could not be written; a failed poll may have seen an empty queue. *)
Definition failed_effect (rq : RelayRequest) (seen : option answer) : Prop :=
  match rq with
  | QAck _ _ => seen = None ∨ seen = Some (Acked true)
  | QPull _ _ _ => unserved seen
  | _ => seen = None
  end.

Definition answered (a : Spec) (w : nat) (tk : Task) : Prop :=
  match tk_stage tk with
  | Finished (Ok r) => sp_seen a !! w = Some r
  | Finished (Err _) => failed_effect (tk_req tk) (sp_seen a !! w)
  | _ => True
  end.

(** What [chrono] can represent covers every time the relay computes. *)
Definition clock_ok (st : AppState) (t : Z) : Prop :=
  dt_in_range t = true ∧
  ∀ ttl, 1 <= ttl <= max_ttl_seconds (st_config st) →
    dt_in_range (sat64 (t + sat64 (ttl * 1000))) = true.

Definition event_ok (st : AppState) (ev : RelayEvent) : Prop :=
  match ev with Tick t => clock_ok st t | _ => True end.

(** ** The invariant of a task *)

Definition pulls (st : AppState) (rq : RelayRequest) (q : QueueId) (limit : Z) : Prop :=
  ∃ hex lim wait, rq = QPull hex lim wait ∧ QueueId_from_str hex = Ok q ∧
    limit = default (max_pull_limit (st_config st)) lim.

Definition stage_inv (st : AppState) (t : Z) (tk : Task) (seen : option answer) : Prop :=
  let timely now := tk_since tk <= now <= t in
  tk_since tk <= t ∧
  match tk_stage tk with
  | Start req => seen = None ∧ tk_req tk = req
  | Insert q id env now =>
      seen = None ∧ serves st (tk_req tk) (RPush q id env) ∧ timely now ∧
      dt_in_range now = true ∧ dt_in_range (se_expires_at (stored id env now)) = true
  | Notify q id => seen = Some (Pushed id)
  | Select q limit eff now _ =>
      unserved seen ∧ pulls st (tk_req tk) q limit ∧ serves st (tk_req tk) (RPull q eff) ∧ timely now
  | Register q limit _ | Waiting q limit _ => seen = Some (Pulled []) ∧ pulls st (tk_req tk) q limit
  | Update q id now => seen = None ∧ serves st (tk_req tk) (RAck q id) ∧ timely now
  | Receipt q id _ => seen = Some (Acked true) ∧ ∃ hex eid, tk_req tk = QAck hex eid
  | Delete now => seen = None ∧ serves st (tk_req tk) RSweep ∧ timely now
  | Finished (Ok r) => seen = Some r
  | Finished (Err _) => failed_effect (tk_req tk) seen
  | Panicked => True
  end.

Definition at_stage (tk : Task) (g : Stage) : Task :=
  {| tk_req := tk_req tk; tk_since := tk_since tk; tk_stage := g |}.

(** A turn of task [w] from [a] to stage [g] and repository [s] is matched. *)
Definition matched (st : AppState) (t : Z) (a : Spec) (w : nat) (tk : Task) (o : Stage * MailRepo) : Prop :=
  ∃ a', (a' = a ∨ ∃ now req, serves st (tk_req tk) req ∧ tk_since tk <= now <= t ∧
                   unserved (sp_seen a !! w) ∧ a' = spec_op w now req a) ∧
    holds (db o.2) (sp_items a') ∧ stage_inv st t (at_stage tk o.1) (sp_seen a' !! w).

Lemma matched_quiet st t a w tk g s :
  holds (db s) (sp_items a) → stage_inv st t (at_stage tk g) (sp_seen a !! w) →
  matched st t a w tk (g, s).
Proof. intros H1 H2. exists a. auto. Qed.

Lemma matched_op st t a w tk g s now req :
  serves st (tk_req tk) req → tk_since tk <= now <= t → unserved (sp_seen a !! w) →
  holds (db s) (queue_exec now req (sp_items a)).2 →
  stage_inv st t (at_stage tk g) (Some (queue_exec now req (sp_items a)).1) →
  matched st t a w tk (g, s).
Proof.
  intros H1 H2 H3 H4 H5. exists (spec_op w now req a). split; [right; eauto 10|].
  unfold spec_op. destruct (queue_exec _ _ _) as [r m]. cbn [sp_items sp_seen fst snd] in *.
  by rewrite lookup_insert_eq.
Qed.

(** A statement that fails changes nothing. *)
Definition safe_stmt {A} (m : Db → Result string A * Db) : Prop :=
  ∀ d e d', m d = (Err e, d') → d' = d.

Lemma db_call_inv {A} f i (m : Db → Result string A * Db) s :
  safe_stmt m →
  (∃ e s', db_call f i m s = (Err (Repo e), s') ∧ db s' = db s) ∨
  (∃ x s', db_call f i m s = (Ok x, s') ∧ m (db s) = (Ok x, db s')).
Proof.
  intros Hm. unfold db_call. destruct (f i) as [e|]; [left; eauto|].
  destruct (m (db s)) as [[x|e] d] eqn:E; cbn [map_err]; [right|left]; eexists _, _; (split; [done|]); [done|].
  by apply Hm in E.
Qed.

Lemma select_safe q now eff : safe_stmt (select_live q now eff).
Proof. by intros d e d' [=]. Qed.
Lemma update_safe q id at_ms : safe_stmt (update_delivered q id at_ms).
Proof. by intros d e d' [=]. Qed.
Lemma receipt_safe q id at_ms : safe_stmt (insert_receipt q id at_ms).
Proof. by intros d e d' [=]. Qed.
Lemma delete_safe now : safe_stmt (delete_expired now).
Proof. by intros d e d' [=]. Qed.
Lemma insert_safe q id p r x : safe_stmt (insert_envelope q id p r x).
Proof. intros d e d'. unfold insert_envelope. destruct (existsb _ _); [by intros [= _ <-]|done]. Qed.

(** ** Every turn is matched *)

Section Turns.
Context (st : AppState) (t : Z) (a : Spec) (w : nat) (tk : Task) (s : MailRepo).
Context (Hh : holds (db s) (sp_items a)) (Ht : tk_since tk <= t).

Lemma quiet g s' :
  db s' = db s → stage_inv st t (at_stage tk g) (sp_seen a !! w) → matched st t a w tk (g, s').
Proof. intros E H. apply matched_quiet; [by rewrite E|done]. Qed.

(** An error before anything was done for the task. *)
Lemma fails_early e s' : db s' = db s → sp_seen a !! w = None → matched st t a w tk (Finished (Err e), s').
Proof.
  intros E H. apply quiet; [done|]. split; [done|]. cbn. rewrite H. unfold failed_effect, unserved.
  destruct (tk_req tk); auto.
Qed.

Lemma fails_pull e s' q limit :
  db s' = db s → pulls st (tk_req tk) q limit → unserved (sp_seen a !! w) →
  matched st t a w tk (Finished (Err e), s').
Proof.
  intros E (hex & lim & wait & Hr & _) H. apply quiet; [done|]. split; [done|]. cbn. by rewrite Hr.
Qed.

Lemma push_begin_matched f id hex body :
  tk_req tk = QPush hex body → sp_seen a !! w = None → clock_ok st t →
  1 <= default_ttl_seconds (st_config st) <= max_ttl_seconds (st_config st) →
  matched st t a w tk (settle (push_begin st f id t hex body s)).
Proof.
  intros Hr Hs [Hc Hx] Hd. unfold push_begin, st_bind, st_lift, st_err, entity_err.
  destruct (QueueId_from_str hex) as [q|e] eqn:Hq; [|by apply fails_early]. cbn [map_err].
  destruct (_ =? 0); [by apply fails_early|]. destruct (_ <? _); [by apply fails_early|].
  rewrite db_call_connect. destruct (f 0%nat); [by apply fails_early|]. apply quiet; [done|].
  split; [done|]. cbn [at_stage tk_stage tk_req tk_since]. rewrite Hr.
  split_and!; [done|done|lia|lia|done|]. cbn [stored se_expires_at ne_ttl_seconds]. apply Hx.
  unfold clamp_ttl. destruct (Z.leb_spec (pe_ttl_seconds body) 0); lia.
Qed.

Lemma push_insert_matched f q id env now :
  serves st (tk_req tk) (RPush q id env) → tk_since tk <= now <= t → sp_seen a !! w = None →
  dt_in_range now = true → dt_in_range (se_expires_at (stored id env now)) = true →
  matched st t a w tk (settle (push_insert f q id env now s)).
Proof.
  intros Hr Hn Hs Hd1 Hd2. unfold push_insert, st_bind.
  destruct (db_call_inv f 0 _ s (insert_safe (queue_bytes q) (uuid_fmt id) (ne_payload env) now
    (sat64 (now + sat64 (ne_ttl_seconds env * 1000))))) as [(e & s' & -> & E)|(n & s' & -> & E)];
    [by apply fails_early|].
  eapply matched_op; [exact Hr|done|by left| |by split].
  by eapply insert_holds.
Qed.

Lemma pull_begin_matched f q limit wait :
  pulls st (tk_req tk) q limit → unserved (sp_seen a !! w) →
  matched st t a w tk (settle (pull_begin st f t q limit wait s)).
Proof.
  intros Hp Hs. unfold pull_begin, st_bind. destruct (clamp _ _ _) as [eff|] eqn:Hc.
  - rewrite db_call_connect. destruct (f 0%nat); [by eapply fails_pull|]. apply quiet; [done|].
    split; [done|]. cbn [at_stage tk_stage tk_req tk_since]. split_and!; [done|done| |lia|lia].
    destruct Hp as (hex & lim & wt & -> & Hq & ->). done.
  - apply quiet; [done|]. by split.
Qed.

Lemma pull_select_matched f q limit eff now wait :
  pulls st (tk_req tk) q limit → serves st (tk_req tk) (RPull q eff) → tk_since tk <= now <= t →
  unserved (sp_seen a !! w) → matched st t a w tk (settle (pull_select f q limit eff now wait s)).
Proof.
  intros Hp Hr Hn Hs. unfold pull_select, st_bind, st_lift.
  destruct (db_call_inv f 0 _ s (select_safe (queue_bytes q) now eff)) as
    [(e & s' & -> & E)|(rows & s' & -> & E)]; [by eapply fails_pull|].
  destruct (select_holds _ _ _ _ _ _ _ Hh E) as (Ed & items & Hi & Hq).
  destruct (collect_rows _ _ _ _) as [l|e] eqn:Hl; [|by eapply fails_pull].
  apply (collect_rows_faulty _ _ _ items) in Hl; [|done]. cbn [app] in Hl. rewrite Hq in Hl.
  assert (∀ g, stage_inv st t (at_stage tk g) (Some (Pulled l)) → matched st t a w tk (g, s')) as Hop.
  { intros g Hg. eapply (matched_op _ _ _ _ _ _ _ now (RPull q eff)); [done..|by rewrite Ed|].
    cbn [queue_exec spec_exec fst]. by rewrite <-Hl. }
  destruct l as [|x l]; [destruct wait as [wt|]; [destruct (0 <? wt)|]|]; apply Hop; by split.
Qed.

Lemma ack_begin_matched f hex eid :
  tk_req tk = QAck hex eid → sp_seen a !! w = None →
  matched st t a w tk (settle (ack_begin f t hex eid s)).
Proof.
  intros Hr Hs. unfold ack_begin, st_bind, st_lift, entity_err.
  destruct (QueueId_from_str hex) as [q|e] eqn:Hq; [|by apply fails_early]. cbn [map_err].
  destruct (uuid_parse eid) as [id|e] eqn:Hi; [|by apply fails_early]. cbn [map_err].
  rewrite db_call_connect. destruct (f 0%nat); [by apply fails_early|]. apply quiet; [done|].
  split; [done|]. cbn [at_stage tk_stage tk_req tk_since]. rewrite Hr. split_and!; [done|done|lia|lia].
Qed.

Lemma ack_update_matched f q id now :
  serves st (tk_req tk) (RAck q id) → tk_since tk <= now <= t → sp_seen a !! w = None →
  matched st t a w tk (settle (ack_update f q id now s)).
Proof.
  intros Hr Hn Hs. unfold ack_update, st_bind.
  destruct (db_call_inv f 0 _ s (update_safe (queue_bytes q) (uuid_fmt id) now)) as
    [(e & s' & -> & E)|(n & s' & -> & E)]; [by apply fails_early|].
  destruct (update_holds _ _ _ _ _ _ _ Hh E) as [Hh' ->].
  assert (∀ g, stage_inv st t (at_stage tk g) (Some (Acked (q_ack (queue_bytes q) id (sp_items a)).1)) →
    matched st t a w tk (g, s')) as Hop.
  { intros g Hg. eapply (matched_op _ _ _ _ _ _ _ now (RAck q id)); [done|done|by left| |];
      cbn [queue_exec spec_exec]; by destruct (q_ack _ _ _) as [b m]. }
  destruct (q_ack _ _ _).1 eqn:Hb; cbn [negb]; apply Hop; (split; [done|]); [|done].
  split; [done|]. cbn [at_stage tk_req]. destruct (tk_req tk); naive_solver.
Qed.

Lemma ack_receipt_matched f q id now hex eid :
  tk_req tk = QAck hex eid → sp_seen a !! w = Some (Acked true) →
  matched st t a w tk (settle (ack_receipt f q id now s)).
Proof.
  intros Hr Hs. unfold ack_receipt, st_bind.
  destruct (db_call_inv f 0 _ s (receipt_safe (queue_bytes q) (uuid_fmt id) now)) as
    [(e & s' & -> & E)|(n & s' & -> & E)].
  - apply quiet; [done|]. split; [done|]. cbn. rewrite Hr. by right.
  - apply matched_quiet; [|by split]. injection E as _ E. destruct Hh as [Hid Hi].
    split; rewrite <-E; cbn [envelopes]; done.
Qed.

Lemma sweep_begin_matched f :
  tk_req tk = QSweep → sp_seen a !! w = None → matched st t a w tk (settle (sweep_begin f t s)).
Proof.
  intros Hr Hs. unfold sweep_begin, st_bind. rewrite db_call_connect.
  destruct (f 0%nat); [by apply fails_early|]. apply quiet; [done|].
  split; [done|]. cbn [at_stage tk_stage tk_req tk_since]. rewrite Hr. split_and!; [done|done|lia|lia].
Qed.

Lemma sweep_delete_matched f now :
  serves st (tk_req tk) RSweep → tk_since tk <= now <= t → sp_seen a !! w = None →
  matched st t a w tk (settle (sweep_delete f now s)).
Proof.
  intros Hr Hn Hs. unfold sweep_delete, st_bind.
  destruct (db_call_inv f 0 _ s (delete_safe now)) as [(e & s' & -> & E)|(n & s' & -> & E)];
    [by apply fails_early|].
  eapply (matched_op _ _ _ _ _ _ _ now RSweep); [done|done|by left| |by split].
  by eapply delete_holds.
Qed.
End Turns.

Lemma pull_resume_matched st t a w tk s f q limit :
  holds (db s) (sp_items a) → tk_since tk <= t →
  pulls st (tk_req tk) q limit → sp_seen a !! w = Some (Pulled []) →
  matched st t a w tk (pull_resume st f t q limit w s).
Proof.
  intros Hh Ht Hp Hs. unfold pull_resume, wait_end. case_bool_decide.
  - apply pull_begin_matched; [done|done|done|by right].
  - apply matched_quiet; [done|by split].
Qed.

Lemma turn_matched st t a w tk s f id :
  holds (db s) (sp_items a) → stage_inv st t tk (sp_seen a !! w) → clock_ok st t →
  1 <= default_ttl_seconds (st_config st) <= max_ttl_seconds (st_config st) →
  matched st t a w tk (turn st w f id t (tk_stage tk) s).
Proof.
  intros Hh [Ht Hinv] Hc Hd. unfold turn. destruct (tk_stage tk) eqn:Hg.
  - destruct Hinv as [Hs Hr]. destruct req as [hex body|hex limit wait|hex eid|].
    + by apply push_begin_matched.
    + unfold pull_start, st_bind, st_lift, entity_err.
      destruct (QueueId_from_str hex) as [q|e] eqn:Hq; [|by apply (fails_early _ _ _ _ _ s)].
      apply pull_begin_matched; [done|done| |by left]. by eexists _, _, _.
    + by apply ack_begin_matched.
    + by apply sweep_begin_matched.
  - destruct Hinv as (Hs & Hr & Hn & H1 & H2). by apply push_insert_matched.
  - apply matched_quiet; [done|by split].
  - destruct Hinv as (Hs & Hp & Hr & Hn). by apply pull_select_matched.
  - apply matched_quiet; [done|by split].
  - destruct Hinv as (Hs & Hp). by apply pull_resume_matched.
  - destruct Hinv as (Hs & Hr & Hn). by apply ack_update_matched.
  - destruct Hinv as (Hs & hex & eid & Hr). by eapply ack_receipt_matched.
  - destruct Hinv as (Hs & Hr & Hn). by apply sweep_delete_matched.
  - apply matched_quiet; [done|by split].
  - apply matched_quiet; [done|by split].
Qed.

(** ** Every run is matched *)

Record relay_inv (st : AppState) (c : RelayState) (a : Spec) : Prop := {
  ri_holds : holds (db (rs_repo c)) (sp_items a);
  ri_clock : clock_ok st (rs_clock c);
  ri_tasks w tk : rs_tasks c !! w = Some tk → stage_inv st (rs_clock c) tk (sp_seen a !! w);
  ri_fresh w : rs_tasks c !! w = None → sp_seen a !! w = None;
}.

Lemma stage_inv_later st t t' tk seen : t <= t' → stage_inv st t tk seen → stage_inv st t' tk seen.
Proof.
  intros Ht [H1 H2]. split; [lia|]. destruct (tk_stage tk); try done;
    repeat match goal with H : _ ∧ _ |- _ => destruct H | |- _ ∧ _ => split end; try done; lia.
Qed.

Lemma spec_op_other w w' now req a : w' ≠ w → sp_seen (spec_op w now req a) !! w' = sp_seen a !! w'.
Proof.
  intros H. unfold spec_op. destruct (queue_exec _ _ _). cbn [sp_seen]. by rewrite lookup_insert_ne.
Qed.

Section Run.
Context (st : AppState).
Context (Httl : 1 <= default_ttl_seconds (st_config st) <= max_ttl_seconds (st_config st)).

Lemma turn_inv c a w tk f id :
  relay_inv st c a → rs_tasks c !! w = Some tk →
  let o := turn st w f id (rs_clock c) (tk_stage tk) (rs_repo c) in
  ∃ a', follows st c (Turn w f id) a a' ∧
    relay_inv st {| rs_repo := o.2; rs_tasks := <[w := at_stage tk o.1]> (rs_tasks c);
                    rs_clock := rs_clock c |} a'.
Proof.
  intros [Hh Hc Ht Hf] Hw o.
  destruct (turn_matched st (rs_clock c) a w tk (rs_repo c) f id Hh (Ht _ _ Hw) Hc Httl)
    as (a' & Hop & Hh' & Hg). exists a'.
  assert (∀ w', w' ≠ w → sp_seen a' !! w' = sp_seen a !! w') as Hoth.
  { intros w' Hne. destruct Hop as [->|(now & req & _ & _ & _ & ->)]; [done|by apply spec_op_other]. }
  split.
  - destruct Hop as [->|(now & req & H1 & H2 & H3 & ->)]; [by left|right]. by eexists _, _, _, _, _, _.
  - split; cbn [rs_repo rs_tasks rs_clock]; [done|done| |].
    + intros w' tk'. rewrite lookup_insert_Some. intros [[<- <-]|[Hne Hw']]; [done|].
      rewrite Hoth by done. by apply Ht.
    + intros w'. rewrite lookup_insert_None. intros [Hw' Hne]. rewrite Hoth by done. by apply Hf.
Qed.

Lemma step_matched c a ev c' :
  relay_inv st c a → event_ok st ev → relay_step st c ev = Some c' →
  ∃ a', follows st c ev a a' ∧ relay_inv st c' a'.
Proof.
  intros Hi Hev. destruct ev as [w req|w f id|t']; cbn [relay_step].
  - destruct (rs_tasks c !! w) eqn:Hw; [done|]. intros [= <-]. exists a. split; [by left|].
    destruct Hi as [Hh Hc Ht Hf]. split; cbn [rs_repo rs_tasks rs_clock]; [done|done| |].
    + intros w' tk'. rewrite lookup_insert_Some. intros [[<- <-]|[_ Hw']]; [|by apply Ht].
      split; cbn; [lia|]. by rewrite Hf.
    + intros w'. rewrite lookup_insert_None. intros [Hw' _]. by apply Hf.
  - destruct (rs_tasks c !! w) as [tk|] eqn:Hw; [|done]. destruct (runnable _ _ _); [|done].
    destruct (turn_inv c a w tk f id Hi Hw) as (a' & Hf & Hi').
    destruct (turn _ _ _ _ _ _ _) as [g s']. intros [= <-]. by exists a'.
  - destruct (Z.leb_spec (rs_clock c) t'); [|done]. intros [= <-]. exists a. split; [by left|].
    destruct Hi as [Hh Hc Ht Hf]. split; cbn [rs_repo rs_tasks rs_clock]; [done|done| |done].
    intros w tk Hw. eapply stage_inv_later; [exact H|by apply Ht].
Qed.

Lemma run_matched es c a c' :
  relay_inv st c a → Forall (event_ok st) es → relay_run st c es = Some c' →
  ∃ a', linearized st c a es c' a' ∧ relay_inv st c' a'.
Proof.
  intros Hi Hes. revert c a Hi. induction Hes as [|ev es Hev _ IH]; intros c a Hi; cbn [relay_run].
  - intros [= <-]. exists a. split; [constructor|done].
  - intros (c1 & H1 & H2)%bind_Some. destruct (step_matched c a ev c1 Hi Hev H1) as (a1 & Hf & Hi1).
    destruct (IH c1 a1 Hi1 H2) as (a' & Hl & Hi'). exists a'. split; [by econstructor|done].
Qed.

End Run.

(** The relay before its first request. *)
Definition relay_at (s : MailRepo) (t : Z) : RelayState :=
  {| rs_repo := s; rs_tasks := ∅; rs_clock := t |}.

(** C6: concurrent requests take effect one at a time.  The node is configured
    with a default lifetime of at least one second and at most the maximum, and
    its clock does not go back and shows times at which every lifetime within
    the maximum can be added and stored.  Take any interleaving of the turns of
    any number of pushes, polls, acknowledgements and sweeps, with any datastore
    faults and draws of ids.  It is
    matched by an execution of the abstract mailbox, one request at a time:
    each turn performs nothing or one abstract request, the one its client
    asked for under the node's policy, at a time the clock showed since the
    client's request arrived; for a push, an acknowledgement or a sweep this
    happens at most once.  The tables hold the abstract queues in the end, and
    every request that was answered got the answer of the abstract request
    made for it between its arrival and its answer; a request that failed had
    no effect, unless it was an acknowledgement. *)
Theorem relay_linearizes st s t m es c :
  1 <= default_ttl_seconds (st_config st) <= max_ttl_seconds (st_config st) →
  holds (db s) m → clock_ok st t → Forall (event_ok st) es →
  relay_run st (relay_at s t) es = Some c →
  ∃ a, linearized st (relay_at s t) {| sp_items := m; sp_seen := ∅ |} es c a ∧
    holds (db (rs_repo c)) (sp_items a) ∧
    ∀ w tk, rs_tasks c !! w = Some tk → answered a w tk.
Proof.
  intros Httl Hh Hc Hes Hrun.
  destruct (run_matched st Httl es (relay_at s t) {| sp_items := m; sp_seen := ∅ |} c) as (a & Hl & Hi); [|done|exact Hrun|].
  - by split.
  - exists a. split_and!; [done|by destruct Hi|]. intros w tk Hw.
    pose proof (ri_tasks _ _ _ Hi w tk Hw) as [_ H]. unfold answered.
    by destruct (tk_stage tk) as [| | | | | | | | |[]|].
Qed.

End Linear.
