(* ===== verification/RelayProgress.v ===== *)
(** * Concurrent requests come to an end

    Whatever the interleaving, a request is answered after at most five of its
    own turns, a poll waits at most the node's limit, and a poll that is
    registered when a push to its queue completes looks at the queue again. *)

From S2P Require Import Prelude.
From S2P Require Import Entities.
From S2P Require Import Mailbox.
From S2P Require Import MailboxSpec.
From S2P Require Import Relay.
From S2P Require Import RelayConcurrent.
From S2P Require Import RelayLinear.
#[local] Open Scope Z_scope.

Section Progress.
Context `{EX : Externals}.
Context (st : AppState).

(** ** Turns that are left *)

Definition rank (g : Stage) : nat :=
  match g with
  | Start _ => 5
  | Select _ _ _ _ (Some _) => 4
  | Register _ _ _ => 3
  | Waiting _ _ _ | Insert _ _ _ _ | Update _ _ _ => 2
  | Select _ _ _ _ None | Notify _ _ | Receipt _ _ _ | Delete _ => 1
  | Finished _ | Panicked => 0
  end.

Lemma rank_ended g : rank g = 0%nat ↔ ended g = true.
Proof. destruct g as [| | |? ? ? ? []| | | | | | |]; cbn; split; congruence. Qed.

(** The stage a computation ends in, if it ends well. *)
Definition leads {A} (m : Result CoreError A * MailRepo) (P : A → Prop) : Prop :=
  ∀ g s', m = (Ok g, s') → P g.

Lemma leads_settle (m : Result CoreError Stage * MailRepo) (P : Stage → Prop) :
  (∀ e, P (Finished (Err e))) → leads m P → P (settle m).1.
Proof. intros He Hm. destruct m as [[g|e] s']; [by eapply Hm|apply He]. Qed.

Lemma leads_bind {A B} (m : ST MailRepo CoreError A) (k : A → ST MailRepo CoreError B) s P :
  (∀ x s', m s = (Ok x, s') → leads (k x s') P) → leads (st_bind m k s) P.
Proof.
  intros H g s'. unfold st_bind. destruct (m s) as [[x|e] s1] eqn:E; [|done]. by eapply H.
Qed.

Lemma leads_ret {A} (x : A) s (P : A → Prop) : P x → leads (st_ret x s) P.
Proof. by intros H g s' [= <- _]. Qed.

Lemma leads_err {A} e s (P : A → Prop) : leads (st_err e s) P.
Proof. by intros g s' [=]. Qed.

Ltac lead :=
  repeat first [ apply leads_bind; intros ? ? _ | apply leads_ret | apply leads_err
               | match goal with
                 | |- leads ((if ?b then _ else _) _) _ => destruct b
                 | |- leads (match ?b with _ => _ end _) _ => destruct b
                 end ].

(** A turn of a task that has not ended brings it closer to its end; the only
    panic is that of a limit below one, and a poll waits at most
    [st_max_wait] seconds. *)
Definition advances (g : Stage) (now : Z) (g' : Stage) : Prop :=
  (rank g' < rank g)%nat ∧ (1 <= max_pull_limit (st_config st) → g' ≠ Panicked) ∧
  (∀ q limit d, g' = Waiting q limit d →
     d <= now + st_max_wait st * 1000 ∧ ∃ wait, g = Register q limit wait).

Lemma pull_begin_advances f now q limit wait s g :
  (match wait with Some _ => 4 | None => 1 end < rank g)%nat →
  leads (pull_begin st f now q limit wait s) (advances g now).
Proof.
  intros Hr. unfold pull_begin, clamp. destruct (Z.ltb_spec (max_pull_limit (st_config st)) 1).
  - apply leads_ret. split_and!; [destruct wait; cbn; lia|lia|done].
  - lead. split_and!; [by destruct wait|done|done].
Qed.

Lemma turn_advances w f id now g s :
  ended g = false → advances g now (turn st w f id now g s).1.
Proof.
  intros He.
  destruct g as [[hex body|hex limit wait|hex eid|]|q i env now'|q i|q limit eff now' [wait|]
    |q limit wait|q limit d|q i now'|q i now'|now'|r|]; try done; cbn [turn];
    try (apply leads_settle; [by intros e; split_and!; try done; cbn; lia|]).
  - unfold push_begin. lead; split_and!; try done; cbn; lia.
  - unfold pull_start. apply leads_bind. intros q s' _. apply pull_begin_advances. destruct wait; cbn; lia.
  - unfold ack_begin. lead; split_and!; try done; cbn; lia.
  - unfold sweep_begin. lead; split_and!; try done; cbn; lia.
  - unfold push_insert. lead; split_and!; try done; cbn; lia.
  - unfold push_notify. lead; split_and!; try done; cbn; lia.
  - unfold pull_select. lead; split_and!; try done; cbn; lia.
  - unfold pull_select. lead; split_and!; try done; cbn; lia.
  - split_and!; [cbn; lia|done|]. intros q' l' d' [= <- <- <-]. unfold effective_wait.
    split; [lia|by eexists].
  - unfold pull_resume. destruct (wait_end q w s) as [[] s'].
    + apply leads_settle; [by intros e; split_and!; try done; cbn; lia|].
      apply pull_begin_advances. cbn. lia.
    + split_and!; try done; cbn; lia.
  - unfold ack_update. lead; split_and!; try done; cbn; lia.
  - unfold ack_receipt. lead; split_and!; try done; cbn; lia.
  - unfold sweep_delete. lead; split_and!; try done; cbn; lia.
Qed.

(** ** Along a run *)

Definition turn_of (w : nat) (ev : RelayEvent) : bool :=
  match ev with Turn v _ _ => bool_decide (v = w) | _ => false end.

Definition turns_of (w : nat) (es : list RelayEvent) : nat := length (List.filter (turn_of w) es).

(** What holds of a task in a run: no panic with a sensible limit, and a wait
    that ends in time. *)
Definition task_fine (t : Z) (g : Stage) : Prop :=
  (1 <= max_pull_limit (st_config st) → g ≠ Panicked) ∧
  (∀ q limit d, g = Waiting q limit d → d <= t + st_max_wait st * 1000).

Definition all_fine (c : RelayState) : Prop :=
  ∀ w tk, rs_tasks c !! w = Some tk → task_fine (rs_clock c) (tk_stage tk).

Lemma turn_fine w f id now g s :
  task_fine now g → task_fine now (turn st w f id now g s).1.
Proof.
  intros Hg. destruct (ended g) eqn:He; [by destruct g|].
  destruct (turn_advances w f id now g s He) as (_ & H1 & H2). split; [done|].
  intros q limit d E. by apply (H2 q limit d).
Qed.

Lemma step_fine c ev c' : all_fine c → relay_step st c ev = Some c' → all_fine c'.
Proof.
  intros Hc. destruct ev as [w req|w f id|t]; cbn [relay_step].
  - destruct (rs_tasks c !! w); [done|]. intros [= <-] v tk. cbn [rs_tasks rs_clock].
    rewrite lookup_insert_Some. intros [[_ <-]|[_ H]]; [by split|]. by apply (Hc v).
  - destruct (rs_tasks c !! w) as [tk|] eqn:Hw; [|done]. destruct (runnable _ _ _); [|done].
    pose proof (turn_fine w f id (rs_clock c) _ (rs_repo c) (Hc w tk Hw)) as Ht.
    destruct (turn _ _ _ _ _ _ _) as [g s]. intros [= <-] v tk'. cbn [rs_tasks rs_clock].
    rewrite lookup_insert_Some. intros [[_ <-]|[_ H]]; [done|]. by apply (Hc v).
  - destruct (Z.leb_spec (rs_clock c) t); [|done]. intros [= <-] v tk Hv. cbn [rs_tasks rs_clock] in *.
    destruct (Hc v tk Hv) as [H1 H2]. split; [done|]. intros q l d E. specialize (H2 q l d E). lia.
Qed.

Lemma run_fine es c c' : all_fine c → relay_run st c es = Some c' → all_fine c'.
Proof.
  revert c. induction es as [|ev es IH]; intros c Hc; cbn [relay_run]; [by intros [= <-]|].
  intros (c1 & H1 & H2)%bind_Some. eapply IH; [|exact H2]. by eapply step_fine.
Qed.

(** A step keeps every task, and takes one turn off the task that runs. *)
Lemma step_rank c ev c' w tk :
  rs_tasks c !! w = Some tk → relay_step st c ev = Some c' →
  ∃ tk', rs_tasks c' !! w = Some tk' ∧
    (rank (tk_stage tk') ≤ rank (tk_stage tk) - (if turn_of w ev then 1 else 0))%nat.
Proof.
  intros Hw. destruct ev as [v req|v f id|t]; cbn [relay_step turn_of].
  - destruct (rs_tasks c !! v) eqn:Hv; [done|]. intros [= <-]. exists tk. cbn [rs_tasks].
    rewrite lookup_insert_ne by congruence. split; [done|lia].
  - destruct (rs_tasks c !! v) as [tkv|] eqn:Hv; [|done]. destruct (runnable _ _ _); [|done].
    destruct (turn _ _ _ _ _ _ _) as [g s] eqn:Ht. intros [= <-]. cbn [rs_tasks].
    destruct (decide (v = w)) as [->|Hne]; cycle 1.
    { rewrite bool_decide_false, lookup_insert_ne by done. exists tk. split; [done|lia]. }
    rewrite bool_decide_true, lookup_insert_eq by done. eexists. split; [done|]. cbn [tk_stage].
    replace tkv with tk in Ht by congruence. destruct (ended (tk_stage tk)) eqn:He.
    + destruct (tk_stage tk); try done; injection Ht as <- _; cbn; lia.
    + pose proof (turn_advances w f id (rs_clock c) _ (rs_repo c) He) as [Hr _].
      rewrite Ht in Hr. cbn [fst] in Hr. lia.
  - destruct (rs_clock c <=? t); [|done]. intros [= <-]. exists tk. split; [done|lia].
Qed.

Lemma run_rank es c c' w tk :
  rs_tasks c !! w = Some tk → relay_run st c es = Some c' →
  ∃ tk', rs_tasks c' !! w = Some tk' ∧
    (rank (tk_stage tk') ≤ rank (tk_stage tk) - turns_of w es)%nat.
Proof.
  revert c tk. induction es as [|ev es IH]; intros c tk Hw; cbn [relay_run].
  - intros [= <-]. exists tk. split; [done|cbn; lia].
  - intros (c1 & H1 & H2)%bind_Some. destruct (step_rank c ev c1 w tk Hw H1) as (tk1 & Hw1 & Hr1).
    destruct (IH c1 tk1 Hw1 H2) as (tk' & Hw' & Hr'). exists tk'. split; [done|].
    unfold turns_of in *. cbn [List.filter]. destruct (turn_of w ev); cbn [length]; lia.
Qed.

Lemma relay_run_app es1 es2 c : relay_run st c (es1 ++ es2) = (relay_run st c es1 ≫= λ c', relay_run st c' es2).
Proof.
  revert c. induction es1 as [|ev es1 IH]; intros c; [done|]. cbn [relay_run app].
  destruct (relay_step st c ev); [|done]. cbn. apply IH.
Qed.

(** C20: every request is answered.  The node is configured with a pull limit of
    at least one (below it, the clamping of the limit panics).  In every
    interleaving, with any datastore faults, a request that has had five turns
    since it arrived has its answer, and the only turn a request ever has to
    wait for, that of a poll that waits for an arrival, comes at the latest when
    the node's longest wait is over. *)
Theorem every_request_is_answered s t es es' w req c :
  1 <= max_pull_limit (st_config st) →
  relay_run st (relay_at s t) (es ++ Arrive w req :: es') = Some c → (5 ≤ turns_of w es')%nat →
  (∃ tk r, rs_tasks c !! w = Some tk ∧ tk_stage tk = Finished r) ∧
  ∀ v tk, rs_tasks c !! v = Some tk →
    runnable c v (tk_stage tk) = true ∨
    ∃ q limit d, tk_stage tk = Waiting q limit d ∧
      rs_clock c < d <= rs_clock c + st_max_wait st * 1000.
Proof.
  intros Hl Hrun H5. assert (all_fine c) as Hf by by eapply (run_fine _ (relay_at s t)).
  split.
  - rewrite relay_run_app in Hrun. apply bind_Some in Hrun as (c1 & _ & Hrun).
    cbn [relay_run] in Hrun. apply bind_Some in Hrun as (c2 & H2 & Hrun).
    cbn [relay_step] in H2. destruct (rs_tasks c1 !! w); [done|]. injection H2 as <-.
    edestruct (run_rank _ _ _ w _ (lookup_insert_eq _ _ _) Hrun) as (tk & Hw & Hr).
    cbn [tk_stage rank] in Hr. exists tk. destruct (Hf w tk Hw) as [Hp _].
    assert (rank (tk_stage tk) = 0%nat) as H0%rank_ended by lia.
    destruct (tk_stage tk); try done; [by eexists|by destruct Hp].
  - intros v tk Hv. destruct (Hf v tk Hv) as [_ Hd]. destruct (tk_stage tk) as [| | | | |q l d| | | | |]; try by left.
    cbn [runnable]. destruct (Z.leb_spec d (rs_clock c)); [left; by rewrite orb_true_r|].
    right. eexists _, _, _. split; [done|]. specialize (Hd _ _ _ eq_refl). lia.
Qed.

(** ** Arrivals reach the polls that wait *)

Definition registered (w : nat) (q : QueueId) (s : MailRepo) : Prop :=
  w ∈ default ∅ (waiters s !! queue_bytes q) ∨ w ∈ woken s.

Definition same_waits (s s' : MailRepo) : Prop := waiters s' = waiters s ∧ woken s' = woken s.

(** Computations that do not touch the notifiers. *)
Definition calm_on {A} (m : ST MailRepo CoreError A) : Prop := ∀ s, same_waits s (m s).2.

Lemma calm_bind {A B} (m : ST MailRepo CoreError A) (k : A → ST MailRepo CoreError B) :
  calm_on m → (∀ x, calm_on (k x)) → calm_on (st_bind m k).
Proof.
  intros Hm Hk s. unfold st_bind. specialize (Hm s). destruct (m s) as [[x|e] s1]; [|done].
  destruct (Hk x s1) as [H1 H2], Hm as [H3 H4]. split; [by rewrite H1|by rewrite H2].
Qed.

Lemma calm_db_call {A} f i (m : Db → Result string A * Db) : calm_on (db_call f i m).
Proof. intros s. unfold db_call. destruct (f i); [done|]. by destruct (m (db s)). Qed.

Lemma calm_pure {A} (r : Result CoreError A) : calm_on (λ s, (r, s)).
Proof. done. Qed.

Lemma calm_settle (m : ST MailRepo CoreError Stage) s : calm_on m → same_waits s (settle (m s)).2.
Proof. intros H. specialize (H s). by destruct (m s) as [[] ?]. Qed.

Ltac calm :=
  repeat first [ apply calm_bind; [|intros ?] | apply calm_db_call | apply calm_pure
               | match goal with |- calm_on (if ?b then _ else _) => destruct b
                 | |- calm_on (match ?b with _ => _ end) => destruct b end ].

Lemma pull_begin_calm f now q limit wait : calm_on (pull_begin st f now q limit wait).
Proof. unfold pull_begin. calm. Qed.

(** A turn of another task keeps what [w] is registered for. *)
Definition keeps_waits (w : nat) (s s' : MailRepo) : Prop :=
  (∀ q, registered w q s → registered w q s') ∧ (w ∈ woken s → w ∈ woken s').

Lemma same_keeps w s s' : same_waits s s' → keeps_waits w s s'.
Proof. intros [H1 H2]. split; [intros q|]; unfold registered; by rewrite ?H1, H2. Qed.

Lemma notify_keeps w q s : keeps_waits w s (notify_waiters (queue_bytes q) s).2.
Proof.
  split; cbn; [|set_solver]. intros q'. unfold registered. cbn [waiters woken].
  destruct (decide (queue_bytes q' = queue_bytes q)) as [->|Hne].
  - rewrite lookup_insert_eq. set_solver.
  - rewrite lookup_insert_ne by done. set_solver.
Qed.

Lemma begin_keeps w v q s : keeps_waits w s (wait_begin q v s).
Proof.
  split; [|done]. intros q'. unfold registered. cbn [wait_begin waiters woken].
  destruct (decide (queue_bytes q' = queue_bytes q)) as [->|Hne].
  - rewrite lookup_insert_eq. cbn. set_solver.
  - by rewrite lookup_insert_ne.
Qed.

Lemma end_keeps w v q s : w ≠ v → keeps_waits w s (wait_end q v s).2.
Proof.
  intros Hv. split; cbn; [|set_solver]. intros q'. unfold registered. cbn [waiters woken].
  destruct (decide (queue_bytes q' = queue_bytes q)) as [->|Hne].
  - rewrite lookup_insert_eq. cbn. set_solver.
  - rewrite lookup_insert_ne by done. set_solver.
Qed.

Lemma turn_keeps w v f id now g s :
  w ≠ v → keeps_waits w s (turn st v f id now g s).2.
Proof.
  intros Hv.
  destruct g as [[hex body|hex limit wait|hex eid|]|q i env now'|q i|q limit eff now' wait
    |q limit wait|q limit d|q i now'|q i now'|now'|r|]; cbn [turn];
    try (match goal with |- context [push_notify] => fail 1 | _ => apply same_keeps, calm_settle end).
  - unfold push_begin. calm.
  - unfold pull_start. apply calm_bind; [apply calm_pure|]. intros. apply pull_begin_calm.
  - unfold ack_begin. calm.
  - unfold sweep_begin. calm.
  - unfold push_insert. calm.
  - exact (notify_keeps w q s).
  - unfold pull_select. calm.
  - apply begin_keeps.
  - unfold pull_resume. pose proof (end_keeps w v q s Hv) as He.
    destruct (wait_end q v s) as [[] s1]; [|done]. cbn [snd] in He.
    destruct He as [H1 H2]. destruct (same_keeps w _ _ (calm_settle _ s1 (pull_begin_calm f now q limit None)))
      as [H3 H4]. split; auto.
  - unfold ack_update. calm.
  - unfold ack_receipt. calm.
  - unfold sweep_delete. calm.
  - by apply same_keeps.
  - by apply same_keeps.
Qed.

(** A poll that waits is registered or was woken. *)
Definition polls_registered (c : RelayState) : Prop :=
  ∀ w tk q limit d, rs_tasks c !! w = Some tk → tk_stage tk = Waiting q limit d →
    registered w q (rs_repo c).

Lemma turn_registers w f id now g s q limit d :
  ended g = false → (turn st w f id now g s).1 = Waiting q limit d →
  registered w q (turn st w f id now g s).2.
Proof.
  intros He Hg. destruct (turn_advances w f id now g s He) as (_ & _ & H).
  destruct (H q limit d Hg) as (_ & wt & ->). left. cbn [turn pull_register snd wait_begin waiters].
  rewrite lookup_insert_eq. cbn. set_solver.
Qed.

Lemma step_registered c ev c' :
  polls_registered c → relay_step st c ev = Some c' → polls_registered c'.
Proof.
  intros Hc. destruct ev as [v req|v f id|t]; cbn [relay_step].
  - destruct (rs_tasks c !! v); [done|]. intros [= <-] w tk q l d. cbn [rs_tasks rs_repo].
    rewrite lookup_insert_Some. intros [[_ <-]|[_ H]]; [done|]. by eapply Hc.
  - destruct (rs_tasks c !! v) as [tkv|] eqn:Hv; [|done]. destruct (runnable _ _ _); [|done].
    destruct (turn _ _ _ _ _ _ _) as [g s] eqn:Ht. intros [= <-] w tk q l d. cbn [rs_tasks rs_repo].
    rewrite lookup_insert_Some. intros [[<- <-]|[Hne H]] Hg.
    + cbn [tk_stage] in Hg. subst g. destruct (ended (tk_stage tkv)) eqn:He.
      { destruct (tk_stage tkv); try done; by injection Ht. }
      pose proof (turn_registers v f id (rs_clock c) _ (rs_repo c) q l d He) as Hr.
      rewrite Ht in Hr. by apply Hr.
    + destruct (turn_keeps w v f id (rs_clock c) (tk_stage tkv) (rs_repo c) (not_eq_sym Hne)) as [Hk _].
      rewrite Ht in Hk. apply Hk. by eapply Hc.
  - destruct (rs_clock c <=? t); [|done]. intros [= <-]. exact Hc.
Qed.

Lemma run_registered es c c' : polls_registered c → relay_run st c es = Some c' → polls_registered c'.
Proof.
  revert c. induction es as [|ev es IH]; intros c Hc; cbn [relay_run]; [by intros [= <-]|].
  intros (c1 & H1 & H2)%bind_Some. eapply IH; [|exact H2]. by eapply step_registered.
Qed.

(** As long as [w] does not run, it keeps its stage and stays woken. *)
Lemma step_woken c ev c' w tk :
  rs_tasks c !! w = Some tk → w ∈ woken (rs_repo c) → turn_of w ev = false →
  relay_step st c ev = Some c' → rs_tasks c' !! w = Some tk ∧ w ∈ woken (rs_repo c').
Proof.
  intros Hw Hk Hev. destruct ev as [v req|v f id|t]; cbn [relay_step turn_of] in *.
  - destruct (rs_tasks c !! v) eqn:Hv; [done|]. intros [= <-]. cbn [rs_tasks rs_repo].
    by rewrite lookup_insert_ne by congruence.
  - apply bool_decide_eq_false in Hev.
    destruct (rs_tasks c !! v) as [tkv|] eqn:Hv; [|done]. destruct (runnable _ _ _); [|done].
    destruct (turn_keeps w v f id (rs_clock c) (tk_stage tkv) (rs_repo c) (not_eq_sym Hev)) as [_ H].
    destruct (turn _ _ _ _ _ _ _) as [g s]. intros [= <-]. cbn [rs_tasks rs_repo].
    rewrite lookup_insert_ne by done. auto.
  - destruct (rs_clock c <=? t); [|done]. by intros [= <-].
Qed.

Lemma run_woken es c c' w tk :
  rs_tasks c !! w = Some tk → w ∈ woken (rs_repo c) → turns_of w es = 0%nat →
  relay_run st c es = Some c' → rs_tasks c' !! w = Some tk ∧ w ∈ woken (rs_repo c').
Proof.
  revert c. induction es as [|ev es IH]; intros c Hw Hk H0; cbn [relay_run]; [by intros [= <-]|].
  intros (c1 & H1 & H2)%bind_Some. unfold turns_of in H0. cbn [List.filter] in H0.
  destruct (turn_of w ev) eqn:Hev; [done|].
  destruct (step_woken c ev c1 w tk Hw Hk Hev H1) as [Hw1 Hk1]. by apply (IH c1).
Qed.

Lemma notify_wakes c v f id tkv w q i c' :
  rs_tasks c !! v = Some tkv → tk_stage tkv = Notify q i → registered w q (rs_repo c) →
  relay_step st c (Turn v f id) = Some c' → w ∈ woken (rs_repo c').
Proof.
  intros Hv Hg Hr. cbn [relay_step]. rewrite Hv, Hg. cbn. intros [= <-]. cbn.
  unfold registered in Hr. set_solver.
Qed.

(** C19: no arrival is missed by a poll that waits.  Take any interleaving that
    leads to a state in which poll [w] waits on a queue and a push to the same
    queue has stored its envelope and is about to notify.  Once the push has
    notified, whatever the other requests do and however late [w] runs next,
    it does not answer that there was nothing: it looks at the queue again,
    unless it cannot connect to the datastore. *)
Theorem arrival_reaches_waiting_poll s t es c w tk q limit d v tkv i f id es' c' :
  1 <= max_pull_limit (st_config st) →
  relay_run st (relay_at s t) es = Some c →
  rs_tasks c !! w = Some tk → tk_stage tk = Waiting q limit d →
  rs_tasks c !! v = Some tkv → tk_stage tkv = Notify q i →
  relay_run st c (Turn v f id :: es') = Some c' → turns_of w es' = 0%nat →
  ∀ f' id', ∃ c'' tk'', relay_step st c' (Turn w f' id') = Some c'' ∧
    rs_tasks c'' !! w = Some tk'' ∧
    match f' 0%nat with
    | None => ∃ eff, 1 <= eff <= max_pull_limit (st_config st) ∧
                tk_stage tk'' = Select q limit eff (rs_clock c') None
    | Some e => tk_stage tk'' = Finished (Err (Repo e))
    end.
Proof.
  intros Hl Hrun Hw Hg Hv Hgv Hrun' H0 f' id'.
  assert (registered w q (rs_repo c)) as Hreg.
  { eapply (run_registered es (relay_at s t)); [by intros ? ? ? ? ?; cbn; rewrite lookup_empty|done..]. }
  cbn [relay_run] in Hrun'. apply bind_Some in Hrun' as (c1 & H1 & H2).
  pose proof (notify_wakes c v f id tkv w q i c1 Hv Hgv Hreg H1) as Hk.
  assert (rs_tasks c1 !! w = Some tk) as Hw1.
  { cbn [relay_step] in H1. rewrite Hv in H1. destruct (runnable _ _ _); [|done].
    destruct (turn _ _ _ _ _ _ _). injection H1 as <-. cbn [rs_tasks].
    rewrite lookup_insert_ne; [done|congruence]. }
  destruct (run_woken es' c1 c' w tk Hw1 Hk H0 H2) as [Hw' Hk'].
  cbn [relay_step]. rewrite Hw', Hg. cbn [runnable]. rewrite bool_decide_true by done. cbn [orb turn].
  unfold pull_resume, wait_end. rewrite bool_decide_true by done.
  unfold pull_begin, clamp. rewrite (proj2 (Z.ltb_ge _ _)) by lia. unfold st_bind.
  rewrite db_call_connect. destruct (f' 0%nat); cbn [settle st_ret]; eexists _, _;
    (split; [reflexivity|]); cbn [rs_tasks]; rewrite lookup_insert_eq; (split; [reflexivity|]); [done|].
  eexists. split; [|reflexivity]. lia.
Qed.
End Progress.

(** ** Witnesses *)

(** Two pushes overlap and a poll waits: the second push stores first, the poll
    is woken by it and finds both, in the order of their time stamps. *)
Module ConcurrentSample.
#[local] Existing Instance model_externals.
Definition st : AppState := RelaySample.st.
Definition hex : string := QueueId_to_string MailboxSample.q1.
Definition calm : Faults := λ _, None.
Definition idA : EnvelopeId := [Byte.x0a].
Definition idB : EnvelopeId := [Byte.x0b].
Definition body (b : Byte.byte) : PushEnvelope := {| pe_payload := [b]; pe_ttl_seconds := 60 |}.

Definition until_waiting : list RelayEvent :=
  [Arrive 3 (QPull hex None (Some 20)); Turn 3 calm idA; Turn 3 calm idA; Turn 3 calm idA;
   Arrive 1 (QPush hex (body Byte.x61)); Arrive 2 (QPush hex (body Byte.x62));
   Turn 1 calm idA; Tick 2000; Turn 2 calm idB; Turn 2 calm idB; Turn 1 calm idA].
Definition after_notify : list RelayEvent := [Tick 3000; Turn 1 calm idA].
Definition to_the_end : list RelayEvent :=
  [Turn 2 calm idB; Tick 3000; Turn 1 calm idA; Turn 3 calm idA; Turn 3 calm idA].
Definition schedule : list RelayEvent := until_waiting ++ to_the_end.

Definition start : RelayState := relay_at MailboxSample.empty 1000.
Definition middle : RelayState := default start (relay_run st start until_waiting).
Definition finish : RelayState := default start (relay_run st start schedule).

Definition reached (o : option RelayState) : bool := match o with Some _ => true | None => false end.

Lemma reached_default o c : reached o = true → o = Some (default c o).
Proof. by destruct o. Qed.

Lemma middle_reached : relay_run st start until_waiting = Some middle.
Proof. apply reached_default. by vm_compute. Qed.
Lemma finish_reached : relay_run st start schedule = Some finish.
Proof. apply reached_default. by vm_compute. Qed.

Definition contents (g : Stage) : list (bytes * Z) :=
  match g with
  | Finished (Ok (Pulled l)) => (λ e, (se_payload e, se_received_at e)) <$> l
  | _ => []
  end.

Definition found (c : RelayState) (w : nat) : option (list (bytes * Z)) :=
  contents ∘ tk_stage <$> rs_tasks c !! w.

Lemma poll_found : found finish 3 = Some [([Byte.x61], 1000); ([Byte.x62], 2000)].
Proof. by vm_compute. Qed.

Lemma clock_fine t : 0 <= t <= 1000000 → clock_ok st t.
Proof.
  intros Ht. split; [cbn; lia|]. intros ttl Httl. cbn in Httl. cbn [dt_in_range model_externals].
  unfold sat64, i64_min, i64_max. lia.
Qed.

Definition waits (g : Stage) : option (bytes * Z * Z) :=
  match g with Waiting q limit d => Some (queue_bytes q, limit, d) | _ => None end.
Definition notifies (g : Stage) : option bytes :=
  match g with Notify q _ => Some (queue_bytes q) | _ => None end.

Lemma waits_inv g q l d : waits g = Some (queue_bytes q, l, d) → g = Waiting q l d.
Proof. destruct g as [| | | | |[b] l' d'| | | | |]; try done. destruct q. by intros [= -> -> ->]. Qed.

Lemma notifies_inv g q : notifies g = Some (queue_bytes q) → ∃ i, g = Notify q i.
Proof. destruct g as [| |[b] i| | | | | | | |]; try done. destruct q. intros [= ->]. by exists i. Qed.

Lemma poll_waits : ∃ tk, rs_tasks middle !! 3%nat = Some tk ∧
  tk_stage tk = Waiting MailboxSample.q1 100 21000.
Proof.
  assert ((rs_tasks middle !! 3%nat ≫= waits ∘ tk_stage) = Some (queue_bytes MailboxSample.q1, 100, 21000))
    as (tk & Hk & Hw)%bind_Some by by vm_compute.
  exists tk. exact (conj Hk (waits_inv _ _ _ _ Hw)).
Qed.

Lemma push_notifies : ∃ tk i, rs_tasks middle !! 2%nat = Some tk ∧
  tk_stage tk = Notify MailboxSample.q1 i.
Proof.
  assert ((rs_tasks middle !! 2%nat ≫= notifies ∘ tk_stage) = Some (queue_bytes MailboxSample.q1))
    as (tk & Hk & Hw)%bind_Some by by vm_compute.
  destruct (notifies_inv _ _ Hw) as [i Hi]. exists tk, i. exact (conj Hk Hi).
Qed.

Definition notified : RelayState :=
  default start (relay_run st middle (Turn 2 calm idB :: after_notify)).
Lemma notified_reached : relay_run st middle (Turn 2 calm idB :: after_notify) = Some notified.
Proof. apply reached_default. by vm_compute. Qed.

Lemma ticks_fine : Forall (event_ok st) schedule.
Proof.
  unfold schedule, until_waiting, to_the_end. rewrite Forall_app, !Forall_cons.
  split_and!; try done; apply clock_fine; lia.
Qed.
End ConcurrentSample.

Lemma relay_linearizes_witness :
  ConcurrentSample.found ConcurrentSample.finish 3 = Some [([Byte.x61], 1000); ([Byte.x62], 2000)] ∧
  ∃ a, linearized ConcurrentSample.st ConcurrentSample.start {| sp_items := []; sp_seen := ∅ |}
         ConcurrentSample.schedule ConcurrentSample.finish a ∧
    ∀ w tk, rs_tasks ConcurrentSample.finish !! w = Some tk → answered a w tk.
Proof.
  split; [exact ConcurrentSample.poll_found|].
  destruct (relay_linearizes ConcurrentSample.st MailboxSample.empty 1000 []
    ConcurrentSample.schedule ConcurrentSample.finish ltac:(cbn; lia)
    (sim_holds 0 _ _ MailboxSample.sim_empty) (ConcurrentSample.clock_fine 1000 ltac:(lia))
    ConcurrentSample.ticks_fine ConcurrentSample.finish_reached) as (a & H1 & _ & H2).
  exists a. exact (conj H1 H2).
Defined.

Lemma every_request_is_answered_witness :
  ∃ tk r, rs_tasks ConcurrentSample.finish !! 3%nat = Some tk ∧ tk_stage tk = Finished r.
Proof.
  exact (proj1 (every_request_is_answered ConcurrentSample.st MailboxSample.empty 1000 []
    (tail ConcurrentSample.schedule) 3 (QPull ConcurrentSample.hex None (Some 20))
    ConcurrentSample.finish ltac:(cbn; lia) ConcurrentSample.finish_reached (le_n 5))).
Defined.

Lemma arrival_reaches_waiting_poll_witness :
  ∃ c tk eff, relay_step ConcurrentSample.st ConcurrentSample.notified
      (Turn 3 ConcurrentSample.calm ConcurrentSample.idA) = Some c ∧
    rs_tasks c !! 3%nat = Some tk ∧
    tk_stage tk = Select MailboxSample.q1 100 eff (rs_clock ConcurrentSample.notified) None.
Proof.
  destruct ConcurrentSample.poll_waits as (tk & Hw & Hg).
  destruct ConcurrentSample.push_notifies as (tkv & i & Hv & Hn).
  destruct (arrival_reaches_waiting_poll ConcurrentSample.st MailboxSample.empty 1000
    ConcurrentSample.until_waiting ConcurrentSample.middle 3 tk MailboxSample.q1 100 21000 2 tkv i
    ConcurrentSample.calm ConcurrentSample.idB ConcurrentSample.after_notify ConcurrentSample.notified
    ltac:(cbn; lia) ConcurrentSample.middle_reached Hw Hg Hv Hn ConcurrentSample.notified_reached
    eq_refl ConcurrentSample.calm ConcurrentSample.idA) as (c & tk' & H1 & H2 & eff & _ & H3).
  exists c, tk', eff. exact (conj H1 (conj H2 H3)).
Defined.
