(* ===== verification/MailboxPort.v ===== *)
(** * The mailbox port: [buh-core/src/ports.rs] and its client
    [buh-core/src/mailbox.rs]

    The trait [MailboxRepo] as a class of operations with a contract in terms
    of the abstract queues.  The functions of [core/mailbox.rs] are written
    against the operations and their theorems are proved from the contract;
    [TursoMailboxRepo] meets it whatever the datastore answers. *)

From S2P Require Import Prelude.
From S2P Require Import Entities.
From S2P Require Import Mailbox.
From S2P Require Import MailboxSpec.
From S2P Require Import RelayConcurrent.
From S2P Require Import RelayLinear.
#[local] Open Scope Z_scope.

Section Port.
Context `{EX : Externals}.

(** What the outside contributes to a call: faults, the clock, the id drawn. *)
Record Outside := { ou_faults : Faults; ou_now : Z; ou_id : EnvelopeId }.

Class MailboxRepo (S : Type) := {
  port_push : Outside → QueueId → NewEnvelope → ST S CoreError EnvelopeId;
  port_pull : Outside → QueueId → Z → ST S CoreError (list StoredEnvelope);
  port_ack : Outside → QueueId → EnvelopeId → Z → ST S CoreError bool;
  port_expire : Outside → Z → ST S CoreError Z;
  (** [wait_for_envelope]: registration and end of the wait. *)
  port_wait_begin : QueueId → nat → S → S;
  port_wait_end : QueueId → nat → S → bool * S;
}.

(** The times of a push can be represented. *)
Definition representable (o : Outside) (env : NewEnvelope) : Prop :=
  dt_in_range (ou_now o) = true ∧
  dt_in_range (sat64 (ou_now o + sat64 (ne_ttl_seconds env * 1000))) = true.

(** The contract: what state [s] holds is the queues [m] with [port_holds s m]. *)
Class MailboxContract (S : Type) `{MR : !MailboxRepo S} := {
  port_holds : S → list Item → Prop;
  port_push_law o q env s m r s' :
    port_holds s m → representable o env → port_push o q env s = (r, s') →
    match r with
    | Ok id => port_holds s' (q_insert (queue_bytes q) (stored id env (ou_now o)) m)
    | Err _ => port_holds s' m
    end;
  port_pull_law o q limit s m r s' :
    port_holds s m → port_pull o q limit s = (r, s') →
    port_holds s' m ∧ ∀ l, r = Ok l → l = q_pull (queue_bytes q) (ou_now o) limit m;
  port_ack_law o q id at_ms s m r s' :
    port_holds s m → port_ack o q id at_ms s = (r, s') →
    match r with
    | Ok b => b = (q_ack (queue_bytes q) id m).1 ∧ port_holds s' (q_ack (queue_bytes q) id m).2
    | Err _ => port_holds s' m ∨ port_holds s' (q_ack (queue_bytes q) id m).2
    end;
  port_expire_law o now s m r s' :
    port_holds s m → port_expire o now s = (r, s') →
    match r with Ok _ => port_holds s' (q_sweep now m) | Err _ => port_holds s' m end;
  port_wait_law q w s m :
    port_holds s m → port_holds (port_wait_begin q w s) m ∧ port_holds (port_wait_end q w s).2 m;
}.

(** ** [core/mailbox.rs] on the port *)

Section Core.
Context {S : Type} `{MR : !MailboxRepo S} (config : CoreConfig).

Definition core_push (o : Outside) (queue_id : QueueId) (req : PushEnvelope) : ST S CoreError EnvelopeId :=
  if blen (pe_payload req) =? 0 then st_err (Validation (InvalidPayload "empty"))
  else if max_payload_bytes config <? blen (pe_payload req)
  then st_err (Validation (InvalidPayload "exceeds size limit"))
  else
    let ttl := clamp_ttl (pe_ttl_seconds req) config in
    port_push o queue_id {| ne_payload := pe_payload req; ne_ttl_seconds := ttl |}.

Definition core_pull (o : Outside) (queue_id : QueueId) (limit : Z) :
    PST S CoreError (list StoredEnvelope) :=
  match clamp limit 1 (max_pull_limit config) with
  | None => λ _, None
  | Some limit => pst_of (port_pull o queue_id limit)
  end.

Definition core_ack (o : Outside) (queue_id : QueueId) (envelope_id : EnvelopeId) : ST S CoreError bool :=
  port_ack o queue_id envelope_id (ou_now o).

Definition core_sweep (o : Outside) : ST S CoreError Z := port_expire o (ou_now o).

(** A sequence of calls by any clients, and the waits of polls. *)
Inductive CoreCall : Type :=
| CPush (o : Outside) (q : QueueId) (req : PushEnvelope)
| CPull (o : Outside) (q : QueueId) (limit : Z)
| CAck (o : Outside) (q : QueueId) (id : EnvelopeId)
| CSweep (o : Outside)
| CWait (q : QueueId) (w : nat)
| CWaited (q : QueueId) (w : nat).

Definition core_call (c : CoreCall) (s : S) : option S :=
  match c with
  | CPush o q req => Some (core_push o q req s).2
  | CPull o q limit => snd <$> core_pull o q limit s
  | CAck o q id => Some (core_ack o q id s).2
  | CSweep o => Some (core_sweep o s).2
  | CWait q w => Some (port_wait_begin q w s)
  | CWaited q w => Some (port_wait_end q w s).2
  end.

Fixpoint core_calls (cs : list CoreCall) (s : S) : option S :=
  match cs with [] => Some s | c :: cs => s ← core_call c s; core_calls cs s end.
End Core.

(** ** Policy *)

(** What the node's policy says of an envelope it holds. *)
Definition obeys (config : CoreConfig) (env : StoredEnvelope) : Prop :=
  0 < blen (se_payload env) <= max_payload_bytes config ∧
  se_received_at env < se_expires_at env <= se_received_at env + max_ttl_seconds config * 1000.

Definition received_le (i j : Item) : Prop := se_received_at (it_env i) <= se_received_at (it_env j).

(** The queues obey the policy and are in the order of arrival times. *)
Definition fine_queues (config : CoreConfig) (m : list Item) : Prop :=
  Forall (obeys config ∘ it_env) m ∧ StronglySorted received_le m.

Definition call_ok (config : CoreConfig) (c : CoreCall) : Prop :=
  match c with
  | CPush o _ req =>
      0 <= ou_now o ∧ ou_now o + max_ttl_seconds config * 1000 <= i64_max ∧
      representable o {| ne_payload := pe_payload req;
                         ne_ttl_seconds := clamp_ttl (pe_ttl_seconds req) config |}
  | _ => True
  end.

Lemma q_insert_fine config queue env m :
  fine_queues config m → obeys config env → fine_queues config (q_insert queue env m).
Proof.
  intros [Ho Hs] He. split; unfold q_insert.
  - rewrite !Forall_app, Forall_singleton. rewrite Forall_forall in Ho.
    split_and!; [|done|]; apply Forall_forall; intros i [_ Hi]%list_elem_of_filter; auto.
  - apply StronglySorted_app_2; [|by apply StronglySorted_filter|
      apply StronglySorted_app_2; [|repeat constructor|by apply StronglySorted_filter]];
      unfold received_le.
    + intros i j [Hi _]%list_elem_of_filter [->%list_elem_of_singleton|[Hj _]%list_elem_of_filter]%elem_of_app;
        cbn; lia.
    + intros i j ->%list_elem_of_singleton [Hj _]%list_elem_of_filter. cbn. lia.
Qed.

Lemma filter_fine config (P : Item → Prop) `{∀ i, Decision (P i)} m :
  fine_queues config m → fine_queues config (filter P m).
Proof.
  intros [Ho Hs]. split; [|by apply StronglySorted_filter].
  rewrite Forall_forall in *. intros i [_ Hi]%list_elem_of_filter. auto.
Qed.

Lemma stored_obeys config id p ttl now :
  0 < blen p <= max_payload_bytes config → 1 <= ttl <= max_ttl_seconds config →
  0 <= now → now + max_ttl_seconds config * 1000 <= i64_max →
  obeys config (stored id {| ne_payload := p; ne_ttl_seconds := ttl |} now).
Proof.
  intros Hp Ht Hn Hm. split; [done|]. cbn. unfold sat64, i64_min, i64_max in *. lia.
Qed.

Context {S : Type} `{MR : !MailboxRepo S} `{MC : !MailboxContract S}.

Section Calls.
Context (config : CoreConfig).
Context (Httl : 1 <= default_ttl_seconds config <= max_ttl_seconds config).

Lemma core_call_fine c s m s' :
  port_holds s m → fine_queues config m → call_ok config c → core_call config c s = Some s' →
  ∃ m', port_holds s' m' ∧ fine_queues config m'.
Proof.
  intros Hh Hf Hok. destruct c as [o q req|o q limit|o q id|o|q w|q w]; cbn [core_call].
  - intros [= <-]. unfold core_push, st_err.
    destruct (Z.eqb_spec (blen (pe_payload req)) 0); [by exists m|].
    destruct (Z.ltb_spec (max_payload_bytes config) (blen (pe_payload req))); [by exists m|].
    destruct Hok as (Hn & Hx & Hr). destruct (port_push _ _ _ s) as [r s1] eqn:E.
    pose proof (port_push_law _ _ _ _ _ _ _ Hh Hr E) as Hl. destruct r as [id|e]; [|by exists m].
    eexists. split; [exact Hl|]. apply q_insert_fine; [done|].
    apply stored_obeys; [unfold blen in *; lia| |done|done].
    unfold clamp_ttl. destruct (Z.leb_spec (pe_ttl_seconds req) 0); lia.
  - unfold core_pull, pst_of. destruct (clamp _ _ _) as [eff|]; [|done]. intros [= <-].
    destruct (port_pull _ _ _ s) as [r s1] eqn:E. exists m.
    by destruct (port_pull_law _ _ _ _ _ _ _ Hh E).
  - intros [= <-]. unfold core_ack. destruct (port_ack _ _ _ _ s) as [r s1] eqn:E.
    pose proof (port_ack_law _ _ _ _ _ _ _ _ Hh E) as Hl.
    assert (∃ m', port_holds s1 m' ∧ (m' = m ∨ m' = (q_ack (queue_bytes q) id m).2)) as (m' & H1 & H2).
    { destruct r; [destruct Hl|destruct Hl]; eauto. }
    exists m'. split; [done|]. destruct H2 as [-> | ->]; [done|by apply filter_fine].
  - intros [= <-]. unfold core_sweep. destruct (port_expire _ _ s) as [r s1] eqn:E.
    pose proof (port_expire_law _ _ _ _ _ _ Hh E) as Hl.
    destruct r; eexists; (split; [exact Hl|]); [by apply filter_fine|done].
  - intros [= <-]. exists m. by destruct (port_wait_law q w s m Hh).
  - intros [= <-]. exists m. by destruct (port_wait_law q w s m Hh).
Qed.

Lemma core_calls_fine cs s m s' :
  port_holds s m → fine_queues config m → Forall (call_ok config) cs →
  core_calls config cs s = Some s' → ∃ m', port_holds s' m' ∧ fine_queues config m'.
Proof.
  intros Hh Hf Hcs. revert s m Hh Hf. induction Hcs as [|c cs Hc _ IH]; intros s m Hh Hf; cbn [core_calls].
  - intros [= <-]. by exists m.
  - intros (s1 & H1 & H2)%bind_Some. destruct (core_call_fine c s m s1 Hh Hf Hc H1) as (m1 & Hh1 & Hf1).
    by eapply IH.
Qed.

End Calls.

(** C18: the policy holds of everything a client can ever receive.  The node is
    configured with a pull limit of at least one and a default lifetime of at
    least one second and at most the maximum, and times are such that adding a
    lifetime within the maximum does not overflow.  Against any
    repository that meets the port's contract, start with empty queues and let
    any clients make any calls of [core/mailbox.rs] and wait for arrivals, with
    any faults: a pull
    then returns at most [max_pull_limit] envelopes, in the order of their
    arrival times, none of them expired, each with a payload that is not empty
    and within the size limit, and a lifetime of at most the node's maximum.
    Calls that fail or acknowledge never break this. *)
Theorem core_enforces_policy config cs s s' o q limit l s'' :
  1 <= default_ttl_seconds config <= max_ttl_seconds config →
  port_holds s [] → Forall (call_ok config) cs → core_calls config cs s = Some s' →
  1 <= max_pull_limit config → core_pull config o q limit s' = Some (Ok l, s'') →
  blen l <= max_pull_limit config ∧
  Forall (λ e, obeys config e ∧ ou_now o < se_expires_at e) l ∧
  StronglySorted (λ e e', se_received_at e <= se_received_at e') l.
Proof.
  intros Httl Hh Hcs Hrun Hmax Hp.
  destruct (core_calls_fine config Httl cs s [] s' Hh (conj (Forall_nil_2 _) (SSorted_nil _)) Hcs Hrun)
    as (m & Hm & [Ho Hs]).
  unfold core_pull, clamp, pst_of in Hp. rewrite (proj2 (Z.ltb_ge _ _)) in Hp by lia.
  set (eff := Z.max 1 (Z.min limit (max_pull_limit config))) in Hp.
  destruct (port_pull _ _ eff s') as [r s1] eqn:E. injection Hp as -> <-.
  destruct (port_pull_law _ _ _ _ _ _ _ Hm E) as [_ Hl]. specialize (Hl l eq_refl).
  set (live := filter (λ i, it_queue i = queue_bytes q ∧ ou_now o < se_expires_at (it_env i)) m).
  assert (l = take (Z.to_nat eff) (it_env <$> live)) as ->.
  { rewrite Hl. unfold q_pull, sql_limit. by rewrite (proj2 (Z.ltb_ge _ _)) by lia. }
  split_and!.
  - unfold blen. rewrite length_take. lia.
  - apply Forall_take, Forall_fmap, Forall_forall. intros i [[_ Hx] Hi]%list_elem_of_filter.
    rewrite Forall_forall in Ho. split; [by apply (Ho i)|done].
  - apply (StronglySorted_filter _ (λ i, it_queue i = queue_bytes q ∧ ou_now o < se_expires_at (it_env i))) in Hs.
    fold live in Hs. generalize (Z.to_nat eff). clearbody live. clear -Hs.
    induction Hs as [|i live Hl IH Hi]; intros [|n]; try constructor; [apply IH|].
    apply Forall_take, Forall_fmap. exact Hi.
Qed.
End Port.

(** the default lifetime is not clamped: if the configuration sets it above the
    maximum, an envelope that asks for no lifetime gets one above the maximum. *)
Theorem default_ttl_can_exceed_maximum config requested :
  requested <= 0 → max_ttl_seconds config < default_ttl_seconds config →
  max_ttl_seconds config < clamp_ttl requested config.
Proof. intros Hr Hm. unfold clamp_ttl. by rewrite (proj2 (Z.leb_le _ _) Hr). Qed.

(** ** [TursoMailboxRepo] meets the contract *)

Section Turso.
Context `{EX : Externals} `{EL : !ExternalLaws}.

#[export] Instance turso_repo : MailboxRepo MailRepo := {|
  port_push o q env := repo_push (ou_faults o) (ou_id o) (ou_now o) q env;
  port_pull o q limit := repo_pull (ou_faults o) (ou_now o) q limit;
  port_ack o q id at_ms := repo_ack (ou_faults o) q id at_ms;
  port_expire o now := repo_expire (ou_faults o) now;
  port_wait_begin := wait_begin;
  port_wait_end := wait_end;
|}.

Lemma repo_push_meets f id now q env s m r s' :
  holds (db s) m → dt_in_range now = true → dt_in_range (se_expires_at (stored id env now)) = true →
  repo_push f id now q env s = (r, s') →
  match r with
  | Ok id' => holds (db s') (q_insert (queue_bytes q) (stored id' env now) m)
  | Err _ => holds (db s') m
  end.
Proof.
  intros Hh H1 H2. unfold repo_push, st_bind. rewrite db_call_connect.
  destruct (f 0%nat); [by intros [= <- <-]|].
  destruct (db_call_inv f 1 _ s (insert_safe (queue_bytes q) (uuid_fmt id) (ne_payload env) now
    (sat64 (now + sat64 (ne_ttl_seconds env * 1000))))) as [(e & s1 & -> & E)|(n & s1 & -> & E)].
  - intros [= <- <-]. by rewrite E.
  - intros [= <- <-]. by eapply insert_holds.
Qed.

Lemma repo_pull_meets f now q limit s m r s' :
  holds (db s) m → repo_pull f now q limit s = (r, s') →
  holds (db s') m ∧ ∀ l, r = Ok l → l = q_pull (queue_bytes q) now limit m.
Proof.
  intros Hh. unfold repo_pull, st_bind, st_lift. rewrite db_call_connect.
  destruct (f 0%nat); [by intros [= <- <-]|].
  destruct (db_call_inv f 1 _ s (select_safe (queue_bytes q) now limit)) as
    [(e & s1 & -> & E)|(rows & s1 & -> & E)]; intros [= <- <-]; [by rewrite E|].
  destruct (select_holds _ _ _ _ _ _ _ Hh E) as (Ed & items & Hi & Hq). split; [by rewrite Ed|].
  intros l Hl. apply (collect_rows_faulty _ _ _ items) in Hl; [|done]. by rewrite Hl.
Qed.

Lemma repo_ack_meets f q id at_ms s m r s' :
  holds (db s) m → repo_ack f q id at_ms s = (r, s') →
  match r with
  | Ok b => b = (q_ack (queue_bytes q) id m).1 ∧ holds (db s') (q_ack (queue_bytes q) id m).2
  | Err _ => holds (db s') m ∨ holds (db s') (q_ack (queue_bytes q) id m).2
  end.
Proof.
  intros Hh. unfold repo_ack, st_bind, st_ret. rewrite db_call_connect.
  destruct (f 0%nat); [intros [= <- <-]; by left|].
  destruct (db_call_inv f 1 _ s (update_safe (queue_bytes q) (uuid_fmt id) at_ms)) as
    [(e & s1 & -> & E)|(n & s1 & -> & E)]; [intros [= <- <-]; left; by rewrite E|].
  destruct (update_holds _ _ _ _ _ _ _ Hh E) as [Hh' ->].
  destruct (q_ack (queue_bytes q) id m).1; cbn [negb]; [|by intros [= <- <-]].
  destruct (db_call_inv f 2 _ s1 (receipt_safe (queue_bytes q) (uuid_fmt id) at_ms)) as
    [(e & s2 & -> & E2)|(n' & s2 & -> & E2)]; intros [= <- <-]; [right; by rewrite E2|].
  split; [done|]. injection E2 as _ E2. destruct Hh' as [Hid Hi]. by split; rewrite <-E2.
Qed.

Lemma repo_expire_meets f now s m r s' :
  holds (db s) m → repo_expire f now s = (r, s') →
  match r with Ok _ => holds (db s') (q_sweep now m) | Err _ => holds (db s') m end.
Proof.
  intros Hh. unfold repo_expire, st_bind. rewrite db_call_connect.
  destruct (f 0%nat); [by intros [= <- <-]|].
  destruct (db_call_inv f 1 _ s (delete_safe now)) as [(e & s1 & -> & E)|(n & s1 & -> & E)];
    intros [= <- <-]; [by rewrite E|]. by eapply delete_holds.
Qed.

#[export] Program Instance turso_meets_contract : MailboxContract MailRepo := {|
  port_holds s m := holds (db s) m;
|}.
Next Obligation. intros o q env s m r s' Hh [H1 H2]. by apply repo_push_meets. Qed.
Next Obligation. intros o q limit s m r s'. apply repo_pull_meets. Qed.
Next Obligation. intros o q id at_ms s m r s'. apply repo_ack_meets. Qed.
Next Obligation. intros o now s m r s'. apply repo_expire_meets. Qed.
Next Obligation. done. Qed.

(** On this repository the functions are those of [Mailbox]. *)
Lemma core_is_mailbox config f now id q req limit :
  let o := {| ou_faults := f; ou_now := now; ou_id := id |} in
  core_push config o q req = push config f id now q req ∧
  core_pull config o q limit = pull config f now q limit ∧
  core_ack o q id = ack f now q id ∧ core_sweep o = sweep f now.
Proof. cbv zeta. unfold core_push, push, core_pull, pull, pst_of. split_and!; try done. by destruct (clamp _ _ _). Qed.
End Turso.

(** ** Witness *)

Module PortSample.
#[local] Existing Instance model_externals.
Definition at_ms (now : Z) : Outside :=
  {| ou_faults := λ _, None; ou_now := now; ou_id := MailboxSample.id1 |}.
Definition calls : list CoreCall :=
  [CPush (at_ms 1000) MailboxSample.q1 {| pe_payload := bstr "sealed"; pe_ttl_seconds := 0 |};
   CPull (at_ms 1500) MailboxSample.q1 50; CSweep (at_ms 1600)].
Definition later : MailRepo := default MailboxSample.empty (core_calls CoreConfig_default calls MailboxSample.empty).

Lemma calls_done : core_calls CoreConfig_default calls MailboxSample.empty = Some later.
Proof. reflexivity. Qed.

Lemma calls_fine : Forall (call_ok CoreConfig_default) calls.
Proof. unfold calls. rewrite !Forall_cons. split_and!; done. Qed.
End PortSample.

Lemma core_enforces_policy_witness :
  ∃ l s'', core_pull CoreConfig_default (PortSample.at_ms 2000) MailboxSample.q1 1000 PortSample.later
    = Some (Ok l, s'') ∧ l ≠ [] ∧
    Forall (λ e, obeys CoreConfig_default e ∧ 2000 < se_expires_at e) l.
Proof.
  eexists _, _. split; [reflexivity|]. split; [discriminate|].
  refine (proj1 (proj2 (core_enforces_policy CoreConfig_default PortSample.calls MailboxSample.empty
    PortSample.later (PortSample.at_ms 2000) MailboxSample.q1 1000 _ _ _ _ PortSample.calls_fine
    PortSample.calls_done _ _))); [cbn; lia|exact (sim_holds 0 _ _ MailboxSample.sim_empty)|cbn; lia|reflexivity].
Defined.
