(* ===== verification/Settlement.v ===== *)
(** * Settlement: [buh-entities/src/settlement.rs], [buh-data/src/stub_settlement.rs]

    The value types of the settlement seam, the trait of [buh-core/src/ports.rs]
    as a record of operations, its stub, and the guard of its tests: no text
    that crosses the seam names a chain or a currency. *)

From S2P Require Import Prelude.
From S2P Require Import Text.
From S2P Require Import Entities.
#[local] Open Scope Z_scope.

Record Credit := { cr_units : Z }.
Record DepositInstructions := { di_reference : text }.
Record DepositProof := { dp_reference : text }.
Record Payout := { po_destination : text }.
Record TxRef := { tx_reference : text }.
Record SolvencyProof := { so_attestation : text }.

Record SettlementBackend := {
  onramp_quote : Credit → Result CoreError DepositInstructions;
  confirm_deposit : DepositProof → Result CoreError Credit;
  payout : Credit → Payout → Result CoreError TxRef;
  reserve_attestation : Result CoreError SolvencyProof;
}.

Definition StubSettlement : SettlementBackend := {|
  onramp_quote value :=
    Ok {| di_reference := chars "stub-onramp:" ++ decimal (cr_units value) ++ chars "-service-units" |};
  confirm_deposit _ := Ok {| cr_units := 1024 |};
  payout _ _ := Err (Unimplemented "stub settlement backend cannot pay out");
  reserve_attestation := Ok {| so_attestation := chars "stub-attestation:non-custodial" |};
|}.

(** ** The seam guard *)

Definition FORBIDDEN : list text := chars <$>
  ["eth"; "ethereum"; "wei"; "gwei"; "erc20"; "erc-20"; "sol"; "solana"; "lamport"; "spl"; "btc"; "bitcoin";
   "satoshi"; "usdc"; "usdt"; "stablecoin"; "wallet"; "blockchain"; "onchain"; "on-chain"; "fiat"; "usd"; "dollar";
   "0x"].

(** The texts of the values: field names and contents. *)
Definition quote_texts (q : DepositInstructions) : list text := [chars "reference"; di_reference q].
Definition credit_texts (c : Credit) : list text := [chars "units"; decimal (cr_units c)].
Definition proof_texts (p : SolvencyProof) : list text := [chars "attestation"; so_attestation p].
Definition payout_texts (p : Payout) : list text := [chars "destination"; po_destination p].

Fixpoint starts_with (pat t : text) : bool :=
  match pat, t with
  | [], _ => true
  | c :: pat, d :: t => (c =? d) && starts_with pat t
  | _ :: _, [] => false
  end.

(** [str::contains]. *)
Fixpoint contains (pat t : text) : bool :=
  starts_with pat t || match t with [] => false | _ :: t => contains pat t end.

(** [surface.contains(needle)] after [to_lowercase]. *)
Definition leaks (t : text) : bool := existsb (λ w, contains w (ascii_lower <$> t)) FORBIDDEN.

Lemma starts_with_spec pat t : starts_with pat t = true ↔ ∃ r, t = pat ++ r.
Proof.
  revert t. induction pat as [|c pat IH]; intros t; cbn [starts_with]; [naive_solver|].
  destruct t as [|d t]; [split; [done|by intros []]|].
  rewrite andb_true_iff, IH, Z.eqb_eq. split; [intros [-> [r ->]]; by exists r|intros [r [= -> ->]]; eauto].
Qed.

Lemma contains_spec pat t : contains pat t = true ↔ ∃ l r, t = l ++ pat ++ r.
Proof.
  induction t as [|c t IH]; cbn [contains]; rewrite orb_true_iff, starts_with_spec.
  - split; [intros [[r Hr]|]; [by exists [], r|done]|]. intros (l & r & H).
    destruct l; [|done]. left. by exists r.
  - rewrite IH. split; [intros [[r ->]|(l & r & ->)]; [by exists [], r|by exists (c :: l), r]|].
    intros ([|d l] & r & H); [left; by exists r|]. right. injection H as -> ->. by exists l, r.
Qed.

Lemma contains_part v w t : contains v w = true → contains w t = true → contains v t = true.
Proof.
  rewrite !contains_spec. intros (l & r & ->) (l' & r' & ->). exists (l' ++ l), (r ++ r').
  by rewrite <-!app_assoc.
Qed.

(** A word without digits does not reach across digits. *)
Lemma contains_across v a d c :
  v ≠ [] → Forall (λ x, is_digit x = false) v → d ≠ [] → Forall (λ x, is_digit x = true) d →
  contains v (a ++ d ++ c) = true → contains v a = true ∨ contains v c = true.
Proof.
  rewrite !contains_spec. intros Hv Hnv Hd Hdd (l & r & H).
  apply app_eq_inv in H as [(k & -> & H)|(k & -> & H)].
  - left. apply app_eq_inv in H as [(k' & -> & H)|(k' & -> & _)]; [|by exists l, k'].
    destruct k' as [|y k']; [exists l, []; by rewrite !app_nil_r|].
    destruct d as [|z d]; [done|]. cbn in H. injection H as -> _.
    rewrite Forall_app, !Forall_cons in *. destruct Hdd as [Hz _], Hnv as (_ & Hz' & _). congruence.
  - right. apply app_eq_inv in H as [(k' & -> & H)|(k' & -> & ->)]; [|by exists k', r].
    destruct k' as [|y k']; [by exists [], r|].
    destruct v as [|x v]; [done|]. cbn in H. injection H as -> _. rewrite Forall_app, !Forall_cons in *.
    destruct Hdd as (_ & Hx & _), Hnv as [Hx' _]. congruence.
Qed.

Lemma lower_digits d : Forall (λ x, is_digit x = true) d → ascii_lower <$> d = d.
Proof.
  induction 1 as [|x d Hx _ IH]; [done|]. rewrite fmap_cons, IH. f_equal.
  unfold ascii_lower. destruct (_ && _) eqn:E; [|done]. unfold is_digit in Hx. lia.
Qed.

(** A part of every forbidden word that has no digits. *)
Definition digitless (w : text) : text := filter (λ c, is_digit c = false) w.

Lemma forbidden_parts :
  forallb (λ w, contains (digitless w) w && bool_decide (digitless w ≠ [])) FORBIDDEN = true.
Proof. vm_compute. reflexivity. Qed.

(** A text with a number in the middle leaks nothing when its two ends do not,
    down to the digitless parts. *)
Lemma number_is_clean a c n :
  0 <= n → forallb (λ w, negb (contains (digitless w) (ascii_lower <$> chars a)) &&
                         negb (contains (digitless w) (ascii_lower <$> chars c))) FORBIDDEN = true →
  leaks (chars a ++ decimal n ++ chars c) = false.
Proof.
  intros Hn Hac. unfold leaks. apply not_true_is_false. rewrite existsb_exists. intros (w & Hw & Hc).
  pose proof forbidden_parts as Hp. rewrite forallb_forall in Hp, Hac.
  specialize (Hp w Hw). specialize (Hac w Hw). apply andb_true_iff in Hp as [Hp1 Hp2%bool_decide_eq_true].
  pose proof (contains_part _ _ _ Hp1 Hc) as H. rewrite !fmap_app in H.
  pose proof (decimal_digit n Hn) as Hd. rewrite (lower_digits _ Hd) in H.
  apply contains_across in H as [H|H]; [| |done| |apply decimal_nonempty|done].
  - rewrite H in Hac. done.
  - rewrite H in Hac. by rewrite andb_false_r in Hac.
  - apply Forall_forall. by intros x [Hx _]%list_elem_of_filter.
Qed.

(** nothing the stub hands out names a chain or a currency, whatever is asked
    of it: for every amount, the quote, the granted credit and the attestation
    are free of the forbidden identifiers, in field names and contents, and a
    payout is always refused. *)
Theorem settlement_seam_is_clean (value : Credit) (proof : DepositProof) (dest : Payout) :
  0 <= cr_units value <= u64_max →
  (∃ q, onramp_quote StubSettlement value = Ok q ∧ Forall (λ t, leaks t = false) (quote_texts q) ∧
     contains (decimal (cr_units value)) (di_reference q) = true) ∧
  (∃ c, confirm_deposit StubSettlement proof = Ok c ∧ Forall (λ t, leaks t = false) (credit_texts c)) ∧
  (∃ p, reserve_attestation StubSettlement = Ok p ∧ Forall (λ t, leaks t = false) (proof_texts p)) ∧
  payout StubSettlement value dest = Err (Unimplemented "stub settlement backend cannot pay out").
Proof.
  intros Hv. split_and!; [| | |done].
  - eexists. split; [reflexivity|]. split.
    + unfold quote_texts. cbn [di_reference]. rewrite !Forall_cons. split_and!; [by vm_compute| |done]. apply number_is_clean; [lia|by vm_compute].
    + apply contains_spec. by eexists _, _.
  - eexists. split; [reflexivity|]. by repeat constructor.
  - eexists. split; [reflexivity|]. by repeat constructor.
Qed.

Lemma settlement_seam_is_clean_witness :
  ∃ q, onramp_quote StubSettlement {| cr_units := 7 |} = Ok q ∧ Forall (λ t, leaks t = false) (quote_texts q).
Proof.
  destruct (settlement_seam_is_clean {| cr_units := 7 |} {| dp_reference := chars "p" |} {| po_destination := chars "d" |})
    as [(q & H1 & H2 & _) _]; [cbn; unfold u64_max; lia|]. by exists q.
Defined.
