(* ===== verification/Blob.v ===== *)
(** * The file-system blob store: [buh-data/src/fs_blob.rs]

    Opaque objects on a file system.  A path is the list of its components
    below the store's root; a file system maps paths to files and directories.
    The operations of [tokio::fs] that the store uses are given by their POSIX
    behaviour, and may fail for reasons of their own: [IoFaults] gives the
    error of the [i]-th call.  A failed [fs::write] may leave part of the file
    behind. *)

From S2P Require Import Prelude.
From S2P Require Import Entities.

(** ** Strings *)

Definition slash : Ascii.ascii := Ascii.ascii_of_nat 47.
Definition backslash : Ascii.ascii := Ascii.ascii_of_nat 92.
Definition nul : Ascii.ascii := Ascii.ascii_of_nat 0.

Fixpoint contains (c : Ascii.ascii) (s : string) : bool :=
  match s with
  | EmptyString => false
  | String a s => bool_decide (a = c) || contains c s
  end.

(** [str::split(c)]: always at least one piece. *)
Fixpoint split (c : Ascii.ascii) (s : string) : list string :=
  match s with
  | EmptyString => [EmptyString]
  | String a s =>
      if bool_decide (a = c) then EmptyString :: split c s
      else match split c s with
           | [] => [String a EmptyString]
           | x :: r => String a x :: r
           end
  end.

(** ** Paths: [resolve], [safe_segment], [tmp_path] *)

Abbreviation path := (list string).

Definition safe_segment (segment : string) : Result CoreError string :=
  let bad := bool_decide (segment = EmptyString) || bool_decide (segment = ".")
             || bool_decide (segment = "..") || contains slash segment
             || contains backslash segment || contains nul segment in
  if bad then Err (Validation (InvalidPayload "unsafe blob path component")) else Ok segment.

Fixpoint push_segments (p : path) (segments : list string) : Result CoreError path :=
  match segments with
  | [] => Ok p
  | seg :: segments =>
      let? s := safe_segment seg in
      push_segments (p ++ [s]) segments
  end.

Definition resolve (bucket key : string) : Result CoreError path :=
  let? b := safe_segment bucket in
  let p := [b] in
  if bool_decide (key = EmptyString) then Err (Validation (Empty "blob key"))
  else push_segments p (split slash key).

(** A sibling of [p]: [.tmp] appended to the file name. *)
Definition tmp_path (p : path) : path :=
  match last p with
  | None => p
  | Some name => removelast p ++ [name +:+ ".tmp"]
  end.

(** ** The file system *)

Inductive node : Type := File (b : bytes) | Dir.

Abbreviation Fs := (gmap (list string) node).

Inductive io_error : Type := ENotFound | EOther (why : string).

Definition IoFaults : Type := nat → option string.

Definition is_file (n : option node) : bool := match n with Some (File _) => true | _ => false end.

(** The proper ancestors of [p], the root excluded. *)
Definition ancestors (p : path) : list path :=
  (λ n, take n p) <$> seq 1 (length p - 1).

Definition blocked (fs : Fs) (p : path) : bool := existsb (λ a, is_file (fs !! a)) (ancestors p).

(** What [open] for reading and [stat] answer. *)
Definition fs_lookup (fs : Fs) (p : path) : Result io_error node :=
  if blocked fs p then Err (EOther "not a directory")
  else ok_or (fs !! p) ENotFound.

Definition fs_create_dir_all (p : path) (fs : Fs) : Result io_error unit * Fs :=
  if blocked fs p || is_file (fs !! p) then (Err (EOther "not a directory"), fs)
  else (Ok tt, foldl (λ fs a, <[a := Dir]> fs) fs (ancestors p ++ [p])).

Definition fs_write (p : path) (b : bytes) (fs : Fs) : Result io_error unit * Fs :=
  if blocked fs p then (Err (EOther "not a directory"), fs)
  else match fs !! p with
       | Some Dir => (Err (EOther "is a directory"), fs)
       | _ => (Ok tt, <[p := File b]> fs)
       end.

Definition fs_rename (from to : path) (fs : Fs) : Result io_error unit * Fs :=
  match fs !! from with
  | None => (Err ENotFound, fs)
  | Some n =>
      match fs !! to with
      | Some Dir => (Err (EOther "is a directory"), fs)
      | _ => (Ok tt, <[to := n]> (delete from fs))
      end
  end.

Definition storage (e : io_error) : CoreError :=
  Storage (match e with ENotFound => "No such file or directory" | EOther why => why end).

(** ** [FsBlobStore] *)

Definition io_call {A} (f : IoFaults) (i : nat) (m : Fs → Result io_error A * Fs) :
    ST Fs CoreError A := λ fs,
  match f i with
  | Some e => (Err (Storage e), fs)
  | None => let '(r, fs') := m fs in (map_err storage r, fs')
  end.

(** [fs::write]: on a fault, [partial] is what is left of the file, if anything. *)
Definition write_call (f : IoFaults) (i : nat) (partial : option bytes) (p : path) (b : bytes) :
    ST Fs CoreError unit := λ fs,
  match f i with
  | Some e => (Err (Storage e),
               match partial with Some c => (fs_write p c fs).2 | None => fs end)
  | None => let '(r, fs') := fs_write p b fs in (map_err storage r, fs')
  end.

(** [path.parent()] of a resolved path is the store's root or below it; the
    root itself is created by [create_dir_all] too. *)
Definition fs_put (f : IoFaults) (partial : option bytes) (bucket key : string) (b : bytes) :
    ST Fs CoreError unit :=
  let! p := st_lift (resolve bucket key) in
  let! _ := io_call f 0 (fs_create_dir_all (removelast p)) in
  let tmp := tmp_path p in
  let! _ := write_call f 1 partial tmp b in
  io_call f 2 (fs_rename tmp p).

Definition fs_get (f : IoFaults) (bucket key : string) (fs : Fs) : Result CoreError bytes :=
  let? p := resolve bucket key in
  match f 0%nat with
  | Some e => Err (Storage e)
  | None =>
      match fs_lookup fs p with
      | Ok (File b) => Ok b
      | Ok Dir => Err (storage (EOther "is a directory"))
      | Err ENotFound => Err NotFound
      | Err e => Err (storage e)
      end
  end.

Definition fs_exists (f : IoFaults) (bucket key : string) (fs : Fs) : Result CoreError bool :=
  let? p := resolve bucket key in
  match f 0%nat with
  | Some e => Err (Storage e)
  | None =>
      match fs_lookup fs p with
      | Ok n => Ok (match n with File _ => true | Dir => false end)
      | Err ENotFound => Ok false
      | Err e => Err (storage e)
      end
  end.

Definition fs_presign_get (bucket key : string) (ttl_seconds : Z) : Result CoreError string :=
  Err (Unimplemented "filesystem blob store does not support presigned URLs").

(** ** Locators and paths *)

Fixpoint join (c : Ascii.ascii) (l : list string) : string :=
  match l with
  | [] => EmptyString
  | [x] => x
  | x :: r => x +:+ String c (join c r)
  end.

Lemma split_nonempty c s : split c s ≠ [].
Proof. destruct s as [|a s]; cbn; [done|]. destruct (bool_decide _); [done|]. by destruct (split c s). Qed.

Lemma join_split c s : join c (split c s) = s.
Proof.
  induction s as [|a s IH]; [done|]. cbn [split]. pose proof (split_nonempty c s) as Hn.
  case_bool_decide as E.
  - subst a. destruct (split c s) as [|x r]; [done|]. cbn [join] in *. by rewrite IH.
  - destruct (split c s) as [|x r]; [done|].
    destruct r as [|y r]; cbn [join] in *; by rewrite <-IH.
Qed.

Definition segment_ok (seg : string) : Prop :=
  seg ≠ EmptyString ∧ seg ≠ "." ∧ seg ≠ ".." ∧
  contains slash seg = false ∧ contains backslash seg = false ∧ contains nul seg = false.

Lemma safe_segment_spec seg :
  match safe_segment seg with
  | Ok s => s = seg ∧ segment_ok seg
  | Err e => ¬ segment_ok seg ∧ e = Validation (InvalidPayload "unsafe blob path component")
  end.
Proof.
  unfold safe_segment, segment_ok. repeat case_bool_decide; cbn [orb]; try naive_solver.
  destruct (contains slash seg), (contains backslash seg), (contains nul seg); cbn [orb]; naive_solver.
Qed.

Lemma safe_segment_Ok seg s : safe_segment seg = Ok s ↔ s = seg ∧ segment_ok seg.
Proof.
  pose proof (safe_segment_spec seg) as H. destruct (safe_segment seg); naive_solver.
Qed.

Lemma push_segments_Ok p segs q :
  push_segments p segs = Ok q ↔ q = p ++ segs ∧ Forall segment_ok segs.
Proof.
  revert p. induction segs as [|seg segs IH]; intros p; cbn [push_segments].
  - rewrite app_nil_r. split; [by intros [= ->]|by intros [-> _]].
  - rewrite rbind_Ok, Forall_cons. setoid_rewrite safe_segment_Ok. split.
    + intros (s & (-> & Hs) & H). apply IH in H as [-> Hf]. by rewrite <-app_assoc.
    + intros (-> & Hs & Hf). exists seg. split; [done|]. apply IH. by rewrite <-app_assoc.
Qed.

Lemma resolve_Ok bucket key p :
  resolve bucket key = Ok p ↔
  p = bucket :: split slash key ∧ key ≠ EmptyString ∧ Forall segment_ok p.
Proof.
  unfold resolve. rewrite rbind_Ok. setoid_rewrite safe_segment_Ok. split.
  - intros (b & (-> & Hb) & H). case_bool_decide; [done|].
    apply push_segments_Ok in H as [-> Hf]. split_and!; [done..|]. by constructor.
  - intros (-> & Hk & Hf). apply Forall_cons in Hf as [Hb Hf]. exists bucket. split; [done|].
    rewrite bool_decide_false by done. by apply push_segments_Ok.
Qed.

Lemma resolve_Err bucket key e : resolve bucket key = Err e → ∃ v, e = Validation v.
Proof.
  unfold resolve. intros E. pose proof (safe_segment_spec bucket) as Hb.
  destruct (safe_segment bucket) as [b|]; cbn [rbind] in E; [|naive_solver].
  case_bool_decide; [injection E; eauto|].
  revert E. generalize [b]. induction (split slash key) as [|seg segs IH]; intros q; cbn [push_segments]; [done|].
  pose proof (safe_segment_spec seg) as Hs. destruct (safe_segment seg); cbn [rbind]; [apply IH|].
  intros [= ->]. naive_solver.
Qed.

(** C33: no locator escapes the store's root: a resolved path is the bucket
    followed by the pieces of the key, and none of its components is empty,
    [.] or [..], or contains a slash, a backslash or a NUL; every other locator
    is refused with a validation error. *)
Theorem locators_stay_below_root bucket key :
  match resolve bucket key with
  | Ok p => p = bucket :: split slash key ∧ Forall segment_ok p ∧ (2 <= length p)%nat
  | Err e => ∃ v, e = Validation v
  end.
Proof.
  destruct (resolve bucket key) as [p|e] eqn:E; [|by apply resolve_Err in E].
  apply resolve_Ok in E as (-> & _ & Hf). split_and!; [done..|]. cbn.
  pose proof (split_nonempty slash key). destruct (split slash key); [done|]. cbn. lia.
Qed.

(** two locators name the same file only if they are the same locator. *)
Theorem locators_are_distinct bucket key bucket' key' p :
  resolve bucket key = Ok p → resolve bucket' key' = Ok p → bucket = bucket' ∧ key = key'.
Proof.
  intros (-> & _ & _)%resolve_Ok ([= -> H] & _ & _)%resolve_Ok. split; [done|].
  by rewrite <-(join_split slash key), <-(join_split slash key'), H.
Qed.

(** ** Reads and writes *)

Definition file_at (fs : Fs) (p : path) : option bytes :=
  match fs !! p with Some (File b) => Some b | _ => None end.

Lemma append_tmp_ne s : s +:+ ".tmp" ≠ s.
Proof. induction s as [|a s IH]; [done|]. intros [= H]. by apply IH. Qed.

Lemma tmp_path_ne p : p ≠ [] → tmp_path p ≠ p.
Proof.
  intros Hp. unfold tmp_path. destruct (last p) as [name|] eqn:El; [|by apply last_None in El].
  apply last_Some in El as [q ->]. rewrite removelast_last. intros H.
  apply app_inv_head in H. injection H as H. by apply append_tmp_ne in H.
Qed.

Lemma mkdirs_file l fs q :
  (∀ a, a ∈ l → is_file (fs !! a) = false) →
  file_at (foldl (λ fs a, <[a := Dir]> fs) fs l) q = file_at fs q.
Proof.
  revert fs. induction l as [|a l IH]; intros fs Hl; cbn [foldl]; [done|].
  assert (file_at (<[a := Dir]> fs) q = file_at fs q) as Hq.
  { unfold file_at. destruct (decide (q = a)) as [->|].
    - rewrite lookup_insert_eq. specialize (Hl a). destruct (fs !! a) as [[]|]; cbn in *; [|done..].
      discriminate Hl. set_solver.
    - by rewrite lookup_insert_ne. }
  rewrite IH; [done|]. intros a' Ha'. destruct (decide (a' = a)) as [->|].
  - by rewrite lookup_insert_eq.
  - rewrite lookup_insert_ne by done. apply Hl. set_solver.
Qed.

Lemma create_dir_all_file p fs r fs' q :
  fs_create_dir_all p fs = (r, fs') → file_at fs' q = file_at fs q.
Proof.
  unfold fs_create_dir_all. destruct (blocked fs p || is_file (fs !! p)) eqn:Hb;
    [by intros [= _ <-]|].
  intros [= _ <-]. apply orb_false_iff in Hb as [Hb Hp]. apply mkdirs_file.
  intros a [Ha| ->%list_elem_of_singleton]%elem_of_app; [|done].
  unfold blocked in Hb. destruct (is_file (fs !! a)) eqn:Hf; [|done].
  rewrite (proj2 (existsb_exists _ _)) in Hb; [done|]. exists a. split; [by apply list_elem_of_In|done].
Qed.

Lemma fs_write_file p b fs r fs' q :
  fs_write p b fs = (r, fs') → q ≠ p → file_at fs' q = file_at fs q.
Proof.
  unfold fs_write. intros H Hq. destruct (blocked fs p); [by simplify_eq|].
  destruct (fs !! p) as [[]|]; simplify_eq; unfold file_at; by rewrite ?lookup_insert_ne.
Qed.

Lemma write_call_file f i partial p b fs r fs' q :
  write_call f i partial p b fs = (r, fs') → q ≠ p → file_at fs' q = file_at fs q.
Proof.
  unfold write_call. intros H Hq. destruct (f i).
  - destruct partial as [c|]; simplify_eq; [|done].
    eapply (fs_write_file p c fs); [apply surjective_pairing|done].
  - destruct (fs_write p b fs) as [r1 fs1] eqn:E. simplify_eq. by eapply fs_write_file.
Qed.

Lemma write_call_ok f i partial p b fs fs' :
  write_call f i partial p b fs = (Ok tt, fs') → file_at fs' p = Some b.
Proof.
  unfold write_call. destruct (f i); [done|]. unfold fs_write. destruct (blocked fs p); [done|].
  destruct (fs !! p) as [[]|]; cbn [map_err]; intros [= <-] || intros H; try done;
    unfold file_at; by rewrite lookup_insert_eq.
Qed.

Lemma put_frame f partial bucket key b fs r fs' p :
  resolve bucket key = Ok p → fs_put f partial bucket key b fs = (r, fs') →
  ∀ q, q ≠ tmp_path p →
    file_at fs' q = if is_ok r && bool_decide (q = p) then Some b else file_at fs q.
Proof.
  intros Hp Hput q Hq. unfold fs_put in Hput.
  assert (p ≠ []) as Hne by (apply resolve_Ok in Hp as (-> & _); done).
  pose proof (tmp_path_ne p Hne) as Hpt.
  unfold st_bind at 1, st_lift in Hput. rewrite Hp in Hput. unfold st_bind in Hput.
  destruct (io_call f 0 _ fs) as [[[]|e1] fs1] eqn:E1.
  all: assert (file_at fs1 q = file_at fs q) as H1 by
    (unfold io_call in E1; destruct (f 0%nat); [by simplify_eq|];
     destruct (fs_create_dir_all _ fs) as [r1 fs1'] eqn:E; simplify_eq; by eapply create_dir_all_file).
  2: { simplify_eq. by rewrite H1. }
  destruct (write_call f 1 partial (tmp_path p) b fs1) as [[[]|e2] fs2] eqn:E2;
    pose proof (write_call_file _ _ _ _ _ _ _ _ q E2 Hq) as H2; [|simplify_eq; cbn; congruence].
  pose proof (write_call_ok _ _ _ _ _ _ _ E2) as Ht.
  unfold io_call in Hput. destruct (f 2%nat); [simplify_eq; cbn; congruence|].
  unfold fs_rename, file_at in Ht, Hput. destruct (fs2 !! tmp_path p) as [[c|]|] eqn:Etmp; [|done..].
  injection Ht as ->.
  destruct (fs2 !! p) as [[]|] eqn:Ep; simplify_eq; cbn [map_err is_ok andb]; try congruence.
  all: unfold file_at; destruct (decide (q = p)) as [->|Hqp];
    [rewrite lookup_insert_eq, bool_decide_true by done; done|].
  all: rewrite lookup_insert_ne, lookup_delete_ne, bool_decide_false by congruence.
  all: fold (file_at fs2 q) (file_at fs q); congruence.
Qed.

(** C34: storing an object is all or nothing.  Whatever fails, and whatever a
    failed write leaves behind, after [put] every file other than the
    temporary one is as it was, except that a successful [put] has put exactly
    the given bytes at the object's path; a failed one has not touched it. *)
Theorem put_is_all_or_nothing f partial bucket key b fs r fs' p :
  resolve bucket key = Ok p → fs_put f partial bucket key b fs = (r, fs') →
  ∀ q, q ≠ tmp_path p →
    file_at fs' q = if is_ok r && bool_decide (q = p) then Some b else file_at fs q.
Proof. apply put_frame. Qed.

Lemma ancestors_app d name : ancestors (d ++ [name]) = (λ n, take n d) <$> seq 1 (length d).
Proof.
  unfold ancestors. rewrite length_app. replace (length d + length [name] - 1)%nat with (length d) by (cbn; lia).
  apply list_fmap_ext. intros i n Hn. apply lookup_seq in Hn as [-> Hi].
  rewrite take_app_le by lia. done.
Qed.

Lemma ancestors_parent d name : d ≠ [] → ancestors (d ++ [name]) = ancestors d ++ [d].
Proof.
  intros Hd. rewrite ancestors_app. unfold ancestors. destruct d as [|x d]; [done|].
  cbn [length]. rewrite Nat.sub_succ, Nat.sub_0_r.
  replace (S (length d)) with (length d + 1)%nat at 1 by lia.
  rewrite seq_app, fmap_app. cbn [seq fmap list_fmap]. f_equal. f_equal.
  by rewrite Nat.add_comm, take_ge by (cbn; lia).
Qed.

Lemma ancestors_shorter p a : a ∈ ancestors p → (length a < length p)%nat.
Proof.
  unfold ancestors. intros (n & -> & Hn%elem_of_seq)%list_elem_of_fmap. rewrite length_take. lia.
Qed.

Lemma is_file_at fs a : is_file (fs !! a) = bool_decide (is_Some (file_at fs a)).
Proof.
  unfold file_at. destruct (fs !! a) as [[]|]; cbn; by rewrite ?bool_decide_true, ?bool_decide_false
    by (by eexists) || by (by intros [? [=]]).
Qed.

Lemma blocked_ext fs fs' p q :
  ancestors p = ancestors q → (∀ a, a ∈ ancestors p → file_at fs' a = file_at fs a) →
  blocked fs' p = blocked fs q.
Proof.
  intros E H. unfold blocked. rewrite <-E. clear E.
  induction (ancestors p) as [|a l IH]; cbn [existsb]; [done|].
  rewrite !is_file_at, H by set_solver. f_equal. apply IH. set_solver.
Qed.

Lemma mkdirs_lookup (l : list path) (fs : Fs) q :
  q ∉ l → foldl (λ fs a, <[a := Dir]> fs) fs l !! q = fs !! q.
Proof.
  revert fs. induction l as [|a l IH]; intros fs Hq; cbn [foldl]; [done|].
  rewrite IH by set_solver. apply lookup_insert_ne. set_solver.
Qed.

(** The state a [put] without faults leaves. *)
Lemma put_ok partial bucket key b fs p :
  resolve bucket key = Ok p → blocked fs p = false → fs !! p ≠ Some Dir →
  fs !! tmp_path p ≠ Some Dir →
  ∃ fs', fs_put (λ _, None) partial bucket key b fs = (Ok tt, fs') ∧
    fs' !! p = Some (File b) ∧ fs' !! tmp_path p = None.
Proof.
  intros Hp Hb Hd Hdt. pose proof (proj1 (resolve_Ok _ _ _) Hp) as (Ep & _ & _).
  assert (∃ d name, p = d ++ [name] ∧ d ≠ []) as (d & name & -> & Hne).
  { pose proof (split_nonempty slash key) as Hn.
    destruct (exists_last Hn) as (l & x & E). rewrite E in Ep. by exists (bucket :: l), x. }
  clear Ep. unfold fs_put, st_bind, st_lift. rewrite Hp.
  assert (tmp_path (d ++ [name]) = d ++ [name +:+ ".tmp"]) as Et.
  { unfold tmp_path. by rewrite last_snoc, removelast_last. }
  rewrite removelast_last, Et in *.
  assert (blocked fs d = false ∧ is_file (fs !! d) = false) as [Hb1 Hb2].
  { unfold blocked in Hb. rewrite ancestors_parent, existsb_app in Hb by done.
    cbn [existsb] in Hb. rewrite orb_false_r in Hb. by apply orb_false_iff in Hb. }
  unfold io_call at 1, fs_create_dir_all. rewrite Hb1, Hb2. cbn [orb map_err].
  set (fs1 := foldl _ fs _).
  assert (∀ q, file_at fs1 q = file_at fs q) as Hf1.
  { intros q. eapply (create_dir_all_file d fs (Ok tt)). unfold fs_create_dir_all. by rewrite Hb1, Hb2. }
  assert (∀ x, fs1 !! (d ++ [x]) = fs !! (d ++ [x])) as Hl1.
  { intros x. apply mkdirs_lookup. intros [Ha%ancestors_shorter|Ha%list_elem_of_singleton]%elem_of_app.
    - rewrite length_app in Ha. lia.
    - apply (f_equal length) in Ha. rewrite length_app in Ha. cbn in Ha. lia. }
  unfold write_call, fs_write.
  rewrite (blocked_ext fs fs1 (d ++ [name +:+ ".tmp"]) (d ++ [name])), Hb by
    (by rewrite ?ancestors_app).
  rewrite Hl1. destruct (fs !! (d ++ [name +:+ ".tmp"])) as [[]|] eqn:Etmp; [|done|].
  all: cbn [map_err]; unfold io_call, fs_rename; rewrite lookup_insert_eq.
  all: pose proof (append_tmp_ne name) as Hnt.
  all: assert (d ++ [name] ≠ d ++ [name +:+ ".tmp"]) as Hpt
    by (intros E; apply app_inv_head in E; congruence).
  all: rewrite lookup_insert_ne, Hl1 by congruence.
  all: destruct (fs !! (d ++ [name])) as [[]|] eqn:Epath; [|done|].
  all: cbn [map_err]; eexists; split; [done|]; rewrite lookup_insert_eq; split; [done|].
  all: by rewrite lookup_insert_ne, lookup_delete_eq by congruence.
Qed.

(** Every entry's ancestors are directories. *)
Definition tree_ok (fs : Fs) : Prop :=
  ∀ p n, fs !! p = Some n → ∀ a, a ∈ ancestors p → fs !! a = Some Dir.

Lemma fs_get_file bucket key fs p b :
  resolve bucket key = Ok p →
  fs_get (λ _, None) bucket key fs = Ok b ↔ blocked fs p = false ∧ fs !! p = Some (File b).
Proof.
  intros Hp. unfold fs_get. rewrite Hp. cbn [rbind]. unfold fs_lookup.
  destruct (blocked fs p); cbn; [naive_solver|].
  destruct (fs !! p) as [[]|]; cbn; naive_solver.
Qed.

Lemma blocked_false fs p : blocked fs p = false ↔ ∀ a, a ∈ ancestors p → file_at fs a = None.
Proof.
  unfold blocked. rewrite <-not_true_iff_false, existsb_exists. setoid_rewrite <-list_elem_of_In.
  setoid_rewrite is_file_at. setoid_rewrite bool_decide_eq_true. split.
  - intros H a Ha. destruct (file_at fs a) eqn:E; [|done]. destruct H. by exists a.
  - intros H (a & Ha & Hs). rewrite (H a Ha) in Hs. by destruct Hs.
Qed.

(** what is stored can be fetched, and nothing else is lost.  In a
    well-formed tree, storing an object whose path is not taken by a directory
    or by a file further up succeeds; then [get] returns exactly its bytes and
    [exists] answers [true], and every other object that could be fetched
    before, the one at the temporary path excepted, is fetched unchanged. *)
Theorem stored_object_is_fetched partial bucket key b fs p :
  tree_ok fs → resolve bucket key = Ok p → blocked fs p = false → fs !! p ≠ Some Dir →
  fs !! tmp_path p ≠ Some Dir →
  ∃ fs', fs_put (λ _, None) partial bucket key b fs = (Ok tt, fs') ∧
    fs_get (λ _, None) bucket key fs' = Ok b ∧ fs_exists (λ _, None) bucket key fs' = Ok true ∧
    ∀ bucket' key' q c, resolve bucket' key' = Ok q → q ≠ p → q ≠ tmp_path p →
      fs_get (λ _, None) bucket' key' fs = Ok c → fs_get (λ _, None) bucket' key' fs' = Ok c.
Proof.
  intros Htree Hp Hb Hd Hdt.
  destruct (put_ok partial bucket key b fs p Hp Hb Hd Hdt) as (fs' & Hput & Hf & Htmp).
  assert (∀ q, q ≠ p → file_at fs' q = if bool_decide (q = tmp_path p) then None else file_at fs q) as Hfr.
  { intros q Hq. case_bool_decide as E; [subst q; unfold file_at; by rewrite Htmp|].
    rewrite (put_frame _ _ _ _ _ _ _ _ _ Hp Hput q E).
    by rewrite bool_decide_false by done. }
  assert (blocked fs' p = false) as Hb'.
  { apply blocked_false. intros a Ha. rewrite Hfr by (intros ->; apply ancestors_shorter in Ha; lia).
    case_bool_decide; [done|]. by apply (proj1 (blocked_false fs p) Hb). }
  exists fs'. split_and!; [done|by apply (fs_get_file _ _ _ _ _ Hp)| |].
  - unfold fs_exists. rewrite Hp. cbn [rbind]. unfold fs_lookup. by rewrite Hb', Hf.
  - intros bucket' key' q c Hq Hqp Hqt. rewrite !(fs_get_file _ _ _ _ _ Hq). intros [Hbq Hqf].
    assert (file_at fs' q = Some c) as Hq'.
    { rewrite Hfr, bool_decide_false by done. unfold file_at. by rewrite Hqf. }
    split.
    + apply blocked_false. intros a Ha. pose proof (Htree _ _ Hqf a Ha) as Hdir.
      rewrite Hfr by congruence. case_bool_decide; [done|]. unfold file_at. by rewrite Hdir.
    + unfold file_at in Hq'. destruct (fs' !! q) as [[]|]; congruence.
Qed.

(** ** The temporary name *)

Definition no_faults : IoFaults := λ _, None.

(** the temporary name of one object is the name of another: after storing
    [x.tmp], storing [x] in the same bucket destroys it. *)
Theorem put_destroys_tmp_sibling :
  let fs1 := (fs_put no_faults None "media" "x.tmp" (bstr "first") ∅).2 in
  let fs2 := (fs_put no_faults None "media" "x" (bstr "second") fs1).2 in
  fs_get no_faults "media" "x.tmp" fs1 = Ok (bstr "first") ∧
  fs_get no_faults "media" "x" fs2 = Ok (bstr "second") ∧
  fs_get no_faults "media" "x.tmp" fs2 = Err NotFound.
Proof. split_and!; by vm_compute. Qed.

(** Two concurrent [put]s of one object, at the grain of the system calls:
    [fs::write] opens the file, truncating it, and then fills it. *)
Inductive put_step : Type :=
| SMkdir
| STruncate
| SFill (b : bytes)
| SRename.

Definition run_step (p : path) (s : put_step) (fs : Fs) : Fs :=
  match s with
  | SMkdir => (fs_create_dir_all (removelast p) fs).2
  | STruncate => (fs_write (tmp_path p) [] fs).2
  | SFill b => (fs_write (tmp_path p) b fs).2
  | SRename => (fs_rename (tmp_path p) p fs).2
  end.

Definition put_steps (b : bytes) : list put_step := [SMkdir; STruncate; SFill b; SRename].

(** [l] interleaves (a beginning of) [l1] with (a beginning of) [l2]. *)
Inductive interleaves {A} : list A → list A → list A → Prop :=
| il_stop l1 l2 : interleaves l1 l2 []
| il_left x l1 l2 l : interleaves l1 l2 l → interleaves (x :: l1) l2 (x :: l)
| il_right x l1 l2 l : interleaves l1 l2 l → interleaves l1 (x :: l2) (x :: l).

(** two concurrent uploads of the same object share the temporary file, so
    a reader can be served an object that nobody stored: in some interleaving
    the first upload renames the file the second one has just truncated. *)
Theorem concurrent_puts_expose_truncated_object :
  ∃ sched, interleaves (put_steps (bstr "first")) (put_steps (bstr "second")) sched ∧
    fs_get no_faults "media" "x"
      (foldl (λ fs s, run_step ["media"; "x"] s fs) ∅ sched) = Ok [].
Proof.
  exists [SMkdir; STruncate; SFill (bstr "first"); SMkdir; STruncate; SRename]. split.
  - unfold put_steps. do 3 apply il_left. do 2 apply il_right. apply il_left. apply il_stop.
  - by vm_compute.
Qed.

(** ** Witnesses *)

Lemma locators_are_distinct_witness : "media" = "media" ∧ "a/b" = "a/b".
Proof. exact (locators_are_distinct "media" "a/b" "media" "a/b" ["media"; "a"; "b"] eq_refl eq_refl). Defined.

Lemma put_is_all_or_nothing_witness :
  file_at (fs_put (λ i, if (i =? 1)%nat then Some "disk full" else None) (Some [Byte.x01])
             "media" "x" (bstr "second") {[["media"; "x"] := File (bstr "first")]}).2 ["media"; "x"]
  = Some (bstr "first").
Proof.
  exact (put_is_all_or_nothing (λ i, if (i =? 1)%nat then Some "disk full" else None) (Some [Byte.x01])
    "media" "x" (bstr "second") {[["media"; "x"] := File (bstr "first")]} _ _ ["media"; "x"]
    eq_refl (surjective_pairing _) ["media"; "x"] ltac:(discriminate)).
Defined.

Lemma stored_object_is_fetched_witness :
  ∃ fs', fs_put no_faults None "media" "a/b" (bstr "sealed") ∅ = (Ok tt, fs') ∧
    fs_get no_faults "media" "a/b" fs' = Ok (bstr "sealed").
Proof.
  destruct (stored_object_is_fetched None "media" "a/b" (bstr "sealed") ∅ ["media"; "a"; "b"])
    as (fs' & H1 & H2 & _); [by intros p n ?%lookup_empty_Some|done..|].
  exists fs'. split; [exact H1|exact H2].
Defined.
