(* ===== verification/BlobRole.v ===== *)
(** * The blob role: [buh-core/src/{ports,blob}.rs], [buh-data/src/s3_blob.rs]

    [BlobStore] is the port as a record of operations on the backend's state;
    the role's functions are written against it.  [BlobContract] is what the
    port promises, and the file system and S3 backends discharge it.  The S3
    client of the AWS SDK is the parameter [S3Client]. *)

From S2P Require Import Prelude.
From S2P Require Import Entities.
From S2P Require Import Blob.

(** ** The port *)

Record BlobStore (S : Type) := {
  bs_exists : string → string → ST S CoreError bool;
  bs_put : string → string → bytes → ST S CoreError unit;
  bs_get : string → string → ST S CoreError bytes;
  bs_presign_get : string → string → Z → ST S CoreError string;
}.
Arguments bs_exists {S} _ _ _.
Arguments bs_put {S} _ _ _ _.
Arguments bs_get {S} _ _ _.
Arguments bs_presign_get {S} _ _ _ _.

(** [FsBlobStore] as a port; [f] and [partial] as in [Blob]. *)
Definition fs_store (f : IoFaults) (partial : option bytes) : BlobStore Fs := {|
  bs_exists bucket key := λ fs, (fs_exists f bucket key fs, fs);
  bs_put := fs_put f partial;
  bs_get bucket key := λ fs, (fs_get f bucket key fs, fs);
  bs_presign_get bucket key ttl := st_lift (fs_presign_get bucket key ttl);
|}.

(** ** [core/blob.rs]: the role gate and the size limit; [st] is [ctx.blob] *)

Section Role.
Context {S : Type}.

Definition store (st : option (BlobStore S)) : Result CoreError (BlobStore S) :=
  ok_or st (Unimplemented "node does not run the blob role").

Definition blob_put (config : CoreConfig) (st : option (BlobStore S)) (bucket key : string)
    (b : bytes) : ST S CoreError unit :=
  if blen b =? 0 then st_err (Validation (InvalidPayload "empty"))
  else if max_blob_bytes config <? blen b
  then st_err (Validation (InvalidPayload "exceeds size limit"))
  else
    let! store := st_lift (store st) in
    bs_put store bucket key b.

Definition blob_get (st : option (BlobStore S)) (bucket key : string) : ST S CoreError bytes :=
  let! store := st_lift (store st) in
  bs_get store bucket key.

Definition blob_exists (st : option (BlobStore S)) (bucket key : string) : ST S CoreError bool :=
  let! store := st_lift (store st) in
  bs_exists store bucket key.

(** the blob role's gate.  Empty and oversized objects are refused, on a
    node without the blob role everything is answered with [Unimplemented],
    and in all these cases the store is untouched; otherwise the call goes to
    the backend. *)
Theorem blob_role_gate config (st : option (BlobStore S)) bucket key b s :
  (b = [] → blob_put config st bucket key b s = (Err (Validation (InvalidPayload "empty")), s)) ∧
  (b ≠ [] → max_blob_bytes config < blen b →
   blob_put config st bucket key b s = (Err (Validation (InvalidPayload "exceeds size limit")), s)) ∧
  (b ≠ [] → blen b <= max_blob_bytes config → st = None →
   blob_put config st bucket key b s = (Err (Unimplemented "node does not run the blob role"), s)) ∧
  (st = None → blob_get st bucket key s = (Err (Unimplemented "node does not run the blob role"), s)) ∧
  (∀ B, st = Some B → b ≠ [] → blen b <= max_blob_bytes config →
   blob_put config st bucket key b s = bs_put B bucket key b s) ∧
  (∀ B, st = Some B → blob_get st bucket key s = bs_get B bucket key s).
Proof.
  unfold blob_put, blob_get, store. destruct b as [|x b].
  - split_and!; intros; subst; done.
  - assert ((blen (x :: b) =? 0) = false) as -> by (apply Z.eqb_neq; rewrite blen_cons; pose proof (blen_nonneg b); lia).
    destruct (Z.ltb_spec (max_blob_bytes config) (blen (x :: b))); split_and!; intros; subst; try done; lia.
Qed.

(** ** What the port promises

    [objects s bucket key] is the object the backend holds there.  An answer
    reports it, looking does not change it, and a put that succeeds stores
    exactly the bytes and leaves [kept] objects alone. *)

Class BlobContract (B : BlobStore S) (objects : S → string → string → option bytes)
    (kept : string → string → string → string → Prop) : Prop := {
  contract_get b k s r s' :
    bs_get B b k s = (r, s') → s' = s ∧
    match r with Ok v => objects s b k = Some v | Err NotFound => objects s b k = None | Err _ => True end;
  contract_exists b k s e s' :
    bs_exists B b k s = (Ok e, s') → s' = s ∧ e = bool_decide (is_Some (objects s b k));
  contract_put b k v s s' :
    bs_put B b k v s = (Ok tt, s') → objects s' b k = Some v ∧
    ∀ b' k' w, kept b k b' k' → objects s b' k' = Some w → objects s' b' k' = Some w;
}.

Context (B : BlobStore S) (objects : S → string → string → option bytes)
  (kept : string → string → string → string → Prop) `{C : !BlobContract B objects kept}.

(** C35: an object stored through the role is the one that is fetched: after a
    put that succeeded, a get answers with exactly those bytes or with a
    storage error, never with other bytes and never with "not found"; objects
    the backend keeps are still there. *)
Theorem role_fetches_what_it_stored config bucket key b s s' :
  blob_put config (Some B) bucket key b s = (Ok tt, s') →
  (∀ r s'', blob_get (Some B) bucket key s' = (r, s'') → s'' = s' ∧ r ≠ Err NotFound ∧
     ∀ c, r = Ok c → c = b) ∧
  (∀ e s'', blob_exists (Some B) bucket key s' = (Ok e, s'') → e = true) ∧
  (∀ b' k' w c s'', kept bucket key b' k' → objects s b' k' = Some w →
     blob_get (Some B) b' k' s' = (Ok c, s'') → c = w) ∧
  0 < blen b <= max_blob_bytes config.
Proof.
  unfold blob_put, blob_get, blob_exists, store, st_bind, st_lift. cbn [ok_or].
  destruct (Z.eqb_spec (blen b) 0); [done|]. destruct (Z.ltb_spec (max_blob_bytes config) (blen b)); [done|].
  intros [Ho Hk]%contract_put. split_and!; [| | |pose proof (blen_nonneg b); lia|done].
  - intros r s'' [-> Hr]%contract_get. split_and!; [done| |].
    + intros ->. congruence.
    + intros c ->. congruence.
  - intros e s'' [_ ->]%contract_exists. by rewrite Ho.
  - intros b' k' w c s'' Hkept Hw [_ Hc]%contract_get. specialize (Hk _ _ _ Hkept Hw). congruence.
Qed.
End Role.

(** ** The file-system backend keeps the promise *)

Section FsContract.

Definition fs_objects (fs : Fs) (bucket key : string) : option bytes :=
  match resolve bucket key with
  | Ok p => if blocked fs p then None else file_at fs p
  | Err _ => None
  end.

(** Neither the object under the temporary name nor what would lie below the
    new file is kept. *)
Definition fs_kept (bucket key bucket' key' : string) : Prop :=
  ∀ p q, resolve bucket key = Ok p → resolve bucket' key' = Ok q →
    q ≠ p ∧ q ≠ tmp_path p ∧ p ∉ ancestors q.

Lemma fs_get_objects f bucket key fs r :
  fs_get f bucket key fs = r →
  match r with
  | Ok v => fs_objects fs bucket key = Some v
  | Err NotFound => fs_objects fs bucket key = None
  | Err _ => True
  end.
Proof.
  intros <-. unfold fs_get, fs_objects. destruct (resolve bucket key) as [p|e] eqn:E; cbn [rbind];
    [|by apply resolve_Err in E as [v ->]].
  destruct (f 0%nat); [done|]. unfold fs_lookup, file_at.
  destruct (blocked fs p); [done|]. destruct (fs !! p) as [[]|]; done.
Qed.

Lemma put_not_blocked f partial bucket key b fs fs' p :
  resolve bucket key = Ok p → fs_put f partial bucket key b fs = (Ok tt, fs') →
  blocked fs p = false ∧ fs' !! tmp_path p = None.
Proof.
  intros Hp Hput. unfold fs_put, st_bind, st_lift in Hput. rewrite Hp in Hput.
  destruct (io_call f 0 _ fs) as [[[]|e] fs1] eqn:E1; [|done].
  destruct (write_call f 1 partial (tmp_path p) b fs1) as [[[]|e] fs2] eqn:E2; [|done].
  assert (∃ d name, p = d ++ [name]) as (d & name & ->).
  { apply resolve_Ok in Hp as (-> & _ & _). pose proof (split_nonempty slash key) as Hn.
    destruct (exists_last Hn) as (l & x & ->). by exists (bucket :: l), x. }
  assert (tmp_path (d ++ [name]) = d ++ [name +:+ ".tmp"]) as Et.
  { unfold tmp_path. by rewrite last_snoc, removelast_last. }
  rewrite Et in *. split.
  - unfold write_call in E2. destruct (f 1%nat); [done|]. unfold fs_write in E2.
    destruct (blocked fs1 _) eqn:Hb; [done|]. rewrite <-Hb. symmetry. apply blocked_ext; [by rewrite !ancestors_app|].
    intros a _. unfold io_call in E1. destruct (f 0%nat); [done|].
    destruct (fs_create_dir_all _ fs) as [r1 fs1'] eqn:E. injection E1 as _ <-.
    by eapply create_dir_all_file.
  - unfold io_call, fs_rename in Hput. destruct (f 2%nat); [done|].
    destruct (fs2 !! (d ++ [name +:+ ".tmp"])); [|done].
    assert (d ++ [name] ≠ d ++ [name +:+ ".tmp"]) as Hne.
    { intros H%app_inv_head. pose proof (append_tmp_ne name). congruence. }
    destruct (fs2 !! (d ++ [name])) as [[]|]; cbn [map_err] in Hput; [|done|];
      injection Hput as <-; by rewrite lookup_insert_ne, lookup_delete_eq by done.
Qed.

#[export] Instance fs_contract f partial : BlobContract (fs_store f partial) fs_objects fs_kept.
Proof.
  split; cbn [bs_get bs_exists bs_put fs_store].
  - intros b k s r s' [= <- <-]. split; [done|]. by eapply fs_get_objects.
  - intros b k s e s' [= H <-]. split; [done|]. unfold fs_exists, fs_objects in *.
    destruct (resolve b k) as [p|]; cbn [rbind] in H; [|done]. destruct (f 0%nat); [done|].
    unfold fs_lookup, file_at in *. destruct (blocked s p); [done|].
    destruct (s !! p) as [[]|]; cbn in H; injection H as <-; by vm_compute.
  - intros b k v s s' H. destruct (resolve b k) as [p|] eqn:Hp; cycle 1.
    { unfold fs_put, st_bind, st_lift in H. by rewrite Hp in H. }
    pose proof (put_frame _ _ _ _ _ _ _ _ _ Hp H) as Hf.
    destruct (put_not_blocked _ _ _ _ _ _ _ _ Hp H) as [Hb Ht]. unfold fs_objects.
    assert (∀ q, q ≠ p → file_at s q = None → file_at s' q = None) as Hnone.
    { intros q Hq Hn. destruct (decide (q = tmp_path p)) as [->|Hqt]; [unfold file_at; by rewrite Ht|].
      rewrite Hf by done. by rewrite bool_decide_false. }
    split.
    + rewrite Hp. assert (p ≠ []) as Hne by (apply resolve_Ok in Hp as (-> & _); done).
      rewrite (proj2 (blocked_false s' p)).
      * rewrite Hf by (pose proof (tmp_path_ne p Hne); congruence). by rewrite bool_decide_true.
      * intros a Ha. apply Hnone; [intros ->; apply ancestors_shorter in Ha; lia|].
        by apply (proj1 (blocked_false s p) Hb).
    + intros b' k' w Hk. destruct (resolve b' k') as [q|] eqn:Hq; [|done].
      destruct (Hk p q Hp Hq) as (Hqp & Hqt & Ha). destruct (blocked s q) eqn:Hbq; [done|]. intros Hw.
      rewrite (proj2 (blocked_false s' q)).
      * rewrite Hf by done. by rewrite bool_decide_false.
      * intros a Haq. apply Hnone; [by intros ->|]. by apply (proj1 (blocked_false s q) Hbq).
Qed.
End FsContract.

(** ** [S3BlobStore] *)

(** What the adapter asks of a service error. *)
Record S3Error := {
  s3e_not_found : bool;
  s3e_no_such_key : bool;
  s3e_already_owned : bool;
  s3e_already_exists : bool;
  s3e_text : string;
}.

Record S3Settings := {
  s3_endpoint : string;
  s3_region : string;
  s3_access_key : string;
  s3_secret_key : string;
}.

(** The configuration handed to the SDK. *)
Record S3Config := {
  sc_endpoint_url : string;
  sc_region : string;
  sc_credentials : string * string * string;
  sc_force_path_style : bool;
}.

Class S3Client := {
  (** The service with its buckets. *)
  S3State : Type;
  create_bucket : S3Config → string → ST S3State S3Error unit;
  head_object : S3Config → string → string → ST S3State S3Error unit;
  put_object : S3Config → string → string → string → bytes → ST S3State S3Error unit;
  (** The body arrives as a stream whose collection can fail. *)
  get_object : S3Config → string → string → ST S3State S3Error (Result string bytes);
  expires_in : Z → Result string Z;
  presigned : S3Config → string → string → Z → ST S3State string string;
}.

Section S3.
Context `{C3 : S3Client}.

Definition S3BlobStore_new (settings : S3Settings) : S3Config := {|
  sc_endpoint_url := s3_endpoint settings;
  sc_region := s3_region settings;
  sc_credentials := (s3_access_key settings, s3_secret_key settings, "buh-static");
  sc_force_path_style := true;
|}.

Definition ensure_bucket (c : S3Config) (bucket : string) : ST S3State CoreError unit := λ s,
  match create_bucket c bucket s with
  | (Ok _, s') => (Ok tt, s')
  | (Err svc, s') =>
      if s3e_already_owned svc || s3e_already_exists svc then (Ok tt, s')
      else (Err (Storage (s3e_text svc)), s')
  end.

Definition s3_exists (c : S3Config) (bucket key : string) : ST S3State CoreError bool := λ s,
  match head_object c bucket key s with
  | (Ok _, s') => (Ok true, s')
  | (Err svc, s') => if s3e_not_found svc then (Ok false, s') else (Err (Storage (s3e_text svc)), s')
  end.

Definition s3_put (c : S3Config) (bucket key : string) (b : bytes) : ST S3State CoreError unit :=
  st_map_err (λ svc, Storage (s3e_text svc))
    (put_object c bucket key "application/octet-stream" b).

Definition s3_get (c : S3Config) (bucket key : string) : ST S3State CoreError bytes :=
  let! out := st_map_err (λ svc, if s3e_no_such_key svc then NotFound else Storage (s3e_text svc))
                (get_object c bucket key) in
  st_lift (map_err Storage out).

Definition s3_presign_get (c : S3Config) (bucket key : string) (ttl_seconds : Z) :
    ST S3State CoreError string :=
  let! presign := st_lift (map_err Storage (expires_in ttl_seconds)) in
  st_map_err Storage (presigned c bucket key presign).

Definition s3_store (c : S3Config) : BlobStore S3State := {|
  bs_exists := s3_exists c; bs_put := s3_put c; bs_get := s3_get c; bs_presign_get := s3_presign_get c;
|}.

(** The service is strongly consistent: reads report the objects and leave
    them, a successful write stores the object and touches no other; "no such
    key" and "not found" mean that there is none. *)
Class S3Laws (objects : S3State → string → string → option bytes) : Prop := {
  get_object_law c b k s r s' :
    get_object c b k s = (r, s') → s' = s ∧
    match r with
    | Ok (Ok v) => objects s b k = Some v
    | Err e => s3e_no_such_key e = true → objects s b k = None
    | _ => True
    end;
  head_object_law c b k s r s' :
    head_object c b k s = (r, s') → s' = s ∧
    match r with
    | Ok _ => is_Some (objects s b k)
    | Err e => s3e_not_found e = true → objects s b k = None
    end;
  put_object_law c b k t v s s' :
    put_object c b k t v s = (Ok tt, s') → objects s' b k = Some v ∧
    ∀ b' k', (b', k') ≠ (b, k) → objects s' b' k' = objects s b' k';
}.

(** On S3 every other object is kept. *)
Definition s3_kept (bucket key bucket' key' : string) : Prop := (bucket', key') ≠ (bucket, key).

#[export] Instance s3_contract c objects `{!S3Laws objects} :
  BlobContract (s3_store c) objects s3_kept.
Proof.
  split; cbn [bs_get bs_exists bs_put s3_store].
  - intros b k s r s'. unfold s3_get, st_bind, st_map_err, st_lift.
    destruct (get_object c b k s) as [[[v|e]|e] s1] eqn:E; apply get_object_law in E as [-> H]; cbn [map_err].
    1,2: by intros [= <- <-].
    destruct (s3e_no_such_key e); intros [= <- <-]; auto.
  - intros b k s e s'. unfold s3_exists. destruct (head_object c b k s) as [[u|er] s1] eqn:E;
      apply head_object_law in E as [-> H].
    + intros [= <- <-]. split; [done|]. by rewrite bool_decide_true.
    + destruct (s3e_not_found er); [|done]. intros [= <- <-]. split; [done|]. by rewrite H.
  - intros b k v s s'. unfold s3_put, st_map_err.
    destruct (put_object c b k _ v s) as [[[]|e] s1] eqn:E; cbn [map_err]; [|done]. intros [= <-].
    apply put_object_law in E as [Ho Hf]. split; [done|].
    intros b' k' w Hk Hw. by rewrite Hf.
Qed.

(** creating a bucket that is already there succeeds, so that a deployment
    can repeat it; any other refusal is a storage error. *)
Theorem ensure_bucket_is_idempotent c bucket s :
  match create_bucket c bucket s with
  | (Ok _, s') => ensure_bucket c bucket s = (Ok tt, s')
  | (Err e, s') =>
      (s3e_already_owned e || s3e_already_exists e = true → ensure_bucket c bucket s = (Ok tt, s')) ∧
      (s3e_already_owned e || s3e_already_exists e = false →
       ensure_bucket c bucket s = (Err (Storage (s3e_text e)), s'))
  end.
Proof.
  unfold ensure_bucket. destruct (create_bucket c bucket s) as [[]]; [done|].
  by split; intros ->.
Qed.
End S3.

(** ** A service in memory, and witnesses *)

Module MemoryS3.
Definition no_such : S3Error :=
  {| s3e_not_found := true; s3e_no_such_key := true; s3e_already_owned := false;
     s3e_already_exists := false; s3e_text := "NoSuchKey" |}.

#[export] Instance client : S3Client := {|
  S3State := gmap (string * string) bytes;
  create_bucket _ _ := λ s, (Ok tt, s);
  head_object _ b k := λ s, (match s !! (b, k) with Some _ => Ok tt | None => Err no_such end, s);
  put_object _ b k _ v := λ s, (Ok tt, <[(b, k) := v]> s);
  get_object _ b k := λ s, (match s !! (b, k) with Some v => Ok (Ok v) | None => Err no_such end, s);
  expires_in t := if t <? 604801 then Ok t else Err "expires_in must be less than one week";
  presigned _ b k _ := λ s, (Ok (b +:+ k), s);
|}.

Definition objects (s : gmap (string * string) bytes) (b k : string) : option bytes := s !! (b, k).

#[export] Instance laws : S3Laws objects.
Proof.
  split; unfold objects; cbn [get_object head_object put_object client].
  - intros c b k s r s' [= <- <-]. split; [done|]. by repeat case_match; simplify_eq.
  - intros c b k s r s' [= <- <-]. split; [done|]. repeat case_match; simplify_eq; [by eexists|done].
  - intros c b k t v s s' [= <-]. rewrite lookup_insert_eq. split; [done|].
    intros b' k' H. by rewrite lookup_insert_ne by congruence.
Qed.

Definition config : S3Config := S3BlobStore_new
  {| s3_endpoint := "http://localhost:9000"; s3_region := "us-east-1"; s3_access_key := "a"; s3_secret_key := "b" |}.
Definition one : @S3State client := <[("media", "x") := [Byte.x07]]> (∅ : gmap (string * string) bytes).
End MemoryS3.

Lemma blob_role_gate_witness :
  blob_put CoreConfig_default (@None (BlobStore Fs)) "media" "x" [Byte.x01] ∅
  = (Err (Unimplemented "node does not run the blob role"), ∅).
Proof.
  refine (proj1 (proj2 (proj2 (blob_role_gate CoreConfig_default (@None (BlobStore Fs)) "media" "x"
    [Byte.x01] ∅))) _ _ eq_refl); [discriminate|by vm_compute].
Defined.

#[local] Existing Instances MemoryS3.client MemoryS3.laws.

Lemma role_fetches_what_it_stored_witness :
  (∀ r s'', blob_get (Some (s3_store (C3 := MemoryS3.client) MemoryS3.config)) "media" "x" MemoryS3.one
            = (r, s'') → ∀ c, r = Ok c → c = [Byte.x07]) ∧
  (∀ e s'', blob_exists (Some (fs_store no_faults None)) "media" "x"
      (fs_put no_faults None "media" "x" [Byte.x07] ∅).2 = (Ok e, s'') → e = true).
Proof.
  split.
  - intros r s'' H c Hc.
    exact (proj2 (proj2 (proj1 (role_fetches_what_it_stored (s3_store (C3 := MemoryS3.client) MemoryS3.config)
      MemoryS3.objects s3_kept CoreConfig_default "media" "x" [Byte.x07] (∅ : gmap (string * string) bytes)
      MemoryS3.one eq_refl) r s'' H)) c Hc).
  - exact (proj1 (proj2 (role_fetches_what_it_stored (fs_store no_faults None) fs_objects fs_kept
      CoreConfig_default "media" "x" [Byte.x07] ∅ _ eq_refl))).
Defined.
