(* ===== verification/PeerTrust.v ===== *)
(** * Peer trust: [buh-data/src/peer_trust.rs], [buh-api/src/{tls,admin,serve}.rs]

    The registry of pinned CA fingerprints, the live snapshot of it that the
    TLS verifiers read, the operator calls that change both, and the decision
    on a presented certificate chain.  X.509 parsing and signature checks, and
    SHA-256, are the parameters of the class [X509].  As in the mailbox, a call
    of the datastore can fail ([Faults]). *)

From S2P Require Import Prelude.
From S2P Require Import Text.
From S2P Require Import Entities.
From S2P Require Import Mailbox.
From stdpp Require Import pretty.
#[local] Open Scope Z_scope.

Definition colon : Z := 58.

(** ** Rows and statements of [migrations/0002_peer_trust.sql] *)

Record PeerRow := { pr_fingerprint : text; pr_note : option text; pr_trusted_at : Z }.

Abbreviation PeerTable := (list PeerRow).

Definition call {S A} (f : Faults) (i : nat) (m : S → Result string A * S) : ST S CoreError A :=
  λ s, match f i with
       | Some e => (Err (Repo e), s)
       | None => let '(r, s') := m s in (map_err Repo r, s')
       end.

Definition open_conn {S} : S → Result string unit * S := λ s, (Ok tt, s).

(** [INSERT ... ON CONFLICT(ca_fingerprint) DO UPDATE SET note = excluded.note]. *)
Definition upsert_peer (fp : text) (note : option text) (now : Z) :
    PeerTable → Result string Z * PeerTable := λ t,
  (Ok 1,
   if existsb (λ r, bool_decide (pr_fingerprint r = fp)) t
   then (λ r, if bool_decide (pr_fingerprint r = fp)
              then {| pr_fingerprint := fp; pr_note := note; pr_trusted_at := pr_trusted_at r |}
              else r) <$> t
   else t ++ [{| pr_fingerprint := fp; pr_note := note; pr_trusted_at := now |}]).

Definition delete_peer (fp : text) : PeerTable → Result string Z * PeerTable := λ t,
  (Ok (blen (filter (λ r : PeerRow, pr_fingerprint r = fp) t)),
   filter (λ r : PeerRow, pr_fingerprint r ≠ fp) t).

Definition select_peer (fp : text) : PeerTable → Result string PeerTable * PeerTable := λ t,
  (Ok (filter (λ r : PeerRow, pr_fingerprint r = fp) t), t).

(** [ORDER BY trusted_at DESC]; the statement leaves the order of equal times
    open. *)
Definition newer (r s : PeerRow) : Prop := pr_trusted_at s <= pr_trusted_at r.

#[export] Instance newer_dec r s : Decision (newer r s).
Proof. unfold newer. apply _. Defined.

Definition select_peers : PeerTable → Result string PeerTable * PeerTable := λ t,
  (Ok (merge_sort newer t), t).

(** ** [TursoPeerTrust]

    [lower_table] is the part of [char::to_lowercase] beyond ASCII. *)

Record TrustedPeer := { tp_fingerprint : text; tp_note : option text; tp_trusted_at : Z }.

Section Registry.
Context `{EX : Externals} (lower_table : Z → list Z).

Definition to_lowercase (c : Z) : list Z :=
  if c <? 128 then [ascii_lower c] else lower_table c.

Definition normalize (fingerprint : text) : text :=
  filter (λ c, c ≠ colon) (trim fingerprint) ≫= to_lowercase.

Definition trust (f : Faults) (now : Z) (ca_fingerprint : text) (note : option text) :
    ST PeerTable CoreError unit :=
  let fp := normalize ca_fingerprint in
  let! _ := call f 0 open_conn in
  let! _ := call f 1 (upsert_peer fp note now) in
  st_ret tt.

Definition distrust (f : Faults) (ca_fingerprint : text) : ST PeerTable CoreError bool :=
  let fp := normalize ca_fingerprint in
  let! _ := call f 0 open_conn in
  let! affected := call f 1 (delete_peer fp) in
  st_ret (0 <? affected).

Definition is_trusted (f : Faults) (ca_fingerprint : text) : ST PeerTable CoreError bool :=
  let fp := normalize ca_fingerprint in
  let! _ := call f 0 open_conn in
  let! rows := call f 1 (select_peer fp) in
  let! next := call f 2 (λ t, (Ok (head rows), t)) in
  st_ret (bool_decide (is_Some next)).

(** The row loop of [list]; the columns have the types of the schema. *)
Fixpoint collect_peers (f : Faults) (i : nat) (rows : PeerTable) (out : list TrustedPeer) :
    Result CoreError (list TrustedPeer) :=
  match f i with
  | Some e => Err (Repo e)
  | None =>
      match rows with
      | [] => Ok out
      | r :: rows =>
          let? trusted_at :=
            if dt_in_range (pr_trusted_at r) then Ok (pr_trusted_at r)
            else Err (Repo ("bad trusted_at: " +:+ pretty (pr_trusted_at r))) in
          collect_peers f (S i) rows
            (out ++ [{| tp_fingerprint := pr_fingerprint r; tp_note := pr_note r;
                        tp_trusted_at := trusted_at |}])
      end
  end.

Definition list_trusted (f : Faults) : ST PeerTable CoreError (list TrustedPeer) :=
  let! _ := call f 0 open_conn in
  let! rows := call f 1 select_peers in
  st_lift (collect_peers f 2 rows []).

(** ** The node: the registry and the live snapshot shared with the verifiers *)

Record Node := { nd_registry : PeerTable; nd_trust : gset text }.

(** [TrustStore::replace] and [TrustStore::contains]. *)
Definition replace (fps : list text) (n : Node) : Node :=
  {| nd_registry := nd_registry n; nd_trust := list_to_set fps |}.

Definition trust_contains (trust : gset text) (fp : text) : bool := bool_decide (fp ∈ trust).

Definition on_registry {A} (m : ST PeerTable CoreError A) : ST Node CoreError A := λ n,
  let '(r, t) := m (nd_registry n) in (r, {| nd_registry := t; nd_trust := nd_trust n |}).

(** ** [admin.rs] and [serve.rs]

    [f] and [g] are the faults of the registry call and of the refresh. *)

Definition refresh_live (g : Faults) : ST Node CoreError unit :=
  let! peers := on_registry (list_trusted g) in
  λ n, (Ok tt, replace (tp_fingerprint <$> peers) n).

Definition trust_peer (f g : Faults) (now : Z) (ca_fingerprint : text) (note : option text) :
    ST Node CoreError text :=
  let! _ := on_registry (trust f now ca_fingerprint note) in
  let! _ := refresh_live g in
  st_ret ca_fingerprint.

Definition distrust_peer (f g : Faults) (ca_fp : text) : ST Node CoreError bool :=
  let! removed := on_registry (distrust f ca_fp) in
  let! _ := refresh_live g in
  st_ret removed.

(** [GET /admin/info]: [own] is the fingerprint of this node's CA. *)
Definition info (own : text) (g : Faults) : ST Node CoreError (text * Z) :=
  let! peers := on_registry (list_trusted g) in
  st_ret (own, blen peers).

Definition list_peers (g : Faults) : ST Node CoreError (list (text * option text * Z)) :=
  let! peers := on_registry (list_trusted g) in
  st_ret ((λ p, (tp_fingerprint p, tp_note p, tp_trusted_at p)) <$> peers).

(** [serve.rs]: on an error the snapshot stays as it is. *)
Definition refresh_trust (g : Faults) (n : Node) : Node :=
  match on_registry (list_trusted g) n with
  | (Ok peers, n') => replace (tp_fingerprint <$> peers) n'
  | (Err _, n') => n'
  end.

(** ** Interleavings

    Operator calls and the rotation timer run as tasks of a multi-threaded
    runtime.  A refresh reads the registry in one step and replaces the
    snapshot in a later one; [sy_pending] holds what task [w] has read. *)

Inductive event : Type :=
| EvTrust (f : Faults) (now : Z) (ca_fingerprint : text) (note : option text)
| EvDistrust (f : Faults) (ca_fingerprint : text)
| EvList (g : Faults) (w : nat)
| EvReplace (w : nat).

Record Sys := { sy_node : Node; sy_pending : gmap nat (list text) }.

Definition exec (s : Sys) (e : event) : Sys :=
  match e with
  | EvTrust f now fp note =>
      {| sy_node := (on_registry (trust f now fp note) (sy_node s)).2; sy_pending := sy_pending s |}
  | EvDistrust f fp =>
      {| sy_node := (on_registry (distrust f fp) (sy_node s)).2; sy_pending := sy_pending s |}
  | EvList g w =>
      match on_registry (list_trusted g) (sy_node s) with
      | (Ok peers, n) =>
          {| sy_node := n; sy_pending := <[w := tp_fingerprint <$> peers]> (sy_pending s) |}
      | (Err _, n) => {| sy_node := n; sy_pending := delete w (sy_pending s) |}
      end
  | EvReplace w =>
      match sy_pending s !! w with
      | Some fps => {| sy_node := replace fps (sy_node s); sy_pending := delete w (sy_pending s) |}
      | None => s
      end
  end.

Definition run (es : list event) (s : Sys) : Sys := foldl exec s es.

(** The node at start: what the registry holds, and a snapshot that trusts
    nobody. *)
Definition boot (t : PeerTable) : Sys :=
  {| sy_node := {| nd_registry := t; nd_trust := ∅ |}; sy_pending := ∅ |}.

(** ** [tls.rs]: the decision on a presented chain *)

Class X509 := {
  sha256 : bytes → bytes;
  Certificate : Type;
  PublicKey : Type;
  from_der : bytes → option Certificate;
  (** [basic_constraints()]: an error, no such extension, or its [ca] flag. *)
  basic_constraints : Certificate → Result string (option bool);
  public_key : Certificate → PublicKey;
  (** [verify_signature(key)]; without a key the certificate's own is used. *)
  verify_signature : Certificate → option PublicKey → bool;
  not_before : Certificate → Z;
  not_after : Certificate → Z;
}.

Context `{X : X509}.

(** [buh_data::fingerprint]. *)
Definition fingerprint (ca_der : bytes) : text := chars (hex_encode (sha256 ca_der)).

Definition check_validity (cert : Certificate) (now_secs : Z) (what : string) : Result string unit :=
  if now_secs <? not_before cert then Err (what +:+ " not yet valid")
  else if not_after cert <? now_secs then Err (what +:+ " expired")
  else Ok tt.

(** [i64::try_from(now.as_secs()).unwrap_or(i64::MAX)]. *)
Definition now_secs (now : Z) : Z := Z.min now i64_max.

Definition verify_pinned_chain (end_entity : bytes) (intermediates : list bytes) (now : Z)
    (trust : gset text) : Result string unit :=
  let? ca_der := ok_or (last intermediates) "peer presented no issuing CA" in
  if negb (trust_contains trust (fingerprint ca_der)) then Err "peer CA is not trusted (unpinned)"
  else
    let? ca := ok_or (from_der ca_der) "malformed CA cert" in
    let? leaf := ok_or (from_der end_entity) "malformed leaf cert" in
    let? _ := match basic_constraints ca with
              | Ok (Some true) => Ok tt
              | _ => Err "pinned cert is not a CA"
              end in
    let? _ := if verify_signature ca None then Ok tt else Err "CA self-signature invalid" in
    let? _ := if verify_signature leaf (Some (public_key ca)) then Ok tt
              else Err "leaf does not chain to pinned CA" in
    let? _ := check_validity leaf (now_secs now) "leaf" in
    check_validity ca (now_secs now) "CA".

(** Both verifiers make this decision; the server name is not looked at. *)
Definition verify_client_cert (n : Node) (end_entity : bytes) (intermediates : list bytes) (now : Z) :
    Result string unit :=
  verify_pinned_chain end_entity intermediates now (nd_trust n).

Definition verify_server_cert (n : Node) (end_entity : bytes) (intermediates : list bytes)
    (server_name : string) (now : Z) : Result string unit :=
  verify_pinned_chain end_entity intermediates now (nd_trust n).

(** ** The registry calls *)

Definition pinned (t : PeerTable) : list text := pr_fingerprint <$> t.

Lemma call_inv {S A} (f : Faults) i (m : S → Result string A * S) s r s' :
  call f i m s = (r, s') →
  (∃ e, f i = Some e ∧ r = Err (Repo e) ∧ s' = s) ∨
  (f i = None ∧ r = map_err Repo (m s).1 ∧ s' = (m s).2).
Proof. unfold call. destruct (f i); [naive_solver|]. destruct (m s); naive_solver. Qed.

Lemma upsert_pinned fp note now t x :
  x ∈ pinned (upsert_peer fp note now t).2 ↔ x ∈ pinned t ∨ x = fp.
Proof.
  unfold upsert_peer, pinned. cbn [snd]. destruct (existsb _ t) eqn:E.
  - apply existsb_exists in E as (r0 & Hr0 & Hfp). apply bool_decide_eq_true in Hfp.
    rewrite <-list_fmap_compose.
    rewrite (list_fmap_ext _ pr_fingerprint) by (intros ? r _; cbn; case_bool_decide; by subst).
    split; [tauto|]. intros [H| ->]; [done|]. apply list_elem_of_fmap. exists r0.
    split; [done|]. by apply list_elem_of_In.
  - rewrite fmap_app, elem_of_app. cbn. rewrite list_elem_of_singleton. tauto.
Qed.

Lemma delete_pinned fp (t : PeerTable) x :
  x ∈ pinned (delete_peer fp t).2 ↔ x ∈ pinned t ∧ x ≠ fp.
Proof.
  unfold delete_peer, pinned. cbn [snd]. rewrite !list_elem_of_fmap.
  setoid_rewrite list_elem_of_filter. naive_solver.
Qed.

Lemma delete_count fp (t : PeerTable) :
  (0 <? blen (filter (λ r : PeerRow, pr_fingerprint r = fp) t)) = bool_decide (fp ∈ pinned t).
Proof.
  unfold blen, pinned. destruct (filter _ t) as [|r l] eqn:E.
  - symmetry. apply bool_decide_eq_false. rewrite list_elem_of_fmap. intros (r & -> & Hr).
    apply (not_elem_of_nil r). rewrite <-E. by apply list_elem_of_filter.
  - symmetry. cbn [length]. rewrite bool_decide_true; [by symmetry; apply Z.ltb_lt; lia|].
    assert (r ∈ filter (λ r : PeerRow, pr_fingerprint r = fp) t) as Hr by (rewrite E; left).
    apply list_elem_of_filter in Hr as [<- Hr]. by apply list_elem_of_fmap_2.
Qed.

(** A sequence of datastore calls: the first fault ends it; a statement of this
    file does not fail by itself. *)
Lemma call_bind_inv {S A B} (f : Faults) i (m : S → Result string A * S) (k : A → ST S CoreError B) s r s' a :
  (m s).1 = Ok a → st_bind (call f i m) k s = (r, s') →
  (∃ e, r = Err (Repo e) ∧ s' = s) ∨ k a (m s).2 = (r, s').
Proof.
  unfold st_bind, call. intros Hm. destruct (f i) as [e|]; [intros [= <- <-]; eauto|].
  destruct (m s) as [r0 s0]. cbn in Hm |- *. subst r0. auto.
Qed.

Ltac next_call H :=
  let e := fresh "e" in eapply call_bind_inv in H; [|reflexivity]; destruct H as [(e & -> & ->)|H]; [done|].

Lemma trust_table f now ca note t r t' :
  trust f now ca note t = (r, t') →
  match r with Ok _ => t' = (upsert_peer (normalize ca) note now t).2 | Err _ => t' = t end.
Proof. unfold trust. intros H. next_call H. next_call H. by injection H as <- <-. Qed.

Lemma distrust_table f ca t r t' :
  distrust f ca t = (r, t') →
  match r with
  | Ok b => b = bool_decide (normalize ca ∈ pinned t) ∧ t' = (delete_peer (normalize ca) t).2
  | Err _ => t' = t
  end.
Proof.
  unfold distrust. intros H. next_call H. next_call H. injection H as <- <-. split; [apply delete_count|done].
Qed.

Lemma is_trusted_table f ca t r t' :
  is_trusted f ca t = (r, t') →
  t' = t ∧ ∀ b, r = Ok b → b = bool_decide (normalize ca ∈ pinned t).
Proof.
  unfold is_trusted. intros H. do 3 next_call H. injection H as <- <-. split; [done|]. intros b [= <-].
  rewrite <-delete_count. unfold blen. by destruct (filter _ t).
Qed.

Lemma list_table g t r t' :
  list_trusted g t = (r, t') →
  t' = t ∧ ∀ peers, r = Ok peers → collect_peers g 2 (merge_sort newer t) [] = Ok peers.
Proof. unfold list_trusted. intros H. do 2 next_call H. by injection H as <- <-. Qed.

Lemma trust_spec f now ca note t r t' :
  trust f now ca note t = (r, t') →
  match r with
  | Ok _ => ∀ x, x ∈ pinned t' ↔ x ∈ pinned t ∨ x = normalize ca
  | Err _ => t' = t
  end.
Proof. intros H%trust_table. destruct r; [|done]. subst t'. intros x. apply upsert_pinned. Qed.

Lemma distrust_spec f ca t r t' :
  distrust f ca t = (r, t') →
  match r with
  | Ok b => b = bool_decide (normalize ca ∈ pinned t) ∧
            ∀ x, x ∈ pinned t' ↔ x ∈ pinned t ∧ x ≠ normalize ca
  | Err _ => t' = t
  end.
Proof.
  intros H%distrust_table. destruct r; [|done]. destruct H as [-> ->]. split; [done|]. intros x. apply delete_pinned.
Qed.

Lemma collect_peers_Ok f i rows out peers :
  collect_peers f i rows out = Ok peers →
  tp_fingerprint <$> peers = (tp_fingerprint <$> out) ++ pinned rows.
Proof.
  revert i out. induction rows as [|r rows IH]; intros i out; cbn [collect_peers];
    destruct (f i); try discriminate.
  - intros [= ->]. by rewrite app_nil_r.
  - intros H. inv_ok. apply IH in H. rewrite H, fmap_app, <-app_assoc. done.
Qed.

Lemma list_spec g t r t' :
  list_trusted g t = (r, t') →
  t' = t ∧ ∀ peers, r = Ok peers → tp_fingerprint <$> peers ≡ₚ pinned t.
Proof.
  intros [-> Hl]%list_table. split; [done|]. intros peers ->%Hl%collect_peers_Ok. cbn [fmap list_fmap app].
  unfold pinned. by rewrite merge_sort_Permutation.
Qed.

Lemma refresh_live_spec g n r n' :
  refresh_live g n = (r, n') →
  nd_registry n' = nd_registry n ∧
  match r with
  | Ok _ => nd_trust n' = list_to_set (pinned (nd_registry n))
  | Err _ => nd_trust n' = nd_trust n
  end.
Proof.
  unfold refresh_live, on_registry. intros H.
  apply st_bind_inv in H as [(peers & n1 & H1 & [= <- <-])|(e & H1 & ->)];
    destruct (list_trusted g (nd_registry n)) as [r1 t1] eqn:E; apply list_spec in E as [-> Hp];
    injection H1 as -> <-.
  - split; [done|]. cbn. by rewrite (Hp peers eq_refl).
  - done.
Qed.

(** ** The decision *)

Definition valid_at (cert : Certificate) (now : Z) : Prop :=
  not_before cert <= now_secs now <= not_after cert.

Lemma check_validity_Ok cert now what :
  check_validity cert (now_secs now) what = Ok tt ↔ valid_at cert now.
Proof.
  unfold check_validity, valid_at.
  destruct (Z.ltb_spec (now_secs now) (not_before cert)); [split; [done|lia]|].
  destruct (Z.ltb_spec (not_after cert) (now_secs now)); split; try done; lia.
Qed.

(** What an accepted chain satisfies. *)
Definition chain_ok (end_entity ca_der : bytes) (now : Z) : Prop :=
  ∃ ca leaf, from_der ca_der = Some ca ∧ from_der end_entity = Some leaf ∧
    basic_constraints ca = Ok (Some true) ∧ verify_signature ca None = true ∧
    verify_signature leaf (Some (public_key ca)) = true ∧ valid_at leaf now ∧ valid_at ca now.

Lemma verify_pinned_chain_Ok ee ints now trusted :
  verify_pinned_chain ee ints now trusted = Ok tt ↔
  ∃ ca_der, last ints = Some ca_der ∧ fingerprint ca_der ∈ trusted ∧ chain_ok ee ca_der now.
Proof.
  unfold verify_pinned_chain, trust_contains, chain_ok. split.
  - intros H. inv_ok. case_bool_decide; cbn [negb] in H; [|done]. inv_ok.
    repeat match goal with u : unit |- _ => destruct u end. apply check_validity_Ok in H.
    match goal with H : check_validity _ _ _ = _ |- _ => apply check_validity_Ok in H end.
    repeat case_in Ha; repeat match goal with
      | H : match ?x with _ => _ end = Ok tt |- _ => destruct x eqn:?; try discriminate H end.
    eauto 15.
  - intros (d & -> & Hp & ca & leaf & Hca & Hleaf & Hbc & Hs1 & Hs2 & Hl & Hc). cbn [ok_or rbind].
    rewrite bool_decide_true by done. cbn [negb]. rewrite Hca. cbn [ok_or rbind]. rewrite Hleaf.
    cbn [ok_or rbind]. rewrite Hbc. cbn [rbind]. rewrite Hs1. cbn [rbind]. rewrite Hs2. cbn [rbind].
    rewrite (proj2 (check_validity_Ok leaf now "leaf") Hl). cbn [rbind]. by apply check_validity_Ok.
Qed.

Lemma unpinned_is_refused (ee : bytes) (ints : list bytes) (now : Z) (trusted : gset text) (d : bytes) :
  last ints = Some d → fingerprint d ∉ trusted →
  verify_pinned_chain ee ints now trusted = Err "peer CA is not trusted (unpinned)".
Proof.
  intros Hl Hn. unfold verify_pinned_chain, trust_contains. rewrite Hl. cbn [ok_or rbind].
  by rewrite bool_decide_false.
Qed.

(** ** Every interleaving *)

(** Fingerprints the operator has had pinned: at start or by a trust call. *)
Definition operator_pinned (t : PeerTable) (es : list event) (fp : text) : Prop :=
  fp ∈ pinned t ∨ ∃ f now ca note, EvTrust f now ca note ∈ es ∧ normalize ca = fp.

Definition sys_inv (t : PeerTable) (es : list event) (s : Sys) : Prop :=
  (∀ fp, fp ∈ pinned (nd_registry (sy_node s)) → operator_pinned t es fp) ∧
  (∀ fp, fp ∈ nd_trust (sy_node s) → operator_pinned t es fp) ∧
  (∀ w fps fp, sy_pending s !! w = Some fps → fp ∈ fps → operator_pinned t es fp).

Lemma operator_pinned_snoc t es e fp :
  operator_pinned t es fp → operator_pinned t (es ++ [e]) fp.
Proof. intros [?|(f & now & ca & note & ? & ?)]; [by left|]. right. exists f, now, ca, note. set_solver. Qed.

Lemma sys_inv_mono t es e s : sys_inv t es s → sys_inv t (es ++ [e]) s.
Proof. intros (H1 & H2 & H3). split_and!; eauto using operator_pinned_snoc. Qed.

Lemma exec_inv t es e s : sys_inv t es s → sys_inv t (es ++ [e]) (exec s e).
Proof.
  intros Hs. pose proof (sys_inv_mono t es e s Hs) as (H1 & H2 & H3).
  destruct e as [f now ca note|f ca|g w|w]; cbn [exec]; unfold on_registry.
  - destruct (trust f now ca note _) as [r t'] eqn:E. apply trust_spec in E.
    split_and!; cbn; [|eauto..]. intros fp Hfp. destruct r; [|subst; eauto].
    apply E in Hfp as [?| ->]; [eauto|]. right. exists f, now, ca, note. set_solver.
  - destruct (distrust f ca _) as [r t'] eqn:E. apply distrust_spec in E.
    split_and!; cbn; [|eauto..]. intros fp Hfp. destruct r; [|subst; eauto].
    apply E in Hfp as [? _]; eauto.
  - destruct (list_trusted g _) as [r t'] eqn:E. apply list_spec in E as [-> Hp].
    destruct r as [peers|]; split_and!; cbn; eauto; intros w' fps fp.
    + rewrite lookup_insert_Some. intros [[_ <-]|[_ ?]] Hfp; [|eauto].
      rewrite (Hp peers eq_refl) in Hfp. eauto.
    + rewrite lookup_delete_Some. intros [_ ?]; eauto.
  - destruct (sy_pending s !! w) as [fps|] eqn:E; [|done].
    split_and!; cbn; eauto.
    + intros fp. rewrite elem_of_list_to_set. eauto.
    + intros w' fps' fp. rewrite lookup_delete_Some. intros [_ ?]; eauto.
Qed.

Lemma run_inv t es : sys_inv t es (run es (boot t)).
Proof.
  induction es as [|e es IH] using rev_ind.
  - split_and!; cbn; [by left|set_solver|by intros ????].
  - unfold run. rewrite foldl_app. by apply exec_inv.
Qed.

(** C14: whatever operator calls, refreshes and datastore faults come before,
    and however they interleave, a peer is accepted only on a chain whose last
    certificate is a self-signed CA that the operator pinned (it was in the
    registry at start, or was named in a trust call), that signed the leaf, and
    only while both are valid. *)
Theorem accepted_peer_was_pinned t es ee ints now :
  verify_client_cert (sy_node (run es (boot t))) ee ints now = Ok tt →
  ∃ ca_der, last ints = Some ca_der ∧ operator_pinned t es (fingerprint ca_der) ∧
    chain_ok ee ca_der now.
Proof.
  unfold verify_client_cert. rewrite verify_pinned_chain_Ok. intros (d & Hl & Hp & Hc).
  exists d. split_and!; [done| |done]. by apply (run_inv t es).
Qed.

(** ** One operator call at a time *)

Definition snapshot_current (n : Node) : Prop :=
  nd_trust n = list_to_set (pinned (nd_registry n)).

Lemma snapshot_current_elem n fp :
  snapshot_current n → fp ∈ nd_trust n ↔ fp ∈ pinned (nd_registry n).
Proof. intros ->. apply elem_of_list_to_set. Qed.

Lemma on_registry_inv {A} (m : ST PeerTable CoreError A) n r n' :
  on_registry m n = (r, n') → m (nd_registry n) = (r, nd_registry n') ∧ nd_trust n' = nd_trust n.
Proof. unfold on_registry. destruct (m (nd_registry n)) as [r' t]. by intros [= <- <-]. Qed.

(** an operator's distrust takes effect on the next full handshake: when the
    call succeeds it reports whether the CA was pinned, both verifiers refuse
    every chain that ends in that CA, and exactly the other pins stay; when it
    fails, the snapshot the verifiers read is the one of before the call. *)
Theorem distrusted_ca_is_refused f g ca n r n' :
  distrust_peer f g ca n = (r, n') →
  match r with
  | Ok removed =>
      removed = bool_decide (normalize ca ∈ pinned (nd_registry n)) ∧
      (∀ fp, fp ∈ nd_trust n' ↔ fp ∈ pinned (nd_registry n) ∧ fp ≠ normalize ca) ∧
      ∀ ee ints d name now, last ints = Some d → fingerprint d = normalize ca →
        verify_client_cert n' ee ints now = Err "peer CA is not trusted (unpinned)" ∧
        verify_server_cert n' ee ints name now = Err "peer CA is not trusted (unpinned)"
  | Err _ => nd_trust n' = nd_trust n
  end.
Proof.
  unfold distrust_peer. intros H.
  apply st_bind_inv in H as [(b & n1 & H1 & H)|(e & H1 & ->)];
    apply on_registry_inv in H1 as [H1 Ht]; [|done].
  apply distrust_spec in H1 as [-> Hp].
  apply st_bind_inv in H as [(u & n2 & H2 & [= <- <-])|(e & H2 & ->)];
    apply refresh_live_spec in H2 as [Hr Hs]; [|by rewrite Hs].
  assert (∀ fp, fp ∈ nd_trust n2 ↔ fp ∈ pinned (nd_registry n) ∧ fp ≠ normalize ca) as Hlive.
  { intros fp. by rewrite Hs, elem_of_list_to_set, Hp. }
  split_and!; [done..|]. intros ee ints d name now Hl Hd. unfold verify_client_cert, verify_server_cert.
  split; apply (unpinned_is_refused _ _ _ _ d Hl); rewrite Hd, Hlive; tauto.
Qed.

(** an operator's trust call pins the CA: when it succeeds the live
    snapshot is the registry, which holds the CA and everything pinned before;
    a chain that ends in the CA is then accepted exactly when it is a valid
    chain; when it fails, no verifier sees a change. *)
Theorem trusted_ca_is_accepted f g now ca note n r n' :
  trust_peer f g now ca note n = (r, n') →
  match r with
  | Ok echoed =>
      echoed = ca ∧ snapshot_current n' ∧
      (∀ fp, fp ∈ nd_trust n' ↔ fp ∈ pinned (nd_registry n) ∨ fp = normalize ca) ∧
      ∀ ee ints d t, last ints = Some d → fingerprint d = normalize ca →
        verify_client_cert n' ee ints t = Ok tt ↔ chain_ok ee d t
  | Err _ => nd_trust n' = nd_trust n
  end.
Proof.
  unfold trust_peer. intros H.
  apply st_bind_inv in H as [(b & n1 & H1 & H)|(e & H1 & ->)];
    apply on_registry_inv in H1 as [H1 Ht]; [|done].
  apply trust_spec in H1 as Hp.
  apply st_bind_inv in H as [(u & n2 & H2 & [= <- <-])|(e & H2 & ->)];
    apply refresh_live_spec in H2 as [Hr Hs]; [|by rewrite Hs].
  assert (∀ fp, fp ∈ nd_trust n2 ↔ fp ∈ pinned (nd_registry n) ∨ fp = normalize ca) as Hlive.
  { intros fp. by rewrite Hs, elem_of_list_to_set, Hp. }
  split_and!; [done|by rewrite <-Hr in Hs|done|]. intros ee ints d t Hl Hd.
  unfold verify_client_cert. rewrite verify_pinned_chain_Ok, Hl. split.
  - by intros (? & [= <-] & _ & ?).
  - intros Hc. exists d. split_and!; [done| |done]. rewrite Hd, Hlive. by right.
Qed.

(** Uninterrupted, an operator call is its registry step followed by the two
    steps of the refresh. *)
Lemma distrust_peer_is_run f g ca n w :
  is_ok (distrust f ca (nd_registry n)).1 = true →
  sy_node (run [EvDistrust f ca; EvList g w; EvReplace w] {| sy_node := n; sy_pending := ∅ |})
  = (distrust_peer f g ca n).2.
Proof.
  intros Hok. unfold distrust_peer, run, refresh_live, st_bind. cbn [foldl exec sy_node sy_pending].
  unfold on_registry. destruct (distrust f ca (nd_registry n)) as [[b|e] t]; [|done].
  cbn [snd nd_registry nd_trust sy_node].
  destruct (list_trusted g t) as [[peers|e] t'] eqn:E; cbn [sy_pending sy_node].
  - by rewrite lookup_insert_eq.
  - by rewrite lookup_delete_eq.
Qed.

(** ** Fingerprint text *)

Definition is_hex (c : Z) : Prop := 48 <= c <= 57 ∨ 97 <= c <= 102 ∨ 65 <= c <= 70.

Lemma trim_start_space pre t :
  Forall (λ c, is_whitespace c = true) pre → trim_start (pre ++ t) = trim_start t.
Proof. induction 1 as [|c pre Hc _ IH]; [done|]. cbn. by rewrite Hc. Qed.

Lemma trim_start_id t :
  (∀ c, head t = Some c → is_whitespace c = false) → trim_start t = t.
Proof. destruct t as [|c t]; [done|]. intros H. cbn. by rewrite (H c eq_refl). Qed.

Lemma trim_spaces pre t post :
  Forall (λ c, is_whitespace c = true) pre → Forall (λ c, is_whitespace c = true) post →
  Forall (λ c, is_whitespace c = false) t → trim (pre ++ t ++ post) = t.
Proof.
  intros Hpre Hpost Ht. unfold trim. rewrite trim_start_space by done.
  destruct t as [|c t].
  - cbn. rewrite <-(app_nil_r post), trim_start_space by done. done.
  - inversion_clear Ht as [|? ? Hc Ht']. rewrite (trim_start_id ((c :: t) ++ post)) by naive_solver.
    rewrite reverse_app, trim_start_space by by apply Forall_reverse.
    rewrite trim_start_id; [apply reverse_involutive|].
    intros x Hx%head_Some_elem_of. rewrite elem_of_reverse in Hx.
    revert x Hx. apply Forall_forall. by constructor.
Qed.

Lemma lower_ascii (t : text) :
  Forall (λ c, is_hex c) t → t ≫= to_lowercase = ascii_lower <$> t.
Proof.
  induction 1 as [|c t Hc _ IH]; [done|]. rewrite bind_cons, fmap_cons, IH.
  unfold to_lowercase. destruct (Z.ltb_spec c 128); [done|]. unfold is_hex in Hc. lia.
Qed.

Lemma hex_not_space c : is_hex c ∨ c = colon → is_whitespace c = false.
Proof.
  unfold is_hex, colon, is_whitespace. intros.
  repeat first [rewrite orb_false_iff | rewrite andb_false_iff | rewrite Z.eqb_neq | rewrite Z.leb_gt].
  lia.
Qed.

Lemma hex_digits (t : text) :
  Forall (λ c, is_hex c ∨ c = colon) t → Forall is_hex (filter (λ c, c ≠ colon) t).
Proof.
  intros Ht. apply Forall_forall. intros c [Hc Hin]%list_elem_of_filter.
  rewrite Forall_forall in Ht. destruct (Ht c Hin); naive_solver.
Qed.

Lemma ascii_lower_hex c :
  is_hex c → is_hex (ascii_lower c) ∧ ascii_lower c ≠ colon ∧
             ascii_lower (ascii_lower c) = ascii_lower c.
Proof.
  unfold is_hex, ascii_lower, colon. intros.
  repeat match goal with
  | |- context [?a <=? ?b] => destruct (Z.leb_spec a b); cbn [andb]
  end; split_and!; lia.
Qed.

Lemma normalize_spelling pre t post :
  Forall (λ c, is_whitespace c = true) pre → Forall (λ c, is_whitespace c = true) post →
  Forall (λ c, is_hex c ∨ c = colon) t →
  normalize (pre ++ t ++ post) = ascii_lower <$> filter (λ c, c ≠ colon) t.
Proof.
  intros Hpre Hpost Ht. unfold normalize. rewrite trim_spaces; [|done|done|].
  - by apply lower_ascii, hex_digits.
  - eapply Forall_impl; [exact Ht|]. intros c. apply hex_not_space.
Qed.

(** every spelling of a fingerprint, upper or lower case, with or without
    colons, with white space around it, is stored and compared as the same
    lower-case digits; and what is stored is its own spelling. *)
Theorem fingerprint_spellings_agree pre t post :
  Forall (λ c, is_whitespace c = true) pre → Forall (λ c, is_whitespace c = true) post →
  Forall (λ c, is_hex c ∨ c = colon) t →
  normalize (pre ++ t ++ post) = ascii_lower <$> filter (λ c, c ≠ colon) t ∧
  normalize (normalize (pre ++ t ++ post)) = normalize (pre ++ t ++ post).
Proof.
  intros Hpre Hpost Ht. rewrite normalize_spelling by done. split; [done|].
  assert (Forall is_hex (filter (λ c, c ≠ colon) t)) as Hh by by apply hex_digits.
  revert Hh. generalize (filter (λ c, c ≠ colon) t). intros l Hh.
  rewrite <-(app_nil_r (ascii_lower <$> l)) at 1.
  pose proof (normalize_spelling [] (ascii_lower <$> l) []) as Hn. cbn [app] in Hn.
  rewrite Hn; [|constructor|constructor|].
  - clear Hn. induction Hh as [|c l Hc _ IH]; [done|].
    destruct (ascii_lower_hex c Hc) as (_ & Hn1 & Hn2).
    by rewrite fmap_cons, filter_cons_True, fmap_cons, Hn2, IH.
  - apply Forall_fmap. eapply Forall_impl; [exact Hh|]. intros c Hc. left. by apply ascii_lower_hex.
Qed.

End Registry.

(** ** A concrete instance, and runs of it

    A certificate is four bytes: the CA flag, its public key, the key that
    signed it, and the end of its validity in units of 1000 s. *)

#[local] Program Instance model_x509 : X509 := {|
  sha256 b := b;
  Certificate := bytes;
  PublicKey := byte;
  from_der b := if (length b =? 4)%nat then Some b else None;
  basic_constraints c := Ok (Some (bool_decide (nth 0 c Byte.x00 = Byte.x01)));
  public_key c := nth 1 c Byte.x00;
  verify_signature c k := bool_decide (nth 2 c Byte.x00 = default (nth 1 c Byte.x00) k);
  not_before c := 0;
  not_after c := 1000 * u8 (nth 3 c Byte.x00);
|}.

Module Sample.
Definition lower : Z → list Z := λ c, [c].
Definition no_faults : Faults := λ _, None.
Definition ca : bytes := [Byte.x01; Byte.xaa; Byte.xaa; Byte.x09].
Definition leaf : bytes := [Byte.x00; Byte.xbb; Byte.xaa; Byte.x02].
Definition fp : text := fingerprint ca.
(** The same fingerprint as an operator types it. *)
Definition spelled : text := chars " 01:AA:AA:09 ".
Definition start : Node := {| nd_registry := []; nd_trust := ∅ |}.
Definition trusted : Node := (trust_peer lower no_faults no_faults 5 spelled None start).2.
End Sample.

Lemma accepted_peer_was_pinned_witness :
  ∃ ca_der, last [Sample.ca] = Some ca_der ∧
    operator_pinned Sample.lower []
      [EvTrust Sample.no_faults 5 Sample.spelled None; EvList Sample.no_faults 0; EvReplace 0]
      (fingerprint ca_der) ∧
    chain_ok Sample.leaf ca_der 1500.
Proof. apply (accepted_peer_was_pinned Sample.lower []). vm_compute. reflexivity. Defined.

Lemma trusted_ca_is_accepted_witness :
  verify_client_cert Sample.trusted Sample.leaf [Sample.ca] 1500 = Ok tt.
Proof.
  pose proof (trusted_ca_is_accepted Sample.lower Sample.no_faults Sample.no_faults 5 Sample.spelled None
                Sample.start _ _ (surjective_pairing _)) as H.
  replace (trust_peer _ _ _ _ _ _ _).1 with (Ok Sample.spelled : Result CoreError text) in H
    by (vm_compute; reflexivity).
  apply (proj2 (proj2 (proj2 H)) Sample.leaf [Sample.ca] Sample.ca 1500);
    [reflexivity|vm_compute; reflexivity|].
  exists Sample.ca, Sample.leaf. repeat (split; [vm_compute; reflexivity|]).
  split; split; vm_compute; discriminate.
Defined.

Lemma distrusted_ca_is_refused_witness :
  verify_client_cert (distrust_peer Sample.lower Sample.no_faults Sample.no_faults Sample.spelled Sample.trusted).2
    Sample.leaf [Sample.ca] 1500 = Err "peer CA is not trusted (unpinned)".
Proof.
  pose proof (distrusted_ca_is_refused Sample.lower Sample.no_faults Sample.no_faults Sample.spelled
                Sample.trusted _ _ (surjective_pairing _)) as H.
  replace (distrust_peer _ _ _ _ _).1 with (Ok true : Result CoreError bool) in H
    by (vm_compute; reflexivity).
  exact (proj1 (proj2 (proj2 H) Sample.leaf [Sample.ca] Sample.ca EmptyString 1500 eq_refl
                  ltac:(vm_compute; reflexivity))).
Defined.

Lemma fingerprint_spellings_agree_witness :
  normalize Sample.lower Sample.spelled = Sample.fp.
Proof.
  destruct (fingerprint_spellings_agree Sample.lower [32] [48; 49; 58; 65; 65; 58; 65; 65; 58; 48; 57] [32])
    as [H _].
  - by repeat constructor.
  - by repeat constructor.
  - repeat (apply Forall_cons; split; [unfold is_hex, colon; lia|]). constructor.
  - exact H.
Defined.

(** a refresh that read the registry before a distrust call may replace the
    snapshot after that call has answered: the CA is gone from the registry,
    the operator was told that it was removed, and the node still accepts its
    peers, until another refresh. *)
Theorem stale_refresh_restores_trust :
  let nf := Sample.no_faults in
  (* the rotation timer (task 0) has read the registry, and not yet replaced *)
  let s := run Sample.lower [EvList nf 0%nat] {| sy_node := Sample.trusted; sy_pending := ∅ |} in
  (* the whole operator call (task 1) *)
  let call := [EvDistrust nf Sample.fp; EvList nf 1%nat; EvReplace 1%nat] in
  let verdict := λ s, verify_client_cert (sy_node s) Sample.leaf [Sample.ca] 1500 in
  (distrust_peer Sample.lower nf nf Sample.fp (sy_node s)).1 = Ok true ∧
  verdict (run Sample.lower call s) = Err "peer CA is not trusted (unpinned)" ∧
  nd_registry (sy_node (run Sample.lower (call ++ [EvReplace 0%nat]) s)) = [] ∧
  verdict (run Sample.lower (call ++ [EvReplace 0%nat]) s) = Ok tt.
Proof. vm_compute. tauto. Qed.

(** white space next to a colon at the edge of a fingerprint survives
    normalisation: such an entry is recorded under a name that no certificate
    has, and a distrust call with the name the registry lists does not find it. *)
Theorem odd_spelling_cannot_be_removed :
  let t := (trust Sample.lower Sample.no_faults 5 (chars ": 01aaaa09") None []).2 in
  pinned t = [chars " 01aaaa09"] ∧
  normalize Sample.lower (chars " 01aaaa09") ≠ chars " 01aaaa09" ∧
  distrust Sample.lower Sample.no_faults (chars " 01aaaa09") t = (Ok false, t).
Proof. vm_compute. split_and!; done. Qed.
