(* ===== verification/RegistrySpec.v ===== *)
(** * The registry of pinned CAs implements a finite map

    [TursoPeerTrust] against the promise of the port [PeerTrustRegistry]: a map
    from fingerprints to their note and the time they were first trusted. *)

From S2P Require Import Prelude.
From S2P Require Import Text.
From S2P Require Import Entities.
From S2P Require Import Mailbox.
From S2P Require Import PeerTrust.
#[local] Open Scope Z_scope.

(** ** The port's promise *)

Abbreviation Pins := (gmap text (option text * Z)).

(** Trusting again updates the note and keeps the time. *)
Definition pins_trust (fp : text) (note : option text) (now : Z) (m : Pins) : Pins :=
  <[fp := (note, match m !! fp with Some (_, at_ms) => at_ms | None => now end)]> m.

Definition pins_has (fp : text) (m : Pins) : bool := bool_decide (is_Some (m !! fp)).

Definition entry (p : TrustedPeer) : text * (option text * Z) :=
  (tp_fingerprint p, (tp_note p, tp_trusted_at p)).

Definition newest_first (p q : TrustedPeer) : Prop := tp_trusted_at q <= tp_trusted_at p.

(** ** The table *)

Definition row_entry (r : PeerRow) : text * (option text * Z) :=
  (pr_fingerprint r, (pr_note r, pr_trusted_at r)).

(** The primary key makes fingerprints unique. *)
Definition represents (t : PeerTable) (m : Pins) : Prop :=
  NoDup (pinned t) ∧ list_to_map (row_entry <$> t) = m.

Lemma row_keys t : (row_entry <$> t).*1 = pinned t.
Proof. unfold pinned. by rewrite <-list_fmap_compose. Qed.

Lemma represents_lookup t m fp v :
  represents t m → m !! fp = Some v ↔ ∃ r, r ∈ t ∧ row_entry r = (fp, v).
Proof.
  intros [Hn <-]. rewrite <-elem_of_list_to_map by by rewrite row_keys.
  rewrite list_elem_of_fmap. naive_solver.
Qed.

Lemma represents_has t m fp : represents t m → pins_has fp m = bool_decide (fp ∈ pinned t).
Proof.
  intros Hm. apply bool_decide_ext. unfold pinned. rewrite list_elem_of_fmap. unfold is_Some.
  setoid_rewrite (represents_lookup t m fp _ Hm). unfold row_entry. naive_solver.
Qed.

Lemma represents_intro t m :
  NoDup (pinned t) → (∀ fp v, m !! fp = Some v ↔ ∃ r, r ∈ t ∧ row_entry r = (fp, v)) → represents t m.
Proof.
  intros Hn Hm. split; [done|]. apply map_eq. intros fp. apply option_eq. intros v. rewrite Hm.
  by apply represents_lookup.
Qed.

Lemma existsb_pinned fp t :
  existsb (λ r, bool_decide (pr_fingerprint r = fp)) t = bool_decide (fp ∈ pinned t).
Proof.
  apply eq_bool_prop_intro. rewrite bool_decide_spec. unfold pinned. rewrite list_elem_of_fmap.
  rewrite Is_true_true, existsb_exists. setoid_rewrite <-list_elem_of_In. setoid_rewrite bool_decide_eq_true.
  naive_solver.
Qed.

(** ** The statements *)

Lemma upsert_represents t m fp note now :
  represents t m → represents (upsert_peer fp note now t).2 (pins_trust fp note now m).
Proof.
  intros Hm. unfold upsert_peer, pins_trust. cbn [snd]. rewrite existsb_pinned. case_bool_decide as Hin.
  - pose proof (represents_has t m fp Hm) as Hh. rewrite bool_decide_true in Hh by done.
    apply bool_decide_eq_true in Hh as [[n0 at0] H0]. rewrite H0. apply represents_intro.
    + replace (pinned (_ <$> t)) with (pinned t); [apply Hm|]. unfold pinned. rewrite <-list_fmap_compose.
      apply list_fmap_ext. intros ? r _. cbn. case_bool_decide; by subst.
    + intros fp' v. rewrite lookup_insert_Some. setoid_rewrite list_elem_of_fmap.
      setoid_rewrite (represents_lookup t m fp' v Hm). split.
      * intros [[<- <-]|[Hne (r & Hr & He)]].
        -- apply (represents_lookup t m fp _ Hm) in H0 as (r & Hr & [= Hf Hn Ha]). eexists. split.
           ++ exists r. split; [reflexivity|done].
           ++ cbn. rewrite bool_decide_true by done. unfold row_entry. cbn. by rewrite Ha.
        -- exists r. split; [|done]. exists r. rewrite bool_decide_false; [done|]. by injection He as ->.
      * intros (r' & (r & -> & Hr) & He). revert He. case_bool_decide as Hf; intros [= <- <-].
        -- left. split; [done|]. assert (m !! fp = Some (pr_note r, pr_trusted_at r)) as H1.
           { apply (represents_lookup t m fp _ Hm). exists r. by rewrite <-Hf. }
           congruence.
        -- right. split; [done|]. by exists r.
  - pose proof (represents_has t m fp Hm) as Hh. rewrite bool_decide_false in Hh by done.
    apply bool_decide_eq_false in Hh. rewrite <-eq_None_not_Some in Hh. rewrite Hh. apply represents_intro.
    + unfold pinned. rewrite fmap_app. apply NoDup_app. split_and!; [apply Hm|set_solver|apply NoDup_singleton].
    + intros fp' v. rewrite lookup_insert_Some. setoid_rewrite elem_of_app. setoid_rewrite list_elem_of_singleton.
      setoid_rewrite (represents_lookup t m fp' v Hm). split.
      * intros [[<- <-]|[Hne (r & Hr & He)]]; [by eexists; split; [right|]|by exists r; auto].
      * intros (r & [Hr| ->] & He); [|left; by injection He as <- <-].
        right. split; [|by exists r]. intros ->. apply Hin. apply list_elem_of_fmap. exists r.
        by injection He as ->.
Qed.

Lemma delete_represents t m fp : represents t m → represents (delete_peer fp t).2 (delete fp m).
Proof.
  intros Hm. apply represents_intro.
  - unfold delete_peer, pinned. cbn [snd]. eapply sublist_NoDup; [apply Hm|]. apply fmap_sublist, sublist_filter.
  - intros fp' v. rewrite lookup_delete_Some. setoid_rewrite list_elem_of_filter.
    setoid_rewrite (represents_lookup t m fp' v Hm). unfold row_entry. naive_solver.
Qed.

Section Refinement.
Context `{EX : Externals} (lower_table : Z → list Z).

Lemma collect_entries f i rows out peers :
  collect_peers f i rows out = Ok peers →
  ∃ l, peers = out ++ l ∧ l = (λ r, {| tp_fingerprint := pr_fingerprint r; tp_note := pr_note r;
                                      tp_trusted_at := pr_trusted_at r |}) <$> rows.
Proof.
  revert i out. induction rows as [|r rows IH]; intros i out; cbn [collect_peers]; destruct (f i); try discriminate.
  - intros [= <-]. exists []. by rewrite app_nil_r.
  - intros H. apply rbind_Ok in H as (a & Ha & H). destruct (dt_in_range _); [|done]. injection Ha as <-.
    apply IH in H as (l & -> & ->). eexists. rewrite <-app_assoc. by split.
Qed.

Lemma list_entries g t r t' :
  list_trusted g t = (r, t') →
  t' = t ∧ ∀ peers, r = Ok peers → entry <$> peers ≡ₚ row_entry <$> t ∧ Sorted newest_first peers.
Proof.
  intros [-> Hl]%list_table. split; [done|]. intros peers (l & -> & ->)%Hl%collect_entries. cbn [app]. split.
  - rewrite <-list_fmap_compose. change (entry ∘ _) with row_entry. by rewrite merge_sort_Permutation.
  - apply StronglySorted_Sorted.
    assert (StronglySorted newer (merge_sort newer t)) as Hs.
    { apply Sorted_StronglySorted; [intros x y z; unfold newer; lia|].
      apply Sorted_merge_sort. intros x y. unfold newer. lia. }
    clear Hl. induction Hs as [|row rows Hr IH Hall]; [constructor|]. rewrite fmap_cons. constructor; [done|].
    apply Forall_fmap. exact Hall.
Qed.

(** C10: the registry implements a finite map from fingerprints to note and time.
    On a table that represents the map, with any faults: a successful trust sets
    the note and keeps the time of an entry that was there, a successful
    distrust removes the entry and reports whether there was one, a successful
    query answers membership, a successful list is the map's entries, newest
    first; all on the normalised fingerprint, and a call that fails, or only
    reads, leaves the table as it was. *)
Theorem registry_refines_map f now fp note t m :
  represents t m → let key := normalize lower_table fp in
  (let '(r, t') := trust lower_table f now fp note t in
   if is_ok r then represents t' (pins_trust key note now m) else t' = t) ∧
  (let '(r, t') := distrust lower_table f fp t in
   match r with Ok b => b = pins_has key m ∧ represents t' (delete key m) | Err _ => t' = t end) ∧
  (let '(r, t') := is_trusted lower_table f fp t in
   t' = t ∧ ∀ b, r = Ok b → b = pins_has key m) ∧
  (let '(r, t') := list_trusted f t in
   t' = t ∧ ∀ peers, r = Ok peers → entry <$> peers ≡ₚ map_to_list m ∧ Sorted newest_first peers).
Proof.
  intros Hm key. split_and!.
  - destruct (trust _ _ _ _ _ t) as [r t'] eqn:E. apply trust_table in E. destruct r; cbn [is_ok]; [|done].
    subst t'. by apply upsert_represents.
  - destruct (distrust _ _ _ t) as [r t'] eqn:E. apply distrust_table in E. destruct r; [|done].
    destruct E as [-> ->]. rewrite (represents_has t m) by done. split; [done|]. by apply delete_represents.
  - destruct (is_trusted _ _ _ t) as [r t'] eqn:E. apply is_trusted_table in E as [-> Hb].
    split; [done|]. intros b ->. rewrite (represents_has t m) by done. by apply Hb.
  - destruct (list_trusted f t) as [r t'] eqn:E. apply list_entries in E as [-> Hp]. split; [done|].
    intros peers ->. destruct (Hp peers eq_refl) as [H1 H2]. split; [|done]. rewrite H1.
    destruct Hm as [Hn <-]. symmetry. apply map_to_list_to_map. by rewrite row_keys.
Qed.
End Refinement.

Lemma registry_refines_map_witness :
  let row fp at_ms := {| pr_fingerprint := chars fp; pr_note := None; pr_trusted_at := at_ms |} in
  (distrust Sample.lower (λ _, None) (chars " AA:11 ") [row "aa11" 5; row "bb22" 6]).1
  = Ok (pins_has (chars "aa11") (list_to_map [(chars "aa11", (None, 5)); (chars "bb22", (None, 6))])).
Proof.
  cbv zeta. set (t := [_; _]).
  destruct (registry_refines_map Sample.lower (λ _, None) 7 (chars " AA:11 ") None t
    (list_to_map [(chars "aa11", (None, 5)); (chars "bb22", (None, 6))])) as (_ & H & _).
  - split; [|reflexivity]. apply (bool_decide_unpack (NoDup (pinned t))). vm_compute. exact I.
  - cbv zeta in H. destruct (distrust _ _ _ t) as [[b|e] t'] eqn:E.
    + destruct H as [-> _]. reflexivity.
    + discriminate E.
Defined.
