(* ===== verification/TrustPort.v ===== *)
(** * The trust port: [buh-core/src/ports.rs] and its client
    [buh-api/src/admin.rs]

    The trait [PeerTrustRegistry] as a class of operations, with a contract in
    terms of a finite map of pins.  The admin handlers and the refresh of the
    live snapshot are written against the operations; what they promise the
    operator is proved from the contract, which [TursoPeerTrust] meets whatever
    the datastore answers. *)

From S2P Require Import Prelude.
From S2P Require Import Text.
From S2P Require Import Entities.
From S2P Require Import Mailbox.
From S2P Require Import PeerTrust.
From S2P Require Import RegistrySpec.
#[local] Open Scope Z_scope.

Class PeerTrustRegistry (S : Type) := {
  reg_trust : Faults → Z → text → option text → ST S CoreError unit;
  reg_distrust : Faults → text → ST S CoreError bool;
  reg_is_trusted : Faults → text → ST S CoreError bool;
  reg_list : Faults → ST S CoreError (list TrustedPeer);
}.

(** [reg_key] is the form under which a fingerprint is kept, [reg_pins s m] that
    [s] holds the pins [m]. *)
Class RegistryContract (S : Type) `{PR : !PeerTrustRegistry S} := {
  reg_key : text → text;
  reg_pins : S → Pins → Prop;
  reg_trust_law f now fp note s m r s' :
    reg_pins s m → reg_trust f now fp note s = (r, s') →
    if is_ok r then reg_pins s' (pins_trust (reg_key fp) note now m) else s' = s;
  reg_distrust_law f fp s m r s' :
    reg_pins s m → reg_distrust f fp s = (r, s') →
    match r with
    | Ok b => b = pins_has (reg_key fp) m ∧ reg_pins s' (delete (reg_key fp) m)
    | Err _ => s' = s
    end;
  reg_is_trusted_law f fp s m r s' :
    reg_pins s m → reg_is_trusted f fp s = (r, s') →
    s' = s ∧ ∀ b, r = Ok b → b = pins_has (reg_key fp) m;
  reg_list_law f s m r s' :
    reg_pins s m → reg_list f s = (r, s') →
    s' = s ∧ ∀ peers, r = Ok peers → entry <$> peers ≡ₚ map_to_list m ∧ Sorted newest_first peers;
}.

Section Admin.
Context {S : Type} `{PR : !PeerTrustRegistry S}.

(** [AdminState]: the durable registry, the live snapshot, and the fingerprint
    of the node's own CA. *)
Record AdminState := { adm_registry : S; adm_trust : gset text; adm_own : text }.

Definition adm_on {A} (m : ST S CoreError A) : ST AdminState CoreError A := λ s,
  let '(r, reg) := m (adm_registry s) in
  (r, {| adm_registry := reg; adm_trust := adm_trust s; adm_own := adm_own s |}).

Definition adm_replace (fps : list text) (s : AdminState) : AdminState :=
  {| adm_registry := adm_registry s; adm_trust := list_to_set fps; adm_own := adm_own s |}.

Definition adm_refresh_live (g : Faults) : ST AdminState CoreError unit :=
  let! peers := adm_on (reg_list g) in
  λ s, (Ok tt, adm_replace (tp_fingerprint <$> peers) s).

Definition adm_trust_peer (f g : Faults) (now : Z) (ca_fingerprint : text) (note : option text) :
    ST AdminState CoreError text :=
  let! _ := adm_on (reg_trust f now ca_fingerprint note) in
  let! _ := adm_refresh_live g in
  st_ret ca_fingerprint.

Definition adm_distrust_peer (f g : Faults) (ca_fp : text) : ST AdminState CoreError bool :=
  let! removed := adm_on (reg_distrust f ca_fp) in
  let! _ := adm_refresh_live g in
  st_ret removed.

Definition adm_info (g : Faults) : ST AdminState CoreError (text * Z) :=
  let! peers := adm_on (reg_list g) in
  let! s := st_get in
  st_ret (adm_own s, blen peers).

Definition adm_list_peers (g : Faults) : ST AdminState CoreError (list (text * option text * Z)) :=
  let! peers := adm_on (reg_list g) in
  st_ret ((λ p, (tp_fingerprint p, tp_note p, tp_trusted_at p)) <$> peers).

(** [serve.rs]: on an error the snapshot stays as it is. *)
Definition adm_refresh_trust (g : Faults) (s : AdminState) : AdminState :=
  match adm_on (reg_list g) s with
  | (Ok peers, s') => adm_replace (tp_fingerprint <$> peers) s'
  | (Err _, s') => s'
  end.

(** ** What the operator can rely on *)

(** The registry holds [m], and the snapshot is what it pins. *)
Definition in_force `{RC : !RegistryContract S} (m : Pins) (s : AdminState) : Prop :=
  reg_pins (adm_registry s) m ∧ adm_trust s = dom m.

Context `{RC : !RegistryContract S}.

Lemma entries_dom (peers : list TrustedPeer) (m : Pins) :
  entry <$> peers ≡ₚ map_to_list m → (list_to_set (tp_fingerprint <$> peers) : gset text) = dom m.
Proof.
  intros Hp. rewrite <-(list_to_map_to_list m), dom_list_to_map_L, <-Hp, <-list_fmap_compose. done.
Qed.

Lemma refresh_law g s m r s' :
  reg_pins (adm_registry s) m → adm_refresh_live g s = (r, s') →
  if is_ok r then in_force m s' else s' = s.
Proof.
  intros Hm. unfold adm_refresh_live, st_bind, adm_on.
  destruct (reg_list g (adm_registry s)) as [rl reg] eqn:E.
  destruct (reg_list_law _ _ _ _ _ Hm E) as [-> Hl].
  destruct rl as [peers|e]; intros [= <- <-]; cbn [is_ok]; [|by destruct s].
  split; [done|]. apply entries_dom. by apply Hl.
Qed.

(** A change followed by the refresh: [m'] is what the registry then holds. *)
Lemma change_law {A B} (op : ST S CoreError A) (k : A → B) g s m m' r s' :
  reg_pins (adm_registry s) m →
  (∀ x reg, op (adm_registry s) = (Ok x, reg) → reg_pins reg m') →
  (∀ e reg, op (adm_registry s) = (Err e, reg) → reg = adm_registry s) →
  (let! x := adm_on op in let! _ := adm_refresh_live g in st_ret (k x)) s = (r, s') →
  match r with
  | Ok y => in_force m' s' ∧ ∃ x reg, op (adm_registry s) = (Ok x, reg) ∧ y = k x
  | Err _ => adm_trust s' = adm_trust s ∧
             (adm_registry s' = adm_registry s ∨ reg_pins (adm_registry s') m')
  end.
Proof.
  intros Hm Hok Herr. unfold st_bind, adm_on at 1, st_ret.
  destruct (op (adm_registry s)) as [[x|e] reg] eqn:E.
  - destruct (adm_refresh_live g _) as [r2 s2] eqn:E2.
    apply (refresh_law _ _ m') in E2; [|by eapply Hok].
    destruct r2 as [[]|e]; cbn [is_ok] in E2; intros [= <- <-].
    + split; [done|]. by exists x, reg.
    + subst s2. split; [done|]. right. by eapply Hok.
  - intros [= <- <-]. split; [done|]. left. by eapply Herr.
Qed.

(** C16: what the admin API promises follows from the port's contract.  Against
    any registry that meets it, with any faults: trusting or distrusting a CA
    that is answered with success is recorded and in force, that is, the live
    snapshot is exactly what the registry pins; distrust reports whether the CA
    was pinned; the timer's refresh brings the snapshot up to date or leaves it;
    info counts the pins and list gives them, newest first, without changing
    anything.  A call that fails leaves the snapshot as it was, and the
    registry as it was or with the change recorded but not yet in force. *)
Theorem admin_calls_follow_registry f g now fp note s m :
  reg_pins (adm_registry s) m → let key := reg_key fp in
  (let '(r, s') := adm_trust_peer f g now fp note s in
   match r with
   | Ok x => x = fp ∧ in_force (pins_trust key note now m) s'
   | Err _ => adm_trust s' = adm_trust s ∧
              (adm_registry s' = adm_registry s ∨ reg_pins (adm_registry s') (pins_trust key note now m))
   end) ∧
  (let '(r, s') := adm_distrust_peer f g fp s in
   match r with
   | Ok b => b = pins_has key m ∧ in_force (delete key m) s' ∧ key ∉ adm_trust s'
   | Err _ => adm_trust s' = adm_trust s ∧
              (adm_registry s' = adm_registry s ∨ reg_pins (adm_registry s') (delete key m))
   end) ∧
  (in_force m (adm_refresh_trust g s) ∨ adm_refresh_trust g s = s) ∧
  (let '(r, s') := adm_info g s in
   s' = s ∧ ∀ x, r = Ok x → x = (adm_own s, Z.of_nat (size m))) ∧
  (let '(r, s') := adm_list_peers g s in
   s' = s ∧ ∀ l, r = Ok l → l ≡ₚ (λ kv, (kv.1, kv.2.1, kv.2.2)) <$> map_to_list m).
Proof.
  intros Hm key. split_and!.
  - destruct (adm_trust_peer f g now fp note s) as [r s'] eqn:E.
    apply (change_law (reg_trust f now fp note) (λ _, fp) g s m (pins_trust key note now m)) in E; [|done|..].
    + destruct r; [|done]. destruct E as (H & x & reg & _ & ->). by split.
    + intros x reg H. by apply (reg_trust_law _ _ _ _ _ m) in H.
    + intros e reg H. by apply (reg_trust_law _ _ _ _ _ m) in H.
  - destruct (adm_distrust_peer f g fp s) as [r s'] eqn:E.
    apply (change_law (reg_distrust f fp) id g s m (delete key m)) in E; [|done|..].
    + destruct r; [|done]. destruct E as (H & x & reg & Hd & ->).
      apply (reg_distrust_law _ _ _ m) in Hd as [-> _]; [|done]. split_and!; [done|done|].
      destruct H as [_ ->]. rewrite dom_delete_L. set_solver.
    + intros x reg H. by apply (reg_distrust_law _ _ _ m) in H as [_ H].
    + intros e reg H. by apply (reg_distrust_law _ _ _ m) in H.
  - unfold adm_refresh_trust, adm_on. destruct (reg_list g (adm_registry s)) as [rl reg] eqn:E.
    destruct (reg_list_law _ _ _ _ _ Hm E) as [-> Hl]. destruct rl as [peers|e].
    + left. split; [done|]. apply entries_dom. by apply Hl.
    + right. by destruct s.
  - unfold adm_info, st_bind, adm_on. destruct (reg_list g (adm_registry s)) as [rl reg] eqn:E.
    destruct (reg_list_law _ _ _ _ _ Hm E) as [-> Hl]. destruct rl as [peers|e]; (split; [by destruct s|done || idtac]).
    intros x [= <-]. cbn. f_equal. unfold blen. f_equal. destruct (Hl peers eq_refl) as [Hp _].
    apply Permutation_length in Hp. by rewrite length_fmap, length_map_to_list in Hp.
  - unfold adm_list_peers, st_bind, adm_on. destruct (reg_list g (adm_registry s)) as [rl reg] eqn:E.
    destruct (reg_list_law _ _ _ _ _ Hm E) as [-> Hl]. destruct rl as [peers|e]; (split; [by destruct s|done || idtac]).
    intros l [= <-]. destruct (Hl peers eq_refl) as [Hp _]. rewrite <-Hp, <-list_fmap_compose. done.
Qed.
End Admin.

(** ** [TursoPeerTrust] meets the contract *)

Section Turso.
Context `{EX : Externals} (lower_table : Z → list Z).

#[export] Instance turso_registry : PeerTrustRegistry PeerTable := {|
  reg_trust f now fp note := trust lower_table f now fp note;
  reg_distrust f fp := distrust lower_table f fp;
  reg_is_trusted f fp := is_trusted lower_table f fp;
  reg_list f := list_trusted f;
|}.

Lemma trust_meets f now fp note t m r t' :
  represents t m → trust lower_table f now fp note t = (r, t') →
  if is_ok r then represents t' (pins_trust (normalize lower_table fp) note now m) else t' = t.
Proof.
  intros Hm E. apply trust_table in E. destruct r; cbn [is_ok]; [|done]. subst t'.
  by apply upsert_represents.
Qed.

Lemma distrust_meets f fp t m r t' :
  represents t m → distrust lower_table f fp t = (r, t') →
  match r with
  | Ok b => b = pins_has (normalize lower_table fp) m ∧ represents t' (delete (normalize lower_table fp) m)
  | Err _ => t' = t
  end.
Proof.
  intros Hm E. apply distrust_table in E. destruct r; [|done]. destruct E as [-> ->].
  rewrite (represents_has t m) by done. split; [done|]. by apply delete_represents.
Qed.

Lemma is_trusted_meets f fp t m r t' :
  represents t m → is_trusted lower_table f fp t = (r, t') →
  t' = t ∧ ∀ b, r = Ok b → b = pins_has (normalize lower_table fp) m.
Proof.
  intros Hm [-> Hb]%is_trusted_table. split; [done|]. intros b ->.
  rewrite (represents_has t m) by done. by apply Hb.
Qed.

Lemma list_meets f t m r t' :
  represents t m → list_trusted f t = (r, t') →
  t' = t ∧ ∀ peers, r = Ok peers → entry <$> peers ≡ₚ map_to_list m ∧ Sorted newest_first peers.
Proof.
  intros [Hn <-] [-> Hp]%list_entries. split; [done|]. intros peers ->.
  destruct (Hp peers eq_refl) as [H1 H2]. split; [|done]. rewrite H1. symmetry.
  apply map_to_list_to_map. by rewrite row_keys.
Qed.

#[export] Instance turso_trust_contract : RegistryContract PeerTable := {|
  reg_key := normalize lower_table;
  reg_pins := represents;
  reg_trust_law := trust_meets;
  reg_distrust_law := distrust_meets;
  reg_is_trusted_law := is_trusted_meets;
  reg_list_law := list_meets;
|}.

(** On this registry the handlers are those of [PeerTrust]. *)
Definition as_node (s : AdminState (S := PeerTable)) : Node :=
  {| nd_registry := adm_registry s; nd_trust := adm_trust s |}.

Lemma admin_is_peer_trust f g now fp note s :
  let on_node {A} (o : Result CoreError A * AdminState (S := PeerTable)) := (o.1, as_node o.2) in
  on_node (adm_trust_peer f g now fp note s) = trust_peer lower_table f g now fp note (as_node s) ∧
  on_node (adm_distrust_peer f g fp s) = distrust_peer lower_table f g fp (as_node s) ∧
  on_node (adm_info g s) = info (adm_own s) g (as_node s) ∧
  on_node (adm_list_peers g s) = list_peers g (as_node s) ∧
  as_node (adm_refresh_trust g s) = refresh_trust g (as_node s).
Proof.
  cbv zeta.
  unfold adm_trust_peer, trust_peer, adm_distrust_peer, distrust_peer, adm_info, info, adm_list_peers,
    list_peers, adm_refresh_trust, refresh_trust, adm_refresh_live, refresh_live, st_bind, st_ret, st_get,
    adm_on, on_registry, as_node.
  cbn [nd_registry nd_trust reg_trust reg_distrust reg_list turso_registry]. split_and!.
  - destruct (trust _ _ _ _ _ _) as [[] t]; [|done]. cbn. by destruct (list_trusted g t) as [[] t'].
  - destruct (distrust _ _ _ _) as [[] t]; [|done]. cbn. by destruct (list_trusted g t) as [[] t'].
  - by destruct (list_trusted g _) as [[] t'].
  - by destruct (list_trusted g _) as [[] t'].
  - by destruct (list_trusted g _) as [[] t'].
Qed.
End Turso.

(** ** Witness *)

Module TrustPortSample.
Definition row (fp : string) (at_ms : Z) : PeerRow :=
  {| pr_fingerprint := chars fp; pr_note := None; pr_trusted_at := at_ms |}.
Definition table : PeerTable := [row "aa11" 5; row "bb22" 6].
Definition pins : Pins := list_to_map [(chars "aa11", (None, 5)); (chars "bb22", (None, 6))].
Definition state : AdminState (S := PeerTable) :=
  {| adm_registry := table; adm_trust := ∅; adm_own := chars "cc" |}.

Lemma holds_pins : represents table pins.
Proof.
  split; [|reflexivity]. apply (bool_decide_unpack (NoDup (pinned table))). vm_compute. exact I.
Qed.
End TrustPortSample.

Lemma admin_calls_follow_registry_witness :
  let '(r, s') := adm_distrust_peer (PR := turso_registry Sample.lower) (λ _, None) (λ _, None)
                    (chars " AA:11 ") TrustPortSample.state in
  r = Ok true ∧ chars "aa11" ∉ adm_trust s'.
Proof.
  destruct (admin_calls_follow_registry (PR := turso_registry Sample.lower)
    (RC := turso_trust_contract Sample.lower) (λ _, None) (λ _, None) 7 (chars " AA:11 ") None
    TrustPortSample.state TrustPortSample.pins TrustPortSample.holds_pins) as (_ & H & _).
  destruct (adm_distrust_peer _ _ _ _) as [r s'] eqn:E. destruct r as [b|e]; [|discriminate E].
  destruct H as (-> & _ & H). split; [reflexivity|exact H].
Defined.
