(* ===== verification/NodeCa.v ===== *)
(** * The node's own PKI: [buh-data/src/node_ca.rs], the leaf rotation of
    [buh-api/src/tls.rs]

    A node is its own CA: it creates a key and a self-signed certificate on
    first start, keeps them in a directory, and issues short-lived leaves.
    The certificate library [rcgen] is the parameter [Rcgen].  Times are
    nanoseconds since the epoch, as in [OffsetDateTime]; a certificate's
    validity has whole seconds. *)

From S2P Require Import Prelude.
From S2P Require Import Text.
From S2P Require Import Entities.
From S2P Require Import Invite.
From S2P Require Import PeerTrust.
#[local] Open Scope Z_scope.

(** ** Certificate parameters: the part of [rcgen::CertificateParams] in use *)

Inductive IsCa : Type := NoCa | Ca (path_len : Z).

Inductive KeyUsagePurpose : Type := DigitalSignature | KeyCertSign | CrlSign.

Inductive ExtendedKeyUsagePurpose : Type := ServerAuth | ClientAuth.

Record CertificateParams := {
  cp_sans : list string;
  cp_common_name : option string;
  cp_is_ca : IsCa;
  cp_key_usages : list KeyUsagePurpose;
  cp_extended_key_usages : list ExtendedKeyUsagePurpose;
  cp_use_authority_key_identifier_extension : bool;
  cp_not_before : Z;
  cp_not_after : Z;
}.

Definition ns_per_sec : Z := 1000000000.

Class Rcgen `{X : X509} := {
  KeyPair : Type;
  (** The public key of a pair. *)
  kp_public : KeyPair → PublicKey;
  from_pem : bytes → Result string KeyPair;
  serialize_pem : KeyPair → bytes;
  serialize_der : KeyPair → bytes;
  (** An [rcgen::Certificate]. *)
  RcCert : Type;
  rc_der : RcCert → bytes;
  params_new : list string → Result string CertificateParams;
  (** The last argument of each is the randomness of the signature. *)
  self_signed : CertificateParams → KeyPair → bytes → Result string RcCert;
  signed_by : CertificateParams → KeyPair → RcCert → KeyPair → bytes → Result string RcCert;
}.

(** What the development relies on: PEM round trip, and that the certificates
    are what the parameters say and are signed with the issuer's key. *)
Class RcgenLaws `{RG : Rcgen} : Prop := {
  from_serialize_pem k : from_pem (serialize_pem k) = Ok k;
  pem_is_utf8 k : utf8_valid (serialize_pem k) = true;
  self_signed_law p k r c n :
    self_signed p k r = Ok c → cp_is_ca p = Ca n →
    ∃ x, from_der (rc_der c) = Some x ∧ basic_constraints x = Ok (Some true) ∧
      verify_signature x None = true ∧ public_key x = kp_public k;
  signed_by_law p lk issuer ck r c :
    signed_by p lk issuer ck r = Ok c →
    ∃ x, from_der (rc_der c) = Some x ∧ verify_signature x (Some (kp_public ck)) = true ∧
      not_before x = cp_not_before p / ns_per_sec ∧ not_after x = cp_not_after p / ns_per_sec ∧
      public_key x = kp_public lk;
}.

(** ** The PKI directory

    [pd_mode] is [None] while the directory does not exist; [pd_key_mode] are
    the permissions of the key file. *)

Record PkiDir := {
  pd_mode : option Z;
  pd_cert : option bytes;
  pd_key : option bytes;
  pd_key_mode : Z;
  pd_cert_bak : option bytes;
  pd_key_bak : option bytes;
}.

Definition PkiFaults : Type := nat → option string.

(** [pki(ctx)] and [io(ctx)]. *)
Definition pki_err (ctx e : string) : CoreError := Internal ("pki: " +:+ ctx +:+ ": " +:+ e).

(** A call of the file system that may fail, leaving everything as it is. *)
Definition fs_call {A} (f : PkiFaults) (i : nat) (ctx : string) (m : PkiDir → Result string A * PkiDir) :
    ST PkiDir CoreError A := λ d,
  match f i with
  | Some e => (Err (pki_err ctx e), d)
  | None => let '(r, d') := m d in (map_err (pki_err ctx) r, d')
  end.

Definition with_cert (c : option bytes) (d : PkiDir) : PkiDir :=
  {| pd_mode := pd_mode d; pd_cert := c; pd_key := pd_key d; pd_key_mode := pd_key_mode d;
     pd_cert_bak := pd_cert_bak d; pd_key_bak := pd_key_bak d |}.

(** The default permissions of a new file, [0o644]. *)
Definition default_mode : Z := 420.

(** A new file gets the default permissions; an existing one keeps its own. *)
Definition with_key (k : bytes) (d : PkiDir) : PkiDir :=
  {| pd_mode := pd_mode d; pd_cert := pd_cert d; pd_key := Some k;
     pd_key_mode := if bool_decide (is_Some (pd_key d)) then pd_key_mode d else default_mode;
     pd_cert_bak := pd_cert_bak d; pd_key_bak := pd_key_bak d |}.

(** [fs::write]: a fault may leave [partial] as the content. *)
Definition fs_write_call (f : PkiFaults) (i : nat) (ctx : string) (partial : option bytes)
    (set : bytes → PkiDir → PkiDir) (content : bytes) : ST PkiDir CoreError unit := λ d,
  match f i with
  | Some e => (Err (pki_err ctx e), match partial with Some p => set p d | None => d end)
  | None => (Ok tt, set content d)
  end.

Definition create_dir_all (d : PkiDir) : PkiDir :=
  {| pd_mode := Some (default 493 (pd_mode d)); pd_cert := pd_cert d; pd_key := pd_key d;
     pd_key_mode := pd_key_mode d; pd_cert_bak := pd_cert_bak d; pd_key_bak := pd_key_bak d |}.

Section NodeCa.
Context `{EX : Externals} `{RG : Rcgen}.

(** [restrict_dir]: mode [0o700]; [restrict_file]: mode [0o600]. *)
Definition restrict_dir (d : PkiDir) : Result string unit * PkiDir :=
  (Ok tt, {| pd_mode := Some 448; pd_cert := pd_cert d; pd_key := pd_key d;
             pd_key_mode := pd_key_mode d; pd_cert_bak := pd_cert_bak d; pd_key_bak := pd_key_bak d |}).

Definition restrict_file (d : PkiDir) : Result string unit * PkiDir :=
  (Ok tt, {| pd_mode := pd_mode d; pd_cert := pd_cert d; pd_key := pd_key d;
             pd_key_mode := 384; pd_cert_bak := pd_cert_bak d; pd_key_bak := pd_key_bak d |}).

Definition CA_COMMON_NAME : string := "buh node CA".
Definition LEAF_COMMON_NAME : string := "buh node leaf".
Definition CLOCK_SKEW : Z := 300 * ns_per_sec.

Record RcgenNodeCa := {
  nc_ca_key : KeyPair;
  nc_ca_issuer : RcCert;
  nc_ca_der : bytes;
  nc_ca_fingerprint : text;
  nc_sans : list string;
  nc_leaf_ttl : Z;
}.

Record NodeLeaf := { nl_chain_der : list bytes; nl_private_key_der : bytes; nl_not_after_ms : Z }.

Definition ca_params : Result CoreError CertificateParams :=
  let? params := map_err (pki_err "CA params") (params_new []) in
  Ok {| cp_sans := cp_sans params; cp_common_name := Some CA_COMMON_NAME; cp_is_ca := Ca 0;
        cp_key_usages := [KeyCertSign; CrlSign];
        cp_extended_key_usages := cp_extended_key_usages params;
        cp_use_authority_key_identifier_extension := cp_use_authority_key_identifier_extension params;
        cp_not_before := cp_not_before params; cp_not_after := cp_not_after params |}.

(** File-system calls 2 to 6 of [load_or_init]; [w1] and [w2] are what failing
    writes leave behind. *)
Definition persist (f : PkiFaults) (w1 w2 : option bytes) (ca_der : bytes) (ca_key : KeyPair) :
    ST PkiDir CoreError unit :=
  let! _ := fs_call f 2 "create PKI dir" (λ d, (Ok tt, create_dir_all d)) in
  let! _ := fs_call f 3 "chmod PKI dir" restrict_dir in
  let! _ := fs_write_call f 4 "write CA cert" w1 (λ b, with_cert (Some b)) ca_der in
  let! _ := fs_write_call f 5 "write CA key" w2 with_key (serialize_pem ca_key) in
  fs_call f 6 "chmod CA key" restrict_file.

Definition from_loaded (rnd : bytes) (ca_key : KeyPair) (ca_der : bytes) (sans : list string)
    (leaf_ttl : Z) : Result CoreError RcgenNodeCa :=
  let? params := ca_params in
  let? ca_issuer := map_err (pki_err "rebuild CA issuer") (self_signed params ca_key rnd) in
  Ok {| nc_ca_key := ca_key; nc_ca_issuer := ca_issuer; nc_ca_der := ca_der;
        nc_ca_fingerprint := fingerprint ca_der; nc_sans := sans; nc_leaf_ttl := leaf_ttl |}.

Definition read_file (o : option bytes) : Result string bytes := ok_or o "No such file or directory".

(** [fs::read_to_string]. *)
Definition read_text (o : option bytes) : Result string bytes :=
  let? b := read_file o in
  if utf8_valid b then Ok b else Err "stream did not contain valid UTF-8".

(** [drawn] is what [KeyPair::generate] gives, if it is called; [r1] and [r2]
    are the draws of the two signatures. *)
Definition load_or_init (f : PkiFaults) (w1 w2 : option bytes) (drawn : Result string KeyPair)
    (r1 r2 : bytes) (sans : list string) (leaf_ttl : Z) : ST PkiDir CoreError RcgenNodeCa := λ d,
  (let! (ca_key, ca_der) :=
     if bool_decide (is_Some (pd_cert d)) && bool_decide (is_Some (pd_key d)) then
       let! key_pem := fs_call f 0 "read CA key" (λ d, (read_text (pd_key d), d)) in
       let! ca_key := st_lift (map_err (pki_err "parse CA key") (from_pem key_pem)) in
       let! ca_der := fs_call f 1 "read CA cert" (λ d, (read_file (pd_cert d), d)) in
       st_ret (ca_key, ca_der)
     else
       let! ca_key := st_lift (map_err (pki_err "generate CA key") drawn) in
       let! params := st_lift ca_params in
       let! ca_cert := st_lift (map_err (pki_err "self-sign CA") (self_signed params ca_key r1)) in
       let ca_der := rc_der ca_cert in
       let! _ := persist f w1 w2 ca_der ca_key in
       st_ret (ca_key, ca_der) in
   st_lift (from_loaded r2 ca_key ca_der sans leaf_ttl)) d.

(** The two renames of [rekey]; the path exists when the file does. *)
Definition back_up_cert (d : PkiDir) : Result string unit * PkiDir :=
  (Ok tt, {| pd_mode := pd_mode d; pd_cert := None; pd_key := pd_key d; pd_key_mode := pd_key_mode d;
             pd_cert_bak := pd_cert d; pd_key_bak := pd_key_bak d |}).

Definition back_up_key (d : PkiDir) : Result string unit * PkiDir :=
  (Ok tt, {| pd_mode := pd_mode d; pd_cert := pd_cert d; pd_key := None; pd_key_mode := pd_key_mode d;
             pd_cert_bak := pd_cert_bak d; pd_key_bak := pd_key d |}).

Definition rekey (fb f : PkiFaults) (w1 w2 : option bytes) (drawn : Result string KeyPair)
    (r1 r2 : bytes) (sans : list string) (leaf_ttl : Z) : ST PkiDir CoreError RcgenNodeCa :=
  let! d := st_get in
  let! _ := if bool_decide (is_Some (pd_cert d))
            then fs_call fb 0 "back up old CA" back_up_cert else st_ret tt in
  let! d := st_get in
  let! _ := if bool_decide (is_Some (pd_key d))
            then fs_call fb 1 "back up old CA" back_up_key else st_ret tt in
  load_or_init f w1 w2 drawn r1 r2 sans leaf_ttl.

(** ** Leaves *)

(** [OffsetDateTime] covers the years -9999 to 9999; sums outside panic. *)
Definition odt (t : Z) : option Z :=
  if (-377705116800 * ns_per_sec <=? t) && (t <? 253402300800 * ns_per_sec) then Some t else None.

(** [None] is a panic. *)
Definition issue_leaf (ca : RcgenNodeCa) (drawn : Result string KeyPair) (rnd : bytes) (now : Z) :
    option (Result CoreError NodeLeaf) :=
  match map_err (pki_err "generate leaf key") drawn with
  | Err e => Some (Err e)
  | Ok leaf_key =>
      match odt (now - CLOCK_SKEW), odt (now + nc_leaf_ttl ca) with
      | Some nb, Some na => Some (
          let? params := map_err (pki_err "leaf params") (params_new (nc_sans ca)) in
          let params :=
            {| cp_sans := cp_sans params; cp_common_name := Some LEAF_COMMON_NAME; cp_is_ca := NoCa;
               cp_key_usages := [DigitalSignature];
               cp_extended_key_usages := [ServerAuth; ClientAuth];
               cp_use_authority_key_identifier_extension := true;
               cp_not_before := nb; cp_not_after := na |} in
          let? leaf := map_err (pki_err "sign leaf")
                         (signed_by params leaf_key (nc_ca_issuer ca) (nc_ca_key ca) rnd) in
          Ok {| nl_chain_der := [rc_der leaf; nc_ca_der ca];
                nl_private_key_der := serialize_der leaf_key;
                nl_not_after_ms := na / ns_per_sec * 1000 |})
      | _, _ => None
      end
  end.

(** [NodeTls::rotate_leaf]: [load_key] is the TLS provider's
    [load_private_key]; the state is what the resolver serves. *)
Definition rotate_leaf {SigningKey} (load_key : bytes → Result string SigningKey) (ca : RcgenNodeCa)
    (drawn : Result string KeyPair) (rnd : bytes) (now : Z) (served : list bytes * SigningKey) :
    option (Result CoreError Z * (list bytes * SigningKey)) :=
  match issue_leaf ca drawn rnd now with
  | None => None
  | Some (Err e) => Some (Err e, served)
  | Some (Ok leaf) =>
      match load_key (nl_private_key_der leaf) with
      | Err e => Some (Err (Internal ("tls: load leaf key: " +:+ e)), served)
      | Ok key => Some (Ok (nl_not_after_ms leaf), (nl_chain_der leaf, key))
      end
  end.

(** ** Properties *)

Context `{LR : !RcgenLaws}.

(** The certificate presented belongs to the key that signs leaves. *)
Definition consistent (ca : RcgenNodeCa) : Prop :=
  nc_ca_fingerprint ca = fingerprint (nc_ca_der ca) ∧
  ∃ x, from_der (nc_ca_der ca) = Some x ∧ basic_constraints x = Ok (Some true) ∧
    verify_signature x None = true ∧ public_key x = kp_public (nc_ca_key ca).

Lemma from_loaded_Ok rnd k der sans ttl ca :
  from_loaded rnd k der sans ttl = Ok ca →
  nc_ca_key ca = k ∧ nc_ca_der ca = der ∧ nc_ca_fingerprint ca = fingerprint der ∧
  nc_sans ca = sans ∧ nc_leaf_ttl ca = ttl.
Proof. unfold from_loaded. intros H. inv_ok. by subst ca. Qed.

Lemma ca_params_Ok p : ca_params = Ok p → cp_is_ca p = Ca 0.
Proof. unfold ca_params. intros H. inv_ok. by subst p. Qed.

Lemma fs_call_Ok {A} f i ctx (m : PkiDir → Result string A * PkiDir) d a d' :
  fs_call f i ctx m d = (Ok a, d') → m d = (Ok a, d').
Proof.
  unfold fs_call. destruct (f i); [done|]. destruct (m d) as [[] ?]; cbn; [|done]. by intros [= -> ->].
Qed.

Lemma fs_write_call_Ok f i ctx partial set b d u d' :
  fs_write_call f i ctx partial set b d = (Ok u, d') → d' = set b d.
Proof. unfold fs_write_call. destruct (f i); [done|]. by intros [= _ <-]. Qed.

Lemma st_bind_Ok {S E A B} (m : ST S E A) (k : A → ST S E B) s b s' :
  st_bind m k s = (Ok b, s') → ∃ a s1, m s = (Ok a, s1) ∧ k a s1 = (Ok b, s').
Proof. intros H. apply st_bind_inv in H as [H|(e & _ & [=])]. exact H. Qed.

Lemma persist_Ok f w1 w2 der k d u d' :
  persist f w1 w2 der k d = (Ok u, d') →
  pd_cert d' = Some der ∧ pd_key d' = Some (serialize_pem k) ∧
  pd_mode d' = Some 448 ∧ pd_key_mode d' = 384.
Proof.
  unfold persist. intros H.
  apply st_bind_Ok in H as (? & d1 & H1%fs_call_Ok & H).
  apply st_bind_Ok in H as (? & d2 & H2%fs_call_Ok & H).
  apply st_bind_Ok in H as (? & d3 & H3%fs_write_call_Ok & H).
  apply st_bind_Ok in H as (? & d4 & H4%fs_write_call_Ok & H5%fs_call_Ok).
  injection H2 as _ <-. injection H5 as _ <-. by subst.
Qed.

(** A start that finds no complete CA makes a new one. *)
Lemma first_start f w1 w2 drawn r1 r2 sans ttl d ca d' :
  pd_cert d = None ∨ pd_key d = None →
  load_or_init f w1 w2 drawn r1 r2 sans ttl d = (Ok ca, d') →
  consistent ca ∧ drawn = Ok (nc_ca_key ca) ∧ nc_leaf_ttl ca = ttl ∧
  pd_cert d' = Some (nc_ca_der ca) ∧ pd_key d' = Some (serialize_pem (nc_ca_key ca)) ∧
  pd_mode d' = Some 448 ∧ pd_key_mode d' = 384.
Proof.
  intros Hd. unfold load_or_init.
  assert (bool_decide (is_Some (pd_cert d)) && bool_decide (is_Some (pd_key d)) = false) as ->.
  { destruct Hd as [-> | ->]; [done|]. by destruct (bool_decide (is_Some (pd_cert d))). }
  intros H. apply st_bind_Ok in H as ([k der] & d1 & H & [= Hl <-]).
  apply st_bind_Ok in H as (k' & ? & [= Hk <-] & H).
  apply st_bind_Ok in H as (p & ? & [= Hp <-] & H).
  apply st_bind_Ok in H as (c & ? & [= Hc <-] & H).
  apply st_bind_Ok in H as (? & ? & H & [= -> <- <-]).
  apply persist_Ok in H as (? & ? & ? & ?). inv_ok.
  apply from_loaded_Ok in Hl as (Hkey & Hder & Hfp & _ & ->).
  apply ca_params_Ok in Hp. destruct (self_signed_law _ _ _ _ _ Hc Hp) as (xc & ? & ? & ? & ?).
  unfold consistent. rewrite Hfp, Hder, Hkey. eauto 12.
Qed.

(** A start that finds both files reads them and changes nothing. *)
Lemma next_start w1 w2 drawn r1 r2 sans ttl d k der :
  pd_cert d = Some der → pd_key d = Some (serialize_pem k) →
  load_or_init (λ _, None) w1 w2 drawn r1 r2 sans ttl d = (from_loaded r2 k der sans ttl, d).
Proof.
  intros Hc Hk. unfold load_or_init. rewrite !bool_decide_true by (rewrite ?Hc, ?Hk; eauto).
  cbn [andb]. unfold st_bind, fs_call. rewrite Hk. unfold read_text. cbn [read_file ok_or rbind].
  rewrite pem_is_utf8. cbn [map_err]. unfold st_lift. rewrite from_serialize_pem. cbn [map_err].
  by rewrite Hc.
Qed.

(** Starting never touches the backups. *)
Definition backups (d : PkiDir) : option bytes * option bytes := (pd_cert_bak d, pd_key_bak d).

Definition keeps_backups {E A} (m : ST PkiDir E A) : Prop := ∀ d, backups (m d).2 = backups d.

Lemma keeps_bind {E A B} (m : ST PkiDir E A) (k : A → ST PkiDir E B) :
  keeps_backups m → (∀ a, keeps_backups (k a)) → keeps_backups (st_bind m k).
Proof.
  intros Hm Hk d. unfold st_bind. specialize (Hm d). destruct (m d) as [[a|e] d1]; [|done].
  by rewrite Hk.
Qed.

Lemma keeps_lift {E A} (r : Result E A) : keeps_backups (st_lift r).
Proof. done. Qed.

Lemma keeps_fs_call {A} f i ctx (m : PkiDir → Result string A * PkiDir) :
  (∀ d, backups (m d).2 = backups d) → keeps_backups (fs_call f i ctx m).
Proof. intros Hm d. unfold fs_call. destruct (f i); [done|]. specialize (Hm d). by destruct (m d). Qed.

Lemma keeps_fs_write f i ctx partial set b :
  (∀ b d, backups (set b d) = backups d) → keeps_backups (fs_write_call f i ctx partial set b).
Proof. intros Hs d. unfold fs_write_call. destruct (f i); [destruct partial|]; cbn; auto. Qed.

#[local] Hint Resolve keeps_bind keeps_lift keeps_fs_call keeps_fs_write : buh.

Lemma keeps_persist f w1 w2 der k : keeps_backups (persist f w1 w2 der k).
Proof. unfold persist. auto 20 with buh. Qed.

Lemma load_keeps_backups f w1 w2 drawn r1 r2 sans ttl :
  keeps_backups (load_or_init f w1 w2 drawn r1 r2 sans ttl).
Proof.
  intros d. unfold load_or_init. set (found := _ && _). clearbody found. revert d.
  apply keeps_bind; [|intros []; apply keeps_lift]. destruct found.
  - apply keeps_bind; [by apply keeps_fs_call|]. intros. apply keeps_bind; [apply keeps_lift|]. intros.
    apply keeps_bind; [by apply keeps_fs_call|done].
  - do 3 (apply keeps_bind; [apply keeps_lift|]; intros). by apply keeps_bind; [apply keeps_persist|].
Qed.

(** A successful re-keying: the old files are the backups, the new CA is what
    the directory holds. *)
Lemma rekey_Ok fb f w1 w2 drawn r1 r2 sans ttl d ca d' :
  rekey fb f w1 w2 drawn r1 r2 sans ttl d = (Ok ca, d') →
  consistent ca ∧ drawn = Ok (nc_ca_key ca) ∧
  pd_cert d' = Some (nc_ca_der ca) ∧ pd_key d' = Some (serialize_pem (nc_ca_key ca)) ∧
  (is_Some (pd_cert d) → pd_cert_bak d' = pd_cert d) ∧ (is_Some (pd_key d) → pd_key_bak d' = pd_key d).
Proof.
  unfold rekey. intros H. apply st_bind_Ok in H as (? & ? & [= <- <-] & H).
  apply st_bind_Ok in H as (? & d1 & H1 & H). apply st_bind_Ok in H as (? & ? & [= <- <-] & H).
  apply st_bind_Ok in H as (? & d2 & H2 & H).
  assert (pd_cert d1 = None ∧ pd_key d1 = pd_key d ∧ (is_Some (pd_cert d) → pd_cert_bak d1 = pd_cert d)) as (Hc & Hk & Hb).
  { clear H2 H. revert H1. case_bool_decide as E.
    2: { unfold st_ret. intros H1. simplify_eq.
      split_and!; [by apply eq_None_not_Some|done..]. }
    intros H1%fs_call_Ok. unfold back_up_cert in H1. by simplify_eq. }
  assert (pd_cert d2 = None ∧ pd_cert_bak d2 = pd_cert_bak d1 ∧ (is_Some (pd_key d) → pd_key_bak d2 = pd_key d))
    as (Hc2 & Hb2 & Hk2).
  { clear H1; revert H2. rewrite Hk. case_bool_decide as E.
    2: { unfold st_ret. intros H2. assert (d2 = d1) as -> by congruence. by split_and!. }
    intros H2%fs_call_Ok. unfold back_up_key in H2. simplify_eq. cbn. by rewrite Hk. }
  pose proof (load_keeps_backups f w1 w2 drawn r1 r2 sans ttl d2) as Hkeep. rewrite H in Hkeep.
  injection Hkeep as Hkc Hkk. apply first_start in H as (? & ? & _ & ? & ? & _); [|by left].
  split_and!; try done.
  - intros E. by rewrite Hkc, Hb2, Hb.
  - intros E. by rewrite Hkk, Hk2.
Qed.

(** C32: a node keeps its identity.  The start that creates the CA leaves its
    certificate and key in a directory only the owner can enter, the key
    readable by the owner only; every later start, whatever it would draw and
    however it is configured, uses exactly this CA, under the same
    fingerprint, and leaves the directory as it is. *)
Theorem node_identity_survives_restart f w1 w2 drawn r1 r2 sans ttl d ca d' :
  pd_cert d = None ∨ pd_key d = None →
  load_or_init f w1 w2 drawn r1 r2 sans ttl d = (Ok ca, d') →
  consistent ca ∧ pd_mode d' = Some 448 ∧ pd_key_mode d' = 384 ∧
  ∀ w1' w2' drawn' r1' r2' sans' ttl',
    load_or_init (λ _, None) w1' w2' drawn' r1' r2' sans' ttl' d'
    = (from_loaded r2' (nc_ca_key ca) (nc_ca_der ca) sans' ttl', d') ∧
    ∀ ca', from_loaded r2' (nc_ca_key ca) (nc_ca_der ca) sans' ttl' = Ok ca' →
      consistent ca' ∧ nc_ca_fingerprint ca' = nc_ca_fingerprint ca.
Proof.
  intros Hd H. apply first_start in H as (Hca & _ & _ & Hc & Hk & Hm & Hkm); [|done].
  split_and!; [done..|]. intros. split; [by apply next_start|]. intros ca' Hl.
  apply from_loaded_Ok in Hl as (Hk' & Hd' & Hf' & _). destruct Hca as [Hfp (x & Hx)].
  unfold consistent. rewrite Hk', Hd', Hf', Hfp. eauto.
Qed.

Lemma odt_Some t u : odt t = Some u → u = t.
Proof. unfold odt. destruct (_ && _); [by intros [= <-]|done]. Qed.

Lemma issue_leaf_Ok ca drawn rnd now leaf :
  issue_leaf ca drawn rnd now = Some (Ok leaf) →
  ∃ leaf_der x, nl_chain_der leaf = [leaf_der; nc_ca_der ca] ∧ from_der leaf_der = Some x ∧
    verify_signature x (Some (kp_public (nc_ca_key ca))) = true ∧
    not_before x = (now - CLOCK_SKEW) / ns_per_sec ∧
    not_after x = (now + nc_leaf_ttl ca) / ns_per_sec ∧
    nl_not_after_ms leaf = not_after x * 1000.
Proof.
  unfold issue_leaf. intros H. repeat (case_in H; try discriminate H).
  repeat match goal with E : odt _ = Some _ |- _ => apply odt_Some in E; subst end.
  injection H as H. inv_ok. subst leaf. apply signed_by_law in Ha0 as (x & Hx & Hv & Hnb & Hna & _).
  cbn [cp_not_before cp_not_after] in Hnb, Hna. simplify_eq.
  eexists _, x. cbn [nl_chain_der nl_not_after_ms]. rewrite Hna. split_and!; eauto.
Qed.

(** the leaves a node issues are accepted by exactly the peers that pin it,
    exactly while they are valid: at a time at which the CA certificate is
    valid, a peer accepts the chain a node presents if and only if the node's
    fingerprint is in its trust set and the time is between 300 seconds before
    the leaf was issued and the end of its lifetime. *)
Theorem issued_leaf_is_accepted f w1 w2 drawn r1 r2 sans ttl d ca d' drawn' rnd now leaf :
  pd_cert d = None ∨ pd_key d = None →
  load_or_init f w1 w2 drawn r1 r2 sans ttl d = (Ok ca, d') →
  issue_leaf ca drawn' rnd now = Some (Ok leaf) →
  ∃ leaf_der ca_cert,
    nl_chain_der leaf = [leaf_der; nc_ca_der ca] ∧ from_der (nc_ca_der ca) = Some ca_cert ∧
    nl_not_after_ms leaf = (now + ttl) / ns_per_sec * 1000 ∧
    ∀ trusted t, valid_at ca_cert t →
      verify_pinned_chain leaf_der [nc_ca_der ca] t trusted = Ok tt ↔
      nc_ca_fingerprint ca ∈ trusted ∧
      (now - CLOCK_SKEW) / ns_per_sec <= now_secs t <= (now + ttl) / ns_per_sec.
Proof.
  intros Hd H Hi. apply first_start in H as ([Hfp (c & Hc & Hbc & Hs & Hpk)] & _ & Httl & _); [|done].
  apply issue_leaf_Ok in Hi as (leaf_der & x & Hch & Hx & Hv & Hnb & Hna & Hms).
  exists leaf_der, c. rewrite Hms, Hna, Httl. split_and!; [done..|]. intros trusted t Ht.
  rewrite verify_pinned_chain_Ok, Hfp. unfold chain_ok, valid_at at 1.
  rewrite Httl in Hna. split.
  - intros (? & [= <-] & Hp & ca' & leaf' & Hca' & Hl' & _ & _ & _ & Hval & _). simplify_eq.
    by rewrite <-Hnb, <-Hna.
  - intros (Hp & Hw). exists (nc_ca_der ca). split_and!; [done..|]. exists c, x.
    rewrite Hpk, Hnb, Hna. destruct Hw. by split_and!.
Qed.

(** a rotation that fails in any way keeps serving the previous leaf; one
    that succeeds serves the new chain and reports its expiry. *)
Theorem failed_rotation_keeps_leaf {SigningKey} (load_key : bytes → Result string SigningKey)
    ca drawn rnd now served r served' :
  rotate_leaf load_key ca drawn rnd now served = Some (r, served') →
  match r with
  | Err _ => served' = served
  | Ok expiry => ∃ leaf_der, served'.1 = [leaf_der; nc_ca_der ca] ∧
                   expiry = (now + nc_leaf_ttl ca) / ns_per_sec * 1000
  end.
Proof.
  unfold rotate_leaf. destruct (issue_leaf ca drawn rnd now) as [[leaf|e]|] eqn:Hi; [|naive_solver|done].
  apply issue_leaf_Ok in Hi as (ld & x & Hch & _ & _ & _ & Hna & Hms).
  destruct (load_key (nl_private_key_der leaf)); intros [= <- <-]; [|done].
  exists ld. by rewrite Hms, Hna.
Qed.

End NodeCa.

(** ** A concrete certificate library

    A key pair is a byte, a certificate its CA flag, its key, the key that
    signed it, and its validity as two 64-bit counts of seconds; a digest is
    the first 32 bytes, padded. *)

#[local] Program Instance tlv_x509 : X509 := {|
  sha256 b := take 32 (b ++ repeat Byte.x00 32);
  Certificate := bytes;
  PublicKey := byte;
  from_der b := if (length b =? 19)%nat then Some b else None;
  basic_constraints c := Ok (Some (bool_decide (nth 0 c Byte.x00 = Byte.x01)));
  PeerTrust.public_key c := nth 1 c Byte.x00;
  verify_signature c k := bool_decide (nth 2 c Byte.x00 = default (nth 1 c Byte.x00) k);
  not_before c := from_be (take 8 (drop 3 c));
  not_after c := from_be (drop 11 c);
|}.

Definition tlv_cert (flag key signer : byte) (nb na : Z) : Result string bytes :=
  if (0 <=? nb) && (nb <? 2 ^ 64) && (0 <=? na) && (na <? 2 ^ 64)
  then Ok ([flag; key; signer] ++ be_bytes 8 nb ++ be_bytes 8 na)
  else Err "time out of range".

Definition flag_of (i : IsCa) : byte := match i with Ca _ => Byte.x01 | NoCa => Byte.x00 end.

#[local] Instance tlv_rcgen : Rcgen := {|
  KeyPair := byte;
  kp_public k := k;
  from_pem b := match hex_dec (string_of_list_byte b) with Ok [k] => Ok k | _ => Err "no key" end;
  serialize_pem k := bstr (hex_enc [k]);
  serialize_der k := [k];
  RcCert := bytes;
  rc_der c := c;
  params_new sans :=
    Ok {| cp_sans := sans; cp_common_name := None; cp_is_ca := NoCa; cp_key_usages := [];
          cp_extended_key_usages := []; cp_use_authority_key_identifier_extension := false;
          cp_not_before := 157766400 * ns_per_sec; cp_not_after := 67090118400 * ns_per_sec |};
  self_signed p k r :=
    tlv_cert (flag_of (cp_is_ca p)) k k (cp_not_before p / ns_per_sec) (cp_not_after p / ns_per_sec);
  signed_by p lk issuer ck r :=
    tlv_cert (flag_of (cp_is_ca p)) lk ck (cp_not_before p / ns_per_sec) (cp_not_after p / ns_per_sec);
|}.

Lemma tlv_cert_Ok flag key signer nb na c :
  tlv_cert flag key signer nb na = Ok c →
  length c = 19%nat ∧ nth 0 c Byte.x00 = flag ∧ nth 1 c Byte.x00 = key ∧ nth 2 c Byte.x00 = signer ∧
  from_be (take 8 (drop 3 c)) = nb ∧ from_be (drop 11 c) = na.
Proof.
  unfold tlv_cert. destruct (_ && _) eqn:E; [|done]. intros H.
  assert (c = [flag; key; signer] ++ be_bytes 8 nb ++ be_bytes 8 na) as -> by congruence. clear H.
  rewrite !andb_true_iff, !Z.leb_le, !Z.ltb_lt in E.
  split_and!; [|done..| |].
  - by rewrite !length_app, !length_be_bytes.
  - change (drop 3 _) with (be_bytes 8 nb ++ be_bytes 8 na).
    rewrite take_app_length' by by rewrite length_be_bytes.
    apply from_be_be_bytes_id. change (8 * Z.of_nat 8) with 64. lia.
  - change (drop 11 _) with (drop 8 (be_bytes 8 nb ++ be_bytes 8 na)).
    rewrite drop_app_length' by by rewrite length_be_bytes.
    apply from_be_be_bytes_id. change (8 * Z.of_nat 8) with 64. lia.
Qed.

#[local] Instance tlv_rcgen_laws : RcgenLaws (RG := tlv_rcgen).
Proof.
  split.
  - intros k. destruct k; by vm_compute.
  - intros k. destruct k; by vm_compute.
  - intros p k r c n Hc Hn.
    apply tlv_cert_Ok in Hc as (Hl & H0 & H1 & H2 & _). exists c.
    cbn [from_der basic_constraints verify_signature PeerTrust.public_key tlv_x509 rc_der tlv_rcgen default].
    rewrite Hl, H0, H1, H2, Hn. cbn. rewrite bool_decide_true by done. by rewrite bool_decide_true.
  - intros p lk issuer ck r c Hc. apply tlv_cert_Ok in Hc as (Hl & _ & H1 & H2 & H3 & H4). exists c.
    cbn [from_der verify_signature not_before not_after PeerTrust.public_key tlv_x509 rc_der tlv_rcgen default].
    rewrite Hl, H1, H2, H3, H4. cbn. by rewrite bool_decide_true.
Qed.

Module NodeSample.
Definition empty_dir : PkiDir :=
  {| pd_mode := None; pd_cert := None; pd_key := None; pd_key_mode := 0; pd_cert_bak := None;
     pd_key_bak := None |}.
(** What [KeyPair::generate] returns. *)
Definition drawn (k : byte) : Result string (KeyPair (Rcgen := tlv_rcgen)) := Ok k.
Definition no_faults : PkiFaults := λ _, None.
Definition hour : Z := 3600 * ns_per_sec.
(** 2026-01-01. *)
Definition now : Z := 1767225600 * ns_per_sec.
Definition start (f : PkiFaults) (key : byte) (d : PkiDir) : Result CoreError RcgenNodeCa * PkiDir :=
  load_or_init f None None (drawn key) [] [] ["localhost"] (48 * hour) d.
Definition issuer : bytes :=
  [Byte.x01; Byte.xaa; Byte.xaa] ++ be_bytes 8 157766400 ++ be_bytes 8 67090118400.
Definition ca : RcgenNodeCa :=
  {| nc_ca_key := Byte.xaa : KeyPair (Rcgen := tlv_rcgen); nc_ca_issuer := issuer : RcCert (Rcgen := tlv_rcgen);
     nc_ca_der := issuer;
     nc_ca_fingerprint := fingerprint issuer; nc_sans := ["localhost"]; nc_leaf_ttl := 48 * hour |}.
Definition leaf : NodeLeaf :=
  {| nl_chain_der :=
       [[Byte.x00; Byte.xcc; Byte.xaa] ++ be_bytes 8 1767225300 ++ be_bytes 8 1767398400; issuer];
     nl_private_key_der := [Byte.xcc]; nl_not_after_ms := 1767398400000 |}.
Definition dir : PkiDir := (start no_faults Byte.xaa empty_dir).2.
End NodeSample.

Lemma sample_started :
  NodeSample.start NodeSample.no_faults Byte.xaa NodeSample.empty_dir = (Ok NodeSample.ca, NodeSample.dir).
Proof. reflexivity. Qed.

Lemma sample_issued :
  issue_leaf NodeSample.ca (NodeSample.drawn Byte.xcc) [] NodeSample.now = Some (Ok NodeSample.leaf).
Proof. reflexivity. Qed.

Lemma node_identity_survives_restart_witness :
  pd_mode NodeSample.dir = Some 448 ∧
  (NodeSample.start NodeSample.no_faults Byte.xbb NodeSample.dir).2 = NodeSample.dir.
Proof.
  destruct (node_identity_survives_restart _ _ _ _ _ _ _ _ NodeSample.empty_dir _ _ (or_introl eq_refl) sample_started)
    as (_ & H & _ & Hr).
  split; [exact H|]. unfold NodeSample.start.
  exact (f_equal snd (proj1 (Hr None None (NodeSample.drawn Byte.xbb) [] [] ["localhost"]
                               (48 * NodeSample.hour)))).
Defined.

Lemma issued_leaf_is_accepted_witness :
  ∃ leaf_der,
    verify_pinned_chain leaf_der [NodeSample.issuer] (1767225600 + 3600) {[fingerprint NodeSample.issuer]}
    = Ok tt.
Proof.
  destruct (issued_leaf_is_accepted _ _ _ _ _ _ _ _ NodeSample.empty_dir _ _ _ _ _ _ (or_introl eq_refl) sample_started
              sample_issued) as (leaf_der & c & _ & Hc & _ & H).
  exists leaf_der. apply H.
  - injection Hc as <-. split; vm_compute; discriminate.
  - split; [apply elem_of_singleton; reflexivity|]. split; vm_compute; discriminate.
Defined.

Lemma failed_rotation_keeps_leaf_witness :
  ∃ served, rotate_leaf (λ _, Err "no provider") NodeSample.ca (NodeSample.drawn Byte.xcc) []
              NodeSample.now ([[Byte.x30]], tt)
            = Some (Err (Internal "tls: load leaf key: no provider"), served) ∧
            served = ([[Byte.x30]], tt).
Proof.
  eexists. split; [reflexivity|].
  exact (failed_rotation_keeps_leaf (λ _, Err "no provider") NodeSample.ca
           (NodeSample.drawn Byte.xcc) [] NodeSample.now ([[Byte.x30]], tt) _ _ eq_refl).
Defined.

(** nothing checks that the stored certificate and key belong together.
    After a first start that found only the key of a former CA (an interrupted
    re-keying leaves it) and could not replace it, the next start succeeds with
    the new certificate and the old key, and peers that pin the certificate
    refuse every leaf the node issues. *)
Theorem mismatched_ca_is_loaded :
  let d := {| pd_mode := Some 448; pd_cert := None; pd_key := Some (serialize_pem (Rcgen := tlv_rcgen) Byte.xbb);
              pd_key_mode := 384; pd_cert_bak := None; pd_key_bak := None |} in
  let '(r1, d1) := NodeSample.start (λ i, if (i =? 5)%nat then Some "No space left on device" else None)
                     Byte.xaa d in
  let '(r2, d2) := NodeSample.start NodeSample.no_faults Byte.xcc d1 in
  is_ok r1 = false ∧
  match r2 with
  | Err _ => False
  | Ok ca =>
      match issue_leaf ca (NodeSample.drawn Byte.xcc) [] NodeSample.now with
      | Some (Ok {| nl_chain_der := [leaf; ca_der] |}) =>
          verify_pinned_chain leaf [ca_der] (1767225600 + 3600) {[nc_ca_fingerprint ca]}
          = Err "leaf does not chain to pinned CA"
      | _ => False
      end
  end.
Proof. vm_compute. tauto. Qed.
