(* ===== verification/Migrate.v ===== *)
(** * Schema migrations: [buh-data/src/migrate.rs]

    The runner executes the statements of each embedded SQL file once, in
    order, and records the version.  What a DDL statement does to the
    datastore is the parameter [exec_ddl]; the bookkeeping table
    [schema_version] is modelled. *)

From S2P Require Import Prelude.
From S2P Require Import Text.
From S2P Require Import Entities.
From S2P Require Import Mailbox.
From S2P Require Import PeerTrust.
#[local] Open Scope Z_scope.

(** ** Statements *)

(** [match line.find("--") { Some(i) => &line[..i], None => line }]. *)
Fixpoint strip_comment (line : text) : text :=
  match line with
  | [] => []
  | a :: l =>
      match l with
      | b :: _ => if (a =? 45) && (b =? 45) then [] else a :: strip_comment l
      | [] => [a]
      end
  end.

Fixpoint join_lines (ls : list text) : text :=
  match ls with
  | [] => []
  | [l] => l
  | l :: r => l ++ 10 :: join_lines r
  end.

Definition split_statements (sql : text) : list text :=
  let stripped := join_lines (strip_comment <$> lines sql) in
  filter (λ s, s ≠ []) (trim <$> split_on 59 stripped).

(** ** The embedded files *)

Definition init_sql : text := literal
"-- buh relay/mailbox schema (Turso / SQLite-compatible).
--
-- The relay stores ONLY queue_id -> envelope_refs, TTL/expiry, and delivery receipts. There
-- are deliberately no users / queues / ownership tables: the relay never learns identities
-- and cannot enumerate a social graph (doc/design.md §3.1). queue_id is an opaque 32-byte
-- capability; envelope payloads are opaque sealed ciphertext.
--
-- Timestamps are epoch milliseconds (INTEGER).

CREATE TABLE IF NOT EXISTS envelopes (
    id            INTEGER PRIMARY KEY,
    queue_id      BLOB    NOT NULL,
    envelope_id   TEXT    NOT NULL,
    payload       BLOB    NOT NULL,
    received_at   INTEGER NOT NULL,
    expires_at    INTEGER NOT NULL,
    delivered_at  INTEGER
);

-- Primary access path: live (undelivered) envelopes for a queue, oldest first.
CREATE INDEX IF NOT EXISTS idx_envelopes_queue_live
    ON envelopes (queue_id, delivered_at, received_at);

-- TTL sweep path.
CREATE INDEX IF NOT EXISTS idx_envelopes_expiry
    ON envelopes (expires_at);

-- One row per (queue, envelope) — idempotent push / safe ack.
CREATE UNIQUE INDEX IF NOT EXISTS idx_envelopes_uniq
    ON envelopes (queue_id, envelope_id);

CREATE TABLE IF NOT EXISTS delivery_receipts (
    id           INTEGER PRIMARY KEY,
    queue_id     BLOB    NOT NULL,
    envelope_id  TEXT    NOT NULL,
    pulled_at    INTEGER NOT NULL
);

CREATE INDEX IF NOT EXISTS idx_receipts_queue
    ON delivery_receipts (queue_id, pulled_at);
".

Definition peer_trust_sql : text := literal
"-- Peer-CA trust registry (Phase 6 / doc/design.md §5.1, the decentralised per-node-CA deviation).
--
-- The set of peer-node CA fingerprints this node will accept on a PQ-mTLS handshake. Trust is
-- per-CA: a fingerprint is pinned (lowercase hex SHA-256 of the peer CA cert DER), never a shared
-- root. There is deliberately no peer identity, address, or social graph here — only the opaque
-- fingerprints an operator has chosen to trust, and an optional human note.

CREATE TABLE IF NOT EXISTS peer_trust (
    ca_fingerprint  TEXT    PRIMARY KEY,   -- lowercase hex SHA-256 of the peer CA cert DER
    note            TEXT,                  -- optional operator note (who/what this CA is)
    trusted_at      INTEGER NOT NULL       -- epoch milliseconds
);
".

Definition MIGRATIONS : list (Z * text) := [(1, init_sql); (2, peer_trust_sql)].

(** ** The runner *)

Section Run.
Context {D : Type} (exec_ddl : text → D → Result string D).

(** [sc_versions] is [None] before the table exists. *)
Record Schema := { sc_data : D; sc_versions : option (list (Z * Z)) }.

(** The calls of the datastore; [MigFaults] gives the error of each, if any. *)
Inductive call_id : Type :=
| CreateTable
| QueryVersion (version : Z)
| NextVersion (version : Z)
| RunStatement (version : Z) (i : nat)
| RecordVersion (version : Z).

Definition MigFaults : Type := call_id → option string.

Definition mig_call {A} (f : MigFaults) (i : call_id) (m : Schema → Result string A * Schema) :
    ST Schema CoreError A := λ s,
  match f i with
  | Some e => (Err (Repo e), s)
  | None => let '(r, s') := m s in (map_err Repo r, s')
  end.

Definition create_table (s : Schema) : Result string unit * Schema :=
  (Ok tt, {| sc_data := sc_data s; sc_versions := Some (default [] (sc_versions s)) |}).

Definition no_such_table : string := "no such table: schema_version".

Definition select_version (version : Z) (s : Schema) : Result string (list (Z * Z)) * Schema :=
  (ok_or (filter (λ r : Z * Z, r.1 = version) <$> sc_versions s) no_such_table, s).

(** [version] is the primary key. *)
Definition insert_version (version now : Z) (s : Schema) : Result string unit * Schema :=
  match sc_versions s with
  | None => (Err no_such_table, s)
  | Some vs =>
      if bool_decide (version ∈ vs.*1) then (Err "UNIQUE constraint failed", s)
      else (Ok tt, {| sc_data := sc_data s; sc_versions := Some (vs ++ [(version, now)]) |})
  end.

Definition exec_statement (stmt : text) (s : Schema) : Result string unit * Schema :=
  match exec_ddl stmt (sc_data s) with
  | Ok d => (Ok tt, {| sc_data := d; sc_versions := sc_versions s |})
  | Err e => (Err e, s)
  end.

Definition is_applied (f : MigFaults) (version : Z) : ST Schema CoreError bool :=
  let! rows := mig_call f (QueryVersion version) (select_version version) in
  let! next := mig_call f (NextVersion version) (λ s, (Ok (head rows), s)) in
  st_ret (bool_decide (is_Some next)).

Fixpoint exec_statements (f : MigFaults) (version : Z) (i : nat) (stmts : list text) :
    ST Schema CoreError unit :=
  match stmts with
  | [] => st_ret tt
  | stmt :: stmts =>
      let! _ := mig_call f (RunStatement version i) (exec_statement stmt) in
      exec_statements f version (S i) stmts
  end.

(** The loop; [now] is what the clock says at each [INSERT]. *)
Fixpoint apply_migrations (f : MigFaults) (now : Z → Z) (ms : list (Z * text)) :
    ST Schema CoreError unit :=
  match ms with
  | [] => st_ret tt
  | (version, sql) :: ms =>
      let! applied := is_applied f version in
      if applied then apply_migrations f now ms
      else
        let! _ := exec_statements f version 0 (split_statements sql) in
        let! _ := mig_call f (RecordVersion version) (insert_version version (now version)) in
        apply_migrations f now ms
  end.

Definition run_migrations (f : MigFaults) (now : Z → Z) : ST Schema CoreError unit :=
  let! _ := mig_call f CreateTable create_table in
  apply_migrations f now MIGRATIONS.

(** ** Properties *)

Definition versions (s : Schema) : list Z := (default [] (sc_versions s)).*1.

Lemma mig_call_inv {A} f i (m : Schema → Result string A * Schema) s r s' :
  mig_call f i m s = (r, s') →
  (∃ e, r = Err (Repo e) ∧ s' = s) ∨ (r = map_err Repo (m s).1 ∧ s' = (m s).2).
Proof. unfold mig_call. destruct (f i); [naive_solver|]. destruct (m s); naive_solver. Qed.

Lemma is_applied_spec f v s r s' :
  is_applied f v s = (r, s') →
  s' = s ∧ ∀ b, r = Ok b → b = bool_decide (v ∈ versions s) ∧ is_Some (sc_versions s).
Proof.
  unfold is_applied. intros H. apply st_bind_inv in H as [(rows & s1 & H1 & H)|(e & H1 & ->)];
    apply mig_call_inv in H1 as [(e' & He & ->)|(He & ->)]; try done.
  apply st_bind_inv in H as [(nx & s2 & H2 & [= <- <-])|(e & H2 & ->)];
    apply mig_call_inv in H2 as [(e' & He' & ->)|(He' & ->)]; try done.
  split; [done|]. intros b [= <-]. cbn in He, He'. injection He' as ->.
  unfold versions. destruct (sc_versions s) as [vs|]; cbn in He; [|done]. injection He as ->.
  split; [|done]. apply bool_decide_ext. cbn. rewrite head_is_Some, list_elem_of_fmap. split.
  - intros Hn. destruct (filter (λ r : Z * Z, r.1 = v) vs) as [|x l] eqn:E; [done|].
    assert (x ∈ filter (λ r : Z * Z, r.1 = v) vs) as Hx by (rewrite E; left).
    apply list_elem_of_filter in Hx as [<- Hx]. eauto.
  - intros (x & -> & Hx) Hn. apply (not_elem_of_nil x). rewrite <-Hn. by apply list_elem_of_filter.
Qed.

Lemma exec_statements_versions f v i stmts s r s' :
  exec_statements f v i stmts s = (r, s') → sc_versions s' = sc_versions s.
Proof.
  revert i s. induction stmts as [|x stmts IH]; intros i s; cbn [exec_statements].
  - by intros [= _ <-].
  - intros H. apply st_bind_inv in H as [(? & s1 & H1 & H)|(e & H1 & ->)];
      apply mig_call_inv in H1 as [(e' & He & ->)|(He & ->)]; try done.
    + rewrite (IH _ _ H). unfold exec_statement. by destruct (exec_ddl x (sc_data s)).
    + unfold exec_statement. by destruct (exec_ddl x (sc_data s)).
Qed.

Lemma insert_version_spec v now s r s' :
  insert_version v now s = (r, s') →
  match r with Ok _ => versions s' = versions s ++ [v] | Err _ => s' = s end.
Proof.
  unfold insert_version, versions. destruct (sc_versions s) as [vs|]; [|by intros [= <- <-]].
  case_bool_decide; intros [= <- <-]; [done|]. cbn. by rewrite fmap_app.
Qed.

(** One turn of the loop. *)
Lemma apply_cons f now v sql ms s r s' :
  apply_migrations f now ((v, sql) :: ms) s = (r, s') →
  (∃ s1, versions s1 = (if bool_decide (v ∈ versions s) then versions s else versions s ++ [v]) ∧
     apply_migrations f now ms s1 = (r, s')) ∨
  (∃ e, r = Err e ∧ versions s' = versions s).
Proof.
  cbn [apply_migrations]. intros H. apply st_bind_inv in H as [(b & s1 & H1 & H)|(e & H1 & ->)];
    apply is_applied_spec in H1 as [-> Hb]; [|by right; exists e].
  destruct (Hb b eq_refl) as [-> _]. case_bool_decide; [by left; exists s|].
  apply st_bind_inv in H as [(u & s1 & H1 & H)|(e & H1 & ->)];
    apply exec_statements_versions in H1 as Hv; [|right; exists e; unfold versions; by rewrite Hv].
  apply st_bind_inv in H as [(u' & s2 & H2 & H)|(e & H2 & ->)];
    apply mig_call_inv in H2 as [(e' & He & ->)|(He & ->)]; try done.
  - destruct (insert_version v (now v) s1) as [[u2|] s2] eqn:E; [|done]. apply insert_version_spec in E.
    left. exists s2. split; [|done]. rewrite E. unfold versions. by rewrite Hv.
  - right. exists e. split; [done|]. unfold versions. by rewrite Hv.
  - destruct (insert_version v (now v) s1) as [[u2|] s2] eqn:E; [done|]. apply insert_version_spec in E.
    cbn [snd]. rewrite E. right. exists e. split; [done|]. unfold versions. by rewrite Hv.
Qed.

(** Versions are only added, in the order of the list, all of them on success. *)
Lemma apply_migrations_spec f now ms s r s' :
  apply_migrations f now ms s = (r, s') →
  (∃ k, versions s' = versions s ++ k ∧ k `sublist_of` ms.*1) ∧
  (r = Ok tt → ∀ v, v ∈ ms.*1 → v ∈ versions s').
Proof.
  revert s. induction ms as [|[v sql] ms IH]; intros s H.
  - injection H as <- <-. split; [|intros _ v; by rewrite elem_of_nil]. exists []. by rewrite app_nil_r.
  - apply apply_cons in H as [(s1 & Hv & H)|(e & -> & Hv)].
    + apply IH in H as [(k & Hk & Hsub) Hall]. split.
      * rewrite Hk, Hv. case_bool_decide.
        -- exists k. split; [done|]. by apply sublist_cons.
        -- exists (v :: k). rewrite <-app_assoc. split; [done|]. by apply sublist_skip.
      * intros Hr w [->|Hw]%elem_of_cons; [|by apply Hall].
        rewrite Hk, Hv. case_bool_decide; set_solver.
    + split; [|done]. exists []. rewrite app_nil_r. split; [done|]. apply sublist_nil_l.
Qed.

Lemma apply_done now ms s :
  is_Some (sc_versions s) → (∀ v, v ∈ ms.*1 → v ∈ versions s) →
  apply_migrations (λ _, None) now ms s = (Ok tt, s).
Proof.
  intros Hs. induction ms as [|[v sql] ms IH]; intros Hall; [done|]. cbn [apply_migrations].
  destruct (is_applied (λ _, None) v s) as [r s1] eqn:E.
  assert (is_ok r = true) as Hok.
  { destruct Hs as [vs Hvs]. unfold is_applied, st_bind, mig_call, select_version in E.
    rewrite Hvs in E. by injection E as <- _. }
  destruct r as [b|]; [|done]. pose proof (is_applied_spec _ _ _ _ _ E) as [-> Hb].
  destruct (Hb b eq_refl) as [-> _]. unfold st_bind. rewrite E.
  rewrite bool_decide_true by (apply Hall; left). apply IH. intros w Hw. apply Hall. by right.
Qed.

(** C38: migrations run once.  Whatever fails, versions already on record stay
    and new ones are recorded in the order of the list; a run that succeeds
    has recorded all of them, and running again changes nothing. *)
Theorem migrations_run_once f now s r s' :
  run_migrations f now s = (r, s') →
  (∃ k, versions s' = versions s ++ k ∧ k `sublist_of` [1; 2]) ∧
  (r = Ok tt →
   1 ∈ versions s' ∧ 2 ∈ versions s' ∧
   ∀ now', run_migrations (λ _, None) now' s' = (Ok tt, s')).
Proof.
  unfold run_migrations. intros H. apply st_bind_inv in H as [(u & s1 & H1 & H)|(e & H1 & ->)];
    apply mig_call_inv in H1 as [(e' & He & ->)|(He & ->)]; try done.
  2: { split; [|done]. exists []. rewrite app_nil_r. split; [done|]. apply sublist_nil_l. }
  pose proof (apply_migrations_spec _ _ _ _ _ _ H) as [Hk Hall]. split.
  - exact Hk.
  - intros Hr. specialize (Hall Hr). cbn in Hall.
    assert (1 ∈ versions s' ∧ 2 ∈ versions s') as [H1 H2] by (split; apply Hall; set_solver).
    split_and!; [done..|]. intros now'.
    assert (is_Some (sc_versions s')) as [vs Hvs].
    { unfold versions in H1. destruct (sc_versions s'); [eauto|]. by apply elem_of_nil in H1. }
    assert (create_table s' = (Ok tt, s')) as Hc.
    { unfold create_table. destruct s' as [dt vso]. cbn in Hvs. by rewrite Hvs. }
    unfold st_bind, mig_call. rewrite Hc. cbn [map_err]. apply apply_done; [eauto|]. exact Hall.
Qed.

End Run.

(** The statements of the embedded files, as the runner splits them. *)
Lemma embedded_statements :
  (λ m : Z * text, (m.1, take 12 <$> split_statements m.2)) <$> MIGRATIONS
  = [(1, [chars "CREATE TABLE"; chars "CREATE INDEX"; chars "CREATE INDEX"; chars "CREATE UNIQU";
          chars "CREATE TABLE"; chars "CREATE INDEX"]);
     (2, [chars "CREATE TABLE"])].
Proof. vm_compute. reflexivity. Qed.

Lemma migrations_run_once_witness :
  let run := run_migrations (λ (stmt : text) (d : list text), Ok (d ++ [stmt])) in
  let s := (run (λ _, None) (λ _, 7) {| sc_data := []; sc_versions := None |}).2 in
  run (λ _, None) (λ _, 8) s = (Ok tt, s).
Proof.
  cbv zeta. pose proof (migrations_run_once (λ (stmt : text) (d : list text), Ok (d ++ [stmt]))
    (λ _, None) (λ _, 7) {| sc_data := []; sc_versions := None |} _ _ (surjective_pairing _)) as [_ H].
  apply H. vm_compute. reflexivity.
Defined.
