(* ===== verification/TestsNode.v ===== *)
(** * The unit tests of the node's crates, run on the model

    Each test of [core/{blob,mailbox}.rs], [entities/queue.rs] and
    [data/{fs_blob,peer_trust,stub_settlement,node_ca,migrate}.rs] as a function
    on the model's definitions; [None] is an assertion that fails or an
    [unwrap] that panics.  Clock readings ([now] in nanoseconds, for the
    registry in milliseconds) and drawn keys are arguments. *)

From S2P Require Import Prelude.
From S2P Require Import Text.
From S2P Require Import TestsWire.
From S2P Require Import Entities.
From S2P Require Import Mailbox.
From S2P Require Import Settlement.
From S2P Require Import Blob.
From S2P Require Import BlobRole.
From S2P Require Import PeerTrust.
From S2P Require Import NodeCa.
From S2P Require Import Migrate.
#[local] Open Scope Z_scope.

(** [matches!(r, Err(CoreError::Unimplemented(_)))] and [NotFound]. *)
Definition is_unimplemented {A} (r : Result CoreError A) : bool :=
  match r with Err (Unimplemented _) => true | _ => false end.
Definition is_not_found {A} (r : Result CoreError A) : bool :=
  match r with Err NotFound => true | _ => false end.

Definition text_repeat (s : string) (n : nat) : text := mjoin (repeat (chars s) n).
Definition string_repeat (s : string) (n : nat) : string := String.concat "" (repeat s n).

(** ** [core/mailbox.rs] *)

Definition ttl_clamping : option unit :=
  let c := CoreConfig_default in
  _ ← assert_eq (clamp_ttl 0 c) (default_ttl_seconds c);
  _ ← assert_eq (clamp_ttl (-5) c) (default_ttl_seconds c);
  _ ← assert_eq (clamp_ttl 60 c) 60;
  assert_eq (clamp_ttl i64_max c) (max_ttl_seconds c).

(** ** [core/blob.rs] *)

(** The tests' in-memory store, keyed by [bucket/key]. *)
Definition mem_name (bucket key : string) : string := bucket +:+ "/" +:+ key.

Definition MemBlob : BlobStore (gmap string bytes) := {|
  bs_exists bucket key := λ s, (Ok (bool_decide (is_Some (s !! mem_name bucket key))), s);
  bs_put bucket key b := λ s, (Ok tt, <[mem_name bucket key := b]> s);
  bs_get bucket key := λ s, (ok_or (s !! mem_name bucket key) NotFound, s);
  bs_presign_get _ _ _ := st_err (Unimplemented "no presign");
|}.

(** The fake keeps the promise of the port, so what is proved of the role
    against the contract covers the tests' double as well.  Two locators with the
    same joined name share an object. *)
Definition mem_kept (bucket key bucket' key' : string) : Prop :=
  mem_name bucket' key' ≠ mem_name bucket key.

#[export] Instance mem_contract :
  BlobContract MemBlob (λ s b k, s !! mem_name b k) mem_kept.
Proof.
  split; cbn [bs_get bs_exists bs_put MemBlob].
  - intros b k s r s' [= <- <-]. split; [done|]. by destruct (s !! mem_name b k).
  - intros b k s e s' [= <- <-]. done.
  - intros b k v s s' [= <-]. split; [by rewrite lookup_insert_eq|].
    intros b' k' w Hk Hw. rewrite lookup_insert_ne by (intros E; by apply Hk). done.
Qed.

Definition without_blob_role_is_unimplemented : option unit :=
  let s : gmap string bytes := ∅ in
  _ ← assert_ (is_unimplemented (blob_put CoreConfig_default None "m" "k" (bstr "x") s).1);
  assert_ (is_unimplemented (blob_get None "m" "k" s).1).

Definition put_get_roundtrip_and_limits : option unit :=
  let blob := Some MemBlob in
  let '(r, s) := blob_put CoreConfig_default blob "m" "k" [] ∅ in
  _ ← assert_ (is_err r);
  let cfg := {| default_ttl_seconds := default_ttl_seconds CoreConfig_default;
                max_ttl_seconds := max_ttl_seconds CoreConfig_default;
                max_pull_limit := max_pull_limit CoreConfig_default;
                max_payload_bytes := max_payload_bytes CoreConfig_default; max_blob_bytes := 4 |} in
  let '(r, s) := blob_put cfg blob "m" "k" (bstr "toolong") s in
  _ ← assert_ (is_err r);
  '(_, s) ← unwrap_call (blob_put CoreConfig_default blob "m" "k" (bstr "sealed")) s;
  '(e, s) ← unwrap_call (blob_exists blob "m" "k") s;
  _ ← assert_ e;
  '(b, s) ← unwrap_call (blob_get blob "m" "k") s;
  _ ← assert_eq b (bstr "sealed");
  assert_ (is_not_found (blob_get blob "m" "absent" s).1).

(** ** [data/fs_blob.rs] *)

Definition fs : BlobStore Fs := fs_store Blob.no_faults None.
Definition fresh : Fs := ∅.

Definition put_get_roundtrip : option unit :=
  let b := bstr "opaque ciphertext" in
  '(e, s) ← unwrap_call (bs_exists fs "media" "a/b/c") fresh;
  _ ← assert_ (negb e);
  '(_, s) ← unwrap_call (bs_put fs "media" "a/b/c" b) s;
  '(e, s) ← unwrap_call (bs_exists fs "media" "a/b/c") s;
  _ ← assert_ e;
  '(c, _) ← unwrap_call (bs_get fs "media" "a/b/c") s;
  assert_eq c b.

Definition missing_get_is_not_found : option unit :=
  assert_ (is_not_found (bs_get fs "media" "nope" fresh).1).

Definition overwrite_replaces : option unit :=
  '(_, s) ← unwrap_call (bs_put fs "b" "k" (bstr "one")) fresh;
  '(_, s) ← unwrap_call (bs_put fs "b" "k" (bstr "two")) s;
  '(c, _) ← unwrap_call (bs_get fs "b" "k") s;
  assert_eq c (bstr "two").

Fixpoint all_rejected (names : list (string * string)) (s : Fs) : option unit :=
  match names with
  | [] => Some tt
  | (bucket, key) :: names =>
      let '(r, s) := bs_get fs bucket key s in
      _ ← assert_ (is_err r);
      let '(r, s) := bs_put fs bucket key (bstr "x") s in
      _ ← assert_ (is_err r);
      all_rejected names s
  end.

Definition path_traversal_is_rejected : option unit :=
  all_rejected
    [("..", "k"); ("b", "../escape"); ("b", "a/../../escape"); ("b", "/abs"); ("b", ""); (".", "k")] fresh.

Definition presign_is_unsupported : option unit :=
  assert_ (is_unimplemented (bs_presign_get fs "b" "k" 60 fresh).1).

(** ** [data/stub_settlement.rs] *)

Definition quote_and_attest_are_canned_payout_refuses : option unit :=
  let s := StubSettlement in
  quote ← unwrap (onramp_quote s {| cr_units := 50 |});
  _ ← assert_ (Settlement.contains (chars "50") (di_reference quote));
  credit ← unwrap (confirm_deposit s {| dp_reference := chars "anything" |});
  _ ← assert_eq (cr_units credit) 1024;
  _ ← assert_ (is_ok (reserve_attestation s));
  assert_ (is_unimplemented (payout s {| cr_units := 1 |} {| po_destination := chars "anywhere" |})).

(** ** [data/migrate.rs] *)

Definition splits_ddl_and_strips_comments : option unit :=
  let sql := literal
"-- a comment
CREATE TABLE t (id INTEGER);
-- another
CREATE INDEX i ON t (id);
" in
  let stmts := split_statements sql in
  _ ← assert_eq (length stmts) 2%nat;
  s0 ← stmts !! 0%nat;
  _ ← assert_ (starts_with (chars "CREATE TABLE") s0);
  s1 ← stmts !! 1%nat;
  assert_ (starts_with (chars "CREATE INDEX") s1).

Section Tests.
Context `{EX : Externals}.

(** ** [entities/queue.rs] *)

Definition hex_roundtrip : option unit :=
  let q := QueueId_from_bytes (repeat Byte.x11 QUEUE_ID_LEN) in
  let s := QueueId_to_string q in
  _ ← assert_eq (String.length s) 64%nat;
  p ← unwrap (QueueId_from_str s);
  assert_eq p q.

Definition rejects_wrong_length : option unit :=
  _ ← assert_ (is_err (QueueId_from_str "aabb"));
  _ ← assert_ (is_err (QueueId_from_slice (repeat Byte.x00 31)));
  assert_ (is_err (QueueId_from_slice (repeat Byte.x00 33))).

Definition rejects_non_hex : option unit := assert_ (is_err (QueueId_from_str (string_repeat "zz" 32))).

(** ** [data/peer_trust.rs]

    The registry of a freshly migrated datastore is empty. *)

Context (lower : Z → list Z) (nofault : Faults).

Definition trust_then_distrust_roundtrip (now : Z) : option unit :=
  let fp := text_repeat "ab" 32 in
  '(t, reg) ← unwrap_call (is_trusted lower nofault fp) [];
  _ ← assert_ (negb t);
  '(_, reg) ← unwrap_call (trust lower nofault now fp (Some (chars "peer one"))) reg;
  '(t, reg) ← unwrap_call (is_trusted lower nofault fp) reg;
  _ ← assert_ t;
  '(d, reg) ← unwrap_call (distrust lower nofault fp) reg;
  _ ← assert_ d;
  '(t, reg) ← unwrap_call (is_trusted lower nofault fp) reg;
  _ ← assert_ (negb t);
  '(d, reg) ← unwrap_call (distrust lower nofault fp) reg;
  assert_ (negb d).

Definition fingerprint_is_normalized (now : Z) : option unit :=
  '(_, reg) ← unwrap_call (trust lower nofault now (chars "AA:BB:CC") None) [];
  '(t, reg) ← unwrap_call (is_trusted lower nofault (chars "aabbcc")) reg;
  _ ← assert_ t;
  '(t, _) ← unwrap_call (is_trusted lower nofault (chars " aa:bb:cc ")) reg;
  assert_ t.

Definition trust_is_idempotent_and_updates_note (now1 now2 : Z) : option unit :=
  let fp := text_repeat "cd" 32 in
  '(_, reg) ← unwrap_call (trust lower nofault now1 fp (Some (chars "first"))) [];
  '(_, reg) ← unwrap_call (trust lower nofault now2 fp (Some (chars "second"))) reg;
  '(list, _) ← unwrap_call (list_trusted nofault) reg;
  _ ← assert_eq (length list) 1%nat;
  p ← list !! 0%nat;
  assert_eq (tp_note p) (Some (chars "second")).

(** ** [data/node_ca.rs] *)

Context `{RG : Rcgen}.

Definition empty_dir : PkiDir :=
  {| pd_mode := None; pd_cert := None; pd_key := None; pd_key_mode := 0; pd_cert_bak := None;
     pd_key_bak := None |}.

Definition test_ca (key : KeyPair) (dir : PkiDir) : option (RcgenNodeCa * PkiDir) :=
  unwrap_call (load_or_init (λ _, None) None None (Ok key) [] [] ["localhost"] (3600 * ns_per_sec)) dir.

Definition is_ascii_hexdigit (c : Z) : bool :=
  ((48 <=? c) && (c <=? 57)) || ((65 <=? c) && (c <=? 70)) || ((97 <=? c) && (c <=? 102)).

Definition fingerprint_is_64_hex_chars (k : KeyPair) : option unit :=
  '(pki, _) ← test_ca k empty_dir;
  _ ← assert_eq (length (nc_ca_fingerprint pki)) 64%nat;
  _ ← assert_ (forallb is_ascii_hexdigit (nc_ca_fingerprint pki));
  assert_eq (nc_ca_fingerprint pki) (fingerprint (nc_ca_der pki)).

Definition fingerprint_is_stable_across_reload (k1 k2 : KeyPair) : option unit :=
  '(first, dir) ← test_ca k1 empty_dir;
  '(second, _) ← test_ca k2 dir;
  assert_eq (nc_ca_fingerprint first) (nc_ca_fingerprint second).

Definition issued_leaf_chains_to_ca_and_carries_chain (k lk : KeyPair) (now : Z) : option unit :=
  '(pki, _) ← test_ca k empty_dir;
  r ← issue_leaf pki (Ok lk) [] now;
  leaf ← unwrap r;
  _ ← assert_eq (length (nl_chain_der leaf)) 2%nat;
  tail ← nl_chain_der leaf !! 1%nat;
  _ ← assert_eq tail (nc_ca_der pki);
  _ ← assert_ (negb (bool_decide (nl_private_key_der leaf = [])));
  _ ← assert_ (now / 1000000 <? nl_not_after_ms leaf);
  ca_cert ← from_der (nc_ca_der pki);
  head ← nl_chain_der leaf !! 0%nat;
  leaf_cert ← from_der head;
  assert_ (verify_signature leaf_cert (Some (public_key ca_cert))).

Definition distinct_dirs_have_distinct_cas (k1 k2 : KeyPair) : option unit :=
  '(a, _) ← test_ca k1 empty_dir;
  '(b, _) ← test_ca k2 empty_dir;
  assert_ne (nc_ca_fingerprint a) (nc_ca_fingerprint b).

Definition node_tests (k1 k2 lk : KeyPair) (now : Z) : list (option unit) :=
  let now_ms := now / 1000000 in
  [ttl_clamping; without_blob_role_is_unimplemented; put_get_roundtrip_and_limits; put_get_roundtrip;
   missing_get_is_not_found; overwrite_replaces; path_traversal_is_rejected; presign_is_unsupported;
   quote_and_attest_are_canned_payout_refuses; splits_ddl_and_strips_comments; hex_roundtrip;
   rejects_wrong_length; rejects_non_hex; trust_then_distrust_roundtrip now_ms;
   fingerprint_is_normalized now_ms; trust_is_idempotent_and_updates_note now_ms now_ms;
   fingerprint_is_64_hex_chars k1; fingerprint_is_stable_across_reload k1 k2;
   issued_leaf_chains_to_ca_and_carries_chain k1 lk now; distinct_dirs_have_distinct_cas k1 k2].
End Tests.

#[local] Existing Instances tlv_x509 tlv_rcgen.

(** the model passes the node crates' own unit tests. *)
Theorem node_tests_pass :
  forallb passes
    (node_tests Sample.lower Sample.no_faults (Byte.xaa : KeyPair (Rcgen := tlv_rcgen)) Byte.xbb Byte.xcc NodeSample.now) = true.
Proof. vm_cast_no_check (eq_refl true). Qed.
