(* ===== verification/Stack.v ===== *)
(** * The data stack: [buh-data/src/stack.rs], [buh-core/src/context.rs]

    The tables of one datastore file, the context a binary assembles from it,
    and the migrations run on it. *)

From S2P Require Import Prelude.
From S2P Require Import Text.
From S2P Require Import Entities.
From S2P Require Import Mailbox.
From S2P Require Import Blob.
From S2P Require Import BlobRole.
From S2P Require Import PeerTrust.
From S2P Require Import NodeCa.
From S2P Require Import Migrate.
#[local] Open Scope Z_scope.

(** What the datastore holds besides the schema versions. *)
Record Tables := { tb_mail : Db; tb_peers : PeerTable }.

Abbreviation Datastore := (Schema (D := Tables)).

(** The media backends a context can carry. *)
Inductive Backend : Type :=
| FsBackend (root : string)
| S3Backend (settings : S3Settings).

Section Stack.
Context `{EX : Externals} `{RG : Rcgen}.

(** [Ctx]; the mailbox is always there, [cx_peer_trust] is [peer_trust.is_some()]. *)
Record Ctx := {
  cx_blob : option Backend;
  cx_pki : option RcgenNodeCa;
  cx_peer_trust : bool;
  cx_config : CoreConfig;
}.

(** [opened] is what building the database handle gives. *)
Definition DataStack_connect (opened : Result string unit) (core_config : CoreConfig) : Result CoreError Ctx :=
  let? _ := map_err Repo opened in
  Ok {| cx_blob := None; cx_pki := None; cx_peer_trust := false; cx_config := core_config |}.

Definition with_fs_blob (root : string) (c : Ctx) : Ctx :=
  {| cx_blob := Some (FsBackend root); cx_pki := cx_pki c; cx_peer_trust := cx_peer_trust c;
     cx_config := cx_config c |}.

Definition with_s3_blob (settings : S3Settings) (c : Ctx) : Ctx :=
  {| cx_blob := Some (S3Backend settings); cx_pki := cx_pki c; cx_peer_trust := cx_peer_trust c;
     cx_config := cx_config c |}.

Definition with_node_pki (f : PkiFaults) (w1 w2 : option bytes) (drawn : Result string KeyPair) (r1 r2 : bytes)
    (sans : list string) (leaf_ttl : Z) (c : Ctx) : ST PkiDir CoreError Ctx :=
  let! pki := load_or_init f w1 w2 drawn r1 r2 sans leaf_ttl in
  st_ret {| cx_blob := cx_blob c; cx_pki := Some pki; cx_peer_trust := true; cx_config := cx_config c |}.

(** [migrate]: [conn] is the fault of [db.connect()]. *)
Definition stack_migrate (exec_ddl : text → Tables → Result string Tables) (conn : option string) (f : MigFaults)
    (now : Z → Z) : ST Datastore CoreError unit := λ s,
  match conn with
  | Some e => (Err (Repo e), s)
  | None => run_migrations exec_ddl f now s
  end.
End Stack.

(** ** A node's machine: datastore, the daemon's live trust set, PKI directory *)

Record Host := { ho_store : Datastore; ho_trust : gset text; ho_pki : PkiDir }.

Definition host_node (h : Host) : Node :=
  {| nd_registry := tb_peers (sc_data (ho_store h)); nd_trust := ho_trust h |}.

Definition with_peers (t : PeerTable) (s : Datastore) : Datastore :=
  {| sc_data := {| tb_mail := tb_mail (sc_data s); tb_peers := t |}; sc_versions := sc_versions s |}.

Definition put_node (n : Node) (h : Host) : Host :=
  {| ho_store := with_peers (nd_registry n) (ho_store h); ho_trust := nd_trust n; ho_pki := ho_pki h |}.

Definition put_store (s : Datastore) (h : Host) : Host :=
  {| ho_store := s; ho_trust := ho_trust h; ho_pki := ho_pki h |}.

Definition on_store {A} (m : ST Datastore CoreError A) : ST Host CoreError A := λ h,
  let '(r, s) := m (ho_store h) in (r, put_store s h).

Definition on_peers {A} (m : ST PeerTable CoreError A) : ST Host CoreError A := λ h,
  let '(r, t) := m (tb_peers (sc_data (ho_store h))) in (r, put_store (with_peers t (ho_store h)) h).

(** The schema of a datastore that has been migrated. *)
Definition migrated (s : Datastore) : Prop :=
  is_Some (sc_versions s) ∧ ∀ v, v ∈ MIGRATIONS.*1 → v ∈ versions s.

Lemma migrate_done exec_ddl now s : migrated s → stack_migrate exec_ddl None (λ _, None) now s = (Ok tt, s).
Proof.
  intros [[vs Hv] Hm]. unfold stack_migrate, run_migrations, st_bind, mig_call, create_table. cbn [map_err].
  rewrite Hv. cbn [default from_option id].
  replace {| sc_data := sc_data s; sc_versions := Some vs |} with s by (destruct s; cbn in *; by subst).
  apply apply_done; [by eexists|done].
Qed.

(** A run that succeeds leaves a migrated datastore. *)
Lemma migrate_migrates exec_ddl conn f now s s' :
  stack_migrate exec_ddl conn f now s = (Ok tt, s') → migrated s'.
Proof.
  unfold stack_migrate. destruct conn; [done|]. unfold run_migrations. intros H.
  apply st_bind_inv in H as [(u & s1 & _ & H)|(e & _ & [=])].
  pose proof (apply_migrations_spec _ _ _ _ _ _ _ H) as [_ Hall]. specialize (Hall eq_refl).
  split; [|exact Hall]. specialize (Hall 1 ltac:(set_solver)). unfold versions in Hall.
  destruct (sc_versions s'); [eauto|]. by apply elem_of_nil in Hall.
Qed.
