(* ===== verification/Http.v ===== *)
(** * HTTP: [buh-api/src/{router,handlers,admin}.rs] as servers, and the
    minimal clients of [buh-api/src/peer.rs], [buh-cli] and [buh-e2e]

    The HTTP library of the server ([hyper], [axum]) is the class [HttpStack]:
    it reads requests, writes responses, decodes path captures and query
    strings.  Routes are matched as [axum] documents: a capture takes one
    non-empty segment, a wildcard the non-empty rest. *)

From S2P Require Import Prelude.
From S2P Require Import Text.
From S2P Require Import Entities.
From S2P Require Import Mailbox.
From S2P Require Import Json.
From S2P Require Import MailboxSpec.
From S2P Require Import Relay.
From S2P Require Import BlobRole.
From S2P Require Import PeerTrust.
#[local] Open Scope Z_scope.

Definition crlf : text := [13; 10].
Definition crlf2 : text := crlf ++ crlf.

Record Request := {
  rq_method : text;
  rq_target : text;
  rq_headers : list (text * text);
  rq_body : bytes;
}.

Record Response := { rs_status : Z; rs_content_type : text; rs_body : bytes }.

Definition eq_ignore_case (a b : text) : bool := bool_decide (ascii_lower <$> a = ascii_lower <$> b).

(** The first header of that name. *)
Fixpoint header (name : string) (hs : list (text * text)) : option text :=
  match hs with
  | [] => None
  | (n, v) :: hs => if eq_ignore_case n (chars name) then Some v else header name hs
  end.

(** ** Request text *)

Definition header_line (h : text * text) : text := h.1 ++ chars ": " ++ h.2 ++ crlf.

Definition request_text (method target : text) (hs : list (text * text)) (body : text) : text :=
  method ++ 32 :: target ++ chars " HTTP/1.1" ++ crlf ++ concat (header_line <$> hs) ++ crlf ++ body.

Definition is_upper (c : Z) : bool := (65 <=? c) && (c <=? 90).
Definition is_lower (c : Z) : bool := (97 <=? c) && (c <=? 122).

(** Characters that need no escaping in a request target. *)
Definition is_target_char (c : Z) : bool :=
  is_upper c || is_lower c || is_digit c || (c =? 45) || (c =? 46) || (c =? 95) || (c =? 126)
  || (c =? 47) || (c =? 63) || (c =? 61) || (c =? 38) || (c =? 58).

Definition is_visible (c : Z) : bool := (33 <=? c) && (c <=? 126).

Definition method_ok (m : text) : Prop := m ≠ [] ∧ Forall (λ c, is_upper c = true) m.
Definition target_ok (t : text) : Prop := t ≠ [] ∧ Forall (λ c, is_target_char c = true) t.

Definition header_ok (h : text * text) : Prop :=
  h.1 ≠ [] ∧ Forall (λ c, is_upper c || is_lower c || (c =? 45) = true) h.1 ∧
  h.2 ≠ [] ∧ Forall (λ c, is_visible c = true) h.2.

Definition length_ok (hs : list (text * text)) (body : text) : Prop :=
  match header "content-length" hs with
  | Some n => n = decimal (blen (utf8_encode body))
  | None => body = []
  end.

Class HttpStack := {
  http_read : bytes → option Request;
  http_write : Response → bytes;
  (** Captures of a path, percent-decoded; [None] when they are not UTF-8. *)
  pct_decode : text → option text;
  (** The query of a pull: [limit] and [wait]. *)
  parse_pull_query : option text → Result string (option Z * option Z);
  (** Whether [Json] takes this content type. *)
  is_json_type : text → bool;
  (** The body of a refusal by the framework. *)
  rejection_body : Z → bytes;
}.

Definition pull_query (wait : Z) (limit : Z) : text :=
  chars "wait=" ++ decimal wait ++ chars "&limit=" ++ decimal limit.

Class HttpLaws `{HS : HttpStack} : Prop := {
  http_read_text m t hs b :
    method_ok m → target_ok t → Forall header_ok hs → length_ok hs b → Forall is_char b →
    http_read (utf8_encode (request_text m t hs b))
    = Some {| rq_method := m; rq_target := t; rq_headers := hs; rq_body := utf8_encode b |};
  http_write_text r : 100 <= rs_status r <= 999 →
    ∃ tail, let head := chars "HTTP/1.1 " ++ decimal (rs_status r) ++ 32 :: tail in
      http_write r = utf8_encode (head ++ crlf2) ++ rs_body r ∧ Forall is_ascii tail ∧
      split_once crlf2 (head ++ crlf2) = Some (head, []);
  pct_decode_plain t : Forall (λ c, c ≠ 37) t → pct_decode t = Some t;
  parse_pull_query_text wait limit :
    0 <= wait <= u64_max → 0 <= limit <= i64_max →
    parse_pull_query (Some (pull_query wait limit)) = Ok (Some limit, Some wait);
  json_type : is_json_type (chars "application/json") = true;
}.

(** ** Clients: what they make of a response *)

(** [request] of [buh-e2e]. *)
Definition e2e_status (resp : text) : option Z :=
  match nth_error (split_whitespace resp) 1 with Some s => parse_u16 s | None => None end.

Definition e2e_parse (buf : bytes) : Result string (Z * text) :=
  let resp := utf8_lossy buf in
  let? status := ok_or (e2e_status resp) "no HTTP status line" in
  let body := match split_once crlf2 resp with Some (_, b) => b | None => [] end in
  Ok (status, body).

(** [admin_req] of [buh-cli]. *)
Definition admin_status (resp : text) : option Z :=
  match head (lines resp) with
  | None => None
  | Some line =>
      match nth_error (split_whitespace line) 1 with Some s => parse_u16 s | None => None end
  end.

Definition admin_parse (buf : bytes) : option (Z * text) :=
  let resp := utf8_lossy buf in
  match admin_status resp with
  | None => None
  | Some status =>
      let body := match split_once crlf2 resp with Some (_, b) => b | None => [] end in
      Some (status, body)
  end.

(** [format!] of the two clients; [len] of the source is the length in bytes. *)
Definition e2e_request_text (host method path : text) (body : option text) : text :=
  let body := default [] body in
  method ++ chars " " ++ path ++ chars " HTTP/1.1" ++ crlf ++ chars "Host: " ++ host ++ crlf
  ++ chars "Content-Type: application/json" ++ crlf
  ++ chars "Content-Length: " ++ decimal (blen (utf8_encode body)) ++ crlf
  ++ chars "Connection: close" ++ crlf ++ crlf ++ body.

Definition admin_request_text (hostport method path : text) (body : option text) : text :=
  let req := method ++ chars " " ++ path ++ chars " HTTP/1.1" ++ crlf ++ chars "Host: " ++ hostport ++ crlf
             ++ chars "Connection: close" ++ crlf in
  let req := match body with
             | Some b => req ++ chars "Content-Type: application/json" ++ crlf
                         ++ chars "Content-Length: " ++ decimal (blen (utf8_encode b)) ++ crlf
             | None => req
             end in
  let req := req ++ crlf in
  match body with Some b => req ++ b | None => req end.

(** ** Routes *)

Definition method_is (rq : Request) (m : string) : bool := bool_decide (rq_method rq = chars m).

(** [get] also answers [HEAD]. *)
Definition method_get (rq : Request) : bool := method_is rq "GET" || method_is rq "HEAD".

Definition target_path (t : text) : text :=
  match split_once [63] t with Some (p, _) => p | None => t end.

Definition target_query (t : text) : option text :=
  match split_once [63] t with Some (_, q) => Some q | None => None end.

Inductive RelayRoute : Type :=
| RtHealth
| RtQueue (queue_id : text)
| RtAck (queue_id envelope_id : text)
| RtBlob (bucket key : text).

Fixpoint join_segments (l : list text) : text :=
  match l with
  | [] => []
  | [x] => x
  | x :: r => x ++ 47 :: join_segments r
  end.

Definition nonempty (t : text) : bool := bool_decide (t ≠ []).

Definition seg (t : text) (s : string) : bool := bool_decide (t = chars s).

(** The route table of [router]. *)
Definition relay_route (path : text) : option RelayRoute :=
  match split_on 47 path with
  | [] :: v1 :: rest =>
      if negb (seg v1 "v1") then None
      else match rest with
      | [h] => if seg h "health" then Some RtHealth else None
      | k :: x :: rest =>
          if seg k "blob" then
            let key := join_segments rest in
            if nonempty x && nonempty key then Some (RtBlob x key) else None
          else if negb (seg k "queue" && nonempty x) then None
          else match rest with
               | [e] => if seg e "envelopes" then Some (RtQueue x) else None
               | [e; id; a] =>
                   if seg e "envelopes" && nonempty id && seg a "ack" then Some (RtAck x id) else None
               | _ => None
               end
      | _ => None
      end
  | _ => None
  end.

Inductive AdminRoute : Type :=
| RtInfo
| RtPeers
| RtPeer (ca_fp : text)
| RtPeerDistrust (ca_fp : text).

(** The route table of [admin_router]. *)
Definition admin_route (path : text) : option AdminRoute :=
  match split_on 47 path with
  | [] :: a :: rest =>
      if negb (seg a "admin") then None
      else match rest with
      | [k] => if seg k "info" then Some RtInfo else if seg k "peers" then Some RtPeers else None
      | [k; fp] => if seg k "peers" && nonempty fp then Some (RtPeer fp) else None
      | [k; fp; d] =>
          if seg k "peers" && nonempty fp && seg d "distrust" then Some (RtPeerDistrust fp) else None
      | _ => None
      end
  | _ => None
  end.

(** [axum]'s default request-body limit. *)
Definition DEFAULT_BODY_LIMIT : Z := 2097152.

(** The relay's data: the mailbox, and the state [B] of the blob backend. *)
Record RelayNode (B : Type) := { rn_mail : MailRepo; rn_blob : B }.
Arguments rn_mail {B}.
Arguments rn_blob {B}.

(** The parts of the application state that are not data. *)
Record Server (B : Type) := {
  sv_state : AppState;
  sv_fingerprint : option text;
  sv_store : option (BlobStore B);
}.
Arguments sv_state {B}.
Arguments sv_fingerprint {B}.
Arguments sv_store {B}.

Section Server.
Context `{EX : Externals} `{FM : Formats} `{HS : HttpStack}.

Definition reject (status : Z) : Response :=
  {| rs_status := status; rs_content_type := chars "text/plain; charset=utf-8";
     rs_body := rejection_body status |}.

Definition json_response (status : Z) (v : Json) : Response :=
  {| rs_status := status; rs_content_type := chars "application/json";
     rs_body := utf8_encode (json_to_string v) |}.

(** [ApiError] as a response. *)
Definition api_error (e : CoreError) : Response :=
  let '(status, message) := into_response e in
  json_response status (error_json message).

Definition json_result {A} (to_json : A → Json) (r : Result CoreError A) : Response :=
  match r with Ok a => json_response 200 (to_json a) | Err e => api_error e end.

(** The extractor [Json<A>] under a body limit. *)
Definition extract_json {A} (limit : Z) (from_json : Json → Result string A) (rq : Request) :
    Result Response A :=
  match header "content-type" (rq_headers rq) with
  | None => Err (reject 415)
  | Some ct =>
      if negb (is_json_type ct) then Err (reject 415)
      else if limit <? blen (rq_body rq) then Err (reject 413)
      else
        let? v := map_err (λ _, reject 400) (json_from_slice (rq_body rq)) in
        map_err (λ _, reject 422) (from_json v)
  end.

Definition extract_path (capture : text) : Result Response string :=
  ok_or (to_string <$> pct_decode capture) (reject 400).

(** ** The relay's server

    [Ambient] is what the outside contributes to one request:
    faults, clock, fresh ids, and what other requests do during a long poll, as
    in [Relay]. *)

Record Ambient := {
  am_faults : Faults;
  am_faults2 : Faults;
  am_id : EnvelopeId;
  am_now : Z;
  am_now2 : Z;
  am_waiter : nat;
  am_env1 : MailRepo → MailRepo;
  am_env2 : Z → MailRepo → MailRepo;
}.

Definition on_mail {A B} (m : ST MailRepo CoreError A) (n : RelayNode B) : Result CoreError A * RelayNode B :=
  let '(r, s) := m (rn_mail n) in (r, {| rn_mail := s; rn_blob := rn_blob n |}).

Definition on_blob {A B} (m : ST B CoreError A) (n : RelayNode B) : Result CoreError A * RelayNode B :=
  let '(r, s) := m (rn_blob n) in (r, {| rn_mail := rn_mail n; rn_blob := s |}).

Definition serve_push {B} (sv : Server B) (am : Ambient) (q : text) (rq : Request) (n : RelayNode B) :
    Response * RelayNode B :=
  match (let? queue_hex := extract_path q in
         let? body := extract_json DEFAULT_BODY_LIMIT PushEnvelope_from_json rq in
         Ok (queue_hex, body)) with
  | Err r => (r, n)
  | Ok (queue_hex, body) =>
      let '(r, n') := on_mail (handle_push (sv_state sv) (am_faults am) (am_id am) (am_now am) queue_hex body) n in
      (json_result (λ id, EnvelopeAccepted_to_json {| ea_envelope_id := id |}) r, n')
  end.

(** [None]: the handler panics and the connection is dropped. *)
Definition serve_pull {B} (sv : Server B) (am : Ambient) (q : text) (rq : Request) (n : RelayNode B) :
    option (Response * RelayNode B) :=
  match (let? queue_hex := extract_path q in
         let? params := map_err (λ _, reject 400) (parse_pull_query (target_query (rq_target rq))) in
         Ok (queue_hex, params)) with
  | Err r => Some (r, n)
  | Ok (queue_hex, (limit, wait)) =>
      match handle_pull (sv_state sv) (am_faults am) (am_faults2 am) (am_now am) (am_now2 am) (am_waiter am)
              (am_env1 am) (am_env2 am) queue_hex limit wait (rn_mail n) with
      | None => None
      | Some (r, s) =>
          Some (json_result (λ l, PullResponse_to_json {| pl_envelopes := l |}) r,
                {| rn_mail := s; rn_blob := rn_blob n |})
      end
  end.

Definition serve_ack {B} (sv : Server B) (am : Ambient) (q id : text) (n : RelayNode B) :
    Response * RelayNode B :=
  match (let? queue_hex := extract_path q in
         let? envelope_id := extract_path id in
         Ok (queue_hex, envelope_id)) with
  | Err r => (r, n)
  | Ok (queue_hex, envelope_id) =>
      let '(r, n') := on_mail (handle_ack (am_faults am) (am_now am) queue_hex envelope_id) n in
      (json_result (λ b, AckAccepted_to_json {| aa_acknowledged := b |}) r, n')
  end.

(** The body limit of the blob routes: [saturating_add] on [usize]. *)
Definition blob_limit (usize_max : Z) (config : CoreConfig) : Z :=
  Z.min (max_blob_bytes config + 64 * 1024) usize_max.

Definition serve_blob_put {B} (usize_max : Z) (sv : Server B) (bucket key : text) (rq : Request)
    (n : RelayNode B) : Response * RelayNode B :=
  match (let? bucket := extract_path bucket in
         let? key := extract_path key in
         if blob_limit usize_max (st_config (sv_state sv)) <? blen (rq_body rq) then Err (reject 413)
         else Ok (bucket, key)) with
  | Err r => (r, n)
  | Ok (bucket, key) =>
      let '(r, n') := on_blob (blob_put (st_config (sv_state sv)) (sv_store sv) bucket key (rq_body rq)) n in
      (match r with
       | Ok _ => {| rs_status := 201; rs_content_type := []; rs_body := [] |}
       | Err e => api_error e
       end, n')
  end.

Definition serve_blob_get {B} (sv : Server B) (bucket key : text) (n : RelayNode B) :
    Response * RelayNode B :=
  match (let? bucket := extract_path bucket in
         let? key := extract_path key in
         Ok (bucket, key)) with
  | Err r => (r, n)
  | Ok (bucket, key) =>
      let '(r, n') := on_blob (blob_get (sv_store sv) bucket key) n in
      (match r with
       | Ok b => {| rs_status := 200; rs_content_type := chars "application/octet-stream"; rs_body := b |}
       | Err e => api_error e
       end, n')
  end.

Definition health {B} (sv : Server B) : Response := json_response 200 (health_json (sv_fingerprint sv)).

(** A [HEAD] is answered without a body. *)
Definition without_body (rq : Request) (r : Response) : Response :=
  if method_is rq "HEAD"
  then {| rs_status := rs_status r; rs_content_type := rs_content_type r; rs_body := [] |} else r.

(** [router]. *)
Definition relay_router {B} (usize_max : Z) (sv : Server B) (am : Ambient) (rq : Request) (n : RelayNode B) :
    option (Response * RelayNode B) :=
  match relay_route (target_path (rq_target rq)) with
  | None => Some (reject 404, n)
  | Some RtHealth => if method_get rq then Some (without_body rq (health sv), n) else Some (reject 405, n)
  | Some (RtQueue q) =>
      if method_is rq "POST" then Some (serve_push sv am q rq n)
      else if method_get rq then
        match serve_pull sv am q rq n with
        | None => None
        | Some (r, n') => Some (without_body rq r, n')
        end
      else Some (reject 405, n)
  | Some (RtAck q id) =>
      if method_is rq "POST" then Some (serve_ack sv am q id n) else Some (reject 405, n)
  | Some (RtBlob bucket key) =>
      if method_is rq "PUT" then Some (serve_blob_put usize_max sv bucket key rq n)
      else if method_get rq then
        let '(r, n') := serve_blob_get sv bucket key n in Some (without_body rq r, n')
      else Some (reject 405, n)
  end.

(** One connection, [Connection: close]: the bytes of a request to the bytes
    that come back, none when the handler panics. *)
Definition serve_bytes {N} (handle : Request → N → option (Response * N)) (raw : bytes) (n : N) :
    bytes * N :=
  match http_read raw with
  | None => (http_write (reject 400), n)
  | Some rq =>
      match handle rq n with
      | None => ([], n)
      | Some (r, n') => (http_write r, n')
      end
  end.

(** ** The admin API's server *)

Context (lower_table : Z → list Z).

(** [f], [g] and [now] as in [PeerTrust]; [own] is this node's fingerprint. *)
Definition admin_router (own : text) (f g : Faults) (now : Z) (rq : Request) (n : Node) :
    option (Response * Node) :=
  let distrust (capture : text) :=
    match ok_or (pct_decode capture) (reject 400) with
    | Err r => Some (r, n)
    | Ok ca_fp =>
        let '(r, n') := distrust_peer lower_table f g ca_fp n in Some (json_result removed_json r, n')
    end in
  match admin_route (target_path (rq_target rq)) with
  | None => Some (reject 404, n)
  | Some RtInfo =>
      if method_get rq then
        let '(r, n') := info own g n in
        Some (without_body rq (json_result (λ p, info_json p.1 p.2) r), n')
      else Some (reject 405, n)
  | Some RtPeers =>
      if method_get rq then
        let '(r, n') := list_peers g n in Some (without_body rq (json_result peers_json r), n')
      else if method_is rq "POST" then
        match extract_json DEFAULT_BODY_LIMIT TrustRequest_from_json rq with
        | Err r => Some (r, n)
        | Ok req =>
            let '(r, n') := trust_peer lower_table f g now (tr_ca_fingerprint req) (tr_note req) n in
            Some (json_result trusted_json r, n')
        end
      else Some (reject 405, n)
  | Some (RtPeer ca_fp) => if method_is rq "DELETE" then distrust ca_fp else Some (reject 405, n)
  | Some (RtPeerDistrust ca_fp) => if method_is rq "POST" then distrust ca_fp else Some (reject 405, n)
  end.
End Server.
