(* ===== verification/HttpSpec.v ===== *)
(** * HTTP exchanges between the program's clients and its servers

    What a client reads of a response, the requests the clients write, the
    routes they reach, and the calls that result. *)

From S2P Require Import Prelude.
From S2P Require Import Text.
From S2P Require Import Entities.
From S2P Require Import Mailbox.
From S2P Require Import Json.
From S2P Require Import MailboxSpec.
From S2P Require Import Relay.
From S2P Require Import BlobRole.
From S2P Require Import PeerTrust.
From S2P Require Import Http.
#[local] Open Scope Z_scope.

(** ** Status lines *)

Lemma status_word resp line w :
  head (lines resp) = Some line → nth_error (split_whitespace line) 1 = Some w →
  nth_error (split_whitespace resp) 1 = Some w.
Proof.
  intros Hl Hn. destruct (first_line_words resp line Hl) as [r ->].
  rewrite nth_error_app1; [done|]. apply nth_error_Some. congruence.
Qed.

Lemma admin_e2e_status resp s : admin_status resp = Some s → e2e_status resp = Some s.
Proof.
  unfold admin_status, e2e_status. destruct (head (lines resp)) as [line|] eqn:E; [|done].
  destruct (nth_error (split_whitespace line) 1) as [w|] eqn:En; [|done].
  by rewrite (status_word resp line w E En).
Qed.

(** the status parsers of the two clients agree: whatever text comes back,
    a status that the operator's client reads from the first line is the one
    the end-to-end client reads from the words of the whole text, and when the
    first line has two words the two give the same result. *)
Theorem status_parsers_agree resp :
  (∀ s, admin_status resp = Some s → e2e_status resp = Some s ∧ 0 <= s <= 65535) ∧
  (∀ line, head (lines resp) = Some line → (2 <= length (split_whitespace line))%nat →
     admin_status resp = e2e_status resp).
Proof.
  split.
  - intros s Hs. split; [by apply admin_e2e_status|]. unfold admin_status in Hs. repeat case_in Hs; try done.
    by apply parse_uint_range in Hs; [lia|].
  - intros line E Hlen. unfold admin_status, e2e_status. rewrite E.
    destruct (nth_error (split_whitespace line) 1) as [w|] eqn:En.
    + by rewrite (status_word resp line w E En).
    + apply nth_error_None in En. lia.
Qed.

Section Exchange.
Context `{EX : Externals} `{EL : !ExternalLaws} `{FM : Formats} `{FL : !FormatLaws} `{IL : !IdTextLaws}
  `{HS : HttpStack} `{HL : !HttpLaws}.

(** The words in front of the first space stay in the first line. *)
Lemma first_line_prefix p x :
  Forall (λ a, a ≠ 10) p →
  ∃ line r, head (lines (p ++ 32 :: x)) = Some line ∧ split_whitespace line = split_whitespace p ++ r.
Proof.
  intros Hp. destruct (split_first_line x) as [Hx|(l & r & -> & Hl)].
  - exists (p ++ 32 :: x), (split_whitespace x). rewrite words_app by done. split; [|done].
    rewrite lines_last by (apply Forall_app; split; [done|by constructor]).
    rewrite bool_decide_false; [done|]. by destruct p.
  - exists (strip_cr (p ++ 32 :: l)), (split_whitespace l).
    rewrite strip_cr_words, words_app by done. split; [|done].
    replace (p ++ 32 :: l ++ 10 :: r) with ((p ++ 32 :: l) ++ 10 :: r) by by rewrite <-app_assoc.
    rewrite lines_cons; [done|]. apply Forall_app; split; [done|by constructor].
Qed.

Lemma head_ascii status tail :
  0 <= status → Forall is_ascii tail →
  Forall is_char ((chars "HTTP/1.1 " ++ decimal status ++ 32 :: tail) ++ crlf2).
Proof.
  intros Hs Ht. rewrite !Forall_app, Forall_cons. split_and!.
  - repeat constructor; unfold is_char; cbn; lia.
  - eapply Forall_impl; [by apply decimal_digit|]. cbn. auto with buh.
  - unfold is_char. lia.
  - eapply Forall_impl; [exact Ht|]. auto with buh.
  - repeat constructor; unfold is_char; cbn; lia.
Qed.

(** The text of a response the server wrote: its status, and its body. *)
Lemma response_text r :
  100 <= rs_status r <= 999 →
  ∃ head, let resp := utf8_lossy (http_write r) in
    split_once crlf2 resp = Some (head, utf8_lossy (rs_body r)) ∧
    (∃ line w, hd_error (lines resp) = Some line ∧
       split_whitespace line = chars "HTTP/1.1" :: decimal (rs_status r) :: w).
Proof.
  intros Hs. destruct (http_write_text r Hs) as (tail & Hw & Ht & Hsplit). cbv zeta in Hw, Hsplit.
  set (hd := chars "HTTP/1.1 " ++ decimal (rs_status r) ++ 32 :: tail) in *. exists hd. cbv zeta.
  assert (utf8_lossy (http_write r) = (hd ++ crlf2) ++ utf8_lossy (rs_body r)) as ->.
  { rewrite Hw. apply utf8_lossy_app. apply head_ascii; [lia|done]. }
  split; [exact (split_once_app crlf2 (hd ++ crlf2) _ _ _ Hsplit)|].
  set (X := utf8_lossy (rs_body r)) in *. unfold hd. rewrite <-!app_assoc. cbn [app].
  destruct (first_line_prefix (chars "HTTP/1.1 " ++ decimal (rs_status r)) (tail ++ crlf2 ++ X))
    as (line & w & Hl & Hline).
  { apply Forall_app. split; [by repeat constructor|].
    eapply Forall_impl; [apply decimal_digit; lia|]. unfold is_digit. intros c Hc. lia. }
  rewrite <-app_assoc in Hl. exists line, w. split; [exact Hl|]. rewrite Hline.
  change (chars "HTTP/1.1 ") with (chars "HTTP/1.1" ++ [32]). rewrite <-app_assoc. cbn [app].
  rewrite words_app by done. rewrite (words_one (chars "HTTP/1.1")) by (done || by repeat constructor).
  rewrite (words_one (decimal (rs_status r))); [done|apply decimal_nonempty|].
  eapply Forall_impl; [apply decimal_digit; lia|]. apply digit_not_space.
Qed.

(** What both clients read of it. *)
Lemma response_read r :
  100 <= rs_status r <= 999 →
  e2e_parse (http_write r) = Ok (rs_status r, utf8_lossy (rs_body r)) ∧
  admin_parse (http_write r) = Some (rs_status r, utf8_lossy (rs_body r)).
Proof.
  intros Hs. destruct (response_text r Hs) as (hd & Hb & line & w & Hl & Hline).
  assert (admin_status (utf8_lossy (http_write r)) = Some (rs_status r)) as Ha.
  { unfold admin_status. rewrite Hl, Hline. cbn [nth_error]. apply parse_decimal; lia. }
  unfold e2e_parse, admin_parse. by rewrite Ha, (admin_e2e_status _ _ Ha), Hb.
Qed.

(** ** Requests *)

Definition host_ok (host : text) : Prop := host ≠ [] ∧ Forall (λ c, is_visible c = true) host.

Definition e2e_headers (host body : text) : list (text * text) :=
  [(chars "Host", host); (chars "Content-Type", chars "application/json");
   (chars "Content-Length", decimal (blen (utf8_encode body))); (chars "Connection", chars "close")].

Definition admin_headers (host : text) (body : option text) : list (text * text) :=
  [(chars "Host", host); (chars "Connection", chars "close")] ++
  match body with
  | Some b => [(chars "Content-Type", chars "application/json");
               (chars "Content-Length", decimal (blen (utf8_encode b)))]
  | None => []
  end.

Lemma e2e_request_eq host m p body :
  e2e_request_text host m p body = request_text m p (e2e_headers host (default [] body)) (default [] body).
Proof.
  unfold e2e_request_text, request_text, e2e_headers, header_line. cbn [fmap list_fmap concat fst snd].
  rewrite app_nil_r, <-!app_assoc. done.
Qed.

Lemma admin_request_eq host m p body :
  admin_request_text host m p body = request_text m p (admin_headers host body) (default [] body).
Proof.
  unfold admin_request_text, request_text, admin_headers, header_line.
  destruct body; cbn [fmap list_fmap concat fst snd app default from_option]; rewrite ?app_nil_r, <-!app_assoc; done.
Qed.

Lemma header_value_ok v : v ≠ [] → Forall (λ c, is_digit c = true) v → Forall (λ c, is_visible c = true) v.
Proof. intros _ H. eapply Forall_impl; [exact H|]. unfold is_digit, is_visible. intros c Hc. lia. Qed.

Lemma length_header_ok b : header_ok (chars "Content-Length", decimal (blen (utf8_encode b))).
Proof.
  split_and!; cbn [fst snd]; [done|by repeat constructor|apply decimal_nonempty|].
  apply header_value_ok; [apply decimal_nonempty|]. apply decimal_digit, blen_nonneg.
Qed.

Lemma fixed_header_ok n v :
  forallb (λ c, is_upper c || is_lower c || (c =? 45)) (chars n) = true → chars n ≠ [] →
  forallb is_visible (chars v) = true → chars v ≠ [] → header_ok (chars n, chars v).
Proof.
  intros H1 H2 H3 H4. split_and!; cbn [fst snd]; [done| |done|];
    apply Forall_forall; intros c Hc%list_elem_of_In; [by eapply forallb_forall in H1|by eapply forallb_forall in H3].
Qed.

Lemma host_header_ok host : host_ok host → header_ok (chars "Host", host).
Proof. intros [H1 H2]. split_and!; cbn [fst snd]; [done| |done|done]. by repeat constructor. Qed.

Lemma e2e_request_read host m p body :
  host_ok host → method_ok m → target_ok p → Forall is_char (default [] body) →
  http_read (utf8_encode (e2e_request_text host m p body))
  = Some {| rq_method := m; rq_target := p; rq_headers := e2e_headers host (default [] body);
            rq_body := utf8_encode (default [] body) |}.
Proof.
  intros Hh Hm Hp Hb. rewrite e2e_request_eq. apply http_read_text; [done|done| |done|done].
  unfold e2e_headers. rewrite !Forall_cons, Forall_nil.
  split_and!; auto using host_header_ok, length_header_ok; by apply fixed_header_ok.
Qed.

Lemma admin_request_read host m p body :
  host_ok host → method_ok m → target_ok p → Forall is_char (default [] body) →
  http_read (utf8_encode (admin_request_text host m p body))
  = Some {| rq_method := m; rq_target := p; rq_headers := admin_headers host body;
            rq_body := utf8_encode (default [] body) |}.
Proof.
  intros Hh Hm Hp Hb. rewrite admin_request_eq. apply http_read_text; [done|done| | |done].
  - unfold admin_headers. rewrite Forall_app, !Forall_cons. split_and!; [by apply host_header_ok| |done|].
    + by apply fixed_header_ok.
    + destruct body; [|done]. rewrite !Forall_cons. split_and!; [|apply length_header_ok|done].
      by apply fixed_header_ok.
  - by destruct body.
Qed.

(** ** Paths *)

Definition path_of (segs : list text) : text := concat ((λ s, 47 :: s) <$> segs).

Lemma split_path segs : Forall (Forall (λ a, a ≠ 47)) segs → split_on 47 (path_of segs) = [] :: segs.
Proof.
  unfold path_of. induction 1 as [|s segs Hs Hsegs IH]; [done|]. rewrite fmap_cons. cbn [concat].
  change ((47 :: s) ++ ?r) with ([] ++ 47 :: (s ++ r)). rewrite split_on_app.
  cbn [split_on split_by app]. f_equal. destruct segs as [|s' segs]; [by rewrite app_nil_r, split_on_none|].
  rewrite fmap_cons in *. cbn [concat app] in IH |- *. rewrite split_on_app, split_on_none by done.
  change (47 :: s' ++ ?r) with ([] ++ 47 :: (s' ++ r)) in IH. rewrite split_on_app in IH.
  cbn [split_on split_by app] in IH |- *. by injection IH as ->.
Qed.

Lemma target_path_plain p : Forall (λ a, a ≠ 63) p → target_path p = p ∧ target_query p = None.
Proof. intros H. unfold target_path, target_query. by rewrite split_once_none. Qed.

Lemma target_path_query p q :
  Forall (λ a, a ≠ 63) p → target_path (p ++ 63 :: q) = p ∧ target_query (p ++ 63 :: q) = Some q.
Proof. intros H. unfold target_path, target_query. by rewrite split_once_char. Qed.
End Exchange.
