(* ===== verification/Tls.v ===== *)
(** * PQ-mTLS between nodes: [buh-api/src/tls.rs] and [buh-api/src/peer.rs]

    The TLS material of a node, the two configurations built from it, the
    handshake between a client and a server configuration, and the probe of a
    peer.  The TLS library is the classes [Rustls] and [Handshake], with the
    laws [RustlsLaws] and [HandshakeLaws]: what its documentation says of a full
    TLS 1.3 handshake with these configurations is that the groups must meet,
    each side's verifier must accept the other's chain, and each side must prove
    possession of its leaf's key.  The client's end is satisfied before the
    server has judged the client's certificate.  A server also keeps sessions,
    which a returning client may resume without any of these checks.  The trust
    sets are the live ones: a verifier reads the set as it is during the
    handshake. *)

From S2P Require Import Prelude.
From S2P Require Import Text.
From S2P Require Import Entities.
From S2P Require Import Invite.
From S2P Require Import PeerTrust.
From S2P Require Import NodeCa.
From S2P Require Import Mailbox.
From S2P Require Import Json.
From S2P Require Import MailboxSpec.
From S2P Require Import Relay.
From S2P Require Import BlobRole.
From S2P Require Import Http.
From S2P Require Import HttpSpec.
#[local] Open Scope Z_scope.

Inductive NamedGroup : Type := X25519MLKEM768 | X25519.

#[export] Instance NamedGroup_eq_dec : EqDecision NamedGroup.
Proof. solve_decision. Defined.

Class Rustls `{X : X509} := {
  TlsKey : Type;
  (** [key_provider.load_private_key]. *)
  load_private_key : bytes → Result string TlsKey;
  (** [with_protocol_versions(&[&TLS13])] on a provider with these groups. *)
  tls13_with : list NamedGroup → Result string unit;
  (** [with_client_auth_cert]. *)
  client_auth_cert : list bytes → bytes → Result string TlsKey;
  (** Whether a signature of the transcript by this key verifies under the
      public key of this certificate. *)
  proves : TlsKey → bytes → bool;
  (** [ServerName::try_from]. *)
  server_name : text → Result string text;
}.

(** A key pair's PKCS#8 form loads as a key that proves every certificate with
    its public key. *)
Class RustlsLaws `{RG : Rcgen} `{RU : !Rustls} : Prop := {
  load_private_key_law k : ∃ key, load_private_key (serialize_der k) = Ok key ∧
    ∀ der x, from_der der = Some x → public_key x = kp_public k → proves key der = true;
  client_auth_cert_law chain k : ∃ key, client_auth_cert chain (serialize_der k) = Ok key ∧
    ∀ der x, from_der der = Some x → public_key x = kp_public k → proves key der = true;
  tls13_law gs : gs ≠ [] → tls13_with gs = Ok tt;
}.

(** ** [TrustStore] and the provider *)

Definition TrustStore_new : gset text := ∅.
Definition from_fingerprints (fps : list text) : gset text := list_to_set fps.

Definition pq_provider : list NamedGroup := [X25519MLKEM768; X25519].

Section Tls.
Context `{EX : Externals} `{RG : Rcgen} `{RU : !Rustls}.

Definition tls_err (ctx e : string) : CoreError := Internal ("tls: " +:+ ctx +:+ ": " +:+ e).

(** A certificate chain with the key of its first certificate. *)
Record CertifiedKey := { ck_chain : list bytes; ck_key : TlsKey }.

Definition certified_key (leaf : NodeLeaf) : Result CoreError CertifiedKey :=
  let? key := map_err (tls_err "load leaf key") (load_private_key (nl_private_key_der leaf)) in
  Ok {| ck_chain := nl_chain_der leaf; ck_key := key |}.

(** [NodeTls]; the resolver's current key is [nt_current]. *)
Record NodeTls := {
  nt_provider : list NamedGroup;
  nt_trust : gset text;
  nt_current : CertifiedKey;
  nt_pki : RcgenNodeCa;
}.

(** [RotatingResolver::store] and [resolve]. *)
Definition store_current (next : CertifiedKey) (t : NodeTls) : NodeTls :=
  {| nt_provider := nt_provider t; nt_trust := nt_trust t; nt_current := next; nt_pki := nt_pki t |}.

Definition resolve_cert (t : NodeTls) : option CertifiedKey := Some (nt_current t).

(** A panic of [issue_leaf] is [None], as in [NodeCa]. *)
Definition NodeTls_new (pki : RcgenNodeCa) (trust : gset text) (drawn : Result string KeyPair)
    (rnd : bytes) (now : Z) : option (Result CoreError NodeTls) :=
  match issue_leaf pki drawn rnd now with
  | None => None
  | Some r => Some (
      let? leaf := r in
      let? current := certified_key leaf in
      Ok {| nt_provider := pq_provider; nt_trust := trust; nt_current := current; nt_pki := pki |})
  end.

Definition NodeTls_rotate_leaf (drawn : Result string KeyPair) (rnd : bytes) (now : Z) (t : NodeTls) :
    option (Result CoreError Z * NodeTls) :=
  match issue_leaf (nt_pki t) drawn rnd now with
  | None => None
  | Some (Err e) => Some (Err e, t)
  | Some (Ok leaf) =>
      match certified_key leaf with
      | Err e => Some (Err e, t)
      | Ok next => Some (Ok (nl_not_after_ms leaf), store_current next t)
      end
  end.

(** A server configuration demands a client certificate; its verifier and
    resolver share the node's trust set and current leaf. *)
Record ServerConfig := {
  sc_groups : list NamedGroup;
  sc_client_trust : gset text;
  sc_resolver : option CertifiedKey;
}.

Record ClientConfig := {
  cc_groups : list NamedGroup;
  cc_server_trust : gset text;
  cc_auth : CertifiedKey;
}.

Definition server_config (t : NodeTls) : Result CoreError ServerConfig :=
  let? _ := map_err (tls_err "server protocol versions") (tls13_with (nt_provider t)) in
  Ok {| sc_groups := nt_provider t; sc_client_trust := nt_trust t; sc_resolver := resolve_cert t |}.

Definition client_config (t : NodeTls) (drawn : Result string KeyPair) (rnd : bytes) (now : Z) :
    option (Result CoreError ClientConfig) :=
  match issue_leaf (nt_pki t) drawn rnd now with
  | None => None
  | Some r => Some (
      let? leaf := r in
      let? _ := map_err (tls_err "client protocol versions") (tls13_with (nt_provider t)) in
      let? key := map_err (tls_err "client auth cert")
                    (client_auth_cert (nl_chain_der leaf) (nl_private_key_der leaf)) in
      Ok {| cc_groups := nt_provider t; cc_server_trust := nt_trust t;
            cc_auth := {| ck_chain := nl_chain_der leaf; ck_key := key |} |})
  end.

(** ** The handshake *)

(** The first group of the server that the client offers. *)
Definition select_group (offered : list NamedGroup) (sc : ServerConfig) : option NamedGroup :=
  head (filter (λ g, g ∈ offered) (sc_groups sc)).

(** One side looks at the chain the other presents, and at its proof. *)
Definition verify_side (trust : gset text) (now : Z) (ck : CertifiedKey) : Result string unit :=
  match ck_chain ck with
  | [] => Err "peer sent no certificates"
  | leaf :: intermediates =>
      let? _ := verify_pinned_chain leaf intermediates now trust in
      if proves (ck_key ck) leaf then Ok tt else Err "invalid certificate signature"
  end.

(** What a peer brings to a server: the groups it offers, what it authenticates
    with if asked to, whether it takes session tickets (it offers the mode
    [psk_dhe_ke]), and the ticket, with its secret, of a session it wants to
    resume. *)
Record Hello := {
  he_groups : list NamedGroup;
  he_auth : CertifiedKey;
  he_tickets : bool;
  he_psk : option bytes;
}.

(** A client with a new configuration has no session to resume. *)
Definition hello_of (cc : ClientConfig) : Hello :=
  {| he_groups := cc_groups cc; he_auth := cc_auth cc; he_tickets := true; he_psk := None |}.

(** The library's handshake; clocks are in seconds.  [tls_connect] is the
    client's end of a full handshake, [tls_accept] the server's end of one that
    the client goes through with.  [tls_serve] is the server's end of any
    handshake, with the sessions that its configuration keeps and what is drawn
    for a new ticket; it gives the group and the chain the library reports as
    the peer's.  [resumes] is the chain of the session that a hello resumes, if
    it resumes one. *)
Class Handshake := {
  tls_connect : ClientConfig → ServerConfig → Z → Result string NamedGroup;
  tls_accept : list NamedGroup → CertifiedKey → ServerConfig → Z → Result string NamedGroup;
  Sessions : Type;
  no_sessions : Sessions;
  resumes : Sessions → Hello → option (list bytes);
  tls_serve : Hello → ServerConfig → Z → bytes → Sessions →
    Result string (NamedGroup * list bytes) * Sessions;
}.

(** The client is satisfied once it has seen the server's certificate; the
    server asks for the client's in a full handshake only.  Sessions come from
    handshakes that succeeded; the storage of a new configuration
    ([ServerSessionMemoryCache]) is empty, and a client that takes tickets can
    come back with the one it got. *)
Class HandshakeLaws `{TH : Handshake} : Prop := {
  connect_law cc sc now g :
    tls_connect cc sc now = Ok g ↔
    select_group (cc_groups cc) sc = Some g ∧
    ∃ ck, sc_resolver sc = Some ck ∧ verify_side (cc_server_trust cc) now ck = Ok tt;
  accept_law offered auth sc now g :
    tls_accept offered auth sc now = Ok g ↔
    select_group offered sc = Some g ∧ is_Some (sc_resolver sc) ∧
    verify_side (sc_client_trust sc) now auth = Ok tt;
  serve_full hello sc now d ses :
    resumes ses hello = None →
    (tls_serve hello sc now d ses).1
    = (let? g := tls_accept (he_groups hello) (he_auth hello) sc now in Ok (g, ck_chain (he_auth hello)));
  serve_resumed hello sc now d ses chain g c :
    resumes ses hello = Some chain →
    (tls_serve hello sc now d ses).1 = Ok (g, c) ↔
    c = chain ∧ select_group (he_groups hello) sc = Some g ∧ is_Some (sc_resolver sc);
  resumes_none hello : resumes no_sessions hello = None;
  resumes_offer ses hello : he_psk hello = None → resumes ses hello = None;
  sessions_law hello sc now d ses hello' c :
    resumes (tls_serve hello sc now d ses).2 hello' = Some c →
    resumes ses hello' = Some c ∨ ∃ g, (tls_serve hello sc now d ses).1 = Ok (g, c);
  session_kept hello sc now d ses g c ses' :
    tls_serve hello sc now d ses = (Ok (g, c), ses') → he_tickets hello = true →
    ∃ psk, ∀ auth, resumes ses' {| he_groups := he_groups hello; he_auth := auth; he_tickets := true;
                                   he_psk := Some psk |} = Some c;
}.

Context `{TH : !Handshake}.

(** A full handshake as both ends see it. *)
Definition tls_handshake (cc : ClientConfig) (sc : ServerConfig) (client_now server_now : Z) :
    Result string NamedGroup :=
  let? _ := tls_connect cc sc client_now in
  tls_accept (cc_groups cc) (cc_auth cc) sc server_now.

(** Both sides are satisfied, and [g] is the group. *)
Definition handshake_accepts (cc : ClientConfig) (sc : ServerConfig) (client_now server_now : Z)
    (g : NamedGroup) : Prop :=
  select_group (cc_groups cc) sc = Some g ∧
  ∃ ck, sc_resolver sc = Some ck ∧ verify_side (cc_server_trust cc) client_now ck = Ok tt ∧
    verify_side (sc_client_trust sc) server_now (cc_auth cc) = Ok tt.

Lemma handshake_law `{TL : !HandshakeLaws} cc sc client_now server_now g :
  tls_handshake cc sc client_now server_now = Ok g ↔ handshake_accepts cc sc client_now server_now g.
Proof.
  unfold tls_handshake, handshake_accepts. split.
  - intros (g' & (Hg & ck & Hr & Hc)%connect_law & (Hg' & _ & Ha)%accept_law)%rbind_Ok. eauto.
  - intros (Hg & ck & Hr & Hc & Ha). rewrite (proj2 (connect_law cc sc client_now g)) by eauto.
    cbn [rbind]. apply accept_law. eauto.
Qed.

(** ** [probe_peer]

    [Remote] is the listener a TCP connection reaches: its configuration, its
    clock, and what it answers on the connection in its state [N]. *)

Record Remote (N : Type) := {
  rm_config : ServerConfig;
  rm_now : Z;
  rm_serve : bytes → N → bytes * N;
}.
Arguments rm_config {N}.
Arguments rm_now {N}.
Arguments rm_serve {N}.

Record PeerHealth := { ph_status_line : text; ph_ca_fingerprint : option text }.

Definition is_bracket (c : Z) : bool := (c =? 91) || (c =? 93).

Definition probe_host (addr : text) : text :=
  trim_matches is_bracket (match rsplit_once 58 addr with Some (h, _) => h | None => addr end).

Definition probe_text (addr : text) : text :=
  chars "GET /v1/health HTTP/1.1" ++ crlf ++ chars "Host: " ++ addr ++ crlf
  ++ chars "Connection: close" ++ crlf ++ crlf.

Context `{FM : Formats}.

Definition parse_health (buf : bytes) : PeerHealth :=
  let response := utf8_lossy buf in
  {| ph_status_line := trim (default [] (head (lines response)));
     ph_ca_fingerprint :=
       match split_once crlf2 response with
       | None => None
       | Some (_, body) =>
           match json_from_str (trim body) with
           | Err _ => None
           | Ok v => match get "ca_fingerprint" v with Some f => as_str f | None => None end
           end
       end |}.

(** [io] are the faults of sending and of reading.  The configuration is new, so
    the handshake is a full one.  [connect] returns before the peer has judged
    this node's certificate: a peer that refuses it answers with an alert, which
    is read in place of a response. *)
Definition probe_peer {N} (t : NodeTls) (drawn : Result string KeyPair) (rnd : bytes) (now : Z)
    (tcp : text → Result string (Remote N)) (io : nat → option string) (addr : text) (n : N) :
    option (Result string PeerHealth * N) :=
  let host := probe_host addr in
  match client_config t drawn rnd now with
  | None => None
  | Some (Err e) => Some (Err (CoreError_to_string e), n)
  | Some (Ok cc) =>
      match (let? remote := map_err (λ _, "connect to " +:+ to_string addr) (tcp addr) in
             let? name := map_err (λ _, "invalid peer host for TLS") (server_name host) in
             let? g := map_err (λ _, "PQ-mTLS handshake refused (each node must trust the other's CA)")
                         (tls_connect cc (rm_config remote) (now / ns_per_sec)) in
             Ok remote) with
      | Err e => Some (Err e, n)
      | Ok remote =>
          match io 0%nat with
          | Some _ => Some (Err "send health request", n)
          | None =>
              match tls_accept (cc_groups cc) (cc_auth cc) (rm_config remote) (rm_now remote) with
              | Err _ => Some (Err "read health response", n)
              | Ok _ =>
                  let '(buf, n') := rm_serve remote (utf8_encode (probe_text addr)) n in
                  match io 1%nat with
                  | Some _ => Some (Err "read health response", n')
                  | None => Some (Ok (parse_health buf), n')
                  end
              end
          end
      end
  end.
End Tls.
Arguments rm_config {_ _ _} _.
Arguments rm_now {_ _ _} _.
Arguments rm_serve {_ _ _} _.

(** ** Who gets through *)

Section MutualTrust.
Context `{EX : Externals} `{RG : Rcgen} `{LR : !RcgenLaws} `{RU : !Rustls} `{LU : !RustlsLaws}
  `{TH : !Handshake} `{TL : !HandshakeLaws}.

Lemma issue_leaf_key ca drawn rnd now leaf :
  issue_leaf ca drawn rnd now = Some (Ok leaf) →
  ∃ k leaf_der x, nl_private_key_der leaf = serialize_der k ∧
    nl_chain_der leaf = [leaf_der; nc_ca_der ca] ∧ from_der leaf_der = Some x ∧ public_key x = kp_public k.
Proof.
  unfold issue_leaf. intros H. repeat (case_in H; try discriminate H).
  injection H as H. inv_ok. subst leaf. apply signed_by_law in Ha0 as (x & Hx & _ & _ & _ & Hk).
  simplify_eq. eexists _, _, x. cbn [nl_private_key_der nl_chain_der]. split_and!; eauto.
Qed.

(** The CA of a node, whose leaves were issued at [at_ns], is good at [t]. *)
Record good_at (ca : RcgenNodeCa) (at_ns t : Z) : Prop := {
  good_ca : consistent ca;
  good_cert x : from_der (nc_ca_der ca) = Some x → valid_at x t;
  good_leaf : (at_ns - CLOCK_SKEW) / ns_per_sec <= now_secs t <= (at_ns + nc_leaf_ttl ca) / ns_per_sec;
}.

(** One side accepts a chain that a node in good order issued exactly when it
    pins the node's CA. *)
Lemma verify_side_pins ca drawn rnd at_ns leaf key trust t :
  issue_leaf ca drawn rnd at_ns = Some (Ok leaf) → good_at ca at_ns t →
  (∀ der x k, nl_private_key_der leaf = serialize_der k → from_der der = Some x →
     public_key x = kp_public k → proves key der = true) →
  verify_side trust t {| ck_chain := nl_chain_der leaf; ck_key := key |} = Ok tt ↔
  nc_ca_fingerprint ca ∈ trust.
Proof.
  intros Hi [[Hfp (c & Hc & Hbc & Hs & Hpk)] Hval Hleaf] Hproof.
  destruct (issue_leaf_key _ _ _ _ _ Hi) as (k & ld & x & Hk & Hch & Hx & Hxk).
  destruct (issue_leaf_Ok _ _ _ _ _ Hi) as (ld' & x' & Hch' & Hx' & Hv & Hnb & Hna & _).
  rewrite Hch in Hch'. injection Hch' as <-. rewrite Hx in Hx'. injection Hx' as <-.
  unfold verify_side. cbn [ck_chain ck_key]. rewrite Hch, (Hproof ld x k Hk Hx Hxk).
  assert (verify_pinned_chain ld [nc_ca_der ca] t trust = Ok tt ↔ nc_ca_fingerprint ca ∈ trust) as Hp.
  { rewrite verify_pinned_chain_Ok, Hfp. split; [by intros (? & [= <-] & ? & _)|].
    intros Hin. exists (nc_ca_der ca). split_and!; [done..|]. exists c, x. rewrite Hpk.
    split_and!; try done; [|by apply Hval]. unfold valid_at. rewrite Hnb, Hna. lia. }
  rewrite <-Hp. destruct (verify_pinned_chain _ _ _ _) as [[]|e]; cbn [rbind]; naive_solver.
Qed.

Lemma client_config_Ok t drawn rnd now cc :
  client_config t drawn rnd now = Some (Ok cc) →
  cc_groups cc = nt_provider t ∧ cc_server_trust cc = nt_trust t ∧
  ∃ leaf key, issue_leaf (nt_pki t) drawn rnd now = Some (Ok leaf) ∧
    cc_auth cc = {| ck_chain := nl_chain_der leaf; ck_key := key |} ∧
    ∀ der x k, nl_private_key_der leaf = serialize_der k → from_der der = Some x →
      public_key x = kp_public k → proves key der = true.
Proof.
  unfold client_config. destruct (issue_leaf _ _ _ _) as [[leaf|e]|] eqn:Hi; [|done..].
  intros [= H]. inv_ok. subst cc. split_and!; [done..|]. exists leaf, a0. split_and!; [done..|].
  intros der x k Hk Hx Hp. destruct (client_auth_cert_law (nl_chain_der leaf) k) as (key & Hkey & Hpr).
  rewrite Hk in Ha0. assert (key = a0) as -> by congruence. by eapply Hpr.
Qed.

Lemma certified_key_Ok leaf ck :
  certified_key leaf = Ok ck →
  ck_chain ck = nl_chain_der leaf ∧
  ∀ der x k, nl_private_key_der leaf = serialize_der k → from_der der = Some x →
    public_key x = kp_public k → proves (ck_key ck) der = true.
Proof.
  unfold certified_key. intros H. inv_ok. subst ck. split; [done|]. cbn [ck_key].
  intros der x k Hk Hx Hp. destruct (load_private_key_law k) as (key & Hkey & Hpr).
  rewrite Hk in Ha. assert (key = a) as -> by congruence. by eapply Hpr.
Qed.

(** A result whose successes are known. *)
Lemma decided {E A} (r : Result E A) (a : A) (P Q : Prop) :
  (∀ x, r = Ok x ↔ x = a ∧ Q) → (Q ↔ P) → match r with Ok x => P ∧ x = a | Err _ => ¬ P end.
Proof.
  intros H HQ. destruct r as [x|e].
  - destruct (proj1 (H x) eq_refl) as [-> ?]. split; [by apply HQ|done].
  - intros HP%HQ. by specialize (proj2 (H a) (conj eq_refl HP)).
Qed.

(** What [t] serves was issued by its CA at [at_ns]. *)
Definition serves_since (t : NodeTls) (at_ns : Z) : Prop :=
  nt_provider t = pq_provider ∧
  ∃ drawn rnd leaf, issue_leaf (nt_pki t) drawn rnd at_ns = Some (Ok leaf) ∧
    certified_key leaf = Ok (nt_current t).

Lemma NodeTls_new_serves pki trust drawn rnd now t :
  NodeTls_new pki trust drawn rnd now = Some (Ok t) →
  serves_since t now ∧ nt_trust t = trust ∧ nt_pki t = pki.
Proof.
  unfold NodeTls_new. destruct (issue_leaf _ _ _ _) as [[leaf|e]|] eqn:Hi; [|done..].
  intros [= H]. inv_ok. subst t. split; [|done]. split; [done|]. eauto.
Qed.

Lemma rotate_serves t since drawn rnd now r t' :
  serves_since t since → NodeTls_rotate_leaf drawn rnd now t = Some (r, t') →
  nt_trust t' = nt_trust t ∧ nt_pki t' = nt_pki t ∧
  serves_since t' (if is_ok r then now else since).
Proof.
  intros Hs. unfold NodeTls_rotate_leaf. destruct (issue_leaf _ _ _ _) as [[leaf|e]|] eqn:Hi; [| |done].
  - destruct (certified_key leaf) as [ck|e] eqn:Hc; intros [= <- <-]; [|done].
    split_and!; [done..|]. split; [apply Hs|]. cbn [nt_pki store_current nt_current is_ok]. eauto.
  - intros [= <- <-]. done.
Qed.

(** The client's end accepts exactly when it pins the server. *)
Lemma connect_pins client server drawn rnd now since cc sc :
  client_config client drawn rnd now = Some (Ok cc) → nt_provider client = pq_provider →
  server_config server = Ok sc → serves_since server since →
  good_at (nt_pki server) since (now / ns_per_sec) →
  match tls_connect cc sc (now / ns_per_sec) with
  | Ok g => nc_ca_fingerprint (nt_pki server) ∈ nt_trust client ∧ g = X25519MLKEM768
  | Err _ => nc_ca_fingerprint (nt_pki server) ∉ nt_trust client
  end.
Proof.
  intros Hcc Hprov Hsc (Hsp & sdrawn & srnd & sleaf & Hsl & Hck) Hgs.
  apply client_config_Ok in Hcc as (Hg & Ht & _). apply certified_key_Ok in Hck as (Hch & Hspr).
  unfold server_config in Hsc. inv_ok. subst sc.
  pose proof (verify_side_pins _ _ _ _ _ (ck_key (nt_current server)) (nt_trust client) _ Hsl Hgs Hspr) as H1.
  rewrite <-Hch in H1. replace {| ck_chain := _; ck_key := _ |} with (nt_current server) in H1
    by by destruct (nt_current server).
  refine (decided _ _ _ _ _ H1). intros g. rewrite connect_law. unfold select_group, resolve_cert.
  cbn [sc_groups sc_resolver]. rewrite Hg, Hprov, Hsp, Ht. change (head _) with (Some X25519MLKEM768). naive_solver.
Qed.

(** The server's end accepts exactly when it pins the client. *)
Lemma accept_pins client server drawn rnd now since t cc sc :
  client_config client drawn rnd now = Some (Ok cc) → nt_provider client = pq_provider →
  server_config server = Ok sc → serves_since server since → good_at (nt_pki client) now t →
  match tls_accept (cc_groups cc) (cc_auth cc) sc t with
  | Ok g => nc_ca_fingerprint (nt_pki client) ∈ nt_trust server ∧ g = X25519MLKEM768
  | Err _ => nc_ca_fingerprint (nt_pki client) ∉ nt_trust server
  end.
Proof.
  intros Hcc Hprov Hsc (Hsp & _) Hgc.
  apply client_config_Ok in Hcc as (Hg & _ & leaf & key & Hi & Hauth & Hpr).
  unfold server_config in Hsc. inv_ok. subst sc.
  refine (decided _ _ _ _ _ (verify_side_pins _ _ _ _ _ key (nt_trust server) t Hi Hgc Hpr)).
  intros g. rewrite accept_law. unfold select_group, resolve_cert.
  cbn [sc_groups sc_resolver sc_client_trust]. rewrite Hg, Hprov, Hsp, Hauth.
  change (head _) with (Some X25519MLKEM768). naive_solver.
Qed.

Lemma handshake_mutual client server drawn rnd now since t cc sc :
  client_config client drawn rnd now = Some (Ok cc) → nt_provider client = pq_provider →
  server_config server = Ok sc → serves_since server since →
  good_at (nt_pki server) since (now / ns_per_sec) → good_at (nt_pki client) now t →
  let mutual := nc_ca_fingerprint (nt_pki client) ∈ nt_trust server ∧
                nc_ca_fingerprint (nt_pki server) ∈ nt_trust client in
  match tls_handshake cc sc (now / ns_per_sec) t with
  | Ok g => mutual ∧ g = X25519MLKEM768
  | Err _ => ¬ mutual
  end.
Proof.
  intros Hcc Hprov Hsc Hss Hgs Hgc. cbv zeta. unfold tls_handshake.
  pose proof (connect_pins client server drawn rnd now since cc sc Hcc Hprov Hsc Hss Hgs) as Hc.
  destruct (tls_connect cc sc (now / ns_per_sec)) as [g|e]; cbn [rbind]; [|naive_solver].
  pose proof (accept_pins client server drawn rnd now since t cc sc Hcc Hprov Hsc Hss Hgc) as Ha.
  destruct (tls_accept _ _ sc t); naive_solver.
Qed.

(** C9: both ends must pin each other.  Take a client node and a server node in
    good order, the server's leaf issued at its start or by its last rotation:
    the handshake between them succeeds exactly when the server pins the
    client's CA and the client pins the server's, and then it agrees on the
    post-quantum group. *)
Theorem handshake_iff_mutual_trust client server drawn rnd now since t cc sc :
  client_config client drawn rnd now = Some (Ok cc) → nt_provider client = pq_provider →
  server_config server = Ok sc → serves_since server since →
  good_at (nt_pki server) since (now / ns_per_sec) → good_at (nt_pki client) now t →
  let mutual := nc_ca_fingerprint (nt_pki client) ∈ nt_trust server ∧
                nc_ca_fingerprint (nt_pki server) ∈ nt_trust client in
  match tls_handshake cc sc (now / ns_per_sec) t with
  | Ok g => mutual ∧ g = X25519MLKEM768
  | Err _ => ¬ mutual
  end.
Proof. apply handshake_mutual. Qed.
End MutualTrust.

(** ** The probe *)

Section Probe.
Context `{EX : Externals} `{EL : !ExternalLaws} `{FM : Formats} `{FL : !FormatLaws} `{IL : !IdTextLaws}
  `{HS : HttpStack} `{HL : !HttpLaws}.
Context `{RG : Rcgen} `{LR : !RcgenLaws} `{RU : !Rustls} `{LU : !RustlsLaws}
  `{TH : !Handshake} `{TL : !HandshakeLaws}.

Lemma probe_text_eq addr :
  probe_text addr = admin_request_text addr (chars "GET") (chars "/v1/health") None.
Proof. unfold probe_text, admin_request_text. rewrite <-!app_assoc. done. Qed.

Lemma fingerprint_ascii der : Forall is_ascii (fingerprint der).
Proof. apply Forall_id_ascii, hex_encode_chars. Qed.

(** What a node answers on [/v1/health], and what the prober makes of it. *)
Lemma health_answer {B} usize_max (sv : Server B) am fp addr n :
  sv_fingerprint sv = Some fp → Forall is_ascii fp → host_ok addr →
  ∃ buf, serve_bytes (relay_router usize_max sv am) (utf8_encode (probe_text addr)) n = (buf, n) ∧
    ph_ca_fingerprint (parse_health buf) = Some fp ∧
    ∃ w, split_whitespace (ph_status_line (parse_health buf))
         = chars "HTTP/1.1" :: chars "200" :: w.
Proof.
  intros Hfp Ha Hh. unfold serve_bytes. rewrite probe_text_eq.
  rewrite (admin_request_read addr (chars "GET") (chars "/v1/health") None); [|done|..].
  2, 3: split; [done|by repeat constructor].
  2: done.
  unfold relay_router. cbn [rq_target]. change (relay_route _) with (Some RtHealth).
  change (method_get _) with true. cbv iota. unfold without_body.
  change (method_is _ "HEAD") with false. cbv iota. eexists. split; [reflexivity|].
  unfold health. rewrite Hfp.
  set (r := json_response 200 (health_json (Some fp))).
  destruct (response_text r) as (hd & Hb & line & w & Hl & Hline); [cbn; lia|].
  assert (json_ok (health_json (Some fp)) = true) as Hok.
  { apply json_ok_obj; [done..|]. repeat constructor. cbn [snd]. by apply ascii_chars_b. }
  unfold parse_health. cbn [ph_ca_fingerprint ph_status_line].
  replace (head (lines (utf8_lossy (http_write r)))) with (Some line) by (symmetry; exact Hl).
  rewrite Hb. cbn [rs_body json_response r]. rewrite utf8_lossy_encode by by apply json_text_chars.
  rewrite json_text_trim, from_str_to_string by done. split; [done|].
  exists w. change (default [] (Some line)) with line. by rewrite words_trim, Hline.
Qed.

(** C28: a probe succeeds exactly when both nodes trust each other, and then it
    reports the fingerprint of the CA it actually talked to.  The probing node
    and the probed node are in good order, the address is reachable, and the
    transport does not fail on a connection that both accept: the result is a
    health report with status 200 and the peer's own fingerprint if each pins
    the other's CA.  Otherwise it is an error, and which one tells who refused:
    the handshake error if this node does not pin the peer, and a failed
    exchange on the connection (the request cannot be sent or its response
    cannot be read) if the peer does not pin this node.  The peer's data does
    not change. *)
Theorem probe_succeeds_iff_mutual_trust {B} usize_max (sv : Server B) am client server drawn rnd now since t
    cc sc name addr (tcp : text → Result string (Remote (RelayNode B))) io n :
  client_config client drawn rnd now = Some (Ok cc) → nt_provider client = pq_provider →
  server_config server = Ok sc → serves_since server since →
  good_at (nt_pki server) since (now / ns_per_sec) → good_at (nt_pki client) now t →
  sv_fingerprint sv = Some (nc_ca_fingerprint (nt_pki server)) →
  host_ok addr → server_name (probe_host addr) = Ok name →
  tcp addr = Ok {| rm_config := sc; rm_now := t; rm_serve := serve_bytes (relay_router usize_max sv am) |} →
  let pins_peer := nc_ca_fingerprint (nt_pki server) ∈ nt_trust client in
  let pinned_by_peer := nc_ca_fingerprint (nt_pki client) ∈ nt_trust server in
  (pins_peer → pinned_by_peer → io 0%nat = None ∧ io 1%nat = None) →
  ∃ r, probe_peer client drawn rnd now tcp io addr n = Some (r, n) ∧
    match r with
    | Ok h => pins_peer ∧ pinned_by_peer ∧ ph_ca_fingerprint h = Some (nc_ca_fingerprint (nt_pki server)) ∧
              ∃ w, split_whitespace (ph_status_line h) = chars "HTTP/1.1" :: chars "200" :: w
    | Err e => (¬ pins_peer ∧ e = "PQ-mTLS handshake refused (each node must trust the other's CA)") ∨
               (pins_peer ∧ ¬ pinned_by_peer ∧
                e = match io 0%nat with Some _ => "send health request" | None => "read health response" end)
    end.
Proof.
  intros Hcc Hprov Hsc Hss Hgs Hgc Hfp Hh Hname Htcp. cbv zeta. intros Hio.
  pose proof (connect_pins client server drawn rnd now since cc sc Hcc Hprov Hsc Hss Hgs) as Hconn.
  pose proof (accept_pins client server drawn rnd now since t cc sc Hcc Hprov Hsc Hss Hgc) as Hacc.
  unfold probe_peer. rewrite Hcc, Htcp, Hname. cbn [map_err rbind rm_config rm_now].
  destruct (tls_connect cc sc (now / ns_per_sec)) as [g|e]; cbn [map_err rbind]; [|by eexists; split; [done|left]].
  destruct Hconn as [Hpin _]. cbn [rm_config rm_now rm_serve].
  destruct (tls_accept (cc_groups cc) (cc_auth cc) sc t) as [g'|e'].
  - destruct Hacc as [Hby _]. destruct (Hio Hpin Hby) as [-> ->]. cbn [rm_serve].
    assert (Forall is_ascii (nc_ca_fingerprint (nt_pki server))) as Ha.
    { destruct Hgs as [[-> _] _ _]. apply fingerprint_ascii. }
    destruct (health_answer usize_max sv am _ addr n Hfp Ha Hh) as (buf & -> & Hca & Hst).
    eexists. split; [reflexivity|]. by split_and!.
  - destruct (io 0%nat); (eexists; split; [reflexivity|right]); by split_and!.
Qed.
End Probe.
