(* ===== verification/ModelHttp.v ===== *)
(** * An instance of the HTTP and TLS libraries

    A reader and writer of HTTP messages and a TLS library over the
    certificates of [NodeCa]: they show that the laws of [Http] and [Tls] can
    hold together, and let witnesses compute. *)

From S2P Require Import Prelude.
From S2P Require Import Text.
From S2P Require Import Entities.
From S2P Require Import Mailbox.
From S2P Require Import Json.
From S2P Require Import ModelFormats.
From S2P Require Import MailboxSpec.
From S2P Require Import Relay.
From S2P Require Import BlobRole.
From S2P Require Import PeerTrust.
From S2P Require Import NodeCa.
From S2P Require Import Http.
From S2P Require Import HttpSpec.
From S2P Require Import Tls.
#[local] Open Scope Z_scope.

(** ** HTTP *)

(** The lines up to the empty one, and what follows it. *)
Fixpoint read_lines (fuel : nat) (t : text) : option (list text * text) :=
  match fuel with
  | O => None
  | S k =>
      match split_once crlf t with
      | None => None
      | Some ([], rest) => Some ([], rest)
      | Some (l, rest) =>
          match read_lines k rest with Some (ls, r) => Some (l :: ls, r) | None => None end
      end
  end.

Fixpoint read_headers (ls : list text) : option (list (text * text)) :=
  match ls with
  | [] => Some []
  | l :: ls =>
      match split_once (chars ": ") l, read_headers ls with
      | Some h, Some hs => Some (h :: hs)
      | _, _ => None
      end
  end.

Definition read_request (b : bytes) : option Request :=
  match read_lines (length b) (u8 <$> b) with
  | Some (line :: ls, body) =>
      match split_whitespace line, read_headers ls with
      | [m; t; _], Some hs =>
          Some {| rq_method := m; rq_target := t; rq_headers := hs; rq_body := byte_of <$> body |}
      | _, _ => None
      end
  | _ => None
  end.

Definition write_response (r : Response) : bytes :=
  utf8_encode ((chars "HTTP/1.1 " ++ decimal (rs_status r) ++ chars " OK") ++ crlf2) ++ rs_body r.

Definition read_pull_query (q : option text) : Result string (option Z * option Z) :=
  match q with
  | None => Ok (None, None)
  | Some q =>
      match split_once [38] q with
      | None => Err "unknown query"
      | Some (w, l) =>
          match strip_prefix (chars "wait=") w, strip_prefix (chars "limit=") l with
          | Some w, Some l =>
              match parse_uint u64_max w, parse_uint i64_max l with
              | Some w, Some l => Ok (Some l, Some w)
              | _, _ => Err "invalid digit found in string"
              end
          | _, _ => Err "unknown query"
          end
      end
  end.

#[export] Instance model_http : HttpStack := {|
  http_read := read_request;
  http_write := write_response;
  pct_decode t := Some t;
  parse_pull_query := read_pull_query;
  is_json_type t := bool_decide (t = chars "application/json");
  rejection_body _ := [];
|}.

Lemma split_once_first c pat l rest :
  Forall (λ a, a ≠ c) l → split_once (c :: pat) (l ++ c :: pat ++ rest) = Some (l, rest).
Proof.
  induction 1 as [|a l Ha _ IH]; cbn [app split_once strip_prefix].
  - by rewrite Z.eqb_refl, strip_prefix_refl.
  - by rewrite (proj2 (Z.eqb_neq a c) Ha), IH.
Qed.

Lemma read_lines_ok ls rest fuel :
  Forall (λ l, l ≠ [] ∧ Forall (λ a, a ≠ 13) l) ls → (length ls < fuel)%nat →
  read_lines fuel (concat ((λ l, l ++ crlf) <$> ls) ++ crlf ++ rest) = Some (ls, rest).
Proof.
  intros H. revert fuel. induction H as [|l ls [Hn Hl] _ IH]; intros fuel Hf;
    (destruct fuel as [|fuel]; [cbn in Hf; lia|]).
  - done.
  - rewrite fmap_cons. cbn [concat read_lines]. rewrite <-!app_assoc. cbn [crlf app].
    change (l ++ 13 :: 10 :: ?r) with (l ++ 13 :: [10] ++ r).
    unfold crlf at 1. rewrite split_once_first by done. destruct l as [|a l]; [done|].
    change (13 :: 10 :: rest) with (crlf ++ rest). rewrite IH by (cbn in Hf; lia). done.
Qed.

Lemma read_headers_ok hs :
  Forall header_ok hs → read_headers ((λ h, h.1 ++ chars ": " ++ h.2) <$> hs) = Some hs.
Proof.
  induction 1 as [|[n v] hs (_ & Hn & _ & _) _ IH]; [done|]. rewrite fmap_cons. cbn [read_headers fst snd] in *.
  rewrite IH. change (chars ": ") with [58; 32]. change (n ++ [58; 32] ++ v) with (n ++ 58 :: [32] ++ v).
  rewrite split_once_first; [done|]. eapply Forall_impl; [exact Hn|].
  unfold is_upper, is_lower. intros c Hc. cbn in Hc. lia.
Qed.

Lemma u8_utf8_ascii t : Forall is_ascii t → u8 <$> utf8_encode t = t.
Proof.
  intros H. rewrite utf8_encode_ascii by done. induction H as [|c t Hc _ IH]; [done|].
  rewrite !fmap_cons, IH, u8_byte_of. unfold is_ascii in Hc. by rewrite Z.mod_small by lia.
Qed.

Definition request_lines (m t : text) (hs : list (text * text)) : list text :=
  (m ++ 32 :: t ++ chars " HTTP/1.1") :: ((λ h, h.1 ++ chars ": " ++ h.2) <$> hs).

Lemma request_text_lines m t hs b :
  request_text m t hs b = concat ((λ l, l ++ crlf) <$> request_lines m t hs) ++ crlf ++ b.
Proof.
  unfold request_text, request_lines. rewrite fmap_cons, <-list_fmap_compose. cbn [concat].
  rewrite <-!app_assoc. do 2 f_equal. cbn [app]. rewrite <-!app_assoc. f_equal.
  replace (header_line <$> hs) with (((λ l, l ++ crlf) ∘ (λ h, h.1 ++ chars ": " ++ h.2)) <$> hs); [done|].
  apply list_fmap_ext. intros i h _. unfold header_line. cbn. by rewrite <-app_assoc.
Qed.

(** Visible characters and spaces. *)
Definition line_char (c : Z) : Prop := 32 <= c <= 126.

Lemma request_lines_ok m t hs :
  method_ok m → target_ok t → Forall header_ok hs →
  Forall (λ l, l ≠ [] ∧ Forall line_char l) (request_lines m t hs).
Proof.
  intros [Hm Hm'] [Ht Ht'] Hh. constructor.
  - split; [by destruct m|]. rewrite Forall_app, Forall_cons, Forall_app. split_and!.
    + eapply Forall_impl; [exact Hm'|]. unfold is_upper, line_char. intros c Hc. cbn in Hc. lia.
    + unfold line_char. lia.
    + eapply Forall_impl; [exact Ht'|]. unfold is_target_char, is_upper, is_lower, is_digit, line_char.
      intros c Hc. cbn in Hc. lia.
    + by repeat constructor.
  - apply Forall_fmap. eapply Forall_impl; [exact Hh|]. intros [n v] (Hn & Hn' & _ & Hv). cbn in *.
    split; [by destruct n|]. rewrite Forall_app. split.
    + eapply Forall_impl; [exact Hn'|]. unfold is_upper, is_lower, line_char. intros c Hc. cbn in Hc. lia.
    + rewrite !Forall_cons. split_and!; [by unfold line_char..|].
      eapply Forall_impl; [exact Hv|]. unfold is_visible, line_char. intros c Hc. cbn in Hc. lia.
Qed.

Lemma line_words m t :
  method_ok m → target_ok t →
  split_whitespace (m ++ 32 :: t ++ chars " HTTP/1.1") = [m; t; chars "HTTP/1.1"].
Proof.
  intros [Hm Hm'] [Ht Ht']. rewrite words_app by done.
  change (chars " HTTP/1.1") with (32 :: chars "HTTP/1.1"). rewrite words_app by done.
  assert (∀ c, 33 <= c <= 126 → is_whitespace c = false) as Hw.
  { intros c Hc. unfold is_whitespace.
    repeat match goal with |- _ || _ = false => apply orb_false_intro end; lia. }
  rewrite (words_one m), (words_one t), (words_one (chars "HTTP/1.1")); try done.
  - by repeat constructor.
  - eapply Forall_impl; [exact Ht'|]. intros c Hc. apply Hw. cbn in Hc.
    unfold is_target_char, is_upper, is_lower, is_digit in Hc. lia.
  - eapply Forall_impl; [exact Hm'|]. intros c Hc. apply Hw. cbn in Hc. unfold is_upper in Hc. lia.
Qed.

Lemma concat_lines_ascii ls :
  Forall (λ l, l ≠ [] ∧ Forall line_char l) ls →
  Forall is_ascii (concat ((λ l, l ++ crlf) <$> ls) ++ crlf).
Proof.
  intros H. apply Forall_app. split; [|repeat constructor; unfold is_ascii; cbn; lia].
  apply Forall_concat, Forall_fmap. eapply Forall_impl; [exact H|]. intros l [_ Hl]. cbn.
  apply Forall_app. split; [|repeat constructor; unfold is_ascii; cbn; lia].
  eapply Forall_impl; [exact Hl|]. unfold line_char, is_ascii. intros c Hc. lia.
Qed.

Lemma read_request_text m t hs b :
  method_ok m → target_ok t → Forall header_ok hs →
  read_request (utf8_encode (request_text m t hs b))
  = Some {| rq_method := m; rq_target := t; rq_headers := hs; rq_body := utf8_encode b |}.
Proof.
  intros Hm Ht Hh. pose proof (request_lines_ok m t hs Hm Ht Hh) as Hls.
  unfold read_request. rewrite request_text_lines. set (C := concat _) in *.
  rewrite app_assoc, utf8_encode_app, fmap_app.
  rewrite u8_utf8_ascii by by apply concat_lines_ascii. rewrite <-app_assoc. unfold C.
  rewrite read_lines_ok.
  - unfold request_lines at 1. rewrite line_words, read_headers_ok by done. do 2 f_equal.
    rewrite <-list_fmap_compose. rewrite <-(list_fmap_id (utf8_encode b)) at 2.
    apply list_fmap_ext. intros i x _. apply byte_of_u8.
  - eapply Forall_impl; [exact Hls|]. intros l [? Hl]. split; [done|].
    eapply Forall_impl; [exact Hl|]. unfold line_char. intros c Hc. lia.
  - rewrite utf8_encode_ascii by by apply concat_lines_ascii. rewrite length_app, length_fmap, length_app.
    clear. induction (request_lines m t hs) as [|l ls IH]; [cbn; lia|].
    rewrite fmap_cons. cbn [concat length]. rewrite !length_app. cbn [length crlf] in *. lia.
Qed.

Lemma digits_not c v : Forall (λ a, is_digit a = true) v → is_digit c = false → Forall (λ a, a ≠ c) v.
Proof. intros H Hc. eapply Forall_impl; [exact H|]. intros a Ha ->. cbn in Ha. congruence. Qed.

#[export] Instance model_http_laws : HttpLaws.
Proof.
  split; cbn [http_read http_write pct_decode parse_pull_query is_json_type model_http].
  - intros m t hs b Hm Ht Hh _ _. by apply read_request_text.
  - intros r Hr. exists (chars "OK"). cbv zeta.
    change (chars " OK") with (32 :: chars "OK").
    split_and!; [reflexivity|by repeat constructor|].
    set (head := chars "HTTP/1.1 " ++ _). replace (head ++ crlf2) with (head ++ 13 :: [10; 13; 10] ++ [])
      by done. unfold crlf2, crlf. cbn [app]. apply (split_once_first 13 [10; 13; 10]). unfold head.
    rewrite !Forall_app. split_and!; [by repeat constructor| |by repeat constructor].
    apply digits_not; [|done]. apply decimal_digit. lia.
  - done.
  - intros wait limit Hw Hl. unfold read_pull_query, pull_query.
    change (chars "&limit=") with (38 :: chars "limit="). rewrite app_assoc. cbn [app].
    rewrite split_once_char.
    + rewrite !strip_prefix_refl, !parse_decimal by (unfold u64_max, i64_max in *; lia). done.
    + apply Forall_app. split; [by repeat constructor|]. apply digits_not; [|done]. apply decimal_digit. lia.
  - done.
Qed.

(** ** TLS *)

#[export] Existing Instances tlv_x509 tlv_rcgen tlv_rcgen_laws.

Definition key_of (der : bytes) : Result string byte :=
  match der with [k] => Ok k | _ => Err "invalid key" end.

#[export] Instance model_rustls : Rustls := {|
  TlsKey := byte;
  load_private_key := key_of;
  tls13_with gs := match gs with [] => Err "no kx groups configured" | _ => Ok tt end;
  client_auth_cert _ := key_of;
  proves k der := bool_decide (nth 1 der Byte.x00 = k);
  server_name t := Ok t;
|}.

#[export] Instance model_rustls_laws : RustlsLaws (RG := tlv_rcgen).
Proof.
  split; cbn [load_private_key client_auth_cert proves tls13_with model_rustls serialize_der tlv_rcgen].
  - intros k. exists k. split; [done|]. intros der x Hx Hk. apply bool_decide_eq_true.
    cbn [from_der PeerTrust.public_key kp_public tlv_x509 tlv_rcgen] in *.
    destruct (length der =? 19)%nat; [|done]. injection Hx as <-. exact Hk.
  - intros chain k. exists k. split; [done|]. intros der x Hx Hk. apply bool_decide_eq_true.
    cbn [from_der PeerTrust.public_key kp_public tlv_x509 tlv_rcgen] in *.
    destruct (length der =? 19)%nat; [|done]. injection Hx as <-. exact Hk.
  - by intros [].
Qed.

(** A handshake that goes through its checks one by one; the sessions of a
    server are tickets with the chains of the peers that got them, and a ticket
    is used once. *)
Definition model_resumes (ses : list (bytes * list bytes)) (hello : Hello) : option (list bytes) :=
  psk ← he_psk hello; if he_tickets hello then snd <$> head (filter (λ x, x.1 = psk) ses) else None.

Lemma model_resumes_cons d c ses h :
  model_resumes ((d, c) :: ses) h
  = if decide (he_psk h = Some d ∧ he_tickets h = true) then Some c else model_resumes ses h.
Proof.
  unfold model_resumes. destruct (he_psk h) as [psk|]; [|by rewrite decide_False by naive_solver].
  destruct (he_tickets h); [|by rewrite decide_False by naive_solver].
  cbn [mbind option_bind]. rewrite filter_cons. cbn [fst]. repeat case_decide; naive_solver.
Qed.

Definition model_accept (offered : list NamedGroup) (auth : CertifiedKey) (sc : ServerConfig) (now : Z) :
    Result string NamedGroup :=
  let? g := ok_or (select_group offered sc) "no key exchange groups in common" in
  let? _ := ok_or (sc_resolver sc) "no server certificate chain resolved" in
  let? _ := verify_side (sc_client_trust sc) now auth in
  Ok g.

(** What the handshake gives, with the sessions that are left. *)
Definition model_outcome (hello : Hello) (sc : ServerConfig) (now : Z) (ses : list (bytes * list bytes)) :
    Result string (NamedGroup * list bytes) * list (bytes * list bytes) :=
  match model_resumes ses hello with
  | None => (let? g := model_accept (he_groups hello) (he_auth hello) sc now in Ok (g, ck_chain (he_auth hello)), ses)
  | Some chain =>
      (let? g := ok_or (select_group (he_groups hello) sc) "no key exchange groups in common" in
       let? _ := ok_or (sc_resolver sc) "no server certificate chain resolved" in
       Ok (g, chain), filter (λ x, Some x.1 ≠ he_psk hello) ses)
  end.

#[export] Instance model_handshake : Handshake := {|
  tls_connect cc sc now :=
    let? g := ok_or (select_group (cc_groups cc) sc) "no key exchange groups in common" in
    let? ck := ok_or (sc_resolver sc) "no server certificate chain resolved" in
    let? _ := verify_side (cc_server_trust cc) now ck in
    Ok g;
  tls_accept := model_accept;
  Sessions := list (bytes * list bytes);
  no_sessions := [];
  resumes := model_resumes;
  tls_serve hello sc now d ses :=
    let '(r, ses) := model_outcome hello sc now ses in
    (r, match r with
        | Ok (_, chain) => if he_tickets hello then (d, chain) :: ses else ses
        | Err _ => ses
        end);
|}.

Lemma model_outcome_1 hello sc now d ses :
  (tls_serve hello sc now d ses).1 = (model_outcome hello sc now ses).1.
Proof. cbn [tls_serve model_handshake]. by destruct (model_outcome _ _ _ _). Qed.

(** What is left of the sessions. *)
Lemma model_outcome_2 hello sc now ses hello' c :
  model_resumes (model_outcome hello sc now ses).2 hello' = Some c → model_resumes ses hello' = Some c.
Proof.
  unfold model_outcome. destruct (model_resumes ses hello) as [chain|]; [|done]. cbn [snd].
  unfold model_resumes. destruct (he_psk hello') as [psk|]; [|done]. cbn. destruct (he_tickets hello'); [|done].
  intros H. induction ses as [|[p ch] ses IH]; [done|]. rewrite filter_cons in H.
  rewrite filter_cons. destruct (decide (Some p ≠ he_psk hello)).
  - rewrite decide_True in H by done. rewrite filter_cons in H. cbn [fst] in *. case_decide; [done|]. by apply IH.
  - rewrite decide_False in H by done. cbn [fst]. case_decide as Hp; [|by apply IH].
    exfalso. subst p. assert (filter (λ x : bytes * list bytes, x.1 = psk)
      (filter (λ x : bytes * list bytes, Some x.1 ≠ he_psk hello) ses) = []) as E.
    { apply filter_none, Forall_forall. intros x [Hx _]%list_elem_of_filter Hp. subst. naive_solver. }
    by rewrite E in H.
Qed.

#[export] Instance model_handshake_laws : HandshakeLaws.
Proof.
  split.
  - intros cc sc now g. cbn [tls_connect model_handshake]. split.
    + intros H. inv_ok. repeat match goal with u : unit |- _ => destruct u end. subst. eauto 10.
    + intros (-> & ck & -> & H). cbn [ok_or rbind]. by rewrite H.
  - intros offered auth sc now g. cbn [tls_accept model_handshake]. unfold model_accept. split.
    + intros H. inv_ok. repeat match goal with u : unit |- _ => destruct u end. subst. eauto 10.
    + intros (-> & [ck ->] & H). cbn [ok_or rbind]. by rewrite H.
  - intros hello sc now d ses H. rewrite model_outcome_1. unfold model_outcome. change (model_resumes ses hello = None) in H.
    by rewrite H.
  - intros hello sc now d ses chain g c H. rewrite model_outcome_1. unfold model_outcome.
    change (model_resumes ses hello = Some chain) in H. rewrite H. cbn [fst]. split.
    + intros H'. inv_ok. subst. eauto.
    + intros (-> & -> & [ck ->]). done.
  - intros hello. cbn. unfold model_resumes. destruct (he_psk hello); [|done]. cbn. by destruct (he_tickets hello).
  - intros ses hello H. cbn. unfold model_resumes. by rewrite H.
  - intros hello sc now d ses hello' c. rewrite model_outcome_1. cbn [tls_serve resumes model_handshake].
    pose proof (model_outcome_2 hello sc now ses hello' c) as H2.
    destruct (model_outcome hello sc now ses) as [[[g chain]|e] ses']; cbn [fst snd] in *; [|auto].
    destruct (he_tickets hello); [|auto]. rewrite model_resumes_cons. case_decide; [|auto].
    intros [= ->]. eauto.
  - intros hello sc now d ses g c ses' H Ht. exists d. intros auth. cbn [tls_serve resumes model_handshake] in *.
    destruct (model_outcome hello sc now ses) as [r ses1]. injection H as -> <-. rewrite Ht.
    by rewrite model_resumes_cons, decide_True.
Qed.

Module TlsSample.
(** Two nodes with CA keys [aa] and [bb]. *)
Definition ca_cert (key : byte) : bytes :=
  [Byte.x01; key; key] ++ be_bytes 8 157766400 ++ be_bytes 8 67090118400.
Definition ca (key : byte) : RcgenNodeCa :=
  {| nc_ca_key := key : KeyPair (Rcgen := tlv_rcgen); nc_ca_issuer := ca_cert key : RcCert (Rcgen := tlv_rcgen);
     nc_ca_der := ca_cert key; nc_ca_fingerprint := fingerprint (ca_cert key);
     nc_sans := ["localhost"]; nc_leaf_ttl := 48 * NodeSample.hour |}.
Definition leaf (key leaf_key : byte) : NodeLeaf :=
  {| nl_chain_der :=
       [[Byte.x00; leaf_key; key] ++ be_bytes 8 1767225300 ++ be_bytes 8 1767398400; ca_cert key];
     nl_private_key_der := [leaf_key]; nl_not_after_ms := 1767398400000 |}.
Definition certified (key leaf_key : byte) : CertifiedKey :=
  {| ck_chain := nl_chain_der (leaf key leaf_key); ck_key := leaf_key : TlsKey |}.
Definition node (key leaf_key : byte) (trusted : list bytes) : NodeTls :=
  {| nt_provider := pq_provider; nt_trust := from_fingerprints (fingerprint <$> trusted);
     nt_current := certified key leaf_key; nt_pki := ca key |}.
Definition a : NodeTls := node Byte.xaa Byte.xa1 [ca_cert Byte.xbb].
Definition b : NodeTls := node Byte.xbb Byte.xb1 [ca_cert Byte.xaa].
Definition config (t : NodeTls) (leaf_key : byte) : ClientConfig :=
  {| cc_groups := nt_provider t; cc_server_trust := nt_trust t;
     cc_auth := certified Byte.xaa leaf_key |}.
Definition listening (t : NodeTls) : ServerConfig :=
  {| sc_groups := nt_provider t; sc_client_trust := nt_trust t; sc_resolver := Some (nt_current t) |}.
Definition soon : Z := 1767225601.

Lemma issued_a : issue_leaf (ca Byte.xaa) (NodeSample.drawn Byte.xa2) [] NodeSample.now = Some (Ok (leaf Byte.xaa Byte.xa2)).
Proof. reflexivity. Qed.
Lemma issued_b : issue_leaf (ca Byte.xbb) (NodeSample.drawn Byte.xb1) [] NodeSample.now = Some (Ok (leaf Byte.xbb Byte.xb1)).
Proof. reflexivity. Qed.

Lemma configured : client_config a (NodeSample.drawn Byte.xa2) [] NodeSample.now = Some (Ok (config a Byte.xa2)).
Proof. unfold client_config. change (nt_pki a) with (ca Byte.xaa). rewrite issued_a. reflexivity. Qed.

Lemma b_serves : serves_since b NodeSample.now.
Proof. split; [reflexivity|]. exists (NodeSample.drawn Byte.xb1), [], (leaf Byte.xbb Byte.xb1). split; [exact issued_b|reflexivity]. Qed.

Lemma good key : key = Byte.xaa ∨ key = Byte.xbb → good_at (ca key) NodeSample.now soon.
Proof.
  intros Hk. split.
  - split; [done|]. exists (ca_cert key). by destruct Hk as [-> | ->].
  - intros x. destruct Hk as [-> | ->]; intros [= <-]; split; vm_compute; discriminate.
  - split; vm_compute; discriminate.
Qed.
Lemma good_now key : key = Byte.xaa ∨ key = Byte.xbb → good_at (ca key) NodeSample.now (NodeSample.now / ns_per_sec).
Proof.
  intros Hk. split.
  - split; [done|]. exists (ca_cert key). by destruct Hk as [-> | ->].
  - intros x. destruct Hk as [-> | ->]; intros [= <-]; split; vm_compute; discriminate.
  - split; vm_compute; discriminate.
Qed.
End TlsSample.

Lemma handshake_iff_mutual_trust_witness :
  match tls_handshake (TlsSample.config TlsSample.a Byte.xa2) (TlsSample.listening TlsSample.b)
          (NodeSample.now / ns_per_sec) TlsSample.soon with
  | Ok g => (fingerprint (TlsSample.ca_cert Byte.xaa) ∈ nt_trust TlsSample.b ∧
             fingerprint (TlsSample.ca_cert Byte.xbb) ∈ nt_trust TlsSample.a) ∧ g = X25519MLKEM768
  | Err _ => ¬ (fingerprint (TlsSample.ca_cert Byte.xaa) ∈ nt_trust TlsSample.b ∧
             fingerprint (TlsSample.ca_cert Byte.xbb) ∈ nt_trust TlsSample.a)
  end.
Proof.
  exact (handshake_iff_mutual_trust TlsSample.a TlsSample.b (NodeSample.drawn Byte.xa2) [] NodeSample.now
    NodeSample.now TlsSample.soon _ _ TlsSample.configured eq_refl eq_refl TlsSample.b_serves
    (TlsSample.good_now _ (or_intror eq_refl)) (TlsSample.good _ (or_introl eq_refl))).
Defined.

Module ServerSample.
Definition state : AppState := {| st_config := CoreConfig_default; st_max_wait := 30 |}.
(** A relay without the blob role. *)
Definition server (fp : text) : Server unit :=
  {| sv_state := state; sv_fingerprint := Some fp; sv_store := None |}.
Definition data : RelayNode unit := {| rn_mail := MailboxSample.empty; rn_blob := tt |}.
Definition ambient (id : EnvelopeId) (now : Z) : Ambient :=
  {| am_faults := λ _, None; am_faults2 := λ _, None; am_id := id; am_now := now; am_now2 := now;
     am_waiter := 0; am_env1 := λ s, s; am_env2 := λ _ s, s |}.
Definition usize_max : Z := 2 ^ 64 - 1.
Definition addr : text := chars "[::1]:31415".
Definition tcp (sc : ServerConfig) : text → Result string (Remote (RelayNode unit)) := λ _,
  Ok {| rm_config := sc; rm_now := TlsSample.soon;
        rm_serve := serve_bytes (relay_router usize_max
          (server (fingerprint (TlsSample.ca_cert Byte.xbb))) (ambient [] 0)) |}.
End ServerSample.

Lemma probe_succeeds_iff_mutual_trust_witness :
  ∃ r, probe_peer TlsSample.a (NodeSample.drawn Byte.xa2) [] NodeSample.now
         (ServerSample.tcp (TlsSample.listening TlsSample.b)) (λ _, None) ServerSample.addr ServerSample.data
       = Some (r, ServerSample.data).
Proof.
  destruct (probe_succeeds_iff_mutual_trust ServerSample.usize_max
    (ServerSample.server (fingerprint (TlsSample.ca_cert Byte.xbb))) (ServerSample.ambient [] 0)
    TlsSample.a TlsSample.b (NodeSample.drawn Byte.xa2) [] NodeSample.now NodeSample.now TlsSample.soon
    (TlsSample.config TlsSample.a Byte.xa2) (TlsSample.listening TlsSample.b)
    (probe_host ServerSample.addr) ServerSample.addr
    (ServerSample.tcp (TlsSample.listening TlsSample.b)) (λ _, None) ServerSample.data) as (r & H & _);
    [exact TlsSample.configured|reflexivity|reflexivity|exact TlsSample.b_serves
    |exact (TlsSample.good_now _ (or_intror eq_refl))|exact (TlsSample.good _ (or_introl eq_refl))
    |reflexivity|split; [discriminate|by repeat constructor]|reflexivity|reflexivity|done|].
  exists r. exact H.
Defined.

(** The host of an IPv6 address, without brackets and port. *)
Example probe_host_ipv6 : probe_host ServerSample.addr = chars "::1".
Proof. reflexivity. Qed.
