(* ===== verification/TlsShared.v ===== *)
(** * Shared cells of the TLS material: [buh-api/src/tls.rs]

    [TrustStore] and [RotatingResolver] are handles to cells behind a lock;
    clones share the cell.  The verifiers and the server configuration keep
    such handles, while [Tls] and [Daemon] pass the values that the cells hold.
    This file has the handles and the cells, the two verifiers with all their
    callbacks, and the session storage that a server configuration gets when it
    is built.  It shows that a configuration built once behaves in every later
    full handshake as the one [Tls] builds from the values of that time, and
    where the sessions come from that it lets a peer resume without asking its
    verifier.

    No code of the crate panics while it holds one of the locks, so a lock is
    never poisoned. *)

From S2P Require Import Prelude.
From S2P Require Import Text.
From S2P Require Import Entities.
From S2P Require Import PeerTrust.
From S2P Require Import NodeCa.
From S2P Require Import Tls.
From S2P Require Import ModelHttp.
From stdpp Require Import pretty.
#[local] Open Scope Z_scope.

(** What the verifiers hand on to the library: the two signature checks under
    the provider's algorithms, and the schemes these support. *)
Class RustlsSignatures `{RU : Rustls} := {
  DigitallySignedStruct : Type;
  Algorithms : Type;
  SignatureScheme : Type;
  DistinguishedName : Type;
  default_algorithms : Algorithms;
  tls_sign : TlsKey → bytes → DigitallySignedStruct;
  tls12_verify : bytes → bytes → DigitallySignedStruct → Algorithms → Result string unit;
  tls13_verify : bytes → bytes → DigitallySignedStruct → Algorithms → Result string unit;
  supported_schemes : Algorithms → list SignatureScheme;
}.

(** A transcript signed with a key verifies exactly for the certificates of
    that key. *)
Class SignatureLaws `{RS : RustlsSignatures} : Prop := {
  tls13_verify_law key leaf message :
    tls13_verify message leaf (tls_sign key message) default_algorithms = Ok tt ↔
    proves key leaf = true;
}.

Section Shared.
Context `{EX : Externals} `{RG : Rcgen} `{RU : !Rustls} `{RS : !RustlsSignatures} `{TH : !Handshake}.

(** ** Cells and handles *)

(** The trust sets, the current keys and the session storages in use; a handle
    is an index. *)
Record Cells := { trusts : list (gset text); keys : list CertifiedKey; storages : list Sessions }.

Definition TrustStore : Type := nat.
Definition RotatingResolver : Type := nat.
Definition SessionStorage : Type := nat.

Definition alloc_trust (set : gset text) (h : Cells) : TrustStore * Cells :=
  (length (trusts h), {| trusts := trusts h ++ [set]; keys := keys h; storages := storages h |}).

Definition store_new (h : Cells) : TrustStore * Cells := alloc_trust ∅ h.

Definition store_from_fingerprints (fps : list text) (h : Cells) : TrustStore * Cells :=
  alloc_trust (list_to_set fps) h.

Definition store_replace (s : TrustStore) (fps : list text) (h : Cells) : Cells :=
  {| trusts := <[s := list_to_set fps]> (trusts h); keys := keys h; storages := storages h |}.

Definition store_contains (s : TrustStore) (ca_fingerprint : text) (h : Cells) : bool :=
  match trusts h !! s with Some set => trust_contains set ca_fingerprint | None => false end.

(** [Debug]: only the number of pinned CAs is shown. *)
Definition store_debug (s : TrustStore) (h : Cells) : string :=
  let n := match trusts h !! s with Some set => size set | None => 0%nat end in
  "TrustStore(" +:+ pretty n +:+ " pinned)".

Definition resolver_new (initial : CertifiedKey) (h : Cells) : RotatingResolver * Cells :=
  (length (keys h), {| trusts := trusts h; keys := keys h ++ [initial]; storages := storages h |}).

Definition resolver_store (r : RotatingResolver) (next : CertifiedKey) (h : Cells) : Cells :=
  {| trusts := trusts h; keys := <[r := next]> (keys h); storages := storages h |}.

Definition resolver_resolve (r : RotatingResolver) (h : Cells) : option CertifiedKey := keys h !! r.

(** ** The verifiers *)

Record CryptoProvider := { kx_groups : list NamedGroup; signature_algorithms : Algorithms }.

Definition shared_provider : CryptoProvider :=
  {| kx_groups := pq_provider; signature_algorithms := default_algorithms |}.

(** The chain decision with the set the handle points to. *)
Definition verify_pinned_live (s : TrustStore) (end_entity : bytes) (intermediates : list bytes)
    (now : Z) (h : Cells) : Result string unit :=
  verify_pinned_chain end_entity intermediates now (default ∅ (trusts h !! s)).

Record PinnedClientCertVerifier := {
  pc_provider : CryptoProvider;
  pc_trust : TrustStore;
  pc_no_hints : list DistinguishedName;
}.

Definition client_verifier_new (provider : CryptoProvider) (trust : TrustStore) :
    PinnedClientCertVerifier :=
  {| pc_provider := provider; pc_trust := trust; pc_no_hints := [] |}.

Definition root_hint_subjects (v : PinnedClientCertVerifier) : list DistinguishedName := pc_no_hints v.

Definition pc_verify_client_cert (v : PinnedClientCertVerifier) (end_entity : bytes)
    (intermediates : list bytes) (now : Z) (h : Cells) : Result string unit :=
  let? _ := verify_pinned_live (pc_trust v) end_entity intermediates now h in Ok tt.

Definition pc_verify_tls12_signature (v : PinnedClientCertVerifier) (message cert : bytes)
    (dss : DigitallySignedStruct) : Result string unit :=
  tls12_verify message cert dss (signature_algorithms (pc_provider v)).

Definition pc_verify_tls13_signature (v : PinnedClientCertVerifier) (message cert : bytes)
    (dss : DigitallySignedStruct) : Result string unit :=
  tls13_verify message cert dss (signature_algorithms (pc_provider v)).

Definition pc_supported_verify_schemes (v : PinnedClientCertVerifier) : list SignatureScheme :=
  supported_schemes (signature_algorithms (pc_provider v)).

Record PinnedServerCertVerifier := { ps_provider : CryptoProvider; ps_trust : TrustStore }.

Definition server_verifier_new (provider : CryptoProvider) (trust : TrustStore) :
    PinnedServerCertVerifier := {| ps_provider := provider; ps_trust := trust |}.

Definition ps_verify_server_cert (v : PinnedServerCertVerifier) (end_entity : bytes)
    (intermediates : list bytes) (server_name : text) (ocsp_response : bytes) (now : Z) (h : Cells) :
    Result string unit :=
  let? _ := verify_pinned_live (ps_trust v) end_entity intermediates now h in Ok tt.

Definition ps_verify_tls12_signature (v : PinnedServerCertVerifier) (message cert : bytes)
    (dss : DigitallySignedStruct) : Result string unit :=
  tls12_verify message cert dss (signature_algorithms (ps_provider v)).

Definition ps_verify_tls13_signature (v : PinnedServerCertVerifier) (message cert : bytes)
    (dss : DigitallySignedStruct) : Result string unit :=
  tls13_verify message cert dss (signature_algorithms (ps_provider v)).

Definition ps_supported_verify_schemes (v : PinnedServerCertVerifier) : list SignatureScheme :=
  supported_schemes (signature_algorithms (ps_provider v)).

(** ** [NodeTls] with handles *)

Record SharedTls := {
  sh_provider : CryptoProvider;
  sh_trust : TrustStore;
  sh_resolver : RotatingResolver;
  sh_pki : RcgenNodeCa;
}.

Definition shared_new (pki : RcgenNodeCa) (trust : TrustStore) (drawn : Result string KeyPair)
    (rnd : bytes) (now : Z) (h : Cells) : option (Result CoreError SharedTls * Cells) :=
  match issue_leaf pki drawn rnd now with
  | None => None
  | Some (Err e) => Some (Err e, h)
  | Some (Ok leaf) =>
      match certified_key leaf with
      | Err e => Some (Err e, h)
      | Ok initial =>
          let '(resolver, h) := resolver_new initial h in
          Some (Ok {| sh_provider := shared_provider; sh_trust := trust; sh_resolver := resolver;
                      sh_pki := pki |}, h)
      end
  end.

Definition shared_rotate_leaf (sh : SharedTls) (drawn : Result string KeyPair) (rnd : bytes) (now : Z)
    (h : Cells) : option (Result CoreError Z * Cells) :=
  match issue_leaf (sh_pki sh) drawn rnd now with
  | None => None
  | Some (Err e) => Some (Err e, h)
  | Some (Ok leaf) =>
      match certified_key leaf with
      | Err e => Some (Err e, h)
      | Ok next => Some (Ok (nl_not_after_ms leaf), resolver_store (sh_resolver sh) next h)
      end
  end.

Record SharedServerConfig := {
  ssc_provider : CryptoProvider;
  ssc_verifier : PinnedClientCertVerifier;
  ssc_resolver : RotatingResolver;
  ssc_storage : SessionStorage;
}.

(** The builder gives the configuration an empty session storage of its own. *)
Definition shared_server_config (sh : SharedTls) (h : Cells) : Result CoreError SharedServerConfig * Cells :=
  let verifier := client_verifier_new (sh_provider sh) (sh_trust sh) in
  match map_err (tls_err "server protocol versions") (tls13_with (kx_groups (sh_provider sh))) with
  | Err e => (Err e, h)
  | Ok _ =>
      (Ok {| ssc_provider := sh_provider sh; ssc_verifier := verifier; ssc_resolver := sh_resolver sh;
             ssc_storage := length (storages h) |},
       {| trusts := trusts h; keys := keys h; storages := storages h ++ [no_sessions] |})
  end.

Record SharedClientConfig := {
  scc_provider : CryptoProvider;
  scc_verifier : PinnedServerCertVerifier;
  scc_auth : CertifiedKey;
}.

Definition shared_client_config (sh : SharedTls) (drawn : Result string KeyPair) (rnd : bytes) (now : Z) :
    option (Result CoreError SharedClientConfig) :=
  match issue_leaf (sh_pki sh) drawn rnd now with
  | None => None
  | Some r => Some (
      let? leaf := r in
      let verifier := server_verifier_new (sh_provider sh) (sh_trust sh) in
      let? _ := map_err (tls_err "client protocol versions") (tls13_with (kx_groups (sh_provider sh))) in
      let? key := map_err (tls_err "client auth cert")
                    (client_auth_cert (nl_chain_der leaf) (nl_private_key_der leaf)) in
      Ok {| scc_provider := sh_provider sh; scc_verifier := verifier;
            scc_auth := {| ck_chain := nl_chain_der leaf; ck_key := key |} |})
  end.

(** ** What the handles show *)

(** The value of a node: the contents of its cells. *)
Definition node_value (h : Cells) (sh : SharedTls) : option NodeTls :=
  set ← trusts h !! sh_trust sh; key ← keys h !! sh_resolver sh;
  Some {| nt_provider := kx_groups (sh_provider sh); nt_trust := set; nt_current := key;
          nt_pki := sh_pki sh |}.

(** What the library sees of a configuration during a handshake. *)
Definition server_view (h : Cells) (c : SharedServerConfig) : option ServerConfig :=
  set ← trusts h !! pc_trust (ssc_verifier c);
  Some {| sc_groups := kx_groups (ssc_provider c); sc_client_trust := set;
          sc_resolver := resolver_resolve (ssc_resolver c) h |}.

Definition client_view (h : Cells) (c : SharedClientConfig) : option ClientConfig :=
  set ← trusts h !! ps_trust (scc_verifier c);
  Some {| cc_groups := kx_groups (scc_provider c); cc_server_trust := set; cc_auth := scc_auth c |}.

(** The chain of the session that a hello resumes at this configuration. *)
Definition resumes_at (h : Cells) (c : SharedServerConfig) (hello : Hello) : option (list bytes) :=
  ses ← storages h !! ssc_storage c; resumes ses hello.

(** A handshake with a peer. *)
Definition shared_serve (c : SharedServerConfig) (hello : Hello) (now : Z) (d : bytes) (h : Cells) :
    Result string (NamedGroup * list bytes) * Cells :=
  match server_view h c, storages h !! ssc_storage c with
  | Some sc, Some ses =>
      let '(r, ses) := tls_serve hello sc now d ses in
      (r, {| trusts := trusts h; keys := keys h; storages := <[ssc_storage c := ses]> (storages h) |})
  | _, _ => (Err "no such handle", h)
  end.

(** The server side of a full handshake calls the verifier on the client's chain,
    then on the signature of the transcript. *)
Definition server_checks (c : SharedServerConfig) (now : Z) (message : bytes) (ck : CertifiedKey)
    (h : Cells) : Result string unit :=
  match ck_chain ck with
  | [] => Err "peer sent no certificates"
  | leaf :: intermediates =>
      let? _ := pc_verify_client_cert (ssc_verifier c) leaf intermediates now h in
      pc_verify_tls13_signature (ssc_verifier c) message leaf (tls_sign (ck_key ck) message)
  end.

Definition client_checks (c : SharedClientConfig) (name : text) (now : Z) (message : bytes)
    (ck : CertifiedKey) (h : Cells) : Result string unit :=
  match ck_chain ck with
  | [] => Err "peer sent no certificates"
  | leaf :: intermediates =>
      let? _ := ps_verify_server_cert (scc_verifier c) leaf intermediates name [] now h in
      ps_verify_tls13_signature (scc_verifier c) message leaf (tls_sign (ck_key ck) message)
  end.

(** ** A life of the cells *)

(** What the process does to the cells after node [sh] was assembled and its
    configuration [c] was built: the registry replaces a trust set, new stores
    and new nodes appear, [sh] rotates its leaf, and a peer connects. *)
Inductive CellOp : Type :=
| OReplace (s : TrustStore) (fps : list text)
| OStore (fps : list text)
| ONode (pki : RcgenNodeCa) (trust : TrustStore) (drawn : Result string KeyPair) (rnd : bytes) (now : Z)
| ORotate (drawn : Result string KeyPair) (rnd : bytes) (now : Z)
| OServe (hello : Hello) (now : Z) (d : bytes).

(** [None] is a panic of [issue_leaf]. *)
Definition cell_op (sh : SharedTls) (c : SharedServerConfig) (h : Cells) (o : CellOp) : option Cells :=
  match o with
  | OReplace s fps => Some (store_replace s fps h)
  | OStore fps => Some (store_from_fingerprints fps h).2
  | ONode pki trust drawn rnd now => snd <$> shared_new pki trust drawn rnd now h
  | ORotate drawn rnd now => snd <$> shared_rotate_leaf sh drawn rnd now h
  | OServe hello now d => Some (shared_serve c hello now d h).2
  end.

Fixpoint cell_run (sh : SharedTls) (c : SharedServerConfig) (h : Cells) (os : list CellOp) : option Cells :=
  match os with [] => Some h | o :: os => h ← cell_op sh c h o; cell_run sh c h os end.

(** The same on the values of [Tls]. *)
Definition value_op (sh : SharedTls) (t : NodeTls) (o : CellOp) : option NodeTls :=
  match o with
  | OReplace s fps =>
      Some (if decide (s = sh_trust sh)
            then {| nt_provider := nt_provider t; nt_trust := from_fingerprints fps;
                    nt_current := nt_current t; nt_pki := nt_pki t |}
            else t)
  | OStore _ => Some t
  | ONode pki _ drawn rnd now => _ ← NodeTls_new pki ∅ drawn rnd now; Some t
  | ORotate drawn rnd now => snd <$> NodeTls_rotate_leaf drawn rnd now t
  | OServe _ _ _ => Some t
  end.

Fixpoint value_run (sh : SharedTls) (t : NodeTls) (os : list CellOp) : option NodeTls :=
  match os with [] => Some t | o :: os => t ← value_op sh t o; value_run sh t os end.

(** During [os] the peer with this chain passed a full handshake: the trust set
    of that time accepted the chain, and the peer proved the leaf's key. *)
Definition verified_during (sh : SharedTls) (t : NodeTls) (os : list CellOp) (chain : list bytes) : Prop :=
  ∃ os1 os2 hello now d t1,
    os = os1 ++ OServe hello now d :: os2 ∧ value_run sh t os1 = Some t1 ∧
    ck_chain (he_auth hello) = chain ∧ verify_side (nt_trust t1) now (he_auth hello) = Ok tt.

Lemma node_value_Some h sh t :
  node_value h sh = Some t ↔
  trusts h !! sh_trust sh = Some (nt_trust t) ∧ keys h !! sh_resolver sh = Some (nt_current t) ∧
  nt_provider t = kx_groups (sh_provider sh) ∧ nt_pki t = sh_pki sh.
Proof.
  unfold node_value. destruct (trusts h !! _) as [set|]; [|split; [done|naive_solver]].
  destruct (keys h !! _) as [key|]; [|split; [done|naive_solver]]. cbn. split.
  - by intros [= <-].
  - destruct t. cbn. by intros ([= ->] & [= ->] & -> & ->).
Qed.

Lemma shared_serve_cells c hello now d h :
  trusts (shared_serve c hello now d h).2 = trusts h ∧ keys (shared_serve c hello now d h).2 = keys h.
Proof.
  unfold shared_serve. destruct (server_view h c); [|done]. destruct (storages h !! _); [|done].
  by destruct (tls_serve _ _ _ _ _).
Qed.

Lemma cell_op_value sh c h o t :
  node_value h sh = Some t →
  match cell_op sh c h o with
  | Some h' => ∃ t', value_op sh t o = Some t' ∧ node_value h' sh = Some t'
  | None => value_op sh t o = None
  end.
Proof.
  intros Hv. pose proof Hv as (H1 & H2 & H3 & H4)%node_value_Some.
  assert (sh_trust sh < length (trusts h))%nat as Hl1 by by eapply lookup_lt_Some.
  assert (sh_resolver sh < length (keys h))%nat as Hl2 by by eapply lookup_lt_Some.
  destruct o as [s fps|fps|pki trust drawn rnd now|drawn rnd now|hello now d]; cbn [cell_op value_op].
  - eexists. split; [done|]. apply node_value_Some. cbn. destruct (decide (s = sh_trust sh)) as [->|Hne].
    + by rewrite list_lookup_insert_eq.
    + by rewrite list_lookup_insert_ne.
  - exists t. split; [done|]. apply node_value_Some. cbn. by rewrite lookup_app_l.
  - unfold shared_new, NodeTls_new. destruct (issue_leaf _ _ _ _) as [[leaf|e]|]; [|by exists t|done].
    cbn [rbind]. destruct (certified_key leaf) as [ck|e]; [|by exists t].
    exists t. split; [done|]. apply node_value_Some. cbn. by rewrite lookup_app_l.
  - unfold shared_rotate_leaf, NodeTls_rotate_leaf. rewrite H4.
    destruct (issue_leaf _ _ _ _) as [[leaf|e]|]; [|by exists t|done].
    destruct (certified_key leaf) as [ck|e]; [|by exists t].
    eexists. split; [done|]. apply node_value_Some. cbn. by rewrite list_lookup_insert_eq.
  - exists t. split; [done|]. apply node_value_Some.
    destruct (shared_serve_cells c hello now d h) as [-> ->]. done.
Qed.

(** Only a handshake touches the session storages. *)
Lemma cell_op_storages sh c h o h' :
  cell_op sh c h o = Some h' →
  storages h' = storages h ∨ ∃ hello now d, o = OServe hello now d ∧ h' = (shared_serve c hello now d h).2.
Proof.
  destruct o as [s fps|fps|pki trust drawn rnd now|drawn rnd now|hello now d]; cbn [cell_op].
  - intros [= <-]. by left.
  - intros [= <-]. by left.
  - unfold shared_new. destruct (issue_leaf _ _ _ _) as [[leaf|e]|]; [|by intros [= <-]; left|done].
    destruct (certified_key leaf); intros [= <-]; by left.
  - unfold shared_rotate_leaf. destruct (issue_leaf _ _ _ _) as [[leaf|e]|]; [|by intros [= <-]; left|done].
    destruct (certified_key leaf); intros [= <-]; by left.
  - intros [= <-]. right. by eexists _, _, _.
Qed.

Lemma cell_run_snoc os o sh c h h' :
  cell_run sh c h (os ++ [o]) = Some h' ↔ ∃ h1, cell_run sh c h os = Some h1 ∧ cell_op sh c h1 o = Some h'.
Proof.
  revert h. induction os as [|o' os IH]; intros h; cbn [cell_run app].
  - split; [intros (h1 & H & [= <-])%bind_Some; eauto|intros (h1 & [= ->] & ->); done].
  - destruct (cell_op sh c h o') as [h1|]; cbn; [apply IH|]. naive_solver.
Qed.

Lemma value_run_snoc os o sh t t1 :
  value_run sh t os = Some t1 → value_run sh t (os ++ [o]) = value_op sh t1 o.
Proof.
  revert t. induction os as [|o' os IH]; intros t; cbn [value_run app].
  - intros [= ->]. by destruct (value_op sh t1 o).
  - destruct (value_op sh t o') as [t2|]; cbn; [apply IH|done].
Qed.

Lemma server_view_value h0 h h1 sh t c :
  node_value h sh = Some t → shared_server_config sh h0 = (Ok c, h1) →
  Ok <$> server_view h c = Some (server_config t).
Proof.
  intros (H1 & H2 & H3 & H4)%node_value_Some Hc. unfold shared_server_config in Hc.
  destruct (map_err _ _) as [u|e] eqn:Ha; [|done]. injection Hc as <- <-.
  unfold server_view, server_config. cbn [ssc_verifier pc_trust client_verifier_new ssc_provider ssc_resolver].
  rewrite H1. cbn. rewrite H3. unfold resolver_resolve, resolve_cert. rewrite H2.
  by rewrite Ha.
Qed.

Lemma shared_server_config_new sh h c h1 :
  shared_server_config sh h = (Ok c, h1) →
  node_value h1 sh = node_value h sh ∧ storages h1 !! ssc_storage c = Some no_sessions ∧
  ssc_verifier c = client_verifier_new (sh_provider sh) (sh_trust sh).
Proof.
  unfold shared_server_config. destruct (map_err _ _); [|done]. intros [= <- <-].
  split_and!; [done| |done]. cbn. by rewrite list_lookup_middle.
Qed.

Lemma client_view_value h sh t drawn rnd now c :
  node_value h sh = Some t → shared_client_config sh drawn rnd now = Some (Ok c) →
  Some ∘ Ok <$> client_view h c = Some (client_config t drawn rnd now).
Proof.
  intros (H1 & H2 & H3 & H4)%node_value_Some Hc. unfold shared_client_config in Hc.
  unfold client_config. rewrite H4. destruct (issue_leaf _ _ _ _) as [[leaf|e]|]; [|done..].
  injection Hc as Hc. cbn [rbind] in *. inv_ok. subst c. unfold client_view.
  cbn [scc_verifier ps_trust server_verifier_new scc_provider scc_auth].
  rewrite H1. cbn. rewrite H3, Ha, Ha0. done.
Qed.

Lemma shared_new_value fps pki store drawn rnd now h h0 sh h1 :
  store_from_fingerprints fps h = (store, h0) →
  shared_new pki store drawn rnd now h0 = Some (Ok sh, h1) →
  sh_provider sh = shared_provider ∧
  ∃ t, NodeTls_new pki (from_fingerprints fps) drawn rnd now = Some (Ok t) ∧ node_value h1 sh = Some t.
Proof.
  intros [= <- <-] Hn. unfold shared_new in Hn. unfold NodeTls_new.
  destruct (issue_leaf _ _ _ _) as [[leaf|e]|]; [|done..].
  cbn [rbind]. destruct (certified_key leaf) as [ck|e]; [|done].
  injection Hn as <- <-. split; [done|]. eexists. split; [done|]. apply node_value_Some. cbn.
  by rewrite !list_lookup_middle.
Qed.

Context `{SL : !SignatureLaws} `{TL : !HandshakeLaws}.

(** What holds of the cells at any time of a life. *)
Lemma cell_run_inv os h0 sh h1 c t h2 :
  node_value h0 sh = Some t → shared_server_config sh h0 = (Ok c, h1) → cell_run sh c h1 os = Some h2 →
  ∃ t' ses, value_run sh t os = Some t' ∧ node_value h2 sh = Some t' ∧ storages h2 !! ssc_storage c = Some ses ∧
    ∀ hello chain, resumes ses hello = Some chain → verified_during sh t os chain.
Proof.
  intros Hv Hc. pose proof (shared_server_config_new _ _ _ _ Hc) as (Hv1 & Hs1 & _). rewrite Hv in Hv1.
  revert h2. induction os as [|o os IH] using rev_ind; intros h2.
  { intros [= <-]. exists t, no_sessions. split_and!; [done..|]. intros hello chain. by rewrite resumes_none. }
  intros (h3 & Hr & Ho)%cell_run_snoc. destruct (IH _ Hr) as (t3 & ses & Hrun & Hv3 & Hs3 & Hver).
  pose proof (cell_op_value sh c h3 o t3 Hv3) as Hop. rewrite Ho in Hop. destruct Hop as (t' & Ht' & Hv').
  assert (∀ chain, verified_during sh t os chain → verified_during sh t (os ++ [o]) chain) as Hmono.
  { intros chain (os1 & os2 & hello & now & d & t1 & -> & H). exists os1, (os2 ++ [o]), hello, now, d, t1.
    by rewrite <-app_assoc. }
  exists t'. rewrite (value_run_snoc _ _ _ _ _ Hrun).
  destruct (cell_op_storages _ _ _ _ _ Ho) as [Hsame|(hello & now & d & -> & ->)].
  { exists ses. rewrite Hsame. split_and!; [done..|]. eauto. }
  pose proof (server_view_value h0 h3 h1 sh t3 c Hv3 Hc) as Hview. unfold shared_serve.
  destruct (server_view h3 c) as [sc|] eqn:Esc; [|done]. cbn in Hview. injection Hview as Hview. rewrite Hs3.
  destruct (tls_serve hello sc now d ses) as [r ses'] eqn:E. exists ses'. cbn [snd storages].
  assert (ssc_storage c < length (storages h3))%nat by by eapply lookup_lt_Some.
  split_and!; [done| |by rewrite list_lookup_insert_eq|].
  { unfold shared_serve in Hv'. rewrite Esc, Hs3, E in Hv'. exact Hv'. }
  intros hello' chain Hres. destruct (sessions_law hello sc now d ses hello' chain) as [Hold|[g Hg]];
    [by rewrite E|eauto|]. rewrite E in Hg. cbn [fst] in Hg. subst r.
  destruct (resumes ses hello) as [ch|] eqn:Er.
  - pose proof (proj1 (serve_resumed hello sc now d ses ch g chain Er)) as H'. rewrite E in H'.
    destruct (H' eq_refl) as (-> & _). eauto.
  - pose proof (serve_full hello sc now d ses Er) as Hf. rewrite E in Hf. cbn [fst] in Hf. symmetry in Hf.
    apply rbind_Ok in Hf as (g' & (_ & _ & Hvs)%accept_law & [= _ <-]).
    exists os, [], hello, now, d, t3. split_and!; [done..|]. unfold server_config in Hview. symmetry in Hview.
    inv_ok. subst sc. exact Hvs.
Qed.

Lemma server_checks_value h0 h h1 sh t c now message ck :
  node_value h sh = Some t → sh_provider sh = shared_provider → shared_server_config sh h0 = (Ok c, h1) →
  server_checks c now message ck h = Ok tt ↔ verify_side (nt_trust t) now ck = Ok tt.
Proof.
  intros (H1 & _)%node_value_Some Hp (_ & _ & Hver)%shared_server_config_new.
  unfold server_checks, verify_side, pc_verify_client_cert, verify_pinned_live, pc_verify_tls13_signature.
  rewrite Hver. cbn [client_verifier_new pc_trust pc_provider]. rewrite H1, Hp. cbn [default].
  destruct (ck_chain ck) as [|leaf ints]; [done|].
  destruct (verify_pinned_chain _ _ _ _) as [[]|e]; cbn [rbind]; [|done].
  rewrite tls13_verify_law. by destruct (proves _ _).
Qed.

Lemma client_checks_value h sh t drawn rnd at_ns c name now message ck :
  node_value h sh = Some t → sh_provider sh = shared_provider →
  shared_client_config sh drawn rnd at_ns = Some (Ok c) →
  client_checks c name now message ck h = Ok tt ↔ verify_side (nt_trust t) now ck = Ok tt.
Proof.
  intros (H1 & _)%node_value_Some Hp Hc. unfold shared_client_config in Hc.
  destruct (issue_leaf _ _ _ _) as [[leaf|e]|]; [|done..]. injection Hc as Hc. cbn [rbind] in Hc.
  inv_ok. subst c.
  unfold client_checks, verify_side, ps_verify_server_cert, verify_pinned_live, ps_verify_tls13_signature.
  cbn [scc_verifier server_verifier_new ps_trust ps_provider]. rewrite H1, Hp. cbn [default].
  destruct (ck_chain ck) as [|leaf' ints]; [done|].
  destruct (verify_pinned_chain _ _ _ _) as [[]|e]; cbn [rbind]; [|done].
  rewrite tls13_verify_law. by destruct (proves _ _).
Qed.

(** C15: the live handles implement the values.  Assemble a node over shared
    cells and build its server configuration once.  Then, through any sequence
    of replaced trust sets, new stores, new nodes, leaf rotations and handshakes
    with peers, the configuration shows at every time exactly what a
    configuration newly built from the node's values of that time would be, the
    values being those that the operations of the value model give, and the
    verifier inside it accepts a client exactly when that trust set accepts the
    chain and the key signed the transcript.  A peer that does not resume a
    session is let in exactly as by that newly built configuration; a peer that
    does resume one (which no newly built configuration would know) is one whose
    chain passed a full handshake before, under the trust set of that time.
    Every client configuration shows the values of the time as well, and so does
    its verifier.  So a trust change or a rotation takes effect in the next full
    handshake without a new configuration. *)
Theorem live_config_implements_values pki fps drawn rnd now h store h0 sh h1 c h2 os h3 :
  store_from_fingerprints fps h = (store, h0) →
  shared_new pki store drawn rnd now h0 = Some (Ok sh, h1) →
  shared_server_config sh h1 = (Ok c, h2) → cell_run sh c h2 os = Some h3 →
  ∃ t t', NodeTls_new pki (from_fingerprints fps) drawn rnd now = Some (Ok t) ∧
    value_run sh t os = Some t' ∧
    (Ok <$> server_view h3 c = Some (server_config t') ∧
     ∀ at_s message ck, server_checks c at_s message ck h3 = Ok tt ↔
       verify_side (nt_trust t') at_s ck = Ok tt) ∧
    (∀ hello, match resumes_at h3 c hello with
              | None => ∀ sc at_s d, server_config t' = Ok sc →
                  (shared_serve c hello at_s d h3).1 = (tls_serve hello sc at_s d no_sessions).1
              | Some chain => verified_during sh t os chain
              end) ∧
    ∀ drawn' rnd' at_ns cc, shared_client_config sh drawn' rnd' at_ns = Some (Ok cc) →
      Some ∘ Ok <$> client_view h3 cc = Some (client_config t' drawn' rnd' at_ns) ∧
      ∀ name at_s message ck, client_checks cc name at_s message ck h3 = Ok tt ↔
        verify_side (nt_trust t') at_s ck = Ok tt.
Proof.
  intros Hs Hn Hc Hr. destruct (shared_new_value _ _ _ _ _ _ _ _ _ _ Hs Hn) as (Hp & t & Ht & Hv).
  destruct (cell_run_inv os h1 sh h2 c t h3 Hv Hc Hr) as (t' & ses & Hrun & Hv' & Hst & Hver).
  pose proof (server_view_value h1 h3 h2 sh t' c Hv' Hc) as Hview.
  exists t, t'. split_and!; [done|done|done| | |].
  - intros. by eapply server_checks_value.
  - intros hello. unfold resumes_at. rewrite Hst. cbn. destruct (resumes ses hello) as [chain|] eqn:E; [by eapply Hver|].
    intros sc at_s d Hsc. unfold shared_serve. rewrite Hst. rewrite Hsc in Hview.
    destruct (server_view h3 c); [|done]. cbn in Hview. injection Hview as ->.
    rewrite (serve_full hello sc at_s d no_sessions) by apply resumes_none.
    rewrite <-(serve_full hello sc at_s d ses E). by destruct (tls_serve hello sc at_s d ses).
  - intros drawn' rnd' at_ns cc Hcc. split; [by eapply client_view_value|].
    intros. by eapply client_checks_value.
Qed.
End Shared.

(** ** Witness *)

(** A signature is the key and what was signed. *)
Definition model_signature_check (message cert : bytes) (dss : byte * bytes) (algs : unit) : Result string unit :=
  if bool_decide (nth 1 cert Byte.x00 = dss.1 ∧ dss.2 = message) then Ok tt else Err "bad signature".

#[export] Instance model_signatures : RustlsSignatures := {|
  DigitallySignedStruct := byte * bytes;
  Algorithms := unit;
  SignatureScheme := unit;
  DistinguishedName := unit;
  default_algorithms := tt;
  tls_sign k m := (k, m);
  tls12_verify := model_signature_check;
  tls13_verify := model_signature_check;
  supported_schemes _ := [tt];
|}.

#[export] Instance model_signature_laws : SignatureLaws.
Proof.
  split. intros key leaf message. cbn. unfold model_signature_check. cbn. rewrite bool_decide_eq_true.
  case_bool_decide; naive_solver.
Qed.

Module SharedSample.
Import TlsSample.

Definition cells : Cells := {| trusts := []; keys := []; storages := [] |}.
Definition node : SharedTls :=
  {| sh_provider := shared_provider; sh_trust := 0%nat; sh_resolver := 0%nat; sh_pki := ca Byte.xbb |}.
Definition cells0 : Cells := {| trusts := [list_to_set []]; keys := []; storages := [] |}.
Definition cells1 : Cells := {| trusts := [list_to_set []]; keys := [certified Byte.xbb Byte.xb1]; storages := [] |}.
Definition config : SharedServerConfig :=
  {| ssc_provider := shared_provider; ssc_verifier := client_verifier_new shared_provider 0%nat;
     ssc_resolver := 0%nat; ssc_storage := 0%nat |}.
Definition cells2 : Cells :=
  {| trusts := [list_to_set []]; keys := [certified Byte.xbb Byte.xb1]; storages := [no_sessions] |}.
Definition friend : text := fingerprint (ca_cert Byte.xaa).
Definition hello : Hello := hello_of (TlsSample.config a Byte.xa2).
(** The friend is pinned, connects, and is distrusted again. *)
Definition ops : list CellOp :=
  [OStore []; OReplace 0%nat [friend]; OServe hello soon [Byte.x07]; OReplace 0%nat [];
   ORotate (NodeSample.drawn Byte.xb2) [] NodeSample.now].
Definition cells3 : Cells :=
  {| trusts := [list_to_set []; list_to_set []]; keys := [certified Byte.xbb Byte.xb2];
     storages := [[([Byte.x07], ck_chain (he_auth hello))] : Sessions] |}.
(** It comes back with its ticket. *)
Definition again : Hello :=
  {| he_groups := pq_provider; he_auth := he_auth hello; he_tickets := true; he_psk := Some [Byte.x07] |}.

Lemma node_born :
  shared_new (ca Byte.xbb) 0%nat (NodeSample.drawn Byte.xb1) [] NodeSample.now cells0
  = Some (Ok node, cells1).
Proof. unfold shared_new. rewrite issued_b. reflexivity. Qed.

Lemma issued_again :
  issue_leaf (ca Byte.xbb) (NodeSample.drawn Byte.xb2) [] NodeSample.now = Some (Ok (leaf Byte.xbb Byte.xb2)).
Proof. reflexivity. Qed.

Lemma config_built : shared_server_config node cells1 = (Ok config, cells2).
Proof. reflexivity. Qed.

Lemma friend_served h :
  trusts h = [list_to_set [friend]; list_to_set []] → keys h = [certified Byte.xbb Byte.xb1] →
  storages h = [no_sessions] →
  (shared_serve config hello soon [Byte.x07] h).2
  = {| trusts := trusts h; keys := keys h; storages := [[([Byte.x07], ck_chain (he_auth hello))] : Sessions] |}.
Proof. destruct h as [ts ks ss]. cbn [trusts keys storages]. intros -> -> ->. reflexivity. Qed.

Lemma node_lives : cell_run node config cells2 ops = Some cells3.
Proof.
  unfold cell_run, ops. cbn [cell_op mbind option_bind]. rewrite friend_served by reflexivity.
  unfold shared_rotate_leaf. change (sh_pki node) with (ca Byte.xbb). rewrite issued_again. reflexivity.
Qed.
End SharedSample.

(** The configuration of a node that trusts nobody any more shows this, serves
    the rotated leaf, and lets the former friend resume: it had been verified. *)
Lemma live_config_implements_values_witness :
  ∃ t', value_run SharedSample.node (TlsSample.node Byte.xbb Byte.xb1 []) SharedSample.ops = Some t' ∧
    Ok <$> server_view SharedSample.cells3 SharedSample.config = Some (server_config t') ∧
    resumes_at SharedSample.cells3 SharedSample.config SharedSample.again
      = Some (ck_chain (he_auth SharedSample.hello)) ∧
    verified_during SharedSample.node (TlsSample.node Byte.xbb Byte.xb1 []) SharedSample.ops
      (ck_chain (he_auth SharedSample.hello)).
Proof.
  destruct (live_config_implements_values (TlsSample.ca Byte.xbb) [] (NodeSample.drawn Byte.xb1) []
    NodeSample.now SharedSample.cells 0%nat SharedSample.cells0 SharedSample.node SharedSample.cells1
    SharedSample.config SharedSample.cells2 SharedSample.ops SharedSample.cells3 eq_refl SharedSample.node_born
    SharedSample.config_built SharedSample.node_lives) as (t & t' & Ht & Hrun & [Hview _] & Hserve & _).
  unfold NodeTls_new in Ht. rewrite TlsSample.issued_b in Ht. injection Ht as <-.
  exists t'. split; [exact Hrun|]. split; [exact Hview|]. split; [reflexivity|].
  exact (Hserve SharedSample.again).
Defined.
