(* ===== verification/PkiPort.v ===== *)
(** * The PKI port: [NodePki] of [buh-core/src/ports.rs]

    [NodeTls] holds its CA behind the trait [NodePki].  [NodePki] is the trait
    as a class, [PkiContract] is what its documentation promises, and the TLS
    material of [api/tls.rs] is written against it: leaves, rotation and
    configurations for any implementation.  [RcgenNodeCa] discharges the
    contract, and at it the definitions are those of [Tls]. *)

From S2P Require Import Prelude.
From S2P Require Import Text.
From S2P Require Import Entities.
From S2P Require Import PeerTrust.
From S2P Require Import NodeCa.
From S2P Require Import Tls.
From S2P Require Import ModelHttp.
#[local] Open Scope Z_scope.

(** ** The port *)

Section Port.
Context `{EX : Externals} `{X : X509} `{RU : !Rustls}.

(** [Draw] is the randomness of one call of [issue_leaf]; [None] is a panic. *)
Class NodePki (P : Type) := {
  Draw : Type;
  pki_fingerprint : P → text;
  pki_cert_der : P → bytes;
  pki_issue : P → Draw → Z → option (Result CoreError NodeLeaf);
}.

(** [pki_good p at_ns t]: the CA, and a leaf issued at [at_ns], are valid at
    [t].  The fingerprint is that of the certificate; a leaf comes with the
    chain "leaf first then the issuing node CA" and with its own key. *)
Class PkiContract (P : Type) `{NP : !NodePki P} := {
  pki_good : P → Z → Z → Prop;
  pki_pin p at_ns t : pki_good p at_ns t → pki_fingerprint p = fingerprint (pki_cert_der p);
  pki_issue_law p d at_ns leaf :
    pki_issue p d at_ns = Some (Ok leaf) →
    ∃ leaf_der, nl_chain_der leaf = [leaf_der; pki_cert_der p] ∧
      (∀ key, load_private_key (nl_private_key_der leaf) = Ok key → proves key leaf_der = true) ∧
      (∀ key, client_auth_cert (nl_chain_der leaf) (nl_private_key_der leaf) = Ok key →
         proves key leaf_der = true) ∧
      ∀ t, pki_good p at_ns t → chain_ok leaf_der (pki_cert_der p) t;
}.

(** ** [NodeTls] with [Arc<dyn NodePki>] *)

Record DynTls (P : Type) := {
  dt_provider : list NamedGroup;
  dt_trust : gset text;
  dt_current : CertifiedKey;
  dt_pki : P;
}.
Arguments dt_provider {P}.
Arguments dt_trust {P}.
Arguments dt_current {P}.
Arguments dt_pki {P}.

Section Node.
Context {P : Type} `{NP : !NodePki P}.

Definition dyn_new (pki : P) (trust : gset text) (d : Draw) (now : Z) : option (Result CoreError (DynTls P)) :=
  match pki_issue pki d now with
  | None => None
  | Some r => Some (
      let? leaf := r in
      let? current := certified_key leaf in
      Ok {| dt_provider := pq_provider; dt_trust := trust; dt_current := current; dt_pki := pki |})
  end.

Definition dyn_rotate_leaf (d : Draw) (now : Z) (t : DynTls P) : option (Result CoreError Z * DynTls P) :=
  match pki_issue (dt_pki t) d now with
  | None => None
  | Some (Err e) => Some (Err e, t)
  | Some (Ok leaf) =>
      match certified_key leaf with
      | Err e => Some (Err e, t)
      | Ok next =>
          Some (Ok (nl_not_after_ms leaf),
                {| dt_provider := dt_provider t; dt_trust := dt_trust t; dt_current := next; dt_pki := dt_pki t |})
      end
  end.

Definition dyn_server_config (t : DynTls P) : Result CoreError ServerConfig :=
  let? _ := map_err (tls_err "server protocol versions") (tls13_with (dt_provider t)) in
  Ok {| sc_groups := dt_provider t; sc_client_trust := dt_trust t; sc_resolver := Some (dt_current t) |}.

Definition dyn_client_config (t : DynTls P) (d : Draw) (now : Z) : option (Result CoreError ClientConfig) :=
  match pki_issue (dt_pki t) d now with
  | None => None
  | Some r => Some (
      let? leaf := r in
      let? _ := map_err (tls_err "client protocol versions") (tls13_with (dt_provider t)) in
      let? key := map_err (tls_err "client auth cert")
                    (client_auth_cert (nl_chain_der leaf) (nl_private_key_der leaf)) in
      Ok {| cc_groups := dt_provider t; cc_server_trust := dt_trust t;
            cc_auth := {| ck_chain := nl_chain_der leaf; ck_key := key |} |})
  end.

(** ** What follows from the contract *)

Context `{PC : !PkiContract P}.

(** [ck] was issued by [p] at [at_ns]: whoever looks at it accepts exactly
    when he pins [p]. *)
Definition issued_by (p : P) (at_ns : Z) (ck : CertifiedKey) : Prop :=
  ∀ t trusted, pki_good p at_ns t → verify_side trusted t ck = Ok tt ↔ pki_fingerprint p ∈ trusted.

Lemma issued_chain p at_ns ck leaf_der :
  ck_chain ck = [leaf_der; pki_cert_der p] → proves (ck_key ck) leaf_der = true →
  (∀ t, pki_good p at_ns t → chain_ok leaf_der (pki_cert_der p) t) → issued_by p at_ns ck.
Proof.
  intros Hch Hp Hok t trusted Hg. unfold verify_side. rewrite Hch, Hp, (pki_pin p at_ns t Hg).
  assert (verify_pinned_chain leaf_der [pki_cert_der p] t trusted = Ok tt ↔
    fingerprint (pki_cert_der p) ∈ trusted) as <-.
  { rewrite verify_pinned_chain_Ok. split; [by intros (? & [= <-] & ? & _)|]. intros Hin.
    exists (pki_cert_der p). split_and!; [done..|]. by apply Hok. }
  destruct (verify_pinned_chain _ _ _ _) as [[]|e]; cbn [rbind]; naive_solver.
Qed.

Lemma certified_issued p d at_ns leaf ck :
  pki_issue p d at_ns = Some (Ok leaf) → certified_key leaf = Ok ck → issued_by p at_ns ck.
Proof.
  intros (ld & Hch & Hl & _ & Hok)%pki_issue_law Hck. unfold certified_key in Hck. inv_ok. subst ck.
  eapply issued_chain; [done| |done]. by apply Hl.
Qed.

Lemma dyn_client_issued t d now cc :
  dyn_client_config t d now = Some (Ok cc) →
  cc_groups cc = dt_provider t ∧ cc_server_trust cc = dt_trust t ∧ issued_by (dt_pki t) now (cc_auth cc).
Proof.
  unfold dyn_client_config. destruct (pki_issue _ _ _) as [[leaf|e]|] eqn:Hi; [|done..].
  intros [= H]. inv_ok. subst cc. split_and!; [done..|].
  apply pki_issue_law in Hi as (ld & Hch & _ & Hc & Hok). eapply issued_chain; [done| |done]. by apply Hc.
Qed.

(** The leaf a node serves: that of its start, renewed by the rotations that
    succeed. *)
Definition dyn_serves (t : DynTls P) (since : Z) : Prop :=
  dt_provider t = pq_provider ∧ issued_by (dt_pki t) since (dt_current t).

Lemma dyn_new_serves pki trust d now t :
  dyn_new pki trust d now = Some (Ok t) → dyn_serves t now ∧ dt_trust t = trust ∧ dt_pki t = pki.
Proof.
  unfold dyn_new. destruct (pki_issue _ _ _) as [[leaf|e]|] eqn:Hi; [|done..]. intros [= H]. inv_ok. subst t.
  split; [|done]. split; [done|]. by eapply certified_issued.
Qed.

Lemma dyn_rotate_serves t since d now r t' :
  dyn_serves t since → dyn_rotate_leaf d now t = Some (r, t') →
  dyn_serves t' (if is_ok r then now else since) ∧ dt_trust t' = dt_trust t ∧ dt_pki t' = dt_pki t.
Proof.
  intros Hs. unfold dyn_rotate_leaf. destruct (pki_issue _ _ _) as [[leaf|e]|] eqn:Hi; [|by intros [= <- <-]|done].
  destruct (certified_key leaf) as [ck|e] eqn:Hc; intros [= <- <-]; [|done].
  split; [|done]. split; [apply Hs|]. by eapply certified_issued.
Qed.

(** A start and a number of rotations, each with what it draws and when;
    [None] when one panics. *)
Fixpoint dyn_life (ops : list (Draw * Z)) (since : Z) (t : DynTls P) : option (Z * DynTls P) :=
  match ops with
  | [] => Some (since, t)
  | (d, now) :: ops =>
      match dyn_rotate_leaf d now t with
      | Some (r, t') => dyn_life ops (if is_ok r then now else since) t'
      | None => None
      end
  end.

Lemma dyn_life_serves ops since t since' t' :
  dyn_serves t since → dyn_life ops since t = Some (since', t') →
  dyn_serves t' since' ∧ dt_trust t' = dt_trust t ∧ dt_pki t' = dt_pki t.
Proof.
  revert since t. induction ops as [|[d now] ops IH]; intros since t Hs H; cbn [dyn_life] in H; [by simplify_eq|].
  destruct (dyn_rotate_leaf d now t) as [[r t1]|] eqn:E; [|done].
  destruct (dyn_rotate_serves _ _ _ _ _ _ Hs E) as (Hs1 & Ht & Hp).
  destruct (IH _ _ Hs1 H) as (? & -> & ->). done.
Qed.
End Node.

(** ** Two nodes with CAs of any kind *)

Context `{TH : !Handshake} `{TL : !HandshakeLaws}.
Context {P Q : Type} `{NP : !NodePki P} `{PC : !PkiContract P} `{NQ : !NodePki Q} `{QC : !PkiContract Q}.

Lemma handshake_decided cc sc tc ts ck (server_pinned client_pinned : Prop) :
  sc_resolver sc = Some ck → cc_groups cc = pq_provider → sc_groups sc = pq_provider →
  (verify_side (cc_server_trust cc) tc ck = Ok tt ↔ server_pinned) →
  (verify_side (sc_client_trust sc) ts (cc_auth cc) = Ok tt ↔ client_pinned) →
  match tls_handshake cc sc tc ts with
  | Ok g => (server_pinned ∧ client_pinned) ∧ g = X25519MLKEM768
  | Err _ => ¬ (server_pinned ∧ client_pinned)
  end.
Proof.
  intros Hr Hcg Hsg Hs Hc.
  assert (∀ g, handshake_accepts cc sc tc ts g ↔ g = X25519MLKEM768 ∧ server_pinned ∧ client_pinned) as Hacc.
  { intros g. unfold handshake_accepts, select_group. rewrite Hcg, Hsg, Hr.
    change (head _) with (Some X25519MLKEM768). split.
    - intros ([= <-] & ck' & [= <-] & H & H'). split_and!; [done|by apply Hs|by apply Hc].
    - intros (-> & H & H'). split; [done|]. exists ck. split_and!; [done|by apply Hs|by apply Hc]. }
  destruct (tls_handshake cc sc tc ts) as [g|e] eqn:E.
  - apply handshake_law, Hacc in E. naive_solver.
  - intros Hm. assert (tls_handshake cc sc tc ts = Ok X25519MLKEM768) by (apply handshake_law, Hacc; naive_solver).
    congruence.
Qed.

(** C17: the trust decision does not depend on how a node keeps its CA.  Take two
    nodes, each with an implementation of the PKI port that keeps the port's
    contract, the server after any number of leaf rotations, failed ones
    included.  At a time at which both CAs are good in the sense of the contract
    (for [RcgenNodeCa]: key and certificate belong together, and the certificate
    and the leaf in use, the server's being the one of its last successful
    rotation, are valid), a full handshake succeeds exactly when each pins the
    other's CA, and then it agrees on the post-quantum group. *)
Theorem any_pki_handshakes_iff_pinned (client : DynTls P) (pki : Q) trust ds at_ns server0 ops since server
    dc now t cc sc :
  dyn_client_config client dc now = Some (Ok cc) → dt_provider client = pq_provider →
  dyn_new pki trust ds at_ns = Some (Ok server0) → dyn_life ops at_ns server0 = Some (since, server) →
  dyn_server_config server = Ok sc →
  pki_good pki since (now / ns_per_sec) → pki_good (dt_pki client) now t →
  match tls_handshake cc sc (now / ns_per_sec) t with
  | Ok g => (pki_fingerprint pki ∈ dt_trust client ∧ pki_fingerprint (dt_pki client) ∈ trust) ∧
            g = X25519MLKEM768
  | Err _ => ¬ (pki_fingerprint pki ∈ dt_trust client ∧ pki_fingerprint (dt_pki client) ∈ trust)
  end.
Proof.
  intros (Hg & Ht & Hi)%dyn_client_issued Hpq (Hs0 & Htr0 & Hp0)%dyn_new_serves Hl Hsc Hgs Hgc.
  destruct (dyn_life_serves _ _ _ _ _ Hs0 Hl) as ((Hsp & Hsi) & Htr & Hp).
  rewrite Hp0 in Hp. rewrite Htr0 in Htr. rewrite Hp in Hsi. unfold dyn_server_config in Hsc. inv_ok. subst sc.
  eapply handshake_decided; [done|by rewrite Hg|done| |]; cbn [sc_client_trust].
  - rewrite Ht. by apply Hsi.
  - rewrite Htr. by apply Hi.
Qed.
End Port.
Arguments dt_provider {_ _ _} _.
Arguments dt_trust {_ _ _} _.
Arguments dt_current {_ _ _} _.
Arguments dt_pki {_ _ _} _.

(** ** [RcgenNodeCa] keeps the contract *)

Section Rcgen.
Context `{EX : Externals} `{RG : Rcgen} `{LR : !RcgenLaws} `{RU : !Rustls} `{LU : !RustlsLaws}.

#[export] Instance rcgen_pki : NodePki RcgenNodeCa := {|
  Draw := Result string KeyPair * bytes;
  pki_fingerprint := nc_ca_fingerprint;
  pki_cert_der := nc_ca_der;
  pki_issue ca d now := issue_leaf ca d.1 d.2 now;
|}.

#[export, program] Instance rcgen_contract : PkiContract RcgenNodeCa := {| pki_good := good_at |}.
Next Obligation. intros ca at_ns t [[Hfp _] _ _]. exact Hfp. Qed.
Next Obligation.
  cbn [pki_issue pki_cert_der rcgen_pki]. intros ca [drawn rnd] at_ns leaf Hi. cbn [fst snd] in Hi.
  destruct (issue_leaf_key _ _ _ _ _ Hi) as (k & ld & x & Hk & Hch & Hx & Hxk). exists ld.
  destruct (issue_leaf_Ok _ _ _ _ _ Hi) as (ld' & x' & Hch' & Hx' & Hv & Hnb & Hna & _).
  rewrite Hch in Hch'. injection Hch' as <-. rewrite Hx in Hx'. injection Hx' as <-.
  split_and!; [done|..].
  - intros key Hl. destruct (load_private_key_law k) as (key' & Hl' & Hp). rewrite Hk, Hl' in Hl.
    injection Hl as <-. by eapply Hp.
  - intros key Hl. destruct (client_auth_cert_law (nl_chain_der leaf) k) as (key' & Hl' & Hp).
    rewrite Hk, Hl' in Hl. injection Hl as <-. by eapply Hp.
  - intros t [[_ (c & Hc & Hbc & Hs & Hpk)] Hval Hleaf]. exists c, x. rewrite Hpk.
    split_and!; try done; [|by apply Hval]. unfold valid_at. rewrite Hnb, Hna. lia.
Qed.

(** The node with this CA, as [Tls] has it. *)
Definition as_dyn (t : NodeTls) : DynTls RcgenNodeCa :=
  {| dt_provider := nt_provider t; dt_trust := nt_trust t; dt_current := nt_current t; dt_pki := nt_pki t |}.

(** At this CA the definitions are those of [Tls]. *)
Lemma dyn_at_rcgen :
  (∀ pki trust drawn rnd now,
     dyn_new pki trust (drawn, rnd) now = (λ r, let? t := r in Ok (as_dyn t)) <$> NodeTls_new pki trust drawn rnd now) ∧
  (∀ t drawn rnd now,
     dyn_rotate_leaf (drawn, rnd) now (as_dyn t) = (λ p, (p.1, as_dyn p.2)) <$> NodeTls_rotate_leaf drawn rnd now t) ∧
  (∀ t, dyn_server_config (as_dyn t) = server_config t) ∧
  (∀ t drawn rnd now, dyn_client_config (as_dyn t) (drawn, rnd) now = client_config t drawn rnd now).
Proof.
  split_and!.
  - intros. unfold dyn_new, NodeTls_new. cbn [pki_issue rcgen_pki fst snd].
    destruct (issue_leaf _ _ _ _) as [[leaf|e]|]; [|done..]. cbn. by destruct (certified_key leaf).
  - intros. unfold dyn_rotate_leaf, NodeTls_rotate_leaf. cbn [pki_issue rcgen_pki fst snd as_dyn dt_pki].
    destruct (issue_leaf _ _ _ _) as [[leaf|e]|]; [|done..]. by destruct (certified_key leaf).
  - done.
  - done.
Qed.
End Rcgen.

(** ** A node with a CA kept elsewhere

    The second implementation has one leaf, issued beforehand. *)

Module PkiSample.
Import TlsSample.
Inductive Offline : Type := TheOffline.
Definition offline_leaf : bytes := [Byte.x00; Byte.xb1; Byte.xbb] ++ be_bytes 8 1767225300 ++ be_bytes 8 1767398400.

#[export] Instance offline_pki : NodePki Offline := {|
  Draw := unit;
  pki_fingerprint _ := fingerprint (ca_cert Byte.xbb);
  pki_cert_der _ := ca_cert Byte.xbb;
  pki_issue _ _ _ := Some (Ok (leaf Byte.xbb Byte.xb1));
|}.

Lemma offline_law (p : Offline) (d : Draw) (at_ns : Z) l :
  pki_issue p d at_ns = Some (Ok l) →
  ∃ leaf_der, nl_chain_der l = [leaf_der; pki_cert_der p] ∧
    (∀ key, load_private_key (nl_private_key_der l) = Ok key → proves key leaf_der = true) ∧
    (∀ key, client_auth_cert (nl_chain_der l) (nl_private_key_der l) = Ok key → proves key leaf_der = true) ∧
    ∀ t, chain_ok offline_leaf (ca_cert Byte.xbb) t → chain_ok leaf_der (pki_cert_der p) t.
Proof.
  intros [= <-]. exists offline_leaf. split_and!; [done| | |done]; intros key [= <-]; reflexivity.
Qed.

#[export] Instance offline_contract : PkiContract Offline :=
  {| pki_good _ _ t := chain_ok offline_leaf (ca_cert Byte.xbb) t; pki_pin _ _ _ _ := eq_refl;
     pki_issue_law := offline_law |}.

(** Nothing is drawn. *)
Definition draw : Draw (NodePki := offline_pki) := tt.
Definition pinned : gset text := {[fingerprint (ca_cert Byte.xaa)]}.
Definition server : DynTls Offline :=
  {| dt_provider := pq_provider; dt_trust := pinned; dt_current := certified Byte.xbb Byte.xb1; dt_pki := TheOffline |}.
Definition config : ServerConfig :=
  {| sc_groups := pq_provider; sc_client_trust := pinned; sc_resolver := Some (certified Byte.xbb Byte.xb1) |}.

Lemma born : dyn_new TheOffline pinned tt 0 = Some (Ok server).
Proof. reflexivity. Qed.
Lemma rotated : dyn_life [(tt, 7); (tt, 9)] 0 server = Some (9, server).
Proof. reflexivity. Qed.
Lemma offline_good t : 1767225300 <= now_secs t <= 1767398400 → chain_ok offline_leaf (ca_cert Byte.xbb) t.
Proof.
  intros Ht. eexists _, _. split_and!; [reflexivity..| |].
  - unfold valid_at. change (not_before _) with 1767225300. change (not_after _) with 1767398400. lia.
  - unfold valid_at. change (not_before _) with 157766400. change (not_after _) with 67090118400. lia.
Qed.
Lemma client_born :
  dyn_client_config (as_dyn a) (NodeSample.drawn Byte.xa2, []) NodeSample.now = Some (Ok (TlsSample.config a Byte.xa2)).
Proof. exact configured. Qed.
End PkiSample.

#[local] Existing Instances PkiSample.offline_pki PkiSample.offline_contract.

Lemma any_pki_handshakes_iff_pinned_witness :
  match tls_handshake (TlsSample.config TlsSample.a Byte.xa2) PkiSample.config (NodeSample.now / ns_per_sec)
          TlsSample.soon with
  | Ok g => (fingerprint (TlsSample.ca_cert Byte.xbb) ∈ nt_trust TlsSample.a ∧
             fingerprint (TlsSample.ca_cert Byte.xaa) ∈ PkiSample.pinned) ∧ g = X25519MLKEM768
  | Err _ => ¬ (fingerprint (TlsSample.ca_cert Byte.xbb) ∈ nt_trust TlsSample.a ∧
                fingerprint (TlsSample.ca_cert Byte.xaa) ∈ PkiSample.pinned)
  end.
Proof.
  apply (any_pki_handshakes_iff_pinned (NP := rcgen_pki) (NQ := PkiSample.offline_pki) (as_dyn TlsSample.a)
    PkiSample.TheOffline PkiSample.pinned PkiSample.draw 0 PkiSample.server
    [(PkiSample.draw, 7); (PkiSample.draw, 9)] 9 PkiSample.server
    (NodeSample.drawn Byte.xa2, []) NodeSample.now TlsSample.soon _ PkiSample.config
    PkiSample.client_born eq_refl PkiSample.born PkiSample.rotated eq_refl).
  - apply PkiSample.offline_good. split; vm_compute; discriminate.
  - exact (TlsSample.good Byte.xaa (or_introl eq_refl)).
Defined.
