(* ===== verification/Cli.v ===== *)
(** * The operator's command line: [buh-cli/src/main.rs]

    Migrations, the sweep, the node's CA, and the peer commands, which go to
    the running node's admin API and fall back to the datastore.  [Env] is what
    the outside contributes to one invocation; a command yields the lines it
    prints. *)

From S2P Require Import Prelude.
From S2P Require Import Text.
From S2P Require Import Entities.
From S2P Require Import Mailbox.
From S2P Require Import Json.
From S2P Require Import ModelFormats.
From S2P Require Import MailboxSpec.
From S2P Require Import Relay.
From S2P Require Import BlobRole.
From S2P Require Import PeerTrust.
From S2P Require Import NodeCa.
From S2P Require Import Migrate.
From S2P Require Import Stack.
From S2P Require Import Http.
From S2P Require Import HttpSpec.
From S2P Require Import Tls.
From S2P Require Import ModelHttp.
#[local] Open Scope Z_scope.

Inductive CaCommand : Type := CaInit | CaShow | CaRotate (force : bool).

Inductive PeerCommand : Type :=
| PeerTrust (ca_fp : text) (note : option text)
| PeerDistrust (ca_fp : text)
| PeerList
| PeerPing (addr : text).

Inductive Command : Type :=
| CmdMigrate
| CmdSweep
| CmdCa (c : CaCommand)
| CmdPeer (c : PeerCommand).

(** ** Small helpers *)

Definition ensure_ok (status : Z) : Result string unit :=
  if (200 <=? status) && (status <? 300) then Ok tt
  else Err ("admin API returned HTTP " +:+ to_string (decimal status)).

Definition admin_hostport (url : text) : text :=
  let s := default url (strip_prefix (chars "http://") url) in
  default s (head (split_on 47 s)).

Definition default_sans : list string := ["localhost"].

(** Leaf validity used by commands that only manage the CA, in nanoseconds. *)
Definition NOMINAL_LEAF_TTL : Z := 48 * 3600 * ns_per_sec.

Section Cli.
Context `{EX : Externals} `{FM : Formats} `{HS : HttpStack} `{RG : Rcgen} `{RU : !Rustls}
  `{TH : !Handshake}.
Context (lower_table : Z → list Z) (exec_ddl : text → Tables → Result string Tables).

Record Env := {
  (** The daemon behind the admin address, if one listens there. *)
  ev_daemon : option (bytes → Node → bytes * Node);
  (** Faults of writing the request and reading the response. *)
  ev_io : nat → option string;
  (** Opening the datastore file; it fails while a daemon holds it. *)
  ev_open : Result string unit;
  ev_conn : option string;
  ev_mig : MigFaults;
  ev_mig_now : Z → Z;
  ev_faults : Faults;
  ev_now : Z;
  (** The CA directory. *)
  ev_pki : PkiFaults;
  ev_pki_bak : PkiFaults;
  ev_partial : option bytes * option bytes;
  ev_key : Result string KeyPair;
  ev_rnd : bytes * bytes;
  (** The two leaves a ping issues, and the network. *)
  ev_leaf : Result string KeyPair * bytes;
  ev_leaf2 : Result string KeyPair * bytes;
  ev_now_ns : Z;
  ev_tcp : text → Result string (Remote unit);
  ev_probe_io : nat → option string;
}.

(** Best-effort boolean field lookup. *)
Definition json_bool (body : text) (key : string) : bool :=
  match json_from_str body with
  | Err _ => false
  | Ok v => default false (as_bool (index v key))
  end.

Definition admin_req (ev : Env) (hostport method path : text) (body : option text) (h : Host) :
    option (Z * text) * Host :=
  match ev_daemon ev with
  | None => (None, h)
  | Some serve =>
      match ev_io ev 0%nat with
      | Some _ => (None, h)
      | None =>
          let '(buf, n) := serve (utf8_encode (admin_request_text hostport method path body)) (host_node h) in
          let h := put_node n h in
          match ev_io ev 1%nat with
          | Some _ => (None, h)
          | None => (admin_parse buf, h)
          end
      end
  end.

(** An operation of [CoreError] under [anyhow]. *)
Definition anyhow {S A} (m : ST S CoreError A) : ST S string A := st_map_err CoreError_to_string m.

(** [stack(db_path)]. *)
Definition stack (ev : Env) : ST Host CoreError unit :=
  let! _ := st_lift (DataStack_connect (ev_open ev) CoreConfig_default) in
  st_ret tt.

Definition open_registry (ev : Env) : ST Host CoreError unit :=
  let! _ := stack ev in
  on_store (stack_migrate exec_ddl (ev_conn ev) (ev_mig ev) (ev_mig_now ev)).

(** The closure over the array of peers. *)
Definition peer_entry (p : Json) : option (text * option text) :=
  match as_str (index p "ca_fingerprint") with
  | None => None
  | Some fp => Some (fp, as_str (index p "note"))
  end.

Definition trusted_fingerprints_with_notes (ev : Env) (admin : text) :
    ST Host string (list (text * option text)) := λ h,
  match admin_req ev admin (chars "GET") (chars "/admin/peers") None h with
  | (Some (status, body), h) =>
      (let? _ := ensure_ok status in
       let? v := json_from_str body in
       Ok (match as_array (index v "peers") with
           | Some arr => omap peer_entry arr
           | None => []
           end), h)
  | (None, h) =>
      anyhow (let! _ := open_registry ev in
              let! peers := on_peers (list_trusted (ev_faults ev)) in
              st_ret ((λ p, (tp_fingerprint p, tp_note p)) <$> peers)) h
  end.

Definition trust_body (ca_fp : text) (note : option text) : Json :=
  JObj [(chars "ca_fingerprint", JStr ca_fp); (chars "note", note_json note)].

Definition how : text := literal "direct DB — daemon not running".

Definition distrust_line (removed : bool) (ca_fp how : text) : text :=
  (if removed then chars "distrusted peer CA " ++ ca_fp
   else chars "peer CA " ++ ca_fp ++ chars " was not trusted")
  ++ chars " (" ++ how ++ chars ")".

Definition run_peer_trust (ev : Env) (admin ca_fp : text) (note : option text) : ST Host string (list text) := λ h,
  let body := json_to_string (trust_body ca_fp note) in
  match admin_req ev admin (chars "POST") (chars "/admin/peers") (Some body) h with
  | (Some (status, _), h) =>
      (let? _ := ensure_ok status in
       Ok [chars "trusting peer CA " ++ ca_fp ++ chars " (applied to the running node)"], h)
  | (None, h) =>
      (let! _ := anyhow (let! _ := open_registry ev in
                         on_peers (trust lower_table (ev_faults ev) (ev_now ev) ca_fp note)) in
       st_ret [chars "trusting peer CA " ++ ca_fp ++ chars " (" ++ how ++ chars ")"]) h
  end.

Definition run_peer_distrust (ev : Env) (admin ca_fp : text) : ST Host string (list text) := λ h,
  match admin_req ev admin (chars "DELETE") (chars "/admin/peers/" ++ ca_fp) None h with
  | (Some (status, body), h) =>
      (let? _ := ensure_ok status in
       Ok [distrust_line (json_bool body "removed") ca_fp (chars "applied to the running node")], h)
  | (None, h) =>
      (let! removed := anyhow (let! _ := open_registry ev in
                               on_peers (distrust lower_table (ev_faults ev) ca_fp)) in
       st_ret [distrust_line removed ca_fp how]) h
  end.

Definition list_line (p : text * option text) : text :=
  match p.2 with Some note => p.1 ++ chars "  " ++ note | None => p.1 end.

Definition run_peer_list (ev : Env) (admin : text) : ST Host string (list text) :=
  let! peers := trusted_fingerprints_with_notes ev admin in
  st_ret ((match peers with [] => [chars "no trusted peer CAs"] | _ => [] end) ++ (list_line <$> peers)).

Definition ping_lines (r : Result string PeerHealth) : list text :=
  match r with
  | Ok health =>
      [chars "reachable: " ++ ph_status_line health;
       match ph_ca_fingerprint health with
       | Some fp => chars "peer CA " ++ fp ++ literal " — mutual PQ-mTLS OK (both nodes trust)"
       | None => chars "peer did not advertise a CA fingerprint"
       end]
  | Err e =>
      [chars "unreachable or refused: " ++ literal e;
       literal "(mutual trust required: you must `peer trust <peer-ca-fp>` and the peer must trust your CA — share `ca show`)"]
  end.

(** [None] is a panic while a leaf is issued. *)
Definition run_peer_ping (ev : Env) (admin addr : text) : PST Host string (list text) := λ h,
  let '(r, d) := load_or_init (ev_pki ev) (ev_partial ev).1 (ev_partial ev).2 (ev_key ev) (ev_rnd ev).1
                   (ev_rnd ev).2 default_sans NOMINAL_LEAF_TTL (ho_pki h) in
  let h := {| ho_store := ho_store h; ho_trust := ho_trust h; ho_pki := d |} in
  match r with
  | Err e => Some (Err (CoreError_to_string e), h)
  | Ok ca =>
      match trusted_fingerprints_with_notes ev admin h with
      | (Err e, h) => Some (Err e, h)
      | (Ok trusted, h) =>
          match NodeTls_new ca (from_fingerprints trusted.*1) (ev_leaf ev).1 (ev_leaf ev).2 (ev_now_ns ev) with
          | None => None
          | Some (Err e) => Some (Err (CoreError_to_string e), h)
          | Some (Ok node_tls) =>
              match probe_peer node_tls (ev_leaf2 ev).1 (ev_leaf2 ev).2 (ev_now_ns ev) (ev_tcp ev)
                      (ev_probe_io ev) addr tt with
              | None => None
              | Some (r, _) => Some (Ok (ping_lines r), h)
              end
          end
      end
  end.

Definition run_peer (ev : Env) (admin_url : text) (cmd : PeerCommand) : PST Host string (list text) :=
  let admin := admin_hostport admin_url in
  match cmd with
  | PeerTrust ca_fp note => pst_of (run_peer_trust ev admin ca_fp note)
  | PeerDistrust ca_fp => pst_of (run_peer_distrust ev admin ca_fp)
  | PeerList => pst_of (run_peer_list ev admin)
  | PeerPing addr => run_peer_ping ev admin addr
  end.

(** ** [run_ca] *)

Definition run_ca (ev : Env) (pki_dir : text) (cmd : CaCommand) : ST PkiDir string (list text) :=
  let load := load_or_init (ev_pki ev) (ev_partial ev).1 (ev_partial ev).2 (ev_key ev) (ev_rnd ev).1 (ev_rnd ev).2
                default_sans NOMINAL_LEAF_TTL in
  match cmd with
  | CaInit =>
      let! ca := anyhow load in
      st_ret [chars "CA ready in " ++ pki_dir; chars "ca_fingerprint " ++ nc_ca_fingerprint ca]
  | CaShow =>
      let! ca := anyhow load in
      st_ret [nc_ca_fingerprint ca]
  | CaRotate force =>
      if negb force
      then st_err "ca rotate re-keys the CA and changes the fingerprint every peer pins; re-run with --force to confirm"
      else
        let! ca := anyhow (rekey (ev_pki_bak ev) (ev_pki ev) (ev_partial ev).1 (ev_partial ev).2 (ev_key ev)
                             (ev_rnd ev).1 (ev_rnd ev).2 default_sans NOMINAL_LEAF_TTL) in
        st_ret [chars "CA re-keyed; old material backed up to *.bak in " ++ pki_dir;
                chars "ca_fingerprint " ++ nc_ca_fingerprint ca;
                chars "peers must now re-pin this fingerprint"]
  end.

(** ** [main] *)

Definition on_pki {A} (m : ST PkiDir string A) : ST Host string A := λ h,
  let '(r, d) := m (ho_pki h) in (r, {| ho_store := ho_store h; ho_trust := ho_trust h; ho_pki := d |}).

(** The sweep acts on the tables of the open datastore. *)
Definition on_mail_tables (m : ST MailRepo CoreError Z) : ST Host CoreError Z := λ h,
  let s := ho_store h in
  let '(r, mr) := m {| db := tb_mail (sc_data s); waiters := ∅; woken := ∅ |} in
  (r, put_store {| sc_data := {| tb_mail := db mr; tb_peers := tb_peers (sc_data s) |};
                   sc_versions := sc_versions s |} h).

Definition main (ev : Env) (pki_dir admin_url : text) (cmd : Command) : PST Host string (list text) :=
  match cmd with
  | CmdMigrate => pst_of (
      let! _ := anyhow (open_registry ev) in
      st_ret [chars "migrations applied"])
  | CmdSweep => pst_of (
      let! removed := anyhow (let! _ := open_registry ev in on_mail_tables (sweep (ev_faults ev) (ev_now ev))) in
      st_ret [chars "swept " ++ decimal removed ++ chars " expired envelope(s)"])
  | CmdCa cmd => pst_of (on_pki (run_ca ev pki_dir cmd))
  | CmdPeer cmd => run_peer ev admin_url cmd
  end.
End Cli.
