(* ===== verification/CliSpec.v ===== *)
(** * The operator's commands against the running node and against its files

    [peer trust], [peer distrust] and [peer list] have two ways to the
    registry; both do the same to it and report the same.  [run_peer] in terms
    of the registry, then what the fall-back and [ca] do. *)

From S2P Require Import Prelude.
From S2P Require Import Text.
From S2P Require Import Entities.
From S2P Require Import Mailbox.
From S2P Require Import Json.
From S2P Require Import ModelFormats.
From S2P Require Import MailboxSpec.
From S2P Require Import Relay.
From S2P Require Import BlobRole.
From S2P Require Import PeerTrust.
From S2P Require Import NodeCa.
From S2P Require Import Migrate.
From S2P Require Import Stack.
From S2P Require Import Http.
From S2P Require Import HttpSpec.
From S2P Require Import Tls.
From S2P Require Import ModelHttp.
From S2P Require Import Cli.
#[local] Open Scope Z_scope.

(** A fixed method or target is well formed. *)
Ltac fixed_text := split; [discriminate|by repeat constructor].

Section Agreement.
Context `{EX : Externals} `{EL : !ExternalLaws} `{FM : Formats} `{FL : !FormatLaws}
  `{HS : HttpStack} `{HL : !HttpLaws} `{RG : Rcgen} `{RU : !Rustls}
  `{TH : !Handshake}.
Context (lower_table : Z → list Z) (exec_ddl : text → Tables → Result string Tables).

Definition no_faults : Faults := λ _, None.

(** ** The registry when the datastore does not fail *)

(** Rows that can be listed and sent. *)
Definition row_ok (r : PeerRow) : Prop :=
  dt_in_range (pr_trusted_at r) = true ∧ i64_min <= pr_trusted_at r <= i64_max ∧
  Forall is_char (pr_fingerprint r) ∧ Forall is_char (default [] (pr_note r)).

Definition listed (t : PeerTable) : list TrustedPeer :=
  (λ r, {| tp_fingerprint := pr_fingerprint r; tp_note := pr_note r; tp_trusted_at := pr_trusted_at r |})
  <$> merge_sort newer t.

Lemma collect_calm i rows out :
  Forall row_ok rows →
  collect_peers no_faults i rows out
  = Ok (out ++ ((λ r, {| tp_fingerprint := pr_fingerprint r; tp_note := pr_note r;
                         tp_trusted_at := pr_trusted_at r |}) <$> rows)).
Proof.
  intros H. revert i out. induction H as [|r rows (Hr & _) _ IH]; intros i out; cbn [collect_peers no_faults].
  - by rewrite app_nil_r.
  - rewrite Hr. cbn [rbind]. rewrite IH, <-app_assoc. done.
Qed.

Lemma sorted_rows_ok t : Forall row_ok t → Forall row_ok (merge_sort newer t).
Proof. by rewrite merge_sort_Permutation. Qed.

Lemma list_calm t : Forall row_ok t → list_trusted no_faults t = (Ok (listed t), t).
Proof.
  intros H. unfold list_trusted, st_bind, call, open_conn, select_peers, st_lift, no_faults. cbn [map_err].
  fold no_faults. by rewrite collect_calm by by apply sorted_rows_ok.
Qed.

Lemma listed_pinned t : tp_fingerprint <$> listed t ≡ₚ pinned t.
Proof.
  unfold listed. rewrite <-list_fmap_compose. unfold pinned, compose. cbn. by rewrite merge_sort_Permutation.
Qed.

(** A node's registry [t] with a snapshot that is what [t] pins. *)
Definition fresh (t : PeerTable) : Node := {| nd_registry := t; nd_trust := list_to_set (pinned t) |}.

Lemma refresh_calm n : Forall row_ok (nd_registry n) → refresh_live no_faults n = (Ok tt, fresh (nd_registry n)).
Proof.
  intros H. unfold refresh_live, st_bind, on_registry. rewrite list_calm by done.
  unfold replace, fresh. cbn [nd_registry]. do 2 f_equal. by rewrite listed_pinned.
Qed.

Lemma upsert_rows_ok fp note now t :
  Forall row_ok t → row_ok {| pr_fingerprint := fp; pr_note := note; pr_trusted_at := now |} →
  Forall row_ok (upsert_peer fp note now t).2.
Proof.
  intros Ht Hn. unfold upsert_peer. cbn [snd]. case_match.
  - apply Forall_fmap. eapply Forall_impl; [exact Ht|]. intros r Hr. cbn. case_bool_decide; [|done].
    destruct Hr as (? & ? & _). by destruct Hn as (_ & _ & ? & ?).
  - apply Forall_app. split; [done|]. by constructor.
Qed.

Lemma delete_rows_ok fp t : Forall row_ok t → Forall row_ok (delete_peer fp t).2.
Proof.
  intros Ht. cbn. apply Forall_forall. intros r Hr%list_elem_of_filter. rewrite Forall_forall in Ht. by apply Ht, Hr.
Qed.

Lemma trust_peer_calm now fp note n :
  Forall row_ok (upsert_peer (normalize lower_table fp) note now (nd_registry n)).2 →
  trust_peer lower_table no_faults no_faults now fp note n
  = (Ok fp, fresh (upsert_peer (normalize lower_table fp) note now (nd_registry n)).2).
Proof.
  intros H. unfold trust_peer, st_bind at 1.
  change (on_registry (trust _ _ _ _ _) n) with
    (Ok (E := CoreError) tt,
     {| nd_registry := (upsert_peer (normalize lower_table fp) note now (nd_registry n)).2; nd_trust := nd_trust n |}).
  cbv iota beta. unfold st_bind. by rewrite refresh_calm.
Qed.

Lemma distrust_calm fp t :
  distrust lower_table no_faults fp t
  = (Ok (bool_decide (normalize lower_table fp ∈ pinned t)), (delete_peer (normalize lower_table fp) t).2).
Proof. rewrite <-delete_count. reflexivity. Qed.

Lemma distrust_peer_calm fp n :
  Forall row_ok (nd_registry n) →
  distrust_peer lower_table no_faults no_faults fp n
  = (Ok (bool_decide (normalize lower_table fp ∈ pinned (nd_registry n))),
     fresh (delete_peer (normalize lower_table fp) (nd_registry n)).2).
Proof.
  intros H. unfold distrust_peer, st_bind at 1, on_registry at 1. rewrite distrust_calm.
  unfold st_bind. rewrite refresh_calm; [done|]. by apply delete_rows_ok.
Qed.

(** ** What a peer command does to the registry, and what it prints *)

Definition peer_effect (now : Z) (cmd : PeerCommand) (t : PeerTable) : PeerTable :=
  match cmd with
  | PeerTrust fp note => (upsert_peer (normalize lower_table fp) note now t).2
  | PeerDistrust fp => (delete_peer (normalize lower_table fp) t).2
  | PeerList | PeerPing _ => t
  end.

Definition peer_report (via : text) (cmd : PeerCommand) (t : PeerTable) : list text :=
  match cmd with
  | PeerTrust fp _ => [chars "trusting peer CA " ++ fp ++ chars " (" ++ via ++ chars ")"]
  | PeerDistrust fp => [distrust_line (bool_decide (normalize lower_table fp ∈ pinned t)) fp via]
  | PeerList =>
      match t with
      | [] => [chars "no trusted peer CAs"]
      | _ => (λ r, list_line (pr_fingerprint r, pr_note r)) <$> merge_sort newer t
      end
  | PeerPing _ => []
  end.

Definition online : text := chars "applied to the running node".

(** What an operator can type so that the request can be written: characters;
    for a path segment, those that need no escaping; a body under the limit. *)
Definition plain_segment (fp : text) : Prop :=
  fp ≠ [] ∧ Forall (λ c, is_target_char c = true ∧ c ≠ 47 ∧ c ≠ 63) fp.

Definition typed (now : Z) (cmd : PeerCommand) : Prop :=
  match cmd with
  | PeerTrust fp note =>
      row_ok {| pr_fingerprint := normalize lower_table fp; pr_note := note; pr_trusted_at := now |} ∧
      Forall is_char fp ∧ blen (utf8_encode (json_to_string (trust_body fp note))) <= DEFAULT_BODY_LIMIT
  | PeerDistrust fp => plain_segment fp
  | PeerList => True
  | PeerPing _ => False
  end.

(** The daemon runs and answers; or it is down and the files are ours. *)
Definition daemon_up (own : text) (now : Z) (ev : Env) : Prop :=
  ev_daemon ev = Some (serve_bytes (admin_router lower_table own no_faults no_faults now)) ∧
  ∀ i, ev_io ev i = None.

Definition daemon_down (now : Z) (ev : Env) : Prop :=
  ev_daemon ev = None ∧ ev_open ev = Ok tt ∧ ev_conn ev = None ∧ ev_mig ev = (λ _, None) ∧
  ev_faults ev = no_faults ∧ ev_now ev = now.

(** ** One exchange with the admin API *)

Lemma admin_exchange own now ev host m p body h r n' :
  daemon_up own now ev → host_ok host → method_ok m → target_ok p → Forall is_char (default [] body) →
  admin_router lower_table own no_faults no_faults now
    {| rq_method := m; rq_target := p; rq_headers := admin_headers host body;
       rq_body := utf8_encode (default [] body) |} (host_node h) = Some (r, n') →
  100 <= rs_status r <= 999 →
  admin_req ev host m p body h = (Some (rs_status r, utf8_lossy (rs_body r)), put_node n' h).
Proof.
  intros [Hd Hio] Hh Hm Hp Hb Hr Hs. unfold admin_req. rewrite Hd, !Hio. unfold serve_bytes.
  rewrite admin_request_read by done. rewrite Hr. by rewrite (proj2 (response_read r Hs)).
Qed.

Lemma json_answer v : json_ok v = true → utf8_lossy (utf8_encode (json_to_string v)) = json_to_string v.
Proof. intros H. by apply utf8_lossy_encode, json_text_chars. Qed.

Lemma json_ok_note note : Forall is_char (default [] note) → json_ok (note_json note) = true.
Proof. destruct note; [|done]. apply is_char_b_spec. Qed.

Lemma json_ok_trust fp note :
  Forall is_char fp → Forall is_char (default [] note) → json_ok (trust_body fp note) = true.
Proof.
  intros H1 H2. apply json_ok_obj; [done..|]. rewrite !Forall_cons. split_and!; [|by apply json_ok_note|done].
  by apply is_char_b_spec.
Qed.

Lemma trust_body_read fp note :
  TrustRequest_from_json (trust_body fp note) = Ok {| tr_ca_fingerprint := fp; tr_note := note |}.
Proof. by destruct note. Qed.

Lemma trust_request_read host fp note m p :
  Forall is_char fp → Forall is_char (default [] note) →
  blen (utf8_encode (json_to_string (trust_body fp note))) <= DEFAULT_BODY_LIMIT →
  extract_json DEFAULT_BODY_LIMIT TrustRequest_from_json
    {| rq_method := m; rq_target := p;
       rq_headers := admin_headers host (Some (json_to_string (trust_body fp note)));
       rq_body := utf8_encode (json_to_string (trust_body fp note)) |}
  = Ok {| tr_ca_fingerprint := fp; tr_note := note |}.
Proof.
  intros H1 H2 Hl. pose proof (json_ok_trust fp note H1 H2) as Hok. unfold extract_json.
  change (header "content-type" _) with (Some (chars "application/json")). cbv iota beta.
  rewrite json_type. cbn [negb rq_body]. rewrite (proj2 (Z.ltb_ge _ _)) by done.
  rewrite from_slice_utf8 by by apply json_text_chars. rewrite from_str_to_string by done.
  cbn [map_err rbind]. by rewrite trust_body_read.
Qed.

(** ** Each command through the daemon *)

Context (own : text) (now : Z) (host : text) (Hhost : host_ok host).

(** The live node after a command. *)
Definition node_after (cmd : PeerCommand) (h : Host) : Node :=
  match cmd with
  | PeerTrust _ _ | PeerDistrust _ => fresh (peer_effect now cmd (nd_registry (host_node h)))
  | PeerList | PeerPing _ => host_node h
  end.

Definition registry (h : Host) : PeerTable := tb_peers (sc_data (ho_store h)).

Lemma put_host_node h : put_node (host_node h) h = h.
Proof. by destruct h as [[[]] ? ?]. Qed.

Lemma trust_online ev fp note h :
  daemon_up own now ev → Forall row_ok (registry h) → typed now (PeerTrust fp note) →
  run_peer_trust lower_table exec_ddl ev host fp note h
  = (Ok (peer_report online (PeerTrust fp note) (registry h)), put_node (node_after (PeerTrust fp note) h) h).
Proof.
  intros Hup Ht (Hrow & Hfp & Hlen). pose proof Hrow as (_ & _ & _ & Hnote). cbn [pr_note] in Hnote.
  unfold run_peer_trust. set (body := json_to_string _).
  assert (json_ok (trusted_json fp) = true) as Hok.
  { apply json_ok_obj; [done..|]. constructor; [|done]. by apply is_char_b_spec. }
  rewrite (admin_exchange own now ev host _ _ _ h (json_response 200 (trusted_json fp))
             (node_after (PeerTrust fp note) h)); [reflexivity|done|done|fixed_text|fixed_text| | |].
  - cbn [default]. by apply json_text_chars, json_ok_trust.
  - unfold admin_router. change (admin_route _) with (Some RtPeers). cbv iota beta zeta.
    change (method_get _) with false. change (method_is _ "POST") with true. cbv iota.
    cbn [default]. unfold body. rewrite trust_request_read by done. cbv iota beta.
    cbn [tr_ca_fingerprint tr_note]. rewrite trust_peer_calm; [done|]. by apply upsert_rows_ok.
  - cbn. lia.
Qed.

Lemma plain_segment_path fp :
  plain_segment fp →
  target_ok (chars "/admin/peers/" ++ fp) ∧ target_path (chars "/admin/peers/" ++ fp) = chars "/admin/peers/" ++ fp ∧
  admin_route (chars "/admin/peers/" ++ fp) = Some (RtPeer fp) ∧ pct_decode fp = Some fp.
Proof.
  intros [Hn Hf]. split_and!.
  - split; [done|]. apply Forall_app. split; [by repeat constructor|]. eapply Forall_impl; [exact Hf|]. naive_solver.
  - apply target_path_plain, Forall_app. split; [by repeat constructor|].
    eapply Forall_impl; [exact Hf|]. naive_solver.
  - replace (chars "/admin/peers/" ++ fp) with (path_of [chars "admin"; chars "peers"; fp])
      by (unfold path_of; cbn [fmap list_fmap concat]; by rewrite app_nil_r).
    unfold admin_route. rewrite split_path.
    + unfold nonempty. by rewrite (bool_decide_true (fp ≠ [])).
    + rewrite !Forall_cons. split_and!; [by repeat constructor..| |done].
      eapply Forall_impl; [exact Hf|]. naive_solver.
  - apply pct_decode_plain. eapply Forall_impl; [exact Hf|]. intros c [Hc _] ->. discriminate.
Qed.

Lemma distrust_online ev fp h :
  daemon_up own now ev → Forall row_ok (registry h) → typed now (PeerDistrust fp) →
  run_peer_distrust lower_table exec_ddl ev host fp h
  = (Ok (peer_report online (PeerDistrust fp) (registry h)), put_node (node_after (PeerDistrust fp) h) h).
Proof.
  intros Hup Ht Hfp. destruct (plain_segment_path fp Hfp) as (Htg & Hpath & Hroute & Hpct).
  unfold run_peer_distrust. set (removed := bool_decide (normalize lower_table fp ∈ pinned (registry h))).
  rewrite (admin_exchange own now ev host _ _ _ h (json_response 200 (removed_json removed))
             (node_after (PeerDistrust fp) h)); [|done|done|fixed_text|done|constructor| |cbn; lia].
  - cbn [json_response rs_status rs_body]. rewrite json_answer by done. unfold json_bool.
    rewrite from_str_to_string by done. reflexivity.
  - unfold admin_router. cbn [rq_target]. rewrite Hpath, Hroute. change (method_is _ "DELETE") with true.
    cbv iota beta zeta. rewrite Hpct. cbn [ok_or]. by rewrite distrust_peer_calm.
Qed.

Lemma peers_answer_ok t :
  Forall row_ok t →
  json_ok (peers_json ((λ p, (tp_fingerprint p, tp_note p, tp_trusted_at p)) <$> listed t)) = true.
Proof.
  intros Ht. apply json_ok_obj; [done..|]. constructor; [|done]. cbn [snd]. apply json_ok_arr.
  unfold listed. rewrite !Forall_fmap. eapply Forall_impl; [by apply sorted_rows_ok|].
  intros r (_ & Hi & Hf & Hn). apply json_ok_obj; [done..|].
  rewrite !Forall_cons. split_and!; [by apply is_char_b_spec|by apply json_ok_note| |done].
  cbn [snd json_ok tp_trusted_at]. unfold i64_max, u64_max in *. lia.
Qed.

Lemma peer_entry_json p : peer_entry (peer_json p) = Some p.1.
Proof. by destruct p as [[fp [n|]] ms]. Qed.

Lemma peer_entries l : omap peer_entry (peer_json <$> l) = l.*1.
Proof. induction l as [|p l IH]; [done|]. cbn. rewrite peer_entry_json. by f_equal. Qed.

Lemma entries_online ev h :
  daemon_up own now ev → Forall row_ok (registry h) →
  trusted_fingerprints_with_notes exec_ddl ev host h
  = (Ok ((λ p, (tp_fingerprint p, tp_note p)) <$> listed (registry h)), h).
Proof.
  intros Hup Ht. unfold trusted_fingerprints_with_notes. set (l := (λ p, (tp_fingerprint p, tp_note p, tp_trusted_at p)) <$> listed (registry h)).
  rewrite (admin_exchange own now ev host _ _ _ h (json_response 200 (peers_json l))
             (host_node h)); [|done|done|fixed_text|fixed_text|constructor| |cbn; lia].
  - cbn [json_response rs_status rs_body]. rewrite json_answer by by apply peers_answer_ok.
    rewrite from_str_to_string by by apply peers_answer_ok. rewrite put_host_node.
    change (ensure_ok 200) with (Ok (E := string) tt). cbn [rbind].
    change (as_array _) with (Some (peer_json <$> l)). cbv iota beta. rewrite peer_entries. unfold l.
    by rewrite <-list_fmap_compose.
  - unfold admin_router. change (admin_route _) with (Some RtPeers). cbv iota beta zeta.
    change (method_get _) with true. cbv iota. unfold list_peers, st_bind, on_registry.
    rewrite list_calm by done. reflexivity.
Qed.

Lemma registry_opens ev h :
  daemon_down now ev → migrated (ho_store h) → open_registry exec_ddl ev h = (Ok tt, h).
Proof.
  intros (_ & Ho & Hc & Hm & _) Hmig. unfold open_registry, stack, st_bind, st_lift. rewrite Ho. cbn [DataStack_connect map_err rbind].
  unfold st_ret, on_store. rewrite Hc, Hm, migrate_done by done. by destruct h.
Qed.

Lemma entries_offline ev addr h :
  daemon_down now ev → migrated (ho_store h) → Forall row_ok (registry h) →
  trusted_fingerprints_with_notes exec_ddl ev addr h
  = (Ok ((λ p, (tp_fingerprint p, tp_note p)) <$> listed (registry h)), h).
Proof.
  intros Hdn Hmig Ht. pose proof Hdn as (Hd & _ & _ & _ & Hf & _).
  unfold trusted_fingerprints_with_notes, admin_req. rewrite Hd. unfold anyhow, st_map_err, st_bind.
  rewrite registry_opens by done. unfold on_peers. rewrite Hf. fold (registry h). rewrite list_calm by done.
  by destruct h as [[[] ?] ? ?].
Qed.

(** The list of entries as lines. *)
Lemma list_lines via t :
  let peers := (λ p, (tp_fingerprint p, tp_note p)) <$> listed t in
  (match peers with [] => [chars "no trusted peer CAs"] | _ => [] end) ++ (list_line <$> peers)
  = peer_report via PeerList t.
Proof.
  cbv zeta. unfold listed. rewrite <-list_fmap_compose. cbn [peer_report].
  pose proof (merge_sort_Permutation newer t) as Hp. destruct t as [|r t].
  - by apply Permutation_nil_r in Hp as ->.
  - destruct (merge_sort newer (r :: t)) as [|r' t'] eqn:E; [by apply Permutation_nil_cons in Hp|].
    cbn [fmap list_fmap app]. f_equal. by rewrite <-list_fmap_compose.
Qed.

(** Without the daemon only the file changes. *)
Definition stored (t : PeerTable) (h : Host) : Host := put_store (with_peers t (ho_store h)) h.

Lemma peer_offline ev url cmd h :
  daemon_down now ev → migrated (ho_store h) → Forall row_ok (registry h) → typed now cmd →
  run_peer lower_table exec_ddl ev url cmd h
  = Some (Ok (peer_report how cmd (registry h)), stored (peer_effect now cmd (registry h)) h).
Proof.
  intros Hdn Hmig Ht Hty. pose proof Hdn as (Hd & _ & _ & _ & Hf & Hnow).
  destruct cmd as [fp note|fp| |]; [| | |done]; unfold run_peer, pst_of; f_equal.
  - unfold run_peer_trust, admin_req. rewrite Hd. unfold anyhow, st_map_err, st_bind.
    rewrite registry_opens by done. unfold on_peers. rewrite Hf, Hnow. reflexivity.
  - unfold run_peer_distrust, admin_req. rewrite Hd. unfold anyhow, st_map_err, st_bind.
    rewrite registry_opens by done. unfold on_peers. rewrite Hf. fold (registry h). by rewrite distrust_calm.
  - unfold run_peer_list, st_bind. rewrite entries_offline by done. rewrite (list_lines how).
    unfold stored. by destruct h as [[[] ?] ? ?].
Qed.

Lemma peer_online ev url cmd h :
  admin_hostport url = host → daemon_up own now ev → Forall row_ok (registry h) → typed now cmd →
  run_peer lower_table exec_ddl ev url cmd h
  = Some (Ok (peer_report online cmd (registry h)), put_node (node_after cmd h) h).
Proof.
  intros Hu Hup Ht Hty. unfold run_peer. rewrite Hu.
  destruct cmd as [fp note|fp| |]; [| | |done]; unfold pst_of; f_equal.
  - by apply trust_online.
  - by apply distrust_online.
  - unfold run_peer_list, st_bind. rewrite entries_online by done. rewrite (list_lines online).
    by rewrite put_host_node.
Qed.

(** ** A lost answer, and a fingerprint that is no path segment *)

(** The daemon answers, but its answer does not arrive. *)
Definition answer_lost (ev : Env) : Prop :=
  ev_daemon ev = Some (serve_bytes (admin_router lower_table own no_faults no_faults now)) ∧
  ev_io ev 0%nat = None ∧ is_Some (ev_io ev 1%nat).

Lemma lost_exchange ev m p body h r n' :
  answer_lost ev → method_ok m → target_ok p → Forall is_char (default [] body) →
  admin_router lower_table own no_faults no_faults now
    {| rq_method := m; rq_target := p; rq_headers := admin_headers host body;
       rq_body := utf8_encode (default [] body) |} (host_node h) = Some (r, n') →
  admin_req ev host m p body h = (None, put_node n' h).
Proof.
  intros (Hd & H0 & [e H1]) Hm Hp Hb Hr. unfold admin_req. rewrite Hd, H0. unfold serve_bytes.
  rewrite admin_request_read by done. by rewrite Hr, H1.
Qed.

Lemma locked_registry ev e h :
  ev_open ev = Err e → open_registry exec_ddl ev h = (Err (Repo e), h).
Proof. intros Ho. unfold open_registry, stack, st_bind, st_lift. by rewrite Ho. Qed.

Lemma distrust_lost ev e fp h :
  answer_lost ev → ev_open ev = Err e → Forall row_ok (registry h) → plain_segment fp →
  run_peer_distrust lower_table exec_ddl ev host fp h
  = (Err (CoreError_to_string (Repo e)), put_node (node_after (PeerDistrust fp) h) h).
Proof.
  intros Hl Ho Ht Hfp. destruct (plain_segment_path fp Hfp) as (Htg & Hpath & Hroute & Hpct).
  unfold run_peer_distrust.
  rewrite (lost_exchange ev _ _ _ h
    (json_response 200 (removed_json (bool_decide (normalize lower_table fp ∈ pinned (registry h)))))
    (node_after (PeerDistrust fp) h)); [|done|fixed_text|done|constructor|].
  - unfold anyhow, st_map_err, st_bind. by rewrite (locked_registry ev e).
  - unfold admin_router. cbn [rq_target]. rewrite Hpath, Hroute. change (method_is _ "DELETE") with true.
    cbv iota beta zeta. rewrite Hpct. cbn [ok_or]. by rewrite distrust_peer_calm.
Qed.

(** Status of [DELETE /admin/peers/a/b]. *)
Definition slash_status (b : text) : Z := if seg b "distrust" then 405 else 404.

Lemma distrust_slash ev a b h :
  daemon_up own now ev → plain_segment a → plain_segment b →
  run_peer_distrust lower_table exec_ddl ev host (a ++ 47 :: b) h
  = (Err ("admin API returned HTTP " +:+ to_string (decimal (slash_status b))), h).
Proof.
  intros Hup Ha Hb. pose proof Ha as [Hna Hfa]. pose proof Hb as [Hnb Hfb].
  assert (Forall (λ c, is_target_char c = true ∧ c ≠ 63) (chars "/admin/peers/" ++ a ++ 47 :: b)) as Hall.
  { rewrite !Forall_app, Forall_cons. split_and!; [by repeat constructor| |done|done|];
      (eapply Forall_impl; [eassumption|]); naive_solver. }
  unfold run_peer_distrust.
  rewrite (admin_exchange own now ev host _ _ _ h (reject (slash_status b)) (host_node h));
    [|done|done|fixed_text| |constructor| |].
  - unfold slash_status. rewrite put_host_node. by case_match.
  - split; [done|]. eapply Forall_impl; [exact Hall|]. naive_solver.
  - unfold admin_router. cbn [rq_target].
    rewrite (proj1 (target_path_plain _ (Forall_impl _ _ _ Hall (λ c Hc, proj2 Hc)))).
    replace (chars "/admin/peers/" ++ a ++ 47 :: b) with (path_of [chars "admin"; chars "peers"; a; b])
      by (unfold path_of; cbn [fmap list_fmap concat]; by rewrite app_nil_r).
    unfold admin_route. rewrite split_path.
    + unfold nonempty, slash_status. rewrite (bool_decide_true (a ≠ [])) by done. cbn [seg negb].
      change (seg (chars "admin") "admin") with true. change (seg (chars "peers") "peers") with true.
      cbn [negb andb]. by destruct (seg b "distrust").
    + rewrite !Forall_cons. split_and!; [by repeat constructor..| | |done];
        (eapply Forall_impl; [eassumption|]); naive_solver.
  - unfold slash_status. cbn. case_match; lia.
Qed.
End Agreement.

Section Commands.
Context `{EX : Externals} `{EL : !ExternalLaws} `{FM : Formats} `{FL : !FormatLaws}
  `{HS : HttpStack} `{HL : !HttpLaws} `{RG : Rcgen} `{RU : !Rustls}
  `{TH : !Handshake}.
Context (lower_table : Z → list Z) (exec_ddl : text → Tables → Result string Tables).

(** The rest of the machine. *)
Definition same_elsewhere (h h' : Host) : Prop :=
  tb_mail (sc_data (ho_store h')) = tb_mail (sc_data (ho_store h)) ∧
  sc_versions (ho_store h') = sc_versions (ho_store h) ∧ ho_pki h' = ho_pki h.

(** The node's live set after a command: what the registry pins, where the
    command changes it. *)
Definition live_after (cmd : PeerCommand) (h' : Host) (before : gset text) : gset text :=
  match cmd with PeerList => before | _ => list_to_set (pinned (registry h')) end.

(** C13: the peer commands do the same with the daemon and without it.  Take a
    migrated datastore whose registry holds text and times that can be listed,
    nothing that fails on either way (with the daemon, the exchange and the
    node's datastore; without it, opening, migrating and reading the file), and
    a command that can be written as a request: [list], [trust] of a fingerprint
    and a note whose body is under the limit, or [distrust] of a fingerprint
    that is a path segment without characters to escape (a slash is one that
    cannot be used, see [slash_cannot_be_distrusted]).  Then the request to the
    running node and the direct access to its files both succeed, leave the same
    registry, and print the same lines but for the way taken.  After [trust] and
    [distrust] through the node its live set is what the registry pins; [list]
    leaves it alone, and so does the way without the daemon.  Nothing else of
    the machine changes. *)
Theorem peer_commands_agree own now up down url cmd h :
  host_ok (admin_hostport url) → daemon_up lower_table own now up → daemon_down now down →
  migrated (ho_store h) → Forall row_ok (registry h) → typed lower_table now cmd →
  ∃ h1 h2,
    run_peer lower_table exec_ddl up url cmd h
      = Some (Ok (peer_report lower_table online cmd (registry h)), h1) ∧
    run_peer lower_table exec_ddl down url cmd h
      = Some (Ok (peer_report lower_table how cmd (registry h)), h2) ∧
    registry h1 = peer_effect lower_table now cmd (registry h) ∧ registry h2 = registry h1 ∧
    ho_trust h1 = live_after cmd h1 (ho_trust h) ∧
    ho_trust h2 = ho_trust h ∧ same_elsewhere h h1 ∧ same_elsewhere h h2.
Proof.
  intros Hh Hup Hdn Hm Ht Hty. eexists _, _. split_and!.
  - by apply (peer_online lower_table exec_ddl own now (admin_hostport url) Hh).
  - by apply (peer_offline lower_table exec_ddl now).
  - by destruct cmd.
  - by destruct cmd.
  - by destruct cmd.
  - done.
  - by destruct cmd.
  - done.
Qed.

(** an answer that is lost on the way makes the command fail after it took
    effect: the running node has dropped the peer from its registry and from its
    live set, while the command goes on to open the datastore, which the node
    holds, and reports that error. *)
Theorem lost_answer_reports_failure own now ev e url fp h :
  host_ok (admin_hostport url) → answer_lost lower_table own now ev → ev_open ev = Err e →
  Forall row_ok (registry h) → plain_segment fp → normalize lower_table fp ∈ pinned (registry h) →
  ∃ h', run_peer lower_table exec_ddl ev url (PeerDistrust fp) h
          = Some (Err (CoreError_to_string (Repo e)), h') ∧
    (normalize lower_table fp ∉ pinned (registry h')) ∧ (normalize lower_table fp ∉ ho_trust h').
Proof.
  intros Hh Hl Ho Ht Hfp Hin. eexists. split.
  - unfold run_peer, pst_of. f_equal. by apply (distrust_lost lower_table exec_ddl own now).
  - assert (normalize lower_table fp ∉ pinned (delete_peer (normalize lower_table fp) (registry h)).2) as Hn
      by (rewrite delete_pinned; naive_solver).
    split; [exact Hn|]. cbn. by rewrite elem_of_list_to_set.
Qed.

(** a fingerprint with a slash, which the registry takes, cannot be removed
    through the running node: the path of the request is not escaped, no route
    matches it, and the registry keeps the peer, while the same command removes
    it when the daemon is down. *)
Theorem slash_cannot_be_distrusted own now up down url a b h :
  host_ok (admin_hostport url) → daemon_up lower_table own now up → daemon_down now down →
  migrated (ho_store h) → plain_segment a → plain_segment b →
  (∃ e, run_peer lower_table exec_ddl up url (PeerDistrust (a ++ 47 :: b)) h = Some (Err e, h)) ∧
  (∃ ls h', run_peer lower_table exec_ddl down url (PeerDistrust (a ++ 47 :: b)) h = Some (Ok ls, h') ∧
     normalize lower_table (a ++ 47 :: b) ∉ pinned (registry h')).
Proof.
  intros Hh Hup Hdn Hm Ha Hb. split.
  - eexists. unfold run_peer, pst_of. f_equal. by apply (distrust_slash lower_table exec_ddl own now).
  - pose proof Hdn as (Hd & _ & _ & _ & Hf & _). eexists _, _. split.
    + unfold run_peer, pst_of, run_peer_distrust, admin_req. rewrite Hd. unfold anyhow, st_map_err, st_bind.
      rewrite (registry_opens exec_ddl now) by done. unfold on_peers. rewrite Hf. by rewrite distrust_calm.
    + change (normalize lower_table (a ++ 47 :: b) ∉ pinned
        (delete_peer (normalize lower_table (a ++ 47 :: b)) (registry h)).2).
      rewrite delete_pinned. naive_solver.
Qed.

(** re-keying from the command line.  Without [--force] nothing happens but an
    error; with it, a command that succeeds has moved the old certificate and
    key to the backups, prints the fingerprint of the new certificate in the
    directory, and every later [ca show] that prints a fingerprint prints that
    one and leaves the directory as it is. *)
Theorem ca_rotate_replaces `{LR : !RcgenLaws} ev dir force d out d' :
  run_ca ev dir (CaRotate force) d = (out, d') →
  match out with
  | Err _ => force = false → d' = d
  | Ok lines =>
      force = true ∧
      ∃ der, pd_cert d' = Some der ∧
        lines = [chars "CA re-keyed; old material backed up to *.bak in " ++ dir;
                 chars "ca_fingerprint " ++ fingerprint der; chars "peers must now re-pin this fingerprint"] ∧
        (is_Some (pd_cert d) → pd_cert_bak d' = pd_cert d) ∧ (is_Some (pd_key d) → pd_key_bak d' = pd_key d) ∧
        ∀ ev' shown d'', ev_pki ev' = (λ _, None) → run_ca ev' dir CaShow d' = (shown, d'') →
          d'' = d' ∧ (shown = Ok [fingerprint der] ∨ ∃ e, shown = Err e)
  end.
Proof.
  unfold run_ca at 1. destruct force; cbn [negb]; [|by intros [= <- <-]].
  intros H. apply st_bind_inv in H as [(ca & d1 & H & [= <- <-])|(e & _ & ->)]; [|done].
  unfold anyhow, st_map_err in H. destruct (rekey _ _ _ _ _ _ _ _ _ d) as [[c|e] d2] eqn:E; [|done].
  injection H as -> ->. apply rekey_Ok in E as ([Hfp _] & _ & Hc & Hk & Hbc & Hbk).
  split; [done|]. exists (nc_ca_der ca). rewrite Hfp. split_and!; [done..|].
  intros ev' shown d'' Hev. unfold run_ca, anyhow, st_map_err, st_bind. rewrite Hev.
  rewrite (next_start _ _ _ _ _ _ _ d1 (nc_ca_key ca) (nc_ca_der ca)) by done.
  destruct (from_loaded _ _ _ _ _) as [ca'|e] eqn:El; cbn [map_err].
  - apply from_loaded_Ok in El as (_ & _ & Hf & _). intros [= <- <-]. rewrite Hf. eauto.
  - intros [= <- <-]. eauto.
Qed.
End Commands.

Module CliSample.
Definition pin (fp : string) (at_ms : Z) : PeerRow :=
  {| pr_fingerprint := chars fp; pr_note := None; pr_trusted_at := at_ms |}.
Definition host : Host :=
  {| ho_store := {| sc_data := {| tb_mail := {| envelopes := []; receipts := [] |};
                                  tb_peers := [pin "aa11" 5; pin "bb/22" 6] |};
                    sc_versions := Some [(1, 7); (2, 7)] |};
     ho_trust := {[chars "aa11"; chars "bb/22"]}; ho_pki := NodeSample.empty_dir |}.
Definition url : text := chars "http://127.0.0.1:8081".
Definition exec_ddl : text → Tables → Result string Tables := λ _ t, Ok t.
Definition now : Z := 1000.
Definition daemon : bytes → Node → bytes * Node :=
  serve_bytes (admin_router PeerTrust.Sample.lower (chars "cc33") no_faults no_faults now).
(** An invocation: the daemon, the faults of the exchange, the datastore. *)
Definition env (d : option (bytes → Node → bytes * Node)) (io : nat → option string) (opened : Result string unit) :
    Env :=
  {| ev_daemon := d; ev_io := io; ev_open := opened; ev_conn := None; ev_mig := λ _, None; ev_mig_now := λ _, 7;
     ev_faults := no_faults; ev_now := now; ev_pki := NodeSample.no_faults; ev_pki_bak := NodeSample.no_faults;
     ev_partial := (None, None); ev_key := NodeSample.drawn Byte.xaa; ev_rnd := ([], []);
     ev_leaf := (NodeSample.drawn Byte.xa1, []); ev_leaf2 := (NodeSample.drawn Byte.xa2, []);
     ev_now_ns := NodeSample.now; ev_tcp := λ _, Err "connection refused"; ev_probe_io := λ _, None |}.
(** Nothing listens; the backups fail as [bak] says; a new CA key would be [key]. *)
Definition with_ca (bak : PkiFaults) (key : byte) : Env :=
  {| ev_daemon := None; ev_io := λ _, None; ev_open := Ok tt; ev_conn := None; ev_mig := λ _, None;
     ev_mig_now := λ _, 7; ev_faults := no_faults; ev_now := now; ev_pki := NodeSample.no_faults;
     ev_pki_bak := bak; ev_partial := (None, None); ev_key := NodeSample.drawn key; ev_rnd := ([], []);
     ev_leaf := (NodeSample.drawn Byte.xa1, []); ev_leaf2 := (NodeSample.drawn Byte.xa2, []);
     ev_now_ns := NodeSample.now; ev_tcp := λ _, Err "connection refused"; ev_probe_io := λ _, None |}.
Definition up : Env := env (Some daemon) (λ _, None) (Err "locked").
Definition lost : Env := env (Some daemon) (λ i, if i =? 1 then Some "reset" else None)%nat (Err "locked").
Definition down : Env := env None (λ _, None) (Ok tt).

Lemma is_up : daemon_up PeerTrust.Sample.lower (chars "cc33") now up.
Proof. by split. Qed.
Lemma is_down : daemon_down now down.
Proof. by split_and!. Qed.
Lemma is_migrated : migrated (ho_store host).
Proof. split; [by eexists|]. intros v Hv. exact Hv. Qed.
Lemma url_ok : host_ok (admin_hostport url).
Proof. split; [discriminate|]. by repeat constructor. Qed.
Lemma rows_ok : Forall row_ok (registry host).
Proof.
  change (registry host) with [pin "aa11" 5; pin "bb/22" 6]. rewrite !Forall_cons. unfold row_ok.
  split_and!; try done; by apply is_char_b_spec.
Qed.
Lemma segment fp : forallb (λ c, is_target_char c && negb (c =? 47) && negb (c =? 63)) (chars fp) = true →
  chars fp ≠ [] → plain_segment (chars fp).
Proof.
  intros H Hn. split; [done|]. apply Forall_forall. intros c Hc%list_elem_of_In.
  rewrite forallb_forall in H. specialize (H c Hc). cbn beta in H. split_and!; [|lia..]. by destruct (is_target_char c).
Qed.
End CliSample.

Lemma peer_commands_agree_witness :
  ∃ h1 h2,
    run_peer PeerTrust.Sample.lower CliSample.exec_ddl CliSample.up CliSample.url (PeerDistrust (chars "AA:11")) CliSample.host
    = Some (Ok [chars "distrusted peer CA AA:11 (applied to the running node)"], h1) ∧
    run_peer PeerTrust.Sample.lower CliSample.exec_ddl CliSample.down CliSample.url (PeerDistrust (chars "AA:11")) CliSample.host
    = Some (Ok [literal "distrusted peer CA AA:11 (direct DB — daemon not running)"], h2) ∧
    registry h2 = registry h1.
Proof.
  destruct (peer_commands_agree PeerTrust.Sample.lower CliSample.exec_ddl (chars "cc33") CliSample.now
    CliSample.up CliSample.down CliSample.url (PeerDistrust (chars "AA:11")) CliSample.host
    CliSample.url_ok CliSample.is_up CliSample.is_down CliSample.is_migrated CliSample.rows_ok
    (CliSample.segment "AA:11" eq_refl ltac:(discriminate))) as (h1 & h2 & H1 & H2 & _ & H & _).
  exists h1, h2. split_and!; [exact H1|exact H2|exact H].
Defined.

Lemma lost_answer_reports_failure_witness :
  ∃ h', run_peer PeerTrust.Sample.lower CliSample.exec_ddl CliSample.lost CliSample.url (PeerDistrust (chars "AA:11")) CliSample.host
        = Some (Err (CoreError_to_string (Repo "locked")), h') ∧ chars "aa11" ∉ ho_trust h'.
Proof.
  destruct (lost_answer_reports_failure PeerTrust.Sample.lower CliSample.exec_ddl (chars "cc33") CliSample.now
    CliSample.lost "locked" CliSample.url (chars "AA:11") CliSample.host CliSample.url_ok) as (h' & H1 & _ & H2).
  - split_and!; [reflexivity|reflexivity|by eexists].
  - reflexivity.
  - exact CliSample.rows_ok.
  - exact (CliSample.segment "AA:11" eq_refl ltac:(discriminate)).
  - apply list_elem_of_here.
  - exists h'. split; [exact H1|exact H2].
Defined.

Lemma slash_cannot_be_distrusted_witness :
  ∃ e, run_peer PeerTrust.Sample.lower CliSample.exec_ddl CliSample.up CliSample.url (PeerDistrust (chars "bb/22")) CliSample.host
       = Some (Err e, CliSample.host).
Proof.
  apply (slash_cannot_be_distrusted PeerTrust.Sample.lower CliSample.exec_ddl (chars "cc33") CliSample.now
    CliSample.up CliSample.down CliSample.url (chars "bb") (chars "22") CliSample.host
    CliSample.url_ok CliSample.is_up CliSample.is_down CliSample.is_migrated);
    by apply CliSample.segment.
Defined.

Lemma ca_rotate_replaces_witness :
  ∃ lines d', run_ca CliSample.up (chars "pki") (CaRotate true) NodeSample.dir = (Ok lines, d') ∧
    pd_cert_bak d' = pd_cert NodeSample.dir.
Proof.
  destruct (run_ca CliSample.up (chars "pki") (CaRotate true) NodeSample.dir) as [[ls|e] d'] eqn:E.
  - pose proof (ca_rotate_replaces CliSample.up (chars "pki") true NodeSample.dir _ _ E) as (_ & der & _ & _ & Hb & _).
    exists ls, d'. split; [reflexivity|]. apply Hb. by eexists.
  - vm_compute in E. discriminate E.
Defined.

(** an interrupted re-keying loses the CA key: the certificate has been moved
    to its backup, moving the key failed, and the next [ca show], documented to
    print the fingerprint, finds no certificate, makes a new CA, and overwrites
    the only copy of the old key. *)
Theorem interrupted_rotation_loses_key :
  let rotating := CliSample.with_ca (λ i, if (i =? 1)%nat then Some "Permission denied" else None) Byte.xbb in
  let showing := CliSample.with_ca (λ _, None) Byte.xcc in
  let '(r1, d1) := run_ca rotating (chars "pki") (CaRotate true) NodeSample.dir in
  let '(r2, d2) := run_ca showing (chars "pki") CaShow d1 in
  is_ok r1 = false ∧ is_ok r2 = true ∧ pd_key NodeSample.dir = Some (serialize_pem (Rcgen := tlv_rcgen) Byte.xaa) ∧
  pd_key d2 = Some (serialize_pem (Rcgen := tlv_rcgen) Byte.xcc) ∧ pd_key_bak d2 = None.
Proof. vm_compute. split_and!; reflexivity. Qed.
