(* ===== verification/Daemon.v ===== *)
(** * The node daemon: [buh-api/src/{main,config,serve}.rs]

    Start-up, as one computation on the machine that ends with a running daemon,
    an error or a panic; and the running daemon as a state machine whose events
    are connections, requests, operator calls, the ticks of its two timers, and
    the shutdown signal. *)

From S2P Require Import Prelude.
From S2P Require Import Text.
From S2P Require Import Entities.
From S2P Require Import Mailbox.
From S2P Require Import Json.
From S2P Require Import ModelFormats.
From S2P Require Import MailboxSpec.
From S2P Require Import Relay.
From S2P Require Import BlobRole.
From S2P Require Import PeerTrust.
From S2P Require Import NodeCa.
From S2P Require Import Migrate.
From S2P Require Import Stack.
From S2P Require Import Http.
From S2P Require Import HttpSpec.
From S2P Require Import Tls.
From S2P Require Import ModelHttp.
#[local] Open Scope Z_scope.

(** ** Configuration *)

Record PkiConfig := {
  pk_enabled : bool;
  pk_dir : string;
  pk_node_bind : text;
  pk_sans : list string;
  pk_leaf_ttl_hours : Z;
  pk_rotate_every_hours : Z;
}.

Record AdminConfig := { ad_enabled : bool; ad_bind : text }.

Record AppConfig := {
  ac_bind : text;
  ac_db_path : string;
  ac_log_format : string;
  ac_relay : RelayConfig;
  ac_blob : BlobConfig;
  ac_pki : PkiConfig;
  ac_admin : AdminConfig;
}.

Definition AppConfig_default : AppConfig :=
  {| ac_bind := chars "127.0.0.1:8080";
     ac_db_path := "buh-relay.db";
     ac_log_format := "auto";
     ac_relay := RelayConfig_default;
     ac_blob := BlobConfig_default;
     ac_pki := {| pk_enabled := false; pk_dir := "/var/lib/buh/pki"; pk_node_bind := chars "0.0.0.0:31415";
                  pk_sans := ["localhost"]; pk_leaf_ttl_hours := 48; pk_rotate_every_hours := 24 |};
     ac_admin := {| ad_enabled := true; ad_bind := chars "127.0.0.1:8081" |} |}.

(** ** Addresses *)

(** [IpAddr]: the octets of an IPv4 address, the number of an IPv6 address. *)
Inductive IpAddr : Type :=
| V4 (a b c d : Z)
| V6 (bits : Z).

Record SocketAddr := { sa_ip : IpAddr; sa_port : Z }.

#[export] Instance IpAddr_eq_dec : EqDecision IpAddr.
Proof. solve_decision. Defined.
#[export] Instance SocketAddr_eq_dec : EqDecision SocketAddr.
Proof. solve_decision. Defined.

(** [IpAddr::is_loopback]. *)
Definition is_loopback (ip : IpAddr) : bool :=
  match ip with V4 a _ _ _ => a =? 127 | V6 bits => bits =? 1 end.

Fixpoint loopback_loop (any : bool) (addrs : list SocketAddr) : bool :=
  match addrs with
  | [] => any
  | a :: addrs => if negb (is_loopback (sa_ip a)) then false else loopback_loop true addrs
  end.

(** [resolved] is what [to_socket_addrs] gives. *)
Definition is_loopback_bind (resolved : Result string (list SocketAddr)) : bool :=
  match resolved with
  | Ok addrs => loopback_loop false addrs
  | Err _ => false
  end.

(** ** Signals *)

(** What the operating system answers and delivers: whether the handlers of
    SIGINT and SIGTERM could be installed, and whether the signals came. *)
Record Signals := {
  sg_ctrl_c : Result string unit;
  sg_terminate : Result string unit;
  sg_interrupted : bool;
  sg_terminated : bool;
}.

(** [let _ = ctrl_c().await]: the future also ends when it reports an error. *)
Definition ctrl_c_done (s : Signals) : bool :=
  match sg_ctrl_c s with Ok _ => sg_interrupted s | Err _ => true end.

(** A handler that cannot be installed is logged, and the block ends. *)
Definition terminate_done (s : Signals) : bool :=
  match sg_terminate s with Ok _ => sg_terminated s | Err _ => true end.

(** Whether [shutdown_signal] has completed: [select!] takes the first. *)
Definition shutdown_signal (s : Signals) : bool := ctrl_c_done s || terminate_done s.

(** ** Start-up *)

Inductive StartError : Type :=
| SCore (e : CoreError)
| SIo (e : string)
| SAdminNotLoopback (bind : text)
| SNeedsS3Feature
| SUnknownBackend (backend : string)
| SConfig (e : string).

(** [h * 3600] on [u64]: with overflow checks it panics, without it wraps. *)
Definition hours (checked : bool) (h : Z) : option Z :=
  if h * 3600 <=? u64_max then Some (h * 3600)
  else if checked then None else Some (wrap64 (h * 3600)).

(** [interval.max(Duration::from_secs(1))], in seconds. *)
Definition timer_every (secs : Z) : Z := Z.max secs 1.

Section Daemon.
Context `{EX : Externals} `{FM : Formats} `{HS : HttpStack} `{RG : Rcgen} `{RU : !Rustls}
  `{TH : !Handshake}.

(** How the daemon is built: overflow checks, the [s3] feature. *)
Record Build := { bd_checked : bool; bd_s3 : bool }.

(** What the outside contributes to a start. *)
Record Boot := {
  bo_open : Result string unit;
  bo_conn : option string;
  bo_mig : MigFaults;
  bo_mig_now : Z → Z;
  bo_exec_ddl : text → Tables → Result string Tables;
  bo_pki : PkiFaults;
  bo_partial : option bytes * option bytes;
  bo_key : Result string KeyPair;
  bo_rnd : bytes * bytes;
  bo_leaf : Result string KeyPair * bytes;
  bo_now_ns : Z;
  (** The answers of the [i]-th name resolution. *)
  bo_resolve : nat → text → Result string (list SocketAddr);
  (** Listening on one of these addresses. *)
  bo_listen : list SocketAddr → Result string SocketAddr;
  bo_list : Faults;
}.

Definition TcpListener_bind (b : Boot) (i : nat) (bind : text) : Result string SocketAddr :=
  let? addrs := bo_resolve b i bind in
  bo_listen b addrs.

Definition wire_blob (bd : Build) (c : Ctx) (blob : BlobConfig) : Result StartError Ctx :=
  if bool_decide (bc_backend blob = "fs") then Ok (with_fs_blob (bc_fs_root blob) c)
  else if bool_decide (bc_backend blob = "s3") then
    if bd_s3 bd then
      Ok (with_s3_blob {| s3_endpoint := bc_s3_endpoint blob; s3_region := bc_s3_region blob;
                          s3_access_key := bc_s3_access_key blob; s3_secret_key := bc_s3_secret_key blob |} c)
    else Err SNeedsS3Feature
  else Err (SUnknownBackend (bc_backend blob)).

(** Name resolutions 0, of the check, and 1, of the listener. *)
Definition spawn_admin (b : Boot) (admin : AdminConfig) : Result StartError SocketAddr :=
  if negb (is_loopback_bind (bo_resolve b 0%nat (ad_bind admin))) then Err (SAdminNotLoopback (ad_bind admin))
  else map_err SIo (TcpListener_bind b 1%nat (ad_bind admin)).

Inductive Ingress : Type :=
| Plain (addr : SocketAddr)
| PqMtls (addr : SocketAddr) (tls : NodeTls) (config : ServerConfig) (rotate_every : Z).

Record Running := {
  rg_ctx : Ctx;
  rg_app : AppState;
  rg_sweep_every : Z;
  rg_admin : option SocketAddr;
  rg_ingress : Ingress;
}.

Definition core {S A} (r : Result CoreError A) : PST S StartError A := pst_lift (map_err SCore r).

Definition panic {S E A} : PST S E A := λ _, None.

Definition or_panic {S E A B} (o : option A) (k : A → PST S E B) : PST S E B :=
  match o with Some a => k a | None => panic end.

(** A computation on the PKI directory. *)
Definition on_dir {A} (m : ST PkiDir CoreError A) : PST Host StartError A := λ h,
  let '(r, d) := m (ho_pki h) in
  Some (map_err SCore r, {| ho_store := ho_store h; ho_trust := ho_trust h; ho_pki := d |}).

Definition set_node (f : Node → Node) : PST Host StartError unit := λ h,
  Some (Ok tt, put_node (f (host_node h)) h).

(** [serve_pqmtls] up to its loop. *)
Definition serve_pqmtls_start (b : Boot) (tls : NodeTls) : PST Host StartError ServerConfig :=
  let* _ := set_node (refresh_trust (bo_list b)) in
  core (server_config tls).

Definition start_pqmtls (bd : Build) (cfg : AppConfig) (b : Boot) (c : Ctx) (app : AppState) :
    PST Host StartError Running :=
  or_panic (cx_pki c) (λ node_pki,
  if negb (cx_peer_trust c) then panic else
  let* _ := set_node (λ n, {| nd_registry := nd_registry n; nd_trust := TrustStore_new |}) in
  or_panic (NodeTls_new node_pki TrustStore_new (bo_leaf b).1 (bo_leaf b).2 (bo_now_ns b)) (λ r,
  let* node_tls := core r in
  let* admin := if ad_enabled (ac_admin cfg)
                then let* a := pst_lift (spawn_admin b (ac_admin cfg)) in pst_ret (Some a)
                else pst_ret None in
  let* addr := pst_lift (map_err SIo (TcpListener_bind b 2%nat (pk_node_bind (ac_pki cfg)))) in
  or_panic (hours (bd_checked bd) (pk_rotate_every_hours (ac_pki cfg))) (λ rotate_every,
  let* config := serve_pqmtls_start b node_tls in
  pst_ret {| rg_ctx := c; rg_app := app;
             rg_sweep_every := timer_every (rc_sweep_interval_seconds (ac_relay cfg)); rg_admin := admin;
             rg_ingress := PqMtls addr node_tls config (timer_every rotate_every) |}))).

Definition start_plain (cfg : AppConfig) (b : Boot) (c : Ctx) (app : AppState) :
    PST Host StartError Running :=
  let* addr := pst_lift (map_err SIo (TcpListener_bind b 2%nat (ac_bind cfg))) in
  pst_ret {| rg_ctx := c; rg_app := app;
             rg_sweep_every := timer_every (rc_sweep_interval_seconds (ac_relay cfg)); rg_admin := None;
             rg_ingress := Plain addr |}.

Definition daemon_main (bd : Build) (cfg : AppConfig) (b : Boot) : PST Host StartError Running :=
  let* c := core (DataStack_connect (bo_open b) (core_config (ac_relay cfg) (ac_blob cfg))) in
  let* _ := pst_of (st_map_err SCore (on_store (stack_migrate (bo_exec_ddl b) (bo_conn b) (bo_mig b) (bo_mig_now b)))) in
  let* c := if bc_enabled (ac_blob cfg) then pst_lift (wire_blob bd c (ac_blob cfg)) else pst_ret c in
  let* c := if pk_enabled (ac_pki cfg)
            then or_panic (hours (bd_checked bd) (pk_leaf_ttl_hours (ac_pki cfg))) (λ ttl,
                   on_dir (with_node_pki (bo_pki b) (bo_partial b).1 (bo_partial b).2 (bo_key b) (bo_rnd b).1
                             (bo_rnd b).2 (pk_sans (ac_pki cfg)) (ttl * ns_per_sec) c))
            else pst_ret c in
  let app := {| st_config := cx_config c; st_max_wait := rc_max_wait_seconds (ac_relay cfg) |} in
  if pk_enabled (ac_pki cfg) then start_pqmtls bd cfg b c app else start_plain cfg b c app.

(** ** The running daemon

    [ss_conns] holds, for every connection that is open, the peer's certificate
    chain, and [ss_sessions] the sessions that peers may resume.  The server's
    configuration reads the live trust set and the current leaf.  Without the
    admin API there are no [DeAdmin] events. *)

Record System (B : Type) := {
  ss_node : Node;
  ss_tls : NodeTls;
  ss_data : RelayNode B;
  ss_sessions : Sessions;
  ss_conns : gmap nat (list bytes);
  ss_up : bool;
}.
Arguments ss_node {B}.
Arguments ss_tls {B}.
Arguments ss_data {B}.
Arguments ss_sessions {B}.
Arguments ss_conns {B}.
Arguments ss_up {B}.

Inductive DaemonEvent : Type :=
| DeAccept (id : nat) (peer : Hello) (now : Z) (d : bytes)
| DeAcceptFailed (e : string)
| DeRequest (id : nat) (raw : bytes) (am : Ambient)
| DeClose (id : nat)
| DeAdmin (raw : bytes) (f g : Faults) (now : Z)
| DeRotate (drawn : Result string KeyPair) (rnd : bytes) (now : Z)
| DeRefresh (g : Faults)
| DeSweep (f : Faults) (now : Z)
| DeShutdown.

Context {B : Type} (lower_table : Z → list Z) (usize_max : Z) (sv : Server B) (groups : list NamedGroup)
  (own : text).

(** The configuration a handshake sees. *)
Definition live_config (s : System B) : ServerConfig :=
  {| sc_groups := groups; sc_client_trust := nd_trust (ss_node s); sc_resolver := resolve_cert (ss_tls s) |}.

Definition with_conns (m : gmap nat (list bytes)) (s : System B) : System B :=
  {| ss_node := ss_node s; ss_tls := ss_tls s; ss_data := ss_data s; ss_sessions := ss_sessions s; ss_conns := m;
     ss_up := ss_up s |}.
Definition with_sessions (ses : Sessions) (s : System B) : System B :=
  {| ss_node := ss_node s; ss_tls := ss_tls s; ss_data := ss_data s; ss_sessions := ses; ss_conns := ss_conns s;
     ss_up := ss_up s |}.
Definition with_node (n : Node) (s : System B) : System B :=
  {| ss_node := n; ss_tls := ss_tls s; ss_data := ss_data s; ss_sessions := ss_sessions s; ss_conns := ss_conns s;
     ss_up := ss_up s |}.
Definition with_tls (t : NodeTls) (s : System B) : System B :=
  {| ss_node := ss_node s; ss_tls := t; ss_data := ss_data s; ss_sessions := ss_sessions s; ss_conns := ss_conns s;
     ss_up := ss_up s |}.
Definition with_data (n : RelayNode B) (s : System B) : System B :=
  {| ss_node := ss_node s; ss_tls := ss_tls s; ss_data := n; ss_sessions := ss_sessions s; ss_conns := ss_conns s;
     ss_up := ss_up s |}.

(** A tick of the rotation timer: a failed rotation, or one that panics and
    ends the task, keeps the leaf. *)
Definition rotation_tick (drawn : Result string KeyPair) (rnd : bytes) (now : Z) (s : System B) : System B :=
  match NodeTls_rotate_leaf drawn rnd now (ss_tls s) with
  | Some (_, t) => with_tls t s
  | None => s
  end.

(** A tick of the sweeper; a failed sweep is logged. *)
Definition sweep_tick (f : Faults) (now : Z) (s : System B) : System B :=
  with_data {| rn_mail := (sweep f now (rn_mail (ss_data s))).2; rn_blob := rn_blob (ss_data s) |} s.

(** One event; the bytes are what goes back on the connection.  A peer that
    gives up its handshake is a [DeAcceptFailed].  When the
    signal arrives the loop ends, [main] returns, and the runtime drops every
    task. *)
Definition daemon_step (s : System B) (e : DaemonEvent) : option bytes * System B :=
  if negb (ss_up s) then (None, s) else
  match e with
  | DeAccept id peer now d =>
      let '(r, ses) := tls_serve peer (live_config s) now d (ss_sessions s) in
      let s := with_sessions ses s in
      match r with
      | Ok (_, chain) => (None, with_conns (<[id := chain]> (ss_conns s)) s)
      | Err _ => (None, s)
      end
  | DeAcceptFailed _ => (None, s)
  | DeRequest id raw am =>
      match ss_conns s !! id with
      | None => (None, s)
      | Some _ =>
          let '(buf, n) := serve_bytes (relay_router usize_max sv am) raw (ss_data s) in
          (Some buf, with_data n s)
      end
  | DeClose id => (None, with_conns (delete id (ss_conns s)) s)
  | DeAdmin raw f g now =>
      let '(buf, n) := serve_bytes (admin_router lower_table own f g now) raw (ss_node s) in
      (Some buf, with_node n s)
  | DeRotate drawn rnd now => (None, rotation_tick drawn rnd now s)
  | DeRefresh g => (None, with_node (refresh_trust g (ss_node s)) s)
  | DeSweep f now => (None, sweep_tick f now s)
  | DeShutdown =>
      (None, {| ss_node := ss_node s; ss_tls := ss_tls s; ss_data := ss_data s; ss_sessions := ss_sessions s;
                ss_conns := ∅; ss_up := false |})
  end.

Definition daemon_run (es : list DaemonEvent) (s : System B) : System B :=
  foldl (λ s e, (daemon_step s e).2) s es.
End Daemon.
