(* ===== verification/DaemonSpec.v ===== *)
(** * The daemon runs what its configuration says, and serves whom it pinned *)

From S2P Require Import Prelude.
From S2P Require Import Text.
From S2P Require Import Entities.
From S2P Require Import Mailbox.
From S2P Require Import Json.
From S2P Require Import ModelFormats.
From S2P Require Import MailboxSpec.
From S2P Require Import Relay.
From S2P Require Import BlobRole.
From S2P Require Import PeerTrust.
From S2P Require Import NodeCa.
From S2P Require Import Migrate.
From S2P Require Import Stack.
From S2P Require Import Http.
From S2P Require Import HttpSpec.
From S2P Require Import Tls.
From S2P Require Import ModelHttp.
From S2P Require Import Daemon.
#[local] Open Scope Z_scope.

Section Start.
Context `{EX : Externals} `{FM : Formats} `{HS : HttpStack} `{RG : Rcgen} `{RU : !Rustls}
  `{TH : !Handshake} `{TL : !HandshakeLaws}.

(** ** Loopback *)

Lemma loopback_loop_spec any addrs :
  loopback_loop any addrs = true ↔
  Forall (λ a, is_loopback (sa_ip a) = true) addrs ∧ (any = true ∨ addrs ≠ []).
Proof.
  revert any. induction addrs as [|a addrs IH]; intros any; cbn [loopback_loop].
  - rewrite Forall_nil. naive_solver.
  - rewrite Forall_cons. destruct (is_loopback (sa_ip a)); cbn [negb]; [|naive_solver].
    rewrite IH. naive_solver.
Qed.

Lemma spawn_admin_loopback b admin a :
  (∀ l a, bo_listen b l = Ok a → a ∈ l) → bo_resolve b 1%nat (ad_bind admin) = bo_resolve b 0%nat (ad_bind admin) →
  spawn_admin b admin = Ok a → is_loopback (sa_ip a) = true.
Proof.
  intros Hl Hr. unfold spawn_admin, TcpListener_bind. rewrite Hr.
  destruct (bo_resolve b 0%nat (ad_bind admin)) as [addrs|e]; cbn [is_loopback_bind rbind negb]; [|done].
  destruct (loopback_loop false addrs) eqn:E; cbn [negb]; [|done]. intros H. inv_ok. apply Hl in H.
  apply loopback_loop_spec in E as [E _]. rewrite Forall_forall in E. by apply E.
Qed.

(** ** What a start that succeeds has done *)

(** The media backend of a configuration. *)
Definition backend_of (blob : BlobConfig) : option Backend :=
  if negb (bc_enabled blob) then None
  else if bool_decide (bc_backend blob = "fs") then Some (FsBackend (bc_fs_root blob))
  else Some (S3Backend {| s3_endpoint := bc_s3_endpoint blob; s3_region := bc_s3_region blob;
                          s3_access_key := bc_s3_access_key blob; s3_secret_key := bc_s3_secret_key blob |}).

Definition backend_known (bd : Build) (blob : BlobConfig) : Prop :=
  bc_enabled blob = true → bc_backend blob = "fs" ∨ (bc_backend blob = "s3" ∧ bd_s3 bd = true).

Lemma wire_blob_Ok bd blob c c' :
  bc_enabled blob = true → wire_blob bd c blob = Ok c' →
  cx_blob c' = backend_of blob ∧ backend_known bd blob ∧
  cx_pki c' = cx_pki c ∧ cx_peer_trust c' = cx_peer_trust c ∧ cx_config c' = cx_config c.
Proof.
  intros He. unfold wire_blob, backend_of, backend_known. rewrite He. cbn [negb].
  case_bool_decide; [by intros [= <-]; auto|]. case_bool_decide; [|done].
  destruct (bd_s3 bd) eqn:Hs; [|done]. intros [= <-]. auto 10.
Qed.

Lemma or_panic_inv {S E A B} (o : option A) (k : A → PST S E B) s r :
  or_panic o k s = Some r → ∃ a, o = Some a ∧ k a s = Some r.
Proof. destruct o; [|done]. cbn. eauto. Qed.

Lemma core_inv {S A} (r : Result CoreError A) (s : S) a s' :
  core r s = Some (Ok a, s') → r = Ok a ∧ s' = s.
Proof. unfold core, pst_lift. destruct r; cbn; by intros [= <- <-]. Qed.

Lemma lift_inv {S E A} (r : Result E A) (s : S) a s' : pst_lift r s = Some (Ok a, s') → r = Ok a ∧ s' = s.
Proof. unfold pst_lift. by intros [= -> ->]. Qed.

(** Whom a node trusts whose registry was read with these faults: the pinned
    CAs, or nobody if the read failed. *)
Definition trust_read (g : Faults) (peers : PeerTable) : gset text :=
  if is_ok (list_trusted g peers).1 then list_to_set (pinned peers) else ∅.

(** The PQ-mTLS part: the leaf served, the groups, the admin API, the trust. *)
Definition pqmtls_runs (cfg : AppConfig) (b : Boot) (r : Running) (h' : Host) : Prop :=
  match rg_ingress r with
  | Plain _ => pk_enabled (ac_pki cfg) = false ∧ rg_admin r = None
  | PqMtls _ tls config every =>
      pk_enabled (ac_pki cfg) = true ∧ cx_pki (rg_ctx r) = Some (nt_pki tls) ∧
      serves_since tls (bo_now_ns b) ∧ sc_groups config = pq_provider ∧ 1 <= every ∧
      (is_Some (rg_admin r) ↔ ad_enabled (ac_admin cfg) = true) ∧
      ho_trust h' = trust_read (bo_list b) (tb_peers (sc_data (ho_store h')))
  end.

Lemma refresh_trust_cases g n :
  nd_registry (refresh_trust g n) = nd_registry n ∧
  nd_trust (refresh_trust g n)
  = if is_ok (list_trusted g (nd_registry n)).1 then list_to_set (pinned (nd_registry n)) else nd_trust n.
Proof.
  unfold refresh_trust, on_registry. destruct (list_trusted g (nd_registry n)) as [[peers|e] t] eqn:E;
    apply list_spec in E as [-> Hp]; cbn; [|auto]. split; [done|]. by rewrite (Hp peers eq_refl).
Qed.

Lemma admin_choice b cfg (h : Host) o h' :
  (if ad_enabled (ac_admin cfg)
   then let* a := pst_lift (spawn_admin b (ac_admin cfg)) in pst_ret (Some a)
   else pst_ret None) h = Some (Ok o, h') →
  h' = h ∧ (is_Some o ↔ ad_enabled (ac_admin cfg) = true) ∧
  ∀ a, o = Some a → spawn_admin b (ac_admin cfg) = Ok a.
Proof.
  destruct (ad_enabled _).
  - intros H. apply pst_bind_inv in H as (a & h1 & [Ha ->]%lift_inv & [= <- <-]). naive_solver eauto.
  - intros [= <- <-]. split_and!; [done| |done]. split; [by intros []|done].
Qed.

Lemma start_pqmtls_Ok bd cfg b c app h r h' :
  pk_enabled (ac_pki cfg) = true → start_pqmtls bd cfg b c app h = Some (Ok r, h') →
  rg_ctx r = c ∧ rg_app r = app ∧ 1 <= rg_sweep_every r ∧ ho_store h' = ho_store h ∧ pqmtls_runs cfg b r h' ∧
  ∀ a, rg_admin r = Some a → spawn_admin b (ac_admin cfg) = Ok a.
Proof.
  intros Hpk H. unfold start_pqmtls in H. apply or_panic_inv in H as (pki & Hpki & H).
  destruct (negb (cx_peer_trust c)); [done|].
  apply pst_bind_inv in H as (? & h1 & [= <- <-] & H). apply or_panic_inv in H as (t & Ht & H).
  apply pst_bind_inv in H as (tls & ? & [-> ->]%core_inv & H).
  apply pst_bind_inv in H as (admin & ? & (-> & Had & Hadm)%admin_choice & H).
  apply pst_bind_inv in H as (addr & ? & [_ ->]%lift_inv & H). apply or_panic_inv in H as (every & _ & H).
  apply pst_bind_inv in H as (config & h2 & H & [= <- <-]). unfold serve_pqmtls_start in H.
  apply pst_bind_inv in H as (? & h3 & [= _ <-] & [Hsc ->]%core_inv).
  apply NodeTls_new_serves in Ht as (Hs & _ & Hp). unfold server_config in Hsc. inv_ok. subst config.
  match goal with |- context [refresh_trust ?g ?n] => destruct (refresh_trust_cases g n) as [Hreg Htr];
    set (n2 := refresh_trust g n) in *; clearbody n2 end.
  cbn [host_node put_node nd_registry nd_trust ho_store ho_trust] in Hreg, Htr.
  unfold pqmtls_runs. cbn [rg_ctx rg_app rg_sweep_every rg_ingress rg_admin sc_groups put_node ho_store ho_trust].
  rewrite Hreg. split_and!; try done; try (unfold timer_every; lia).
  - by destruct h as [[[]]].
  - by rewrite Hp.
  - apply Hs.
Qed.

Lemma start_plain_Ok cfg b c app h r h' :
  pk_enabled (ac_pki cfg) = false → start_plain cfg b c app h = Some (Ok r, h') →
  rg_ctx r = c ∧ rg_app r = app ∧ 1 <= rg_sweep_every r ∧ ho_store h' = ho_store h ∧ pqmtls_runs cfg b r h' ∧
  ∀ a, rg_admin r = Some a → spawn_admin b (ac_admin cfg) = Ok a.
Proof.
  intros Hpk H. unfold start_plain in H. apply pst_bind_inv in H as (addr & ? & [_ ->]%lift_inv & [= <- <-]).
  unfold pqmtls_runs. cbn. split_and!; try done. unfold timer_every. lia.
Qed.

Lemma blob_choice bd cfg c (h : Host) c' h' :
  cx_blob c = None →
  (if bc_enabled (ac_blob cfg) then pst_lift (wire_blob bd c (ac_blob cfg)) else pst_ret c) h = Some (Ok c', h') →
  h' = h ∧ cx_blob c' = backend_of (ac_blob cfg) ∧ backend_known bd (ac_blob cfg) ∧ cx_config c' = cx_config c.
Proof.
  intros Hc. destruct (bc_enabled (ac_blob cfg)) eqn:E.
  - intros [Hw ->]%lift_inv. apply wire_blob_Ok in Hw as (? & ? & _ & _ & ?); auto.
  - intros [= <- <-]. unfold backend_of, backend_known. rewrite E, Hc. done.
Qed.

Lemma pki_choice bd cfg b c (h : Host) c' h' :
  (if pk_enabled (ac_pki cfg)
   then or_panic (hours (bd_checked bd) (pk_leaf_ttl_hours (ac_pki cfg))) (λ ttl,
          on_dir (with_node_pki (bo_pki b) (bo_partial b).1 (bo_partial b).2 (bo_key b) (bo_rnd b).1
                    (bo_rnd b).2 (pk_sans (ac_pki cfg)) (ttl * ns_per_sec) c))
   else pst_ret c) h = Some (Ok c', h') →
  ho_store h' = ho_store h ∧ cx_blob c' = cx_blob c ∧ cx_config c' = cx_config c.
Proof.
  destruct (pk_enabled _); [|by intros [= <- <-]]. intros H. apply or_panic_inv in H as (ttl & _ & H).
  unfold on_dir in H. destruct (with_node_pki _ _ _ _ _ _ _ _ c (ho_pki h)) as [[c1|e] d] eqn:E; [|done].
  injection H as -> <-. unfold with_node_pki in E. apply st_bind_Ok in E as (pki & ? & _ & E).
  by injection E as <- <-.
Qed.

(** What the theorems below say of a start that succeeds. *)
Lemma daemon_main_Ok bd cfg b h r h' :
  daemon_main bd cfg b h = Some (Ok r, h') →
  cx_blob (rg_ctx r) = backend_of (ac_blob cfg) ∧ backend_known bd (ac_blob cfg) ∧
  st_config (rg_app r) = core_config (ac_relay cfg) (ac_blob cfg) ∧
  st_max_wait (rg_app r) = rc_max_wait_seconds (ac_relay cfg) ∧ 1 <= rg_sweep_every r ∧
  migrated (ho_store h') ∧ pqmtls_runs cfg b r h' ∧
  ∀ a, rg_admin r = Some a → spawn_admin b (ac_admin cfg) = Ok a.
Proof.
  unfold daemon_main. intros H. apply pst_bind_inv in H as (c & ? & [Hc ->]%core_inv & H).
  unfold DataStack_connect in Hc. inv_ok. subst c.
  apply pst_bind_inv in H as (u & h1 & Hm & H).
  assert (migrated (ho_store h1)) as Hmig.
  { unfold pst_of, st_map_err, on_store in Hm. destruct (stack_migrate _ _ _ _ (ho_store h)) as [[[]|e] s1] eqn:E; [|done].
    injection Hm as _ <-. by apply migrate_migrates in E. }
  apply pst_bind_inv in H as (c1 & ? & H1 & H). apply blob_choice in H1 as (-> & Hblob & Hknown & Hcfg1); [|done].
  apply pst_bind_inv in H as (c2 & h2 & H2 & H). apply pki_choice in H2 as (Hst & Hblob2 & Hcfg2).
  assert (rg_ctx r = c2 ∧ rg_app r = {| st_config := cx_config c2; st_max_wait := rc_max_wait_seconds (ac_relay cfg) |} ∧
    1 <= rg_sweep_every r ∧ ho_store h' = ho_store h2 ∧ pqmtls_runs cfg b r h' ∧
    ∀ a, rg_admin r = Some a → spawn_admin b (ac_admin cfg) = Ok a) as (Hctx & Happ & ? & Hst' & ? & ?).
  { destruct (pk_enabled (ac_pki cfg)) eqn:E; [by apply (start_pqmtls_Ok bd)|by eapply start_plain_Ok]. }
  rewrite Hctx, Happ, Hst', Hst, Hblob2, Hblob. cbn [st_config st_max_wait]. rewrite Hcfg2, Hcfg1. done.
Qed.

(** C30: a daemon that comes up runs what its configuration says: the blob role is
    on exactly when it is enabled, with the backend named there (an unknown one,
    or [s3] in a build without it, stops the start); the node's limits are the
    configured ones; the datastore is migrated; PQ-mTLS is served exactly when
    the CA is enabled, with a leaf issued by the node's CA at the start and the
    post-quantum group preferred, the admin API exactly when it is enabled as
    well, and the node trusts exactly what its registry pins, unless the reading
    of the registry failed, and then nobody. *)
Theorem start_follows_config bd cfg b h r h' :
  daemon_main bd cfg b h = Some (Ok r, h') →
  cx_blob (rg_ctx r) = backend_of (ac_blob cfg) ∧ backend_known bd (ac_blob cfg) ∧
  st_config (rg_app r) = core_config (ac_relay cfg) (ac_blob cfg) ∧
  st_max_wait (rg_app r) = rc_max_wait_seconds (ac_relay cfg) ∧ 1 <= rg_sweep_every r ∧
  migrated (ho_store h') ∧ pqmtls_runs cfg b r h'.
Proof. intros (? & ? & ? & ? & ? & ? & ? & _)%daemon_main_Ok. by split_and!. Qed.

(** C31: the admin API, which has no authentication, listens on a loopback address
    only: in every start that succeeds, as long as the name in [admin.bind]
    resolves to the same addresses for the check and for the listener. *)
Theorem admin_only_on_loopback bd cfg b h r h' a :
  (∀ l a, bo_listen b l = Ok a → a ∈ l) →
  bo_resolve b 1%nat (ad_bind (ac_admin cfg)) = bo_resolve b 0%nat (ad_bind (ac_admin cfg)) →
  daemon_main bd cfg b h = Some (Ok r, h') → rg_admin r = Some a → is_loopback (sa_ip a) = true.
Proof.
  intros Hl Hr (_ & _ & _ & _ & _ & _ & _ & Ha)%daemon_main_Ok Hadm.
  by apply (spawn_admin_loopback b (ac_admin cfg)); [| |apply Ha].
Qed.
End Start.

(** ** Whom the running daemon serves *)

Section Serving.
Context `{EX : Externals} `{FM : Formats} `{HS : HttpStack} `{RG : Rcgen} `{RU : !Rustls}
  `{TH : !Handshake} `{TL : !HandshakeLaws}.
Context {B : Type} (lower_table : Z → list Z) (usize_max : Z) (sv : Server B) (own : text).

(** Fingerprints a node could accept now or after a refresh. *)
Definition known (n : Node) (fp : text) : Prop := fp ∈ pinned (nd_registry n) ∨ fp ∈ nd_trust n.

Lemma on_registry_pins {A} (m : ST PeerTable CoreError A) n r n' (P : text → Prop) :
  (∀ t r t', m t = (r, t') → ∀ fp, fp ∈ pinned t' → fp ∈ pinned t ∨ P fp) →
  on_registry m n = (r, n') → ∀ fp, known n' fp → known n fp ∨ P fp.
Proof.
  intros Hm H. apply on_registry_inv in H as [H Ht]. intros fp [Hfp|Hfp]; [|left; right; by rewrite <-Ht].
  destruct (Hm _ _ _ H fp Hfp); [by left; left|by right].
Qed.

Lemma refresh_live_pins g n r n' fp : refresh_live g n = (r, n') → known n' fp → known n fp.
Proof.
  intros [Hr Ht]%refresh_live_spec [H|H]; [left; by rewrite <-Hr|]. destruct r; rewrite Ht in H; [|by right].
  left. by apply elem_of_list_to_set in H.
Qed.

Lemma trust_peer_pins f g now fp note n r n' x :
  trust_peer lower_table f g now fp note n = (r, n') → known n' x → known n x ∨ x = normalize lower_table fp.
Proof.
  unfold trust_peer. intros H Hx.
  assert (∀ t r t', trust lower_table f now fp note t = (r, t') → ∀ y, y ∈ pinned t' →
    y ∈ pinned t ∨ y = normalize lower_table fp) as Ht.
  { intros t r0 t' Ht%trust_spec y Hy. destruct r0; [by apply Ht|left; by subst]. }
  apply st_bind_inv in H as [(u & n1 & H1 & H)|(e & H1 & ->)];
    pose proof (on_registry_pins _ _ _ _ _ Ht H1) as H1'; [|by apply H1'].
  apply H1'. apply st_bind_inv in H as [(u' & n2 & H2 & [= <- <-])|(e & H2 & ->)]; by eapply refresh_live_pins.
Qed.

Lemma distrust_peer_pins f g fp n r n' x :
  distrust_peer lower_table f g fp n = (r, n') → known n' x → known n x.
Proof.
  unfold distrust_peer. intros H Hx.
  assert (∀ t r t', distrust lower_table f fp t = (r, t') → ∀ y, y ∈ pinned t' → y ∈ pinned t ∨ False) as Ht.
  { intros t r0 t' Ht%distrust_spec y Hy. left. destruct r0; [by apply Ht|by subst]. }
  apply st_bind_inv in H as [(u & n1 & H1 & H)|(e & H1 & ->)];
    pose proof (on_registry_pins _ _ _ _ _ Ht H1) as H1'; [|by destruct (H1' x Hx)].
  destruct (H1' x) as [?|[]]; [|done].
  apply st_bind_inv in H as [(u' & n2 & H2 & [= <- <-])|(e & H2 & ->)]; by eapply refresh_live_pins.
Qed.

Lemma list_pins g n r n' : on_registry (list_trusted g) n = (r, n') → n' = n.
Proof.
  intros [H Ht]%on_registry_inv. apply list_spec in H as [Hr _]. destruct n, n'. cbn in *. by subst.
Qed.

(** The request is a call of the operator to trust this fingerprint. *)
Definition names (raw : bytes) (fp : text) : Prop :=
  ∃ rq req, http_read raw = Some rq ∧ admin_route (target_path (rq_target rq)) = Some RtPeers ∧
    method_is rq "POST" = true ∧ extract_json DEFAULT_BODY_LIMIT TrustRequest_from_json rq = Ok req ∧
    normalize lower_table (tr_ca_fingerprint req) = fp.

Lemma admin_pins f g now raw n buf n' fp :
  serve_bytes (admin_router lower_table own f g now) raw n = (buf, n') → known n' fp →
  known n fp ∨ names raw fp.
Proof.
  unfold serve_bytes. destruct (http_read raw) as [rq|] eqn:Hrq; [|intros [= <- <-]; auto].
  unfold admin_router.
  assert (∀ c, match (match ok_or (pct_decode c) (reject 400) with
      | Err r => Some (r, n)
      | Ok ca_fp => let '(r, n') := distrust_peer lower_table f g ca_fp n in Some (json_result removed_json r, n')
      end) with None => ([], n) | Some (r, n') => (http_write r, n') end = (buf, n') → known n' fp → known n fp ∨ names raw fp) as Hd.
  { intros c. destruct (pct_decode c) as [ca|]; cbn [ok_or]; [|intros [= <- <-]; auto].
    destruct (distrust_peer lower_table f g ca n) as [r n1] eqn:E. intros [= <- <-] Hk. left. by eapply distrust_peer_pins. }
  destruct (admin_route _) as [[]|] eqn:Hroute; [| | | |intros [= <- <-]; auto].
  - destruct (method_get rq); [|intros [= <- <-]; auto]. unfold info, st_bind.
    destruct (on_registry (list_trusted g) n) as [[] n1] eqn:E; apply list_pins in E as ->; intros [= <- <-]; auto.
  - destruct (method_get rq).
    { unfold list_peers, st_bind. destruct (on_registry (list_trusted g) n) as [[] n1] eqn:E;
        apply list_pins in E as ->; intros [= <- <-]; auto. }
    destruct (method_is rq "POST") eqn:Hpost; [|intros [= <- <-]; auto].
    destruct (extract_json _ _ rq) as [req|r] eqn:Hreq; [|intros [= <- <-]; auto].
    destruct (trust_peer _ _ _ _ _ _ n) as [r n1] eqn:E. intros [= <- <-] Hk.
    destruct (trust_peer_pins _ _ _ _ _ _ _ _ _ E Hk) as [?| ->]; [by left|]. right. exists rq, req. auto.
  - destruct (method_is rq "DELETE"); [apply Hd|intros [= <- <-]; auto].
  - destruct (method_is rq "POST"); [apply Hd|intros [= <- <-]; auto].
Qed.

Lemma refresh_trust_pins g n fp : known (refresh_trust g n) fp → known n fp.
Proof.
  destruct (refresh_trust_cases g n) as [Hr Ht]. unfold known. rewrite Hr.
  intros [H|H]; [by left|]. rewrite Ht in H. destruct (is_ok _); [|by right].
  left. by apply elem_of_list_to_set in H.
Qed.

(** The operator had this fingerprint pinned before or during [es]. *)
Definition operator_named (n0 : Node) (es : list DaemonEvent) (fp : text) : Prop :=
  fp ∈ pinned (nd_registry n0) ∨ ∃ raw f g now, DeAdmin raw f g now ∈ es ∧ names raw fp.

(** A peer presents [chain] in a full handshake after [es]: the chain is a leaf
    under a self-signed CA, both valid at that time, the CA was pinned, and the
    peer proves the leaf's key. *)
Definition checked (n0 : Node) (es : list DaemonEvent) (peer : Hello) (now : Z) (chain : list bytes) : Prop :=
  ck_chain (he_auth peer) = chain ∧
  ∃ leaf ints ca_der, chain = leaf :: ints ∧ last ints = Some ca_der ∧
    operator_named n0 es (fingerprint ca_der) ∧ chain_ok leaf ca_der now ∧
    proves (ck_key (he_auth peer)) leaf = true.

(** That happened during [es]. *)
Definition checked_during (n0 : Node) (es : list DaemonEvent) (chain : list bytes) : Prop :=
  ∃ es1 es2 id peer now d, es = es1 ++ DeAccept id peer now d :: es2 ∧ checked n0 es1 peer now chain.

(** Connection [id], of the peer with [chain], was let in during [es]: the peer
    was checked in this handshake, or it resumed a session of a peer that was
    checked in an earlier one. *)
Definition let_in (n0 : Node) (es : list DaemonEvent) (id : nat) (chain : list bytes) : Prop :=
  ∃ es1 es2 peer now d, es = es1 ++ DeAccept id peer now d :: es2 ∧
    (checked n0 es1 peer now chain ∨ (is_Some (he_psk peer) ∧ checked_during n0 es1 chain)).

Context (groups : list NamedGroup).
#[local] Abbreviation step := (daemon_step lower_table usize_max sv groups own).
#[local] Abbreviation run := (daemon_run lower_table usize_max sv groups own).

Definition daemon_inv (n0 : Node) (es : list DaemonEvent) (s : System B) : Prop :=
  (∀ fp, known (ss_node _ s) fp → operator_named n0 es fp) ∧
  (∀ id chain, ss_conns _ s !! id = Some chain → let_in n0 es id chain) ∧
  (∀ peer chain, resumes (ss_sessions _ s) peer = Some chain → checked_during n0 es chain) ∧
  (ss_up _ s = true → DeShutdown ∉ es).

Lemma operator_named_app n0 es es' fp : operator_named n0 es fp → operator_named n0 (es ++ es') fp.
Proof. intros [?|(raw & f & g & now & ? & ?)]; [by left|]. right. exists raw, f, g, now. set_solver. Qed.

Lemma checked_during_snoc n0 es e chain : checked_during n0 es chain → checked_during n0 (es ++ [e]) chain.
Proof.
  intros (es1 & es2 & id & p & now & d & -> & H). exists es1, (es2 ++ [e]), id, p, now, d. by rewrite <-app_assoc.
Qed.

Lemma let_in_snoc n0 es e id chain : let_in n0 es id chain → let_in n0 (es ++ [e]) id chain.
Proof.
  intros (es1 & es2 & p & now & d & -> & H). exists es1, (es2 ++ [e]), p, now, d. by rewrite <-app_assoc.
Qed.

Lemma verify_side_Ok trusted now ck :
  verify_side trusted now ck = Ok tt →
  ∃ leaf ints ca_der, ck_chain ck = leaf :: ints ∧ last ints = Some ca_der ∧ fingerprint ca_der ∈ trusted ∧
    chain_ok leaf ca_der now ∧ proves (ck_key ck) leaf = true.
Proof.
  unfold verify_side. destruct (ck_chain ck) as [|leaf ints]; [done|]. intros H. inv_ok. destruct a.
  apply verify_pinned_chain_Ok in Ha as (ca & ? & ? & ?). destruct (proves _ _) eqn:Hp; [|done]. eauto 10.
Qed.

(** A handshake that succeeds. *)
Lemma serve_checks n0 es s peer now d g chain :
  daemon_inv n0 es s → (tls_serve peer (live_config groups s) now d (ss_sessions _ s)).1 = Ok (g, chain) →
  checked n0 es peer now chain ∨ (is_Some (he_psk peer) ∧ checked_during n0 es chain).
Proof.
  intros (Hk & _ & Hs & _) H. destruct (resumes (ss_sessions _ s) peer) as [chain'|] eqn:E.
  - destruct (proj1 (serve_resumed _ _ _ _ _ _ _ _ E) H) as (-> & _). right. split; [|eauto].
    destruct (he_psk peer) eqn:Ep; [done|]. by rewrite resumes_offer in E.
  - rewrite (serve_full _ _ _ _ _ E) in H. apply rbind_Ok in H as (g' & (_ & _ & Hv)%accept_law & [= _ <-]).
    apply verify_side_Ok in Hv as (leaf & ints & ca & ? & ? & Hin & ? & ?). left. split; [done|].
    exists leaf, ints, ca. split_and!; try done. apply Hk. by right.
Qed.

(** An event that is no handshake and leaves the connections alone keeps the
    invariant. *)
Lemma inv_mono n0 es e s s' :
  daemon_inv n0 es s → e ≠ DeShutdown → ss_up _ s = true →
  (∀ fp, known (ss_node _ s') fp → known (ss_node _ s) fp ∨ operator_named n0 (es ++ [e]) fp) →
  (∀ id ck, ss_conns _ s' !! id = Some ck → ss_conns _ s !! id = Some ck ∨ let_in n0 (es ++ [e]) id ck) →
  (∀ p ck, resumes (ss_sessions _ s') p = Some ck →
     resumes (ss_sessions _ s) p = Some ck ∨ checked_during n0 (es ++ [e]) ck) →
  daemon_inv n0 (es ++ [e]) s'.
Proof.
  intros (Hk & Hc & Hs & Hup) He Hu Hk' Hc' Hs'. split_and!.
  - intros fp Hfp. destruct (Hk' fp Hfp); [|done]. by apply operator_named_app, Hk.
  - intros id ck Hid. destruct (Hc' id ck Hid); [|done]. by apply let_in_snoc, Hc.
  - intros p ck Hp. destruct (Hs' p ck Hp); [|done]. by eapply checked_during_snoc, Hs.
  - intros _. specialize (Hup Hu). rewrite elem_of_app, list_elem_of_singleton. naive_solver.
Qed.

Lemma accept_inv n0 es s id peer now d :
  daemon_inv n0 es s → ss_up _ s = true →
  daemon_inv n0 (es ++ [DeAccept id peer now d]) (step s (DeAccept id peer now d)).2.
Proof.
  intros Hs Hu. unfold daemon_step. rewrite Hu. cbn [negb].
  pose proof (serve_checks n0 es s peer now d) as Hck.
  pose proof (sessions_law peer (live_config groups s) now d (ss_sessions _ s)) as Hse.
  destruct (tls_serve _ _ _ _ _) as [r ses]. cbn [fst snd] in *.
  assert (∀ g chain, r = Ok (g, chain) → checked_during n0 (es ++ [DeAccept id peer now d]) chain) as Hdur.
  { intros g chain Hr. destruct (Hck g chain Hs Hr) as [H|[_ H]]; [|by apply checked_during_snoc].
    by exists es, [], id, peer, now, d. }
  assert (∀ p c, resumes ses p = Some c → resumes (ss_sessions _ s) p = Some c ∨
    checked_during n0 (es ++ [DeAccept id peer now d]) c) as Hses.
  { intros p c Hp. destruct (Hse p c Hp) as [?|[g Hg]]; [by left|right; eauto]. }
  destruct r as [[g chain]|e]; cbn [snd]; (eapply inv_mono; [done..|by eauto| |done]); cbn; [|by eauto].
  intros id' ck. rewrite lookup_insert_Some. intros [[<- <-]|[_ ?]]; [right|by left].
  exists es, [], peer, now, d. split; [done|]. by apply (Hck g).
Qed.

Lemma step_inv n0 es s e : daemon_inv n0 es s → daemon_inv n0 (es ++ [e]) (step s e).2.
Proof.
  intros Hs. destruct (ss_up _ s) eqn:Hu.
  2: { unfold daemon_step. rewrite Hu. destruct Hs as (Hk & Hc & Hse & _).
       split_and!; [|eauto using let_in_snoc|eauto using checked_during_snoc|cbn; congruence].
       intros fp Hfp. by apply operator_named_app, Hk. }
  destruct e as [id peer now d|e|id raw am|id|raw f g now|drawn rnd now|g|f now|]; [by apply accept_inv|..];
    unfold daemon_step; rewrite Hu; cbn [negb snd].
  - eapply inv_mono; eauto.
  - destruct (ss_conns _ s !! id); [|eapply inv_mono; eauto].
    destruct (serve_bytes _ raw _) as [buf n]. eapply inv_mono; cbn; eauto.
  - eapply inv_mono; cbn; eauto. intros id' ck. rewrite lookup_delete_Some. intros [_ ?]. by left.
  - destruct (serve_bytes _ raw _) as [buf n] eqn:E. eapply inv_mono; cbn; eauto. intros fp Hfp.
    destruct (admin_pins _ _ _ _ _ _ _ _ E Hfp) as [?|Hn]; [by left|]. right. right.
    exists raw, f, g, now. split; [set_solver|done].
  - unfold rotation_tick. destruct (NodeTls_rotate_leaf _ _ _ _) as [[]|]; eapply inv_mono; cbn; eauto.
  - eapply inv_mono; cbn; eauto. intros fp Hfp. left. by eapply refresh_trust_pins.
  - eapply inv_mono; cbn; eauto.
  - destruct Hs as (Hk & _ & Hse & _). split_and!; cbn; [|intros id ck; by rewrite lookup_empty| |done].
    + intros fp Hfp. by apply operator_named_app, Hk.
    + intros p ck Hp. by eapply checked_during_snoc, Hse.
Qed.

(** The daemon that a start leaves, with [blob] in the media backend. *)
Definition booted (tls : NodeTls) (h : Host) (blob : B) : System B :=
  {| ss_node := host_node h; ss_tls := tls;
     ss_data := {| rn_mail := {| db := tb_mail (sc_data (ho_store h)); waiters := ∅; woken := ∅ |}; rn_blob := blob |};
     ss_sessions := no_sessions; ss_conns := ∅; ss_up := true |}.

Lemma run_daemon_inv n0 es s : daemon_inv n0 [] s → daemon_inv n0 es (run es s).
Proof.
  intros Hs. induction es as [|e es IH] using rev_ind; [done|].
  unfold daemon_run. rewrite foldl_app. cbn [foldl]. by apply step_inv.
Qed.

(** C7: only peers the operator pinned are served.  From a start that succeeds,
    through any sequence of connections, requests, operator calls, failing or
    not, rotations, refreshes and sweeps: an answer goes out only on a
    connection that was let in by a handshake.  In that handshake, or, if it
    resumed a session, in the earlier full one that the session goes back to,
    the peer presented a leaf that chains to a self-signed CA, both valid at
    that time, proved possession of the leaf's key, and the CA had been pinned
    by then, in the registry at the start or by a trust request to the admin
    API; and none goes out after the shutdown signal. *)
Theorem served_peer_was_pinned bd cfg b h r h' addr tls config every blob es id raw am buf s' :
  daemon_main bd cfg b h = Some (Ok r, h') → rg_ingress r = PqMtls addr tls config every →
  step (run es (booted tls h' blob)) (DeRequest id raw am) = (Some buf, s') →
  (∃ chain, let_in (host_node h') es id chain) ∧ DeShutdown ∉ es.
Proof.
  intros (_ & _ & _ & _ & _ & _ & Hr & _)%daemon_main_Ok Hi H. unfold pqmtls_runs in Hr. rewrite Hi in Hr.
  destruct Hr as (_ & _ & _ & _ & _ & _ & Ht).
  assert (daemon_inv (host_node h') es (run es (booted tls h' blob))) as (_ & Hc & _ & Hup).
  { apply run_daemon_inv. split_and!; cbn; [|intros ? ?; by rewrite lookup_empty|intros ? ?; by rewrite resumes_none
      |intros _; apply not_elem_of_nil].
    intros fp [Hfp|Hfp]; [by left|]. left. cbn in Hfp |- *. rewrite Ht in Hfp. unfold trust_read in Hfp.
    destruct (is_ok _); set_solver. }
  unfold daemon_step in H. destruct (ss_up _ _) eqn:Hu; cbn [negb] in H; [|done].
  destruct (ss_conns _ _ !! id) as [ck|] eqn:Hck; [|done]. eauto.
Qed.

(** ** Resumption *)

(** Neither a handshake nor the end. *)
Definition quiet (e : DaemonEvent) : Prop :=
  match e with DeAccept _ _ _ _ | DeShutdown => False | _ => True end.

Lemma quiet_step s e :
  quiet e → ss_sessions _ (step s e).2 = ss_sessions _ s ∧ ss_up _ (step s e).2 = ss_up _ s.
Proof.
  intros He. unfold daemon_step. destruct (ss_up _ s) eqn:Hu; cbn [negb]; [|done].
  destruct e as [id peer now d|e|id raw am|id|raw f g now|drawn rnd now|g|f now|]; try done.
  - destruct (ss_conns _ s !! id); [|done]. by destruct (serve_bytes _ raw _).
  - by destruct (serve_bytes _ raw _).
  - unfold rotation_tick. by destruct (NodeTls_rotate_leaf _ _ _ _) as [[]|].
Qed.

Lemma quiet_run es s :
  Forall quiet es → ss_sessions _ (run es s) = ss_sessions _ s ∧ ss_up _ (run es s) = ss_up _ s.
Proof.
  intros H. revert s. induction H as [|e es He _ IH]; intros s; [done|].
  destruct (quiet_step s e He) as [<- <-]. apply IH.
Qed.

Lemma accept_opens s id peer now d :
  ss_up _ s = true →
  let s' := (step s (DeAccept id peer now d)).2 in
  let r := tls_serve peer (live_config groups s) now d (ss_sessions _ s) in
  ss_up _ s' = true ∧ ss_sessions _ s' = r.2 ∧
  ss_conns _ s' = match r.1 with Ok (_, chain) => <[id := chain]> (ss_conns _ s) | Err _ => ss_conns _ s end.
Proof.
  intros Hu. cbv zeta. unfold daemon_step. rewrite Hu. cbn [negb].
  by destruct (tls_serve peer _ now d _) as [[[g c]|e] ses].
Qed.

Lemma open_answers s id raw am chain :
  ss_up _ s = true → ss_conns _ s !! id = Some chain → is_Some (step s (DeRequest id raw am)).1.
Proof. intros Hu Hc. unfold daemon_step. rewrite Hu, Hc. cbn [negb]. by destruct (serve_bytes _ raw _). Qed.

Lemma serve_group peer sc now d ses g chain :
  (tls_serve peer sc now d ses).1 = Ok (g, chain) → select_group (he_groups peer) sc = Some g.
Proof.
  destruct (resumes ses peer) as [c|] eqn:Er; [by intros (_ & ? & _)%(serve_resumed _ _ _ _ _ _ _ _ Er)|].
  rewrite (serve_full _ _ _ _ _ Er). by intros (g' & (? & _)%accept_law & [= <-])%rbind_Ok.
Qed.

(** C8: a session outlives trust.  Whenever a peer that takes session tickets was
    let in, it holds a ticket with which it is let in again as the same peer,
    and its requests are answered, after any operator calls, refreshes,
    rotations, requests and sweeps in between, at any time and without any
    certificate: neither the distrust of its CA nor the expiry of its leaf is
    looked at. *)
Theorem resumption_outlives_distrust s id peer now d chain :
  ss_up _ s = true → he_tickets peer = true → ss_conns _ s !! id = None →
  ss_conns _ (step s (DeAccept id peer now d)).2 !! id = Some chain →
  ∃ psk, ∀ es id' auth now' d' raw am, Forall quiet es →
    let again := {| he_groups := he_groups peer; he_auth := auth; he_tickets := true; he_psk := Some psk |} in
    let s' := (step (run es (step s (DeAccept id peer now d)).2) (DeAccept id' again now' d')).2 in
    ss_conns _ s' !! id' = Some chain ∧ is_Some (step s' (DeRequest id' raw am)).1.
Proof.
  intros Hu Ht Hid. destruct (accept_opens s id peer now d Hu) as (Hu1 & Hs1 & Hc1).
  set (s1 := (step s (DeAccept id peer now d)).2) in *. rewrite Hc1.
  destruct (tls_serve peer _ now d _) as [[[g c]|e] ses] eqn:E; cbn [fst snd] in *; [|congruence].
  rewrite lookup_insert_eq. intros [= ->]. destruct (session_kept _ _ _ _ _ _ _ _ E Ht) as [psk Hpsk].
  exists psk. intros es id' auth now' d' raw am Hes.
  set (again := {| he_groups := he_groups peer; he_auth := auth; he_tickets := true; he_psk := Some psk |}).
  destruct (quiet_run es s1 Hes) as [Hs2 Hu2]. rewrite Hu1 in Hu2. set (s2 := run es s1) in *.
  destruct (accept_opens s2 id' again now' d' Hu2) as (Hu3 & _ & Hc3).
  assert ((tls_serve again (live_config groups s2) now' d' (ss_sessions _ s2)).1 = Ok (g, chain)) as Hok.
  { eapply (serve_resumed again); [rewrite Hs2, Hs1; apply Hpsk|]. split_and!; [done| |by eexists].
    apply (serve_group peer (live_config groups s) now d (ss_sessions _ s) g chain). by rewrite E. }
  rewrite Hok in Hc3.
  assert (ss_conns _ (step s2 (DeAccept id' again now' d')).2 !! id' = Some chain) as Hc
    by (rewrite Hc3; apply lookup_insert_eq).
  split; [exact Hc|]. by eapply open_answers.
Qed.
End Serving.

(** ** The leaf the daemon serves *)

Section Leaf.
Context `{EX : Externals} `{FM : Formats} `{HS : HttpStack} `{RG : Rcgen} `{LR : !RcgenLaws} `{RU : !Rustls}
  `{LU : !RustlsLaws} `{TH : !Handshake}.
Context {B : Type} (lower_table : Z → list Z) (usize_max : Z) (sv : Server B) (own : text)
  (groups : list NamedGroup).

(** When the leaf served after an event was issued, [since] being the answer
    before it: a rotation that succeeds renews it. *)
Definition issued_at (since : Z) (s : System B) (e : DaemonEvent) : Z :=
  match e with
  | DeRotate drawn rnd now =>
      if negb (ss_up _ s) then since else
      match NodeTls_rotate_leaf drawn rnd now (ss_tls _ s) with Some (Ok _, _) => now | _ => since end
  | _ => since
  end.

Definition timed_step (p : Z * System B) (e : DaemonEvent) : Z * System B :=
  (issued_at p.1 p.2 e, (daemon_step lower_table usize_max sv groups own p.2 e).2).

Lemma timed_step_serves pki p e :
  serves_since (ss_tls _ p.2) p.1 ∧ nt_pki (ss_tls _ p.2) = pki →
  serves_since (ss_tls _ (timed_step p e).2) (timed_step p e).1 ∧ nt_pki (ss_tls _ (timed_step p e).2) = pki.
Proof.
  destruct p as [since s]. intros [Hs Hp]. unfold timed_step, daemon_step, issued_at. cbn [fst snd] in *.
  destruct (ss_up _ s); cbn [negb]; [|by destruct e].
  destruct e as [id peer now d|e|id raw am|id|raw f g now|drawn rnd now|g|f now|]; try done.
  - by destruct (tls_serve _ _ _ _ _) as [[[]|] ses].
  - destruct (ss_conns _ s !! id); [|done]. by destruct (serve_bytes _ raw _).
  - by destruct (serve_bytes _ raw _).
  - unfold rotation_tick. destruct (NodeTls_rotate_leaf drawn rnd now (ss_tls _ s)) as [[r t]|] eqn:E; [|done].
    apply (rotate_serves _ since) in E as (_ & Hpk & Hs'); [|done]. cbn. rewrite Hpk.
    destruct r; done.
Qed.

(** C27: the rotation keeps the node reachable.  Whatever happens to the daemon, the
    leaf it serves is the one of its start or of its last successful rotation.
    So if the CA that the node loaded is consistent (its key belongs to its
    certificate, and the fingerprint is the certificate's), then at any time
    within the lifetime of that leaf at which the CA's certificate is valid,
    failed rotations in between notwithstanding, a peer that makes a full
    handshake accepts the node exactly when it pins the node's CA. *)
Theorem rotation_keeps_node_reachable bd cfg b h r h' addr tls config every blob es since s t trusted :
  daemon_main bd cfg b h = Some (Ok r, h') → rg_ingress r = PqMtls addr tls config every →
  foldl timed_step (bo_now_ns b, booted tls h' blob) es = (since, s) →
  good_at (nt_pki tls) since t →
  verify_side trusted t (nt_current (ss_tls _ s)) = Ok tt ↔ nc_ca_fingerprint (nt_pki tls) ∈ trusted.
Proof.
  intros (_ & _ & _ & _ & _ & _ & Hr & _)%daemon_main_Ok Hi Hrun Hgood. unfold pqmtls_runs in Hr. rewrite Hi in Hr.
  destruct Hr as (_ & _ & Hs & _).
  assert (∀ p, serves_since (ss_tls _ p.2) p.1 ∧ nt_pki (ss_tls _ p.2) = nt_pki tls →
    let q := foldl timed_step p es in serves_since (ss_tls _ q.2) q.1 ∧ nt_pki (ss_tls _ q.2) = nt_pki tls) as Hinv.
  { clear Hrun. induction es as [|e es IH]; intros p Hp; [done|]. cbn [foldl]. by apply IH, timed_step_serves. }
  destruct (Hinv (bo_now_ns b, booted tls h' blob)) as [Hss Hpk]; [done|]. rewrite Hrun in Hss, Hpk.
  cbn [fst snd] in Hss, Hpk. destruct Hss as (_ & drawn & rnd & leaf & Hl & Hck).
  apply certified_key_Ok in Hck as (Hch & Hpr). rewrite Hpk in Hl.
  pose proof (verify_side_pins _ _ _ _ _ (ck_key (nt_current (ss_tls _ s))) trusted t Hl Hgood Hpr) as H.
  rewrite <-Hch in H. by destruct (nt_current (ss_tls _ s)).
Qed.
End Leaf.

Module DaemonSample.
Definition config : AppConfig :=
  {| ac_bind := ac_bind AppConfig_default; ac_db_path := ac_db_path AppConfig_default;
     ac_log_format := ac_log_format AppConfig_default; ac_relay := RelayConfig_default; ac_blob := BlobConfig_default;
     ac_pki := {| pk_enabled := true; pk_dir := "/var/lib/buh/pki"; pk_node_bind := chars "0.0.0.0:31415";
                  pk_sans := ["localhost"]; pk_leaf_ttl_hours := 48; pk_rotate_every_hours := 24 |};
     ac_admin := ac_admin AppConfig_default |}.
Definition loopback : SocketAddr := {| sa_ip := V4 127 0 0 1; sa_port := 8081 |}.
Definition public : SocketAddr := {| sa_ip := V4 203 0 113 7; sa_port := 8081 |}.
Definition listen (l : list SocketAddr) : Result string SocketAddr := ok_or (head l) "could not resolve to any address".
(** [resolve] are the answers of the resolver, in the order of the calls. *)
Definition boot (resolve : nat → list SocketAddr) : Boot :=
  {| bo_open := Ok tt; bo_conn := None; bo_mig := λ _, None; bo_mig_now := λ _, 7; bo_exec_ddl := λ _ t, Ok t;
     bo_pki := NodeSample.no_faults; bo_partial := (None, None); bo_key := NodeSample.drawn Byte.xbb;
     bo_rnd := ([], []); bo_leaf := (NodeSample.drawn Byte.xb1, []); bo_now_ns := NodeSample.now;
     bo_resolve := λ i _, Ok (resolve i); bo_listen := listen; bo_list := λ _, None |}.
Definition steady : Boot := boot (λ _, [loopback]).
Definition build : Build := {| bd_checked := true; bd_s3 := false |}.
Definition host : Host :=
  {| ho_store := {| sc_data := {| tb_mail := {| envelopes := []; receipts := [] |};
                                  tb_peers := [{| pr_fingerprint := fingerprint (TlsSample.ca_cert Byte.xaa);
                                                  pr_note := None; pr_trusted_at := 5 |}] |};
                    sc_versions := Some [(1, 7); (2, 7)] |};
     ho_trust := ∅; ho_pki := NodeSample.empty_dir |}.
Definition start (b : Boot) : option (Result StartError Running * Host) := daemon_main build config b host.
(** What a start leaves running. *)
Definition tls : NodeTls := TlsSample.node Byte.xbb Byte.xb1 [].
Definition server : ServerConfig :=
  {| sc_groups := pq_provider; sc_client_trust := ∅; sc_resolver := resolve_cert tls |}.
Definition running (admin : SocketAddr) : Running :=
  {| rg_ctx := {| cx_blob := None; cx_pki := Some (nt_pki tls); cx_peer_trust := true; cx_config := CoreConfig_default |};
     rg_app := {| st_config := CoreConfig_default; st_max_wait := 30 |}; rg_sweep_every := 3600;
     rg_admin := Some admin; rg_ingress := PqMtls loopback tls server 86400 |}.
Definition machine : Host :=
  {| ho_store := ho_store host; ho_trust := {[fingerprint (TlsSample.ca_cert Byte.xaa)]};
     ho_pki := (NodeSample.start NodeSample.no_faults Byte.xbb NodeSample.empty_dir).2 |}.
Lemma started : start steady = Some (Ok (running loopback), machine).
Proof. reflexivity. Qed.
End DaemonSample.


Lemma start_follows_config_witness :
  pqmtls_runs DaemonSample.config DaemonSample.steady (DaemonSample.running DaemonSample.loopback) DaemonSample.machine.
Proof. apply (start_follows_config _ _ _ _ _ _ DaemonSample.started). Defined.

Lemma admin_only_on_loopback_witness : is_loopback (sa_ip DaemonSample.loopback) = true.
Proof.
  apply (admin_only_on_loopback DaemonSample.build DaemonSample.config DaemonSample.steady DaemonSample.host
    (DaemonSample.running DaemonSample.loopback) DaemonSample.machine DaemonSample.loopback).
  - intros l a. cbn. destruct l as [|x l]; [discriminate|]. intros [= ->]. left.
  - reflexivity.
  - exact DaemonSample.started.
  - reflexivity.
Defined.

(** A peer with CA [aa] connects and asks for the node's health. *)
Module ServingSample.
Definition events : list DaemonEvent :=
  [DeSweep (λ _, None) 0; DeAccept 3 (hello_of (TlsSample.config TlsSample.a Byte.xa2)) TlsSample.soon [Byte.x07]].
Definition request : DaemonEvent :=
  DeRequest 3 (utf8_encode (probe_text ServerSample.addr)) (ServerSample.ambient [] 0).
Definition before : System unit :=
  daemon_run PeerTrust.Sample.lower ServerSample.usize_max (ServerSample.server (chars "bb")) pq_provider (chars "bb")
    events (booted DaemonSample.tls DaemonSample.machine tt).
Definition after : option bytes * System unit :=
  daemon_step PeerTrust.Sample.lower ServerSample.usize_max (ServerSample.server (chars "bb")) pq_provider (chars "bb")
    before request.
Lemma answered : is_Some after.1.
Proof. vm_compute. by eexists. Qed.
End ServingSample.

Lemma served_peer_was_pinned_witness :
  (∃ chain, let_in PeerTrust.Sample.lower (host_node DaemonSample.machine) ServingSample.events 3 chain) ∧
  DeShutdown ∉ ServingSample.events.
Proof.
  destruct ServingSample.answered as [buf Hb].
  refine (served_peer_was_pinned PeerTrust.Sample.lower ServerSample.usize_max (ServerSample.server (chars "bb"))
    (chars "bb") pq_provider DaemonSample.build DaemonSample.config DaemonSample.steady DaemonSample.host _ _ _ _ _ _ tt
    ServingSample.events 3 _ _ buf _ DaemonSample.started eq_refl _).
  transitivity ServingSample.after; [reflexivity|]. rewrite <-Hb. apply surjective_pairing.
Defined.

(** A peer is let in, the operator distrusts its CA, and the peer comes back. *)
Module ResumeSample.
Abbreviation step := (daemon_step PeerTrust.Sample.lower ServerSample.usize_max (ServerSample.server (chars "bb"))
  pq_provider (chars "bb")).
Definition friend : text := fingerprint (TlsSample.ca_cert Byte.xaa).
Definition peer : Hello := hello_of (TlsSample.config TlsSample.a Byte.xa2).
Definition start : System unit := booted DaemonSample.tls DaemonSample.machine tt.
Definition accepted : System unit := (step start (DeAccept 3 peer TlsSample.soon [Byte.x07])).2.
Definition removal : DaemonEvent :=
  DeAdmin (utf8_encode (admin_request_text (chars "127.0.0.1:8081") (chars "DELETE")
    (chars "/admin/peers/" ++ friend) None)) (λ _, None) (λ _, None) 9.
Definition after : System unit := (step accepted removal).2.
Definition trusts (s : System unit) : bool := bool_decide (friend ∈ nd_trust (ss_node _ s)).
End ResumeSample.

Lemma resumption_outlives_distrust_witness :
  (ResumeSample.trusts ResumeSample.accepted = true ∧ ResumeSample.trusts ResumeSample.after = false) ∧
  ∃ again, let s := (ResumeSample.step ResumeSample.after (DeAccept 4 again TlsSample.soon [])).2 in
    ss_conns _ s !! 4%nat = Some (ck_chain (TlsSample.certified Byte.xaa Byte.xa2)) ∧
    is_Some (ResumeSample.step s (DeRequest 4 [] (ServerSample.ambient [] 0))).1.
Proof.
  split; [split; [vm_cast_no_check (eq_refl true)|vm_cast_no_check (eq_refl false)]|].
  destruct (resumption_outlives_distrust PeerTrust.Sample.lower ServerSample.usize_max
    (ServerSample.server (chars "bb")) (chars "bb") pq_provider ResumeSample.start 3 ResumeSample.peer TlsSample.soon
    [Byte.x07] (ck_chain (TlsSample.certified Byte.xaa Byte.xa2)) eq_refl eq_refl eq_refl eq_refl) as [psk H].
  eexists. apply (H [ResumeSample.removal] 4%nat (TlsSample.certified Byte.xaa Byte.xa2) TlsSample.soon [] []
    (ServerSample.ambient [] 0)). repeat constructor.
Defined.

(** Two failed rotations, then one that works. *)
Module RotationSample.
Definition broken : DaemonEvent := DeRotate (Err "no entropy") [] (NodeSample.now + 86400 * ns_per_sec).
Definition events : list DaemonEvent := [broken; broken; DeRotate (NodeSample.drawn Byte.xb1) [] NodeSample.now].
Definition after : Z * System unit :=
  foldl (timed_step PeerTrust.Sample.lower ServerSample.usize_max (ServerSample.server (chars "bb")) (chars "bb")
    pq_provider) (NodeSample.now, booted DaemonSample.tls DaemonSample.machine tt) events.
Lemma renewed : after = (NodeSample.now, after.2).
Proof. reflexivity. Qed.
End RotationSample.

Lemma rotation_keeps_node_reachable_witness :
  verify_side {[fingerprint (TlsSample.ca_cert Byte.xbb)]} TlsSample.soon
    (nt_current (ss_tls _ RotationSample.after.2)) = Ok tt.
Proof.
  refine (proj2 (rotation_keeps_node_reachable PeerTrust.Sample.lower ServerSample.usize_max
    (ServerSample.server (chars "bb")) (chars "bb") pq_provider DaemonSample.build DaemonSample.config
    DaemonSample.steady DaemonSample.host _ _ _ _ _ _ tt RotationSample.events NodeSample.now _ TlsSample.soon
    {[fingerprint (TlsSample.ca_cert Byte.xbb)]} DaemonSample.started eq_refl RotationSample.renewed _) _).
  - exact (TlsSample.good Byte.xbb (or_intror eq_refl)).
  - by apply elem_of_singleton.
Defined.

(** the check of the admin address and the listener each resolve the name, and
    nothing ties the two answers together: when they differ, the daemon starts
    with the unauthenticated admin API on a public address. *)
Theorem admin_bind_can_escape :
  DaemonSample.start (DaemonSample.boot (λ i, [if (i =? 1)%nat then DaemonSample.public else DaemonSample.loopback]))
  = Some (Ok (DaemonSample.running DaemonSample.public), DaemonSample.machine) ∧
  is_loopback (sa_ip DaemonSample.public) = false.
Proof. split; reflexivity. Qed.

(** the node shuts down on SIGINT or SIGTERM as long as both handlers could be
    installed; if one could not, the error is only logged and the shutdown
    future completes at once, without any signal. *)
Theorem failed_handler_stops_daemon s :
  (sg_ctrl_c s = Ok tt → sg_terminate s = Ok tt →
   shutdown_signal s = sg_interrupted s || sg_terminated s) ∧
  (∀ e, sg_ctrl_c s = Err e ∨ sg_terminate s = Err e → shutdown_signal s = true).
Proof.
  unfold shutdown_signal, ctrl_c_done, terminate_done. split.
  - by intros -> ->.
  - intros e [-> | ->]; [done|by rewrite orb_true_r].
Qed.
