(* ===== verification/Config.v ===== *)
(** * Configuration: [AppConfig::load] and the programs' arguments

    [buh-api/src/config.rs] layers the built-in defaults, an optional TOML file
    and the environment; [buh-api/src/main.rs] takes the path of the file, and
    [buh-cli/src/main.rs] takes its own paths, from arguments and the
    environment.  The library [figment] is the class [Figment]: a dictionary
    that can be searched by path, made of a serialised value or of the
    environment, and merged.  The derived (de)serialisers are written out. *)

From S2P Require Import Prelude.
From S2P Require Import Text.
From S2P Require Import Entities.
From S2P Require Import Json.
From S2P Require Import ModelFormats.
From S2P Require Import MailboxSpec.
From S2P Require Import Relay.
From S2P Require Import BlobRole.
From S2P Require Import PeerTrust.
From S2P Require Import NodeCa.
From S2P Require Import Stack.
From S2P Require Import Http.
From S2P Require Import Tls.
From S2P Require Import ModelHttp.
From S2P Require Import Cli.
From S2P Require Import Daemon.
From S2P Require Import DaemonSpec.
#[local] Open Scope Z_scope.

Lemma filter_on {A} (P Q : A → Prop) `{∀ x, Decision (P x)} `{∀ x, Decision (Q x)} (l : list A) :
  (∀ x, x ∈ l → P x ↔ Q x) → filter P l = filter Q l.
Proof.
  induction l as [|x l IH]; intros Hx; [done|]. rewrite !filter_cons, IH by set_solver.
  destruct (Hx x ltac:(left)). repeat case_decide; try done; exfalso; auto.
Qed.

(** ** Paths into values *)

Fixpoint json_find (p : list text) (v : Json) : option Json :=
  match p with
  | [] => Some v
  | k :: p => match v with JObj m => w ← member k m; json_find p w | _ => None end
  end.

Definition is_dict (v : Json) : bool := match v with JObj _ => true | _ => false end.

(** The name of the variable that sets a path, in lower case. *)
Fixpoint join_path (p : list text) : text :=
  match p with
  | [] => []
  | [k] => k
  | k :: p => k ++ chars "__" ++ join_path p
  end.
Definition var_name (prefix : text) (p : list text) : text := prefix ++ join_path p.

(** Variables are compared without regard to case. *)
Definition named (name : text) (var : text * text) : Prop := ascii_lower <$> var.1 = name.
#[export] Instance named_dec name var : Decision (named name var).
Proof. unfold named. apply _. Defined.

(** ** [figment] *)

Definition Vars : Type := list (text * text).

Class Figment := {
  Dict : Type;
  find : list text → Dict → option Json;
  (** [Serialized::defaults], and what a parsed file becomes. *)
  dict_of : Json → Dict;
  (** [Env::prefixed(prefix).split("__")]; the prefix in lower case. *)
  env_dict : text → Vars → Dict;
  (** How the text of a variable is read. *)
  env_value : text → Json;
  toml_parse : bytes → Result string Json;
  merge : Dict → Dict → Dict;
}.

Definition proper_prefixes (p : list text) : list (list text) := (λ k, take k p) <$> seq 1 (length p - 1).

(** No variable stands in the way of [p]: none goes on below it, none sets a
    prefix of it, at most one sets it, and no name has a dot, which would
    separate keys as well. *)
Definition unobstructed (prefix : text) (vars : Vars) (p : list text) : bool :=
  forallb (λ v : text * text,
      let n := ascii_lower <$> v.1 in
      match strip_prefix (var_name prefix p ++ chars "__") n with None => true | Some _ => false end &&
      forallb (λ q, bool_decide (n ≠ var_name prefix q)) (proper_prefixes p) &&
      forallb (λ c, negb (c =? 46)) n) vars &&
  (length (filter (named (var_name prefix p)) vars) <=? 1)%nat.

(** A key that [split("__")] leaves in one piece. *)
Definition plain_key (k : text) : bool :=
  bool_decide (k ≠ []) && negb (bool_decide (head k = Some 95)) && negb (bool_decide (last k = Some 95)) &&
  match split_once (chars "__") k with Some _ => false | None => true end.

Class FigmentLaws `{FG : Figment} : Prop := {
  find_dict_of p v : find p (dict_of v) = json_find p v;
  find_env prefix vars p :
    p ≠ [] → forallb plain_key p = true → unobstructed prefix vars p = true →
    find p (env_dict prefix vars) = (λ v, env_value v.2) <$> head (filter (named (var_name prefix p)) vars) ∧
    ∀ q v, q ∈ proper_prefixes p → find q (env_dict prefix vars) = Some v → is_dict v = true;
  (** The later provider wins; dictionaries are joined. *)
  find_merge_later a b p v :
    find p b = Some v → (∀ w, find p a = Some w → is_dict w = false) → find p (merge a b) = Some v;
  find_merge_earlier a b p :
    find p b = None →
    (∀ q v, q ∈ proper_prefixes p → find q b = Some v → is_dict v = true) →
    find p (merge a b) = find p a;
}.

(** ** The derived deserialiser *)

Definition de_bool (v : Json) : Result string bool := ok_or (as_bool v) "invalid type: expected a boolean".

Definition de_unsigned (max : Z) (v : Json) : Result string Z :=
  match v with
  | JNum n => if (0 <=? n) && (n <=? max) then Ok n else Err "invalid value: integer out of range"
  | _ => Err "invalid type: expected an integer"
  end.

(** A [String] that other components take as bytes. *)
Definition de_bytes (v : Json) : Result string string := let? t := de_string v in Ok (to_string t).

Fixpoint de_list (l : list Json) : Result string (list string) :=
  match l with
  | [] => Ok []
  | v :: l => let? s := de_bytes v in let? r := de_list l in Ok (s :: r)
  end.
Definition de_strings (v : Json) : Result string (list string) :=
  let? l := ok_or (as_array v) "invalid type: expected a sequence" in de_list l.

Section Load.
Context (usize_max : Z).

(** One setting, where [look] finds what the dictionary holds at a path. *)
Definition want {A} (de : Json → Result string A) (look : list text → option Json) (p : list string) :
    Result string A :=
  let? v := ok_or (look (chars <$> p)) ("missing field " +:+ String.concat "." p) in de v.

Definition RelayConfig_from (look : list text → option Json) : Result string RelayConfig :=
  let? default_ttl := want de_i64 look ["relay"; "default_ttl_seconds"] in
  let? max_ttl := want de_i64 look ["relay"; "max_ttl_seconds"] in
  let? max_payload := want (de_unsigned usize_max) look ["relay"; "max_payload_bytes"] in
  let? max_pull := want de_i64 look ["relay"; "max_pull_limit"] in
  let? max_wait := want (de_unsigned u64_max) look ["relay"; "max_wait_seconds"] in
  let? sweep := want (de_unsigned u64_max) look ["relay"; "sweep_interval_seconds"] in
  Ok {| rc_default_ttl_seconds := default_ttl; rc_max_ttl_seconds := max_ttl;
        rc_max_payload_bytes := max_payload; rc_max_pull_limit := max_pull;
        rc_max_wait_seconds := max_wait; rc_sweep_interval_seconds := sweep |}.

Definition BlobConfig_from (look : list text → option Json) : Result string BlobConfig :=
  let? enabled := want de_bool look ["blob"; "enabled"] in
  let? backend := want de_bytes look ["blob"; "backend"] in
  let? fs_root := want de_bytes look ["blob"; "fs_root"] in
  let? max_blob := want (de_unsigned usize_max) look ["blob"; "max_blob_bytes"] in
  let? endpoint := want de_bytes look ["blob"; "s3_endpoint"] in
  let? region := want de_bytes look ["blob"; "s3_region"] in
  let? access := want de_bytes look ["blob"; "s3_access_key"] in
  let? secret := want de_bytes look ["blob"; "s3_secret_key"] in
  Ok {| bc_enabled := enabled; bc_backend := backend; bc_fs_root := fs_root;
        bc_max_blob_bytes := max_blob; bc_s3_endpoint := endpoint; bc_s3_region := region;
        bc_s3_access_key := access; bc_s3_secret_key := secret |}.

Definition PkiConfig_from (look : list text → option Json) : Result string PkiConfig :=
  let? enabled := want de_bool look ["pki"; "enabled"] in
  let? dir := want de_bytes look ["pki"; "dir"] in
  let? node_bind := want de_string look ["pki"; "node_bind"] in
  let? sans := want de_strings look ["pki"; "sans"] in
  let? ttl := want (de_unsigned u64_max) look ["pki"; "leaf_ttl_hours"] in
  let? rotate := want (de_unsigned u64_max) look ["pki"; "rotate_every_hours"] in
  Ok {| pk_enabled := enabled; pk_dir := dir; pk_node_bind := node_bind; pk_sans := sans;
        pk_leaf_ttl_hours := ttl; pk_rotate_every_hours := rotate |}.

Definition AdminConfig_from (look : list text → option Json) : Result string AdminConfig :=
  let? enabled := want de_bool look ["admin"; "enabled"] in
  let? bind := want de_string look ["admin"; "bind"] in
  Ok {| ad_enabled := enabled; ad_bind := bind |}.

Definition AppConfig_from (look : list text → option Json) : Result string AppConfig :=
  let? bind := want de_string look ["bind"] in
  let? db_path := want de_bytes look ["db_path"] in
  let? log_format := want de_bytes look ["log_format"] in
  let? relay := RelayConfig_from look in
  let? blob := BlobConfig_from look in
  let? pki := PkiConfig_from look in
  let? admin := AdminConfig_from look in
  Ok {| ac_bind := bind; ac_db_path := db_path; ac_log_format := log_format; ac_relay := relay;
        ac_blob := blob; ac_pki := pki; ac_admin := admin |}.

(** Every setting there is. *)
Definition settings : list (list string) :=
  [["bind"]; ["db_path"]; ["log_format"]]
  ++ ((λ k, ["relay"; k]) <$> ["default_ttl_seconds"; "max_ttl_seconds"; "max_payload_bytes";
        "max_pull_limit"; "max_wait_seconds"; "sweep_interval_seconds"])
  ++ ((λ k, ["blob"; k]) <$> ["enabled"; "backend"; "fs_root"; "max_blob_bytes"; "s3_endpoint";
        "s3_region"; "s3_access_key"; "s3_secret_key"])
  ++ ((λ k, ["pki"; k]) <$> ["enabled"; "dir"; "node_bind"; "sans"; "leaf_ttl_hours"; "rotate_every_hours"])
  ++ [["admin"; "enabled"]; ["admin"; "bind"]].

Definition setting_paths : list (list text) := (λ p : list string, chars <$> p) <$> settings.

(** ** The derived serialiser *)

Definition jstring (s : string) : Json := JStr (literal s).

Definition RelayConfig_to (c : RelayConfig) : Json := JObj
  [(chars "default_ttl_seconds", JNum (rc_default_ttl_seconds c));
   (chars "max_payload_bytes", JNum (rc_max_payload_bytes c));
   (chars "max_pull_limit", JNum (rc_max_pull_limit c));
   (chars "max_ttl_seconds", JNum (rc_max_ttl_seconds c));
   (chars "max_wait_seconds", JNum (rc_max_wait_seconds c));
   (chars "sweep_interval_seconds", JNum (rc_sweep_interval_seconds c))].

Definition BlobConfig_to (c : BlobConfig) : Json := JObj
  [(chars "backend", jstring (bc_backend c)); (chars "enabled", JBool (bc_enabled c));
   (chars "fs_root", jstring (bc_fs_root c)); (chars "max_blob_bytes", JNum (bc_max_blob_bytes c));
   (chars "s3_access_key", jstring (bc_s3_access_key c)); (chars "s3_endpoint", jstring (bc_s3_endpoint c));
   (chars "s3_region", jstring (bc_s3_region c)); (chars "s3_secret_key", jstring (bc_s3_secret_key c))].

Definition PkiConfig_to (c : PkiConfig) : Json := JObj
  [(chars "dir", jstring (pk_dir c)); (chars "enabled", JBool (pk_enabled c));
   (chars "leaf_ttl_hours", JNum (pk_leaf_ttl_hours c)); (chars "node_bind", JStr (pk_node_bind c));
   (chars "rotate_every_hours", JNum (pk_rotate_every_hours c));
   (chars "sans", JArr (jstring <$> pk_sans c))].

Definition AdminConfig_to (c : AdminConfig) : Json := JObj
  [(chars "bind", JStr (ad_bind c)); (chars "enabled", JBool (ad_enabled c))].

Definition AppConfig_to (c : AppConfig) : Json := JObj
  [(chars "admin", AdminConfig_to (ac_admin c)); (chars "bind", JStr (ac_bind c));
   (chars "blob", BlobConfig_to (ac_blob c)); (chars "db_path", jstring (ac_db_path c));
   (chars "log_format", jstring (ac_log_format c)); (chars "pki", PkiConfig_to (ac_pki c));
   (chars "relay", RelayConfig_to (ac_relay c))].

(** ** [AppConfig::load] *)

Context `{FG : Figment}.

(** [Toml::file]: [files] is what the library finds at a path; a file that is
    not there counts as empty. *)
Definition toml_file (files : text → option bytes) (p : text) : Result string Json :=
  match files p with None => Ok (JObj []) | Some b => toml_parse b end.

Definition load (files : text → option bytes) (vars : Vars) (path : option text) : Result string AppConfig :=
  let fig := dict_of (AppConfig_to AppConfig_default) in
  let? fig := match path with
              | Some p => let? file := toml_file files p in Ok (merge fig (dict_of file))
              | None => Ok fig
              end in
  let fig := merge fig (env_dict (chars "buh_") vars) in
  AppConfig_from (λ p, find p fig).

(** ** Layers *)

(** What the environment says about a setting. *)
Definition env_setting (vars : Vars) (p : list text) : option Json :=
  (λ v, env_value v.2) <$> head (filter (named (var_name (chars "buh_") p)) vars).

(** The environment, or else the file, or else the default. *)
Definition layered (file : Json) (vars : Vars) (p : list text) : option Json :=
  match env_setting vars p with
  | Some v => Some v
  | None =>
      match json_find p file with
      | Some v => Some v
      | None => json_find p (AppConfig_to AppConfig_default)
      end
  end.

(** A file with tables where the settings have sections, and values where they
    have values. *)
Definition shaped (file : Json) : bool :=
  forallb (λ p, match json_find p file with Some w => negb (is_dict w) | None => true end &&
    forallb (λ q, match json_find q file with Some v => is_dict v | None => true end) (proper_prefixes p))
    setting_paths.

Definition clear (vars : Vars) : bool :=
  forallb (unobstructed (chars "buh_") vars) setting_paths.

Lemma settings_fine :
  forallb (λ p, bool_decide (p ≠ []) && forallb plain_key p &&
    match json_find p (AppConfig_to AppConfig_default) with Some w => negb (is_dict w) | None => false end)
    setting_paths = true.
Proof. vm_compute. reflexivity. Qed.

Lemma setting_fine p :
  p ∈ setting_paths →
  p ≠ [] ∧ forallb plain_key p = true ∧
  ∃ w, json_find p (AppConfig_to AppConfig_default) = Some w ∧ is_dict w = false.
Proof.
  intros Hp. pose proof settings_fine as H. rewrite forallb_forall in H.
  specialize (H p (proj1 (list_elem_of_In _ _) Hp)). rewrite !andb_true_iff, bool_decide_eq_true in H.
  destruct H as [[? ?] H]. split_and!; [done..|].
  destruct (json_find _ _) as [w|]; [|done]. exists w. split; [done|]. by apply negb_true_iff.
Qed.

Lemma shaped_at file p :
  shaped file = true → p ∈ setting_paths →
  (∀ w, json_find p file = Some w → is_dict w = false) ∧
  ∀ q v, q ∈ proper_prefixes p → json_find q file = Some v → is_dict v = true.
Proof.
  unfold shaped. rewrite forallb_forall. intros H Hp. specialize (H p (proj1 (list_elem_of_In _ _) Hp)).
  rewrite andb_true_iff, forallb_forall in H. destruct H as [H1 H2]. split.
  - intros w Hw. rewrite Hw in H1. by apply negb_true_iff.
  - intros q v Hq Hv. specialize (H2 q (proj1 (list_elem_of_In _ _) Hq)). by rewrite Hv in H2.
Qed.

Context `{FL : !FigmentLaws}.

(** The dictionary of the defaults under a shaped file. *)
Lemma file_layer file p :
  shaped file = true → p ∈ setting_paths →
  find p (merge (dict_of (AppConfig_to AppConfig_default)) (dict_of file))
  = match json_find p file with Some v => Some v | None => json_find p (AppConfig_to AppConfig_default) end.
Proof.
  intros Hs Hp. destruct (setting_fine p Hp) as (_ & _ & w & Hw & Hd).
  destruct (shaped_at file p Hs Hp) as [_ Hq]. destruct (json_find p file) as [v|] eqn:E.
  - apply find_merge_later; [by rewrite find_dict_of|]. intros w'. rewrite find_dict_of, Hw. by intros [= <-].
  - rewrite find_merge_earlier, find_dict_of; [done|by rewrite find_dict_of|].
    intros q v Hin. rewrite find_dict_of. by apply Hq.
Qed.

(** The environment over a dictionary with a value there. *)
Lemma env_layer d vars p :
  clear vars = true → p ∈ setting_paths → (∀ w, find p d = Some w → is_dict w = false) →
  find p (merge d (env_dict (chars "buh_") vars))
  = match env_setting vars p with Some v => Some v | None => find p d end.
Proof.
  unfold clear. rewrite forallb_forall. intros Hc Hp Hd.
  specialize (Hc p (proj1 (list_elem_of_In _ _) Hp)). destruct (setting_fine p Hp) as (Hne & Hk & _).
  destruct (find_env (chars "buh_") vars p Hne Hk Hc) as [He Hq]. unfold env_setting in *.
  destruct (fmap _ (head _)) as [v|].
  - by apply find_merge_later.
  - by apply find_merge_earlier.
Qed.

(** Only the settings are looked at. *)
Lemma AppConfig_from_ext look look' :
  (∀ p, p ∈ setting_paths → look p = look' p) →
  AppConfig_from look = AppConfig_from look'.
Proof.
  intros H.
  assert (∀ A (de : Json → Result string A) p, bool_decide (p ∈ settings) = true → want de look p = want de look' p) as Hw.
  { intros A de p Hp. unfold want. rewrite H; [done|]. apply list_elem_of_fmap_2. by apply bool_decide_eq_true in Hp. }
  unfold AppConfig_from, RelayConfig_from, BlobConfig_from, PkiConfig_from, AdminConfig_from.
  repeat rewrite Hw by (vm_compute; reflexivity). done.
Qed.

Lemma load_layered files vars path :
  clear vars = true →
  match match path with Some p => toml_file files p | None => Ok (JObj []) end with
  | Ok file => shaped file = true → load files vars path = AppConfig_from (layered file vars)
  | Err e => load files vars path = Err e
  end.
Proof.
  intros Hc. unfold load. destruct path as [p|].
  - destruct (toml_file files p) as [file|e]; cbn [rbind]; [|done]. intros Hs.
    apply AppConfig_from_ext. intros q Hq. rewrite env_layer, file_layer by
      (done || (intros w; rewrite file_layer by done; destruct (setting_fine q Hq) as (_ & _ & w' & -> & ?);
        destruct (shaped_at file q Hs Hq) as [Hv _]; destruct (json_find q file); naive_solver)). done.
  - intros _. cbn [rbind]. apply AppConfig_from_ext. intros q Hq.
    destruct (setting_fine q Hq) as (Hne & _ & w' & Hw & ?).
    rewrite env_layer, find_dict_of; [|done..|intros w; rewrite find_dict_of, Hw; by intros [= <-]].
    unfold layered. by destruct q.
Qed.

(** C29: configuration is layered.  Every setting has the value of its
    [BUH_]-variable if there is one, or else that of the file, or else the
    default, and the start fails exactly when a value that is in effect does not
    have the type of its setting, or the file does not parse.  This holds for
    files with tables for sections and values for settings, and for
    environments in which no variable names a section, goes below a setting or
    repeats another. *)
Theorem load_layers files vars path :
  clear vars = true →
  match match path with Some p => toml_file files p | None => Ok (JObj []) end with
  | Ok file => shaped file = true → load files vars path = AppConfig_from (layered file vars)
  | Err e => load files vars path = Err e
  end.
Proof. apply load_layered. Qed.

(** No variable concerns the daemon. *)
Definition unset (vars : Vars) : Prop :=
  ∀ v, v ∈ vars → strip_prefix (chars "buh_") (ascii_lower <$> v.1) = None ∧ 46 ∉ (ascii_lower <$> v.1).

Lemma unset_named vars p : unset vars → filter (named (var_name (chars "buh_") p)) vars = [].
Proof.
  intros H. apply filter_none, Forall_forall. intros v Hv Hn. destruct (H v Hv) as [Hs _]. unfold named in Hn.
  rewrite Hn in Hs. unfold var_name in Hs. by rewrite strip_prefix_refl in Hs.
Qed.

Lemma unset_clear vars : unset vars → clear vars = true.
Proof.
  intros H. apply forallb_forall. intros p _. unfold unobstructed. rewrite unset_named by done.
  rewrite andb_true_r. apply forallb_forall. intros v Hv%list_elem_of_In. destruct (H v Hv) as [Hs Hd].
  rewrite !andb_true_iff, !forallb_forall. split_and!.
  - destruct (strip_prefix (_ ++ _) _) as [r|] eqn:E; [|done]. apply strip_prefix_Some in E.
    rewrite E in Hs. unfold var_name in Hs. by rewrite <-!app_assoc, strip_prefix_refl in Hs.
  - intros q _. apply bool_decide_eq_true. intros E. rewrite E in Hs. unfold var_name in Hs.
    by rewrite strip_prefix_refl in Hs.
  - intros c Hc%list_elem_of_In. apply negb_true_iff, Z.eqb_neq. intros ->. done.
Qed.

Lemma shaped_empty : shaped (JObj []) = true.
Proof. vm_compute. reflexivity. Qed.

Context (Husize : 2 ^ 32 - 1 <= usize_max).

(** The defaults survive serialisation. *)
Lemma default_roundtrip : AppConfig_from (λ p, json_find p (AppConfig_to AppConfig_default)) = Ok AppConfig_default.
Proof.
  assert (∀ look p n, look (chars <$> p) = Some (JNum n) → 0 <= n <= 2 ^ 32 - 1 →
    want (de_unsigned usize_max) look p = Ok n) as Hu.
  { intros look p n Hl Hn. unfold want. rewrite Hl. cbn [ok_or rbind de_unsigned].
    rewrite (proj2 (Z.leb_le 0 n)), (proj2 (Z.leb_le n usize_max)) by lia. done. }
  unfold AppConfig_from, RelayConfig_from, BlobConfig_from.
  rewrite (Hu _ ["relay"; "max_payload_bytes"] (256 * 1024)) by (lia || (vm_compute; reflexivity)).
  rewrite (Hu _ ["blob"; "max_blob_bytes"] (64 * 1024 * 1024)) by (lia || (vm_compute; reflexivity)).
  vm_compute. reflexivity.
Qed.

(** without a file that is there and without variables of its own, the
    configuration is the default one. *)
Lemma load_default files vars path :
  unset vars → (∀ p, path = Some p → files p = None) → load files vars path = Ok AppConfig_default.
Proof.
  intros Hv Hf. rewrite <-default_roundtrip. pose proof (load_layered files vars path (unset_clear vars Hv)) as H.
  assert (match path with Some p => toml_file files p | None => Ok (JObj []) end = Ok (JObj [])) as E.
  { destruct path as [p|]; [|done]. unfold toml_file. by rewrite Hf. }
  rewrite E in H. rewrite (H shaped_empty). apply AppConfig_from_ext. intros p Hp.
  unfold layered, env_setting. rewrite unset_named by done. cbn [head fmap option_fmap option_map].
  destruct p; [by destruct (setting_fine _ Hp)|done].
Qed.
End Load.

(** ** Arguments

    [#[arg(long, env = .., default_value = ..)]]: the flag, or else the
    variable, or else the default. *)

Definition var (vars : Vars) (name : string) : option text :=
  snd <$> head (filter (λ v : text * text, v.1 = chars name) vars).

Definition arg (flag : option text) (vars : Vars) (name : string) : option text :=
  match flag with Some t => Some t | None => var vars name end.

(** The daemon's [Cli]. *)
Definition config_path (flag : option text) (vars : Vars) : option text := arg flag vars "BUH_CONFIG".

(** The operator's [Cli], without its command. *)
Record CliPaths := { cp_db_path : text; cp_pki_dir : text; cp_admin_url : text }.

Definition cli_paths (db_path pki_dir admin_url : option text) (vars : Vars) : CliPaths :=
  {| cp_db_path := default (chars "buh-relay.db") (arg db_path vars "BUH_DB_PATH");
     cp_pki_dir := default (chars "/var/lib/buh/pki") (arg pki_dir vars "BUH_PKI__DIR");
     cp_admin_url := default (chars "http://127.0.0.1:8081") (arg admin_url vars "BUH_ADMIN_URL") |}.

(** [init_tracing]: whether log lines are JSON; [journal] is whether
    [JOURNAL_STREAM] is set. *)
Definition use_json (log_format : string) (journal : bool) : bool :=
  bool_decide (log_format = "json") || (bool_decide (log_format = "auto") && journal).

(** ** The programs *)

Section Programs.
Context `{EX : Externals} `{FM : Formats} `{HS : HttpStack} `{RG : Rcgen} `{RU : !Rustls} `{TH : !Handshake}.
Context `{FG : Figment} `{FL : !FigmentLaws} (usize_max : Z) (Husize : 2 ^ 32 - 1 <= usize_max).

(** The daemon's [main] from its command line on. *)
Definition buh_api (files : text → option bytes) (vars : Vars) (flag : option text) (bd : Build) (b : Boot) :
    PST Host StartError Running :=
  let* cfg := pst_lift (map_err SConfig (load usize_max files vars (config_path flag vars))) in
  daemon_main bd cfg b.

(** a node without configuration is a plain relay: with no [BUH_]-variable and
    no configuration file, also when one is named that does not exist, a start
    that succeeds serves plain HTTP, runs neither the blob role nor the admin
    API, and has the limits of [CoreConfig::default]. *)
Theorem unconfigured_node_is_plain files vars flag bd b h r h' :
  unset vars → (∀ p, flag = Some p → files p = None) →
  buh_api files vars flag bd b h = Some (Ok r, h') →
  (∃ addr, rg_ingress r = Plain addr) ∧ rg_admin r = None ∧ cx_blob (rg_ctx r) = None ∧
  st_config (rg_app r) = CoreConfig_default.
Proof.
  intros Hv Hf H. unfold buh_api in H. rewrite load_default in H; [|done..|].
  - apply daemon_main_Ok in H as (Hb & _ & Hc & _ & _ & _ & Hr & _). unfold pqmtls_runs in Hr.
    rewrite Hc, Hb. destruct (rg_ingress r) as [addr|]; [|by destruct Hr]. split_and!; [by eexists|by destruct Hr|done..].
  - intros p Hp. apply Hf. unfold config_path, arg in Hp. destruct flag as [t|]; [done|]. exfalso.
    unfold var in Hp. destruct (head _) as [v|] eqn:E; [|done].
    assert (v ∈ filter (λ v : text * text, v.1 = chars "BUH_CONFIG") vars) as [Hn Hin]%list_elem_of_filter.
    { apply head_Some_elem_of in E. done. }
    destruct (Hv v Hin) as [Hs _]. by rewrite Hn in Hs.
Qed.

(** under PQ-mTLS the address [bind] is not used: whatever it is, the start is
    the same. *)
Definition with_bind (bind : text) (cfg : AppConfig) : AppConfig :=
  {| ac_bind := bind; ac_db_path := ac_db_path cfg; ac_log_format := ac_log_format cfg;
     ac_relay := ac_relay cfg; ac_blob := ac_blob cfg; ac_pki := ac_pki cfg; ac_admin := ac_admin cfg |}.

Theorem pqmtls_ignores_bind bd cfg b h bind :
  pk_enabled (ac_pki cfg) = true → daemon_main bd (with_bind bind cfg) b h = daemon_main bd cfg b h.
Proof. intros Hp. unfold daemon_main, with_bind. cbn [ac_pki ac_relay ac_blob]. by rewrite Hp. Qed.

(** One setting that the operator's program takes as well. *)
Lemma shared_setting vars name p d t s :
  ascii_lower <$> chars name = var_name (chars "buh_") p →
  (∀ v, v ∈ vars → named (var_name (chars "buh_") p) v → v.1 = chars name ∧ env_value v.2 = JStr v.2) →
  p ≠ [] → json_find p (AppConfig_to AppConfig_default) = Some (JStr d) →
  layered (JObj []) vars p = Some t → de_bytes t = Ok s →
  s = to_string (default d (arg None vars name)).
Proof.
  intros Hn Hv Hp Hd Hl Hs. unfold arg, var.
  assert (filter (λ v : text * text, v.1 = chars name) vars = filter (named (var_name (chars "buh_") p)) vars) as ->.
  { apply filter_on. intros v Hin. split; [|naive_solver]. unfold named. by intros ->. }
  unfold layered, env_setting in Hl. destruct (head _) as [v|] eqn:E.
  - apply head_Some_elem_of, list_elem_of_filter in E as [H1 H2]. destruct (Hv v H2 H1) as [_ Hj].
    cbn in Hl. injection Hl as <-. rewrite Hj in Hs. cbn in Hs. by injection Hs as <-.
  - destruct p as [|k p]; [done|]. cbn [fmap option_fmap option_map] in Hl.
    change (json_find (k :: p) (JObj [])) with (@None Json) in Hl. rewrite Hd in Hl.
    injection Hl as <-. cbn in Hs. by injection Hs as <-.
Qed.

(** the two programs agree on where the node keeps its data, as far as the
    environment decides it: without a configuration file and without flags, the
    operator's program opens the datastore and the PKI directory of the daemon,
    if the variables are written in upper case and read as text. *)
Theorem cli_and_daemon_agree files vars cfg :
  clear vars = true →
  (∀ v, v ∈ vars → named (chars "buh_db_path") v → v.1 = chars "BUH_DB_PATH" ∧ env_value v.2 = JStr v.2) →
  (∀ v, v ∈ vars → named (chars "buh_pki__dir") v → v.1 = chars "BUH_PKI__DIR" ∧ env_value v.2 = JStr v.2) →
  load usize_max files vars None = Ok cfg →
  let c := cli_paths None None None vars in
  ac_db_path cfg = to_string (cp_db_path c) ∧ pk_dir (ac_pki cfg) = to_string (cp_pki_dir c).
Proof.
  intros Hc H1 H2 Hl. pose proof (load_layered usize_max files vars None Hc shaped_empty) as Hl'.
  rewrite Hl' in Hl. unfold AppConfig_from, PkiConfig_from in Hl. inv_ok. subst. cbn [ac_db_path ac_pki pk_dir].
  unfold want in *. inv_ok. split; [eapply (shared_setting vars "BUH_DB_PATH" [chars "db_path"])
    |eapply (shared_setting vars "BUH_PKI__DIR" [chars "pki"; chars "dir"])];
    try done; vm_compute; reflexivity.
Qed.
End Programs.

(** ** A concrete [figment]

    A dictionary is the function that finds; files hold the JSON text of
    [ModelFormats]. *)

Definition read_env (t : text) : Json :=
  if bool_decide (t = chars "true") then JBool true
  else if bool_decide (t = chars "false") then JBool false
  else match parse_uint u64_max t with Some n => JNum n | None => JStr t end.

#[export] Instance model_figment : Figment := {|
  Dict := list text → option Json;
  find p d := d p;
  dict_of v := λ p, json_find p v;
  env_dict prefix vars := λ p, (λ v : text * text, read_env v.2) <$> head (filter (named (var_name prefix p)) vars);
  env_value := read_env;
  toml_parse := json_from_slice (Formats := model_formats);
  merge a b := λ p, match b p with Some v => Some v | None => a p end;
|}.

#[export] Instance model_figment_laws : FigmentLaws.
Proof.
  split; cbn [find dict_of env_dict env_value merge model_figment].
  - done.
  - intros prefix vars p _ _ Hu. split; [done|]. intros q v Hq H.
    destruct (filter (named (var_name prefix q)) vars) as [|w l] eqn:E; [done|]. exfalso.
    assert (w ∈ filter (named (var_name prefix q)) vars) as [Hn Hin]%list_elem_of_filter by (rewrite E; left).
    unfold unobstructed in Hu. rewrite andb_true_iff, forallb_forall in Hu. destruct Hu as [Hu _].
    specialize (Hu w (proj1 (list_elem_of_In _ _) Hin)). rewrite !andb_true_iff, !forallb_forall in Hu.
    destruct Hu as [[_ Hp] _]. specialize (Hp q (proj1 (list_elem_of_In _ _) Hq)).
    by apply bool_decide_eq_true in Hp.
  - intros a b p v -> _. done.
  - intros a b p -> _. done.
Qed.

(** A node as it is deployed: paths in the file, one variable. *)
Module ConfigSample.
Definition file : Json := JObj
  [(chars "db_path", jstring "/var/lib/buh/relay.db");
   (chars "pki", JObj [(chars "enabled", JBool true); (chars "node_bind", jstring "0.0.0.0:31415")])].
Definition path : text := chars "/etc/buh/config.toml".
Definition files (p : text) : option bytes :=
  if bool_decide (p = path) then Some (utf8_encode (json_to_string (Formats := model_formats) file)) else None.
Definition vars : Vars :=
  [(chars "HOME", chars "/var/lib/buh"); (chars "BUH_CONFIG", path);
   (chars "BUH_PKI__NODE_BIND", chars "0.0.0.0:4433"); (chars "BUH_RELAY__MAX_PULL_LIMIT", chars "25")].
Definition usize_max : Z := 2 ^ 64 - 1.
(** The settings from the environment, from the file, from the defaults. *)
Definition summary (r : Result string AppConfig) : option (text * Z * string * bool * text) :=
  match r with
  | Ok c => Some (pk_node_bind (ac_pki c), rc_max_pull_limit (ac_relay c), ac_db_path c,
                  pk_enabled (ac_pki c), ac_bind c)
  | Err _ => None
  end.
End ConfigSample.

Lemma load_layers_witness :
  load ConfigSample.usize_max ConfigSample.files ConfigSample.vars (Some ConfigSample.path)
  = AppConfig_from ConfigSample.usize_max (layered ConfigSample.file ConfigSample.vars) ∧
  ConfigSample.summary (AppConfig_from ConfigSample.usize_max (layered ConfigSample.file ConfigSample.vars))
  = Some (chars "0.0.0.0:4433", 25, "/var/lib/buh/relay.db", true, chars "127.0.0.1:8080").
Proof.
  split; [|vm_compute; reflexivity].
  pose proof (load_layers ConfigSample.usize_max ConfigSample.files ConfigSample.vars (Some ConfigSample.path)) as H.
  assert (toml_file ConfigSample.files ConfigSample.path = Ok ConfigSample.file) as E by (vm_compute; reflexivity).
  cbv iota beta in H. rewrite E in H. apply H; vm_compute; reflexivity.
Defined.

(** the operator's program does not read the configuration file: with the
    datastore named there, also if [BUH_CONFIG] points to it, the daemon opens
    that one, and [buh-cli] the default in its working directory. *)
Theorem cli_ignores_config_file :
  (ac_db_path <$> match load ConfigSample.usize_max ConfigSample.files ConfigSample.vars
                          (config_path None ConfigSample.vars) with Ok c => Some c | Err _ => None end)
  = Some "/var/lib/buh/relay.db" ∧
  cp_db_path (cli_paths None None None ConfigSample.vars) = chars "buh-relay.db".
Proof. split; vm_compute; reflexivity. Qed.
