(* ===== verification/Ingress.v ===== *)
(** * Plain and PQ-mTLS ingress: [buh-api/src/serve.rs]

    [serve_plain] is the loopback mode without certificates: every connection
    is let in, the sweeper runs, and [axum] drains the open connections once
    the shutdown signal came.  [PlainSystem] is that server as a state machine
    beside [Daemon.System].  The two ingresses run on different HTTP servers,
    [axum::serve] and a [hyper-util] connection builder, so each has an
    [HttpStack] of its own.  Only the plain one lets requests finish after the
    signal. *)

From S2P Require Import Prelude.
From S2P Require Import Text.
From S2P Require Import Entities.
From S2P Require Import Mailbox.
From S2P Require Import Json.
From S2P Require Import ModelFormats.
From S2P Require Import MailboxSpec.
From S2P Require Import Relay.
From S2P Require Import BlobRole.
From S2P Require Import PeerTrust.
From S2P Require Import NodeCa.
From S2P Require Import Stack.
From S2P Require Import Http.
From S2P Require Import Tls.
From S2P Require Import ModelHttp.
From S2P Require Import Daemon.
From S2P Require Import DaemonSpec.
#[local] Open Scope Z_scope.

(** ** [serve_plain]

    [pl_accepting] ends with the signal; the call returns, and the daemon with
    it, when the connections are closed ([PlReturn]). *)

Record PlainSystem (B : Type) := {
  pl_data : RelayNode B;
  pl_conns : gset nat;
  pl_accepting : bool;
  pl_up : bool;
}.
Arguments pl_data {B}.
Arguments pl_conns {B}.
Arguments pl_accepting {B}.
Arguments pl_up {B}.

Section Ingress.
Context `{EX : Externals} `{FM : Formats} {HP HS : HttpStack} `{RG : Rcgen} `{RU : !Rustls}
  `{TH : !Handshake}.

Inductive PlainEvent : Type :=
| PlAccept (id : nat)
| PlRequest (id : nat) (raw : bytes) (am : Ambient)
| PlClose (id : nat)
| PlSweep (f : Faults) (now : Z)
| PlShutdown
| PlReturn.

Context {B : Type} (lower_table : Z → list Z) (usize_max : Z) (sv : Server B) (groups : list NamedGroup)
  (own : text).

Definition pl_with (n : RelayNode B) (conns : gset nat) (p : PlainSystem B) : PlainSystem B :=
  {| pl_data := n; pl_conns := conns; pl_accepting := pl_accepting p; pl_up := pl_up p |}.

Definition plain_step (p : PlainSystem B) (e : PlainEvent) : option bytes * PlainSystem B :=
  if negb (pl_up p) then (None, p) else
  match e with
  | PlAccept id =>
      if pl_accepting p then (None, pl_with (pl_data p) ({[id]} ∪ pl_conns p) p) else (None, p)
  | PlRequest id raw am =>
      if decide (id ∈ pl_conns p) then
        let '(buf, n) := serve_bytes (HS := HP) (relay_router (HS := HP) usize_max sv am) raw (pl_data p) in
        (Some buf, pl_with n (pl_conns p) p)
      else (None, p)
  | PlClose id => (None, pl_with (pl_data p) (pl_conns p ∖ {[id]}) p)
  | PlSweep f now =>
      (None, pl_with {| rn_mail := (sweep f now (rn_mail (pl_data p))).2; rn_blob := rn_blob (pl_data p) |}
               (pl_conns p) p)
  | PlShutdown =>
      (None, {| pl_data := pl_data p; pl_conns := pl_conns p; pl_accepting := false; pl_up := pl_up p |})
  | PlReturn =>
      if negb (pl_accepting p) && bool_decide (pl_conns p = ∅)
      then (None, {| pl_data := pl_data p; pl_conns := ∅; pl_accepting := false; pl_up := false |})
      else (None, p)
  end.

Definition plain_run (es : list PlainEvent) (p : PlainSystem B) : PlainSystem B :=
  foldl (λ p e, (plain_step p e).2) p es.

#[local] Abbreviation step := (daemon_step (HS := HS) lower_table usize_max sv groups own).

(** ** Shutdown *)

Lemma plain_step_draining p e :
  pl_accepting p = false →
  pl_accepting (plain_step p e).2 = false ∧ pl_conns (plain_step p e).2 ⊆ pl_conns p ∧
  (pl_up p = true → pl_up (plain_step p e).2 = false → pl_conns p = ∅).
Proof.
  intros Ha. unfold plain_step. destruct (pl_up p) eqn:Hu; cbn [negb]; [|by split_and!].
  destruct e as [id|id raw am|id|f now| |]; rewrite ?Ha; cbn [negb andb];
    try (cbn; rewrite ?Ha, ?Hu; split_and!; [done|set_solver|done]).
  - destruct (decide _); [destruct (serve_bytes _ raw _)|]; cbn; rewrite Ha, Hu; by split_and!.
  - case_bool_decide; cbn; rewrite ?Ha, ?Hu; split_and!; set_solver.
Qed.

Lemma plain_run_draining es p :
  pl_accepting p = false →
  pl_accepting (plain_run es p) = false ∧ pl_conns (plain_run es p) ⊆ pl_conns p ∧
  (pl_up p = true → pl_up (plain_run es p) = false → pl_conns (plain_run es p) = ∅).
Proof.
  revert p. induction es as [|e es IH]; intros p Ha; [cbn; split_and!; [done|done|congruence]|].
  destruct (plain_step_draining p e Ha) as (Ha' & Hc & Hu). destruct (IH _ Ha') as (Ha'' & Hc' & Hu').
  change (plain_run (e :: es) p) with (plain_run es (plain_step p e).2). split_and!; [done|set_solver|].
  intros Hup Hd. destruct (pl_up (plain_step p e).2) eqn:E; [by apply Hu'|].
  specialize (Hu Hup eq_refl). set_solver.
Qed.

(** the shutdown signal.  The plain ingress stops to accept but answers every
    request on a connection that stays open, and returns only when all are
    closed; the PQ-mTLS ingress returns at once, so that no request is answered
    any more. *)
Theorem only_plain_ingress_drains (s : System B) (p : PlainSystem B) es des id raw am :
  pl_up p = true →
  let p' := plain_run es (plain_step p PlShutdown).2 in
  (pl_conns p' ⊆ pl_conns p ∧
   (id ∈ pl_conns p' → is_Some (plain_step p' (PlRequest id raw am)).1)) ∧
  (step (daemon_run (HS := HS) lower_table usize_max sv groups own des (step s DeShutdown).2) (DeRequest id raw am)).1 = None.
Proof.
  intros Hu p'. assert (pl_accepting (plain_step p PlShutdown).2 = false) as Ha.
  { unfold plain_step. by rewrite Hu. }
  assert (pl_up (plain_step p PlShutdown).2 = true ∧ pl_conns (plain_step p PlShutdown).2 = pl_conns p) as [Hu' Hc'].
  { unfold plain_step. by rewrite Hu. }
  destruct (plain_run_draining es _ Ha) as (Hacc & Hc & Hup). rewrite Hc' in Hc. fold p' in Hacc, Hc, Hup.
  split; [split; [done|]|].
  - intros Hid. unfold plain_step. destruct (pl_up p') eqn:E; [|specialize (Hup Hu' eq_refl); set_solver].
    cbn [negb]. rewrite decide_True by done. destruct (serve_bytes _ raw _). by eexists.
  - assert (∀ s', ss_up _ s' = false → step s' (DeRequest id raw am) = (None, s')) as Hdown.
    { intros s' Hd. unfold daemon_step. by rewrite Hd. }
    assert (∀ l s', ss_up _ s' = false → ss_up _ (daemon_run (HS := HS) lower_table usize_max sv groups own l s') = false) as Hrun.
    { induction l as [|e l IH]; intros s' Hd; [done|]. unfold daemon_run. cbn [foldl]. apply IH.
      unfold daemon_step. by rewrite Hd. }
    rewrite Hdown; [done|]. apply Hrun. unfold daemon_step. by destruct (ss_up _ s) eqn:E; cbn.
Qed.
End Ingress.
