(* ===== verification/TestsApi.v ===== *)
(** * The integration tests of [buh-api], run on the model

    The tests under [buh-api/tests]: the relay and the blob role through the
    real router, the admin API with the live trust snapshot, the handshake
    between two nodes and a request through the PQ-mTLS serve loop.  Each is a
    function on the model's definitions, [None] being an assertion that fails or
    an [unwrap] that panics; drawn keys, fresh ids and clock readings are
    arguments. *)

From S2P Require Import Prelude.
From S2P Require Import Text.
From S2P Require Import TestsWire.
From S2P Require Import Entities.
From S2P Require Import Mailbox.
From S2P Require Import Json.
From S2P Require Import ModelFormats.
From S2P Require Import MailboxSpec.
From S2P Require Import Relay.
From S2P Require Import Settlement.
From S2P Require Import Blob.
From S2P Require Import BlobRole.
From S2P Require Import PeerTrust.
From S2P Require Import NodeCa.
From S2P Require Import TestsNode.
From S2P Require Import Stack.
From S2P Require Import Http.
From S2P Require Import Tls.
From S2P Require Import ModelHttp.
From S2P Require Import TlsShared.
From S2P Require Import Daemon.
#[local] Open Scope Z_scope.

Section Tests.
Context `{EX : Externals} `{FM : Formats} `{HS : HttpStack} (usize_max : Z).

(** ** [tests/relay_roundtrip.rs] *)

(** A migrated node without rows. *)
Definition fresh_mail : MailRepo :=
  {| db := {| envelopes := []; receipts := [] |}; waiters := ∅; woken := ∅ |}.

Definition quiet (id : EnvelopeId) (now : Z) : Ambient :=
  {| am_faults := λ _, None; am_faults2 := λ _, None; am_id := id; am_now := now; am_now2 := now;
     am_waiter := 0; am_env1 := λ s, s; am_env2 := λ _ s, s |}.

Definition test_app : Server unit * RelayNode unit :=
  ({| sv_state := {| st_config := CoreConfig_default; st_max_wait := 1 |}; sv_fingerprint := None;
      sv_store := None |},
   {| rn_mail := fresh_mail; rn_blob := tt |}).

Definition body_json (r : Response) : option Json := unwrap (json_from_slice (rs_body r)).

Definition request (method : string) (uri : text) (headers : list (text * text)) (body : bytes) : Request :=
  {| rq_method := chars method; rq_target := uri; rq_headers := headers; rq_body := body |}.

Definition json_type : list (text * text) := [(chars "content-type", chars "application/json")].

Definition envelopes_uri (queue_hex : text) : text :=
  chars "/v1/queue/" ++ queue_hex ++ chars "/envelopes".

Definition push_pull_ack_roundtrip (id : EnvelopeId) (now : Z) : option unit :=
  let '(sv, n) := test_app in
  let am := quiet id now in
  let queue_hex := text_repeat "11" 32 in
  let plaintext := bstr "sealed ciphertext bytes (opaque to the node)" in
  let payload_b64 := b64_encode plaintext in
  (* 1. push *)
  '(resp, n) ← relay_router usize_max sv am
    (request "POST" (envelopes_uri queue_hex) json_type
       (utf8_encode (json_to_string
          (JObj [(chars "payload", JStr payload_b64); (chars "ttl_seconds", JNum 3600)])))) n;
  _ ← assert_eq (rs_status resp) 200;
  v ← body_json resp;
  envelope_id ← as_str (index v "envelope_id");
  (* 2. pull *)
  '(resp, n) ← relay_router usize_max sv am (request "GET" (envelopes_uri queue_hex) [] []) n;
  _ ← assert_eq (rs_status resp) 200;
  pulled ← body_json resp;
  envelopes ← as_array (index pulled "envelopes");
  _ ← assert_eq (length envelopes) 1%nat;
  first ← envelopes !! 0%nat;
  i ← as_str (index first "envelope_id");
  _ ← assert_eq i envelope_id;
  p ← as_str (index first "payload");
  got ← unwrap (b64_decode p);
  _ ← assert_eq got plaintext;
  (* 3. acknowledge *)
  '(resp, n) ← relay_router usize_max sv am
    (request "POST" (envelopes_uri queue_hex ++ chars "/" ++ envelope_id ++ chars "/ack") [] []) n;
  _ ← assert_eq (rs_status resp) 200;
  v ← body_json resp;
  acked ← as_bool (index v "acknowledged");
  _ ← assert_ acked;
  (* 4. pull again *)
  '(resp, n) ← relay_router usize_max sv am (request "GET" (envelopes_uri queue_hex) [] []) n;
  _ ← assert_eq (rs_status resp) 200;
  v ← body_json resp;
  again ← as_array (index v "envelopes");
  _ ← assert_eq (length again) 0%nat;
  (* 5. the receipt *)
  assert_eq (length (receipts (db (rn_mail n)))) 1%nat.

(** [bogus] is the test's unused UUID. *)
Definition ack_unknown_envelope_is_false (bogus : text) (id : EnvelopeId) (now : Z) : option unit :=
  let '(sv, n) := test_app in
  let queue_hex := text_repeat "22" 32 in
  '(resp, _) ← relay_router usize_max sv (quiet id now)
    (request "POST" (envelopes_uri queue_hex ++ chars "/" ++ bogus ++ chars "/ack") [] []) n;
  _ ← assert_eq (rs_status resp) 200;
  v ← body_json resp;
  acked ← as_bool (index v "acknowledged");
  assert_ (negb acked).

Definition bad_queue_id_is_rejected (id : EnvelopeId) (now : Z) : option unit :=
  let '(sv, n) := test_app in
  '(resp, _) ← relay_router usize_max sv (quiet id now)
    (request "GET" (chars "/v1/queue/not-hex/envelopes") [] []) n;
  assert_eq (rs_status resp) 400.

(** ** [tests/blob_roundtrip.rs] *)

Definition blob_app (blob : bool) (max_blob : Z) : Server Fs * RelayNode Fs :=
  let config := {| default_ttl_seconds := default_ttl_seconds CoreConfig_default;
                   max_ttl_seconds := max_ttl_seconds CoreConfig_default;
                   max_payload_bytes := max_payload_bytes CoreConfig_default;
                   max_pull_limit := max_pull_limit CoreConfig_default; max_blob_bytes := max_blob |} in
  ({| sv_state := {| st_config := config; st_max_wait := 1 |}; sv_fingerprint := None;
      sv_store := if blob then Some (fs_store Blob.no_faults None) else None |},
   {| rn_mail := fresh_mail; rn_blob := ∅ |}).

Definition put_request (uri : string) (body : bytes) : Request :=
  request "PUT" (chars uri) [(chars "content-type", chars "application/octet-stream")] body.
Definition get_request (uri : string) : Request := request "GET" (chars uri) [] [].

Definition blob_put_get_roundtrip (am : Ambient) : option unit :=
  let '(sv, n) := blob_app true (64 * 1024) in
  let ciphertext := bs [0x00; 0x01; 0xde; 0xad; 0xbe; 0xef] ++ bstr " sealed media bytes the node cannot read" in
  let uri := "/v1/blob/media/aa/bb/object-key" in
  '(resp, n) ← relay_router usize_max sv am (put_request uri ciphertext) n;
  _ ← assert_eq (rs_status resp) 201;
  '(resp, _) ← relay_router usize_max sv am (get_request uri) n;
  _ ← assert_eq (rs_status resp) 200;
  _ ← assert_eq (rs_content_type resp) (chars "application/octet-stream");
  assert_eq (rs_body resp) ciphertext.

Definition missing_blob_is_not_found (am : Ambient) : option unit :=
  let '(sv, n) := blob_app true (64 * 1024) in
  '(resp, _) ← relay_router usize_max sv am (get_request "/v1/blob/media/absent") n;
  assert_eq (rs_status resp) 404.

Definition oversize_blob_is_rejected (am : Ambient) : option unit :=
  let '(sv, n) := blob_app true 8 in
  '(resp, _) ← relay_router usize_max sv am
    (put_request "/v1/blob/media/k" (bstr "this is far more than eight bytes")) n;
  assert_eq (rs_status resp) 400.

Definition empty_blob_is_rejected (am : Ambient) : option unit :=
  let '(sv, n) := blob_app true (64 * 1024) in
  '(resp, _) ← relay_router usize_max sv am (put_request "/v1/blob/media/k" []) n;
  assert_eq (rs_status resp) 400.

Definition blob_role_disabled_is_not_implemented (am : Ambient) : option unit :=
  let '(sv, n) := blob_app false (64 * 1024) in
  '(resp, n) ← relay_router usize_max sv am (put_request "/v1/blob/media/k" (bstr "x")) n;
  _ ← assert_eq (rs_status resp) 501;
  '(resp, _) ← relay_router usize_max sv am (get_request "/v1/blob/media/k") n;
  assert_eq (rs_status resp) 501.

(** ** [tests/admin_api.rs] *)

Context (lower : Z → list Z).

(** The registry of a migrated datastore and a fresh snapshot. *)
Definition harness : Node := {| nd_registry := []; nd_trust := TrustStore_new |}.

Definition admin (own : text) (now : Z) : Request → Node → option (Response * Node) :=
  admin_router lower own (λ _, None) (λ _, None) now.

Definition trust_then_distrust_updates_the_live_snapshot (own : text) (now : Z) : option unit :=
  let fp := text_repeat "ab" 32 in
  _ ← assert_ (negb (trust_contains (nd_trust harness) fp));
  '(resp, n) ← admin own now
    (request "POST" (chars "/admin/peers") json_type
       (utf8_encode (json_to_string
          (JObj [(chars "ca_fingerprint", JStr fp); (chars "note", JStr (chars "peer one"))])))) harness;
  _ ← assert_eq (rs_status resp) 200;
  _ ← assert_ (trust_contains (nd_trust n) fp);
  '(resp, n) ← admin own now (get_request "/admin/peers") n;
  body ← body_json resp;
  peers ← as_array (index body "peers");
  _ ← assert_eq (length peers) 1%nat;
  p ← peers !! 0%nat;
  _ ← assert_eq (as_str (index p "ca_fingerprint")) (Some fp);
  '(resp, n) ← admin own now (request "DELETE" (chars "/admin/peers/" ++ fp) [] []) n;
  _ ← assert_eq (rs_status resp) 200;
  v ← body_json resp;
  _ ← assert_eq (as_bool (index v "removed")) (Some true);
  assert_ (negb (trust_contains (nd_trust n) fp)).

Definition info_reports_the_node_ca_fingerprint (own : text) (now : Z) : option unit :=
  '(resp, _) ← admin own now (get_request "/admin/info") harness;
  _ ← assert_eq (rs_status resp) 200;
  body ← body_json resp;
  _ ← assert_eq (as_str (index body "ca_fingerprint")) (Some own);
  assert_ (match index body "trusted_peers" with JNum k => k =? 0 | _ => false end).

Definition fingerprint_is_normalized_through_the_api (own : text) (now : Z) : option unit :=
  '(resp, n) ← admin own now
    (request "POST" (chars "/admin/peers") json_type
       (utf8_encode (json_to_string (JObj [(chars "ca_fingerprint", JStr (chars "AA:BB:CC"))])))) harness;
  _ ← assert_eq (rs_status resp) 200;
  assert_ (trust_contains (nd_trust n) (chars "aabbcc")).

(** ** [tests/pqmtls_handshake.rs] *)

Context `{RG : Rcgen} `{RU : !Rustls} `{RS : !RustlsSignatures} `{TH : !Handshake}.

(** A node CA in a fresh directory. *)
Definition node_ca (key : KeyPair) : option RcgenNodeCa :=
  '(ca, _) ← unwrap_call (load_or_init (λ _, None) None None (Ok key) [] [] ["node"] (3600 * ns_per_sec)) empty_dir;
  Some ca.

Definition tls_new (pki : RcgenNodeCa) (trust : TrustStore) (lk : KeyPair) (now : Z) (h : Cells) :
    option (SharedTls * Cells) :=
  '(r, h) ← shared_new pki trust (Ok lk) [] now h; tls ← unwrap r; Some (tls, h).

(** [run_server] and [try_client]: the group both sides report, or nothing
    when either side refuses. *)
Definition run_handshake (server client : SharedTls) (lk : KeyPair) (now : Z) (h : Cells) :
    option (option NamedGroup) :=
  let '(r, h) := shared_server_config server h in
  c ← unwrap r;
  r ← shared_client_config client (Ok lk) [] now;
  cc ← unwrap r;
  sv ← server_view h c; cv ← client_view h cc;
  Some (unwrap (tls_handshake cv sv (now / ns_per_sec) (now / ns_per_sec))).

(** Two nodes with the given keys; [a_pins_b] and [b_pins_a] say which trust
    stores start with the other's fingerprint. *)
Definition two_nodes (ka kb la lb : KeyPair) (now : Z) (a_pins_b b_pins_a : bool) :
    option (SharedTls * SharedTls * TrustStore * Cells) :=
  a ← node_ca ka; b ← node_ca kb;
  let h := {| trusts := []; keys := []; storages := [] |} in
  let '(a_trust, h) := if a_pins_b then store_from_fingerprints [nc_ca_fingerprint b] h else store_new h in
  '(a_tls, h) ← tls_new a a_trust la now h;
  let '(b_trust, h) := if b_pins_a then store_from_fingerprints [nc_ca_fingerprint a] h else store_new h in
  '(b_tls, h) ← tls_new b b_trust lb now h;
  Some (a_tls, b_tls, a_trust, h).

Definition handshake_succeeds_when_each_pins_the_other_and_uses_x25519mlkem768 (ka kb la lb lc : KeyPair)
    (now : Z) : option unit :=
  '(a_tls, b_tls, _, h) ← two_nodes ka kb la lb now true true;
  g ← run_handshake a_tls b_tls lc now h;
  assert_eq g (Some X25519MLKEM768).

Definition handshake_refused_when_server_does_not_pin_the_client_ca (ka kb la lb lc : KeyPair) (now : Z) :
    option unit :=
  '(a_tls, b_tls, _, h) ← two_nodes ka kb la lb now false true;
  g ← run_handshake a_tls b_tls lc now h;
  assert_eq g None.

Definition handshake_refused_when_client_does_not_pin_the_server_ca (ka kb la lb lc : KeyPair) (now : Z) :
    option unit :=
  '(a_tls, b_tls, _, h) ← two_nodes ka kb la lb now true false;
  g ← run_handshake a_tls b_tls lc now h;
  assert_eq g None.

(** The store is replaced after the node took its handle. *)
Definition distrust_refuses_a_previously_trusted_peer (ka kb la lb lc : KeyPair) (now : Z) : option unit :=
  '(a_tls, b_tls, a_trust, h) ← two_nodes ka kb la lb now true true;
  let h := store_replace a_trust [] h in
  g ← run_handshake a_tls b_tls lc now h;
  assert_eq g None.

(** ** [tests/pqmtls_http.rs] *)

(** [server_stack] and [spawn_server]: the daemon's loop after its first
    refresh of the snapshot. *)
Fixpoint trust_all (now : Z) (fps : list text) (reg : PeerTable) : option PeerTable :=
  match fps with
  | [] => Some reg
  | fp :: fps => '(_, reg) ← unwrap_call (trust lower (λ _, None) now fp None) reg; trust_all now fps reg
  end.

Definition server_of (server : RcgenNodeCa) : Server unit :=
  {| sv_state := {| st_config := CoreConfig_default; st_max_wait := 1 |};
     sv_fingerprint := Some (nc_ca_fingerprint server); sv_store := None |}.

Definition spawn_server (server : RcgenNodeCa) (trusted : list text) (lk : KeyPair) (now : Z) :
    option (System unit) :=
  reg ← trust_all (now / 1000000) trusted [];
  let node := refresh_trust (λ _, None) {| nd_registry := reg; nd_trust := TrustStore_new |} in
  r ← NodeTls_new server TrustStore_new (Ok lk) [] now;
  tls ← unwrap r;
  Some {| ss_node := node; ss_tls := tls; ss_data := {| rn_mail := fresh_mail; rn_blob := tt |};
          ss_sessions := no_sessions; ss_conns := ∅; ss_up := true |}.

Definition health_request : bytes :=
  utf8_encode (chars "GET /v1/health HTTP/1.1" ++ crlf ++ chars "Host: node" ++ crlf ++
               chars "Connection: close" ++ crlf2).

(** [get_health]: what comes back on a connection, [None] when it was refused.
    The client's end of the handshake comes first; a client that gives up does
    not reach the server's. *)
Definition get_health (server : RcgenNodeCa) (s : System unit) (client_tls : NodeTls) (lk : KeyPair)
    (am : Ambient) (now : Z) : option (option text) :=
  r ← client_config client_tls (Ok lk) [] now;
  cc ← unwrap r;
  let step := daemon_step lower usize_max (server_of server) pq_provider (nc_ca_fingerprint server) in
  match tls_connect cc (live_config pq_provider s) (now / ns_per_sec) with
  | Err _ => Some None
  | Ok _ =>
      let '(_, s) := step s (DeAccept 0 (hello_of cc) (now / ns_per_sec) []) in
      let '(out, _) := step s (DeRequest 0 health_request am) in
      Some (utf8_lossy <$> out)
  end.

(** The fingerprint is looked for as a JSON string. *)
Definition trusted_client_gets_health_with_ca_fingerprint (ks kc ls lc ld : KeyPair) (am : Ambient) (now : Z) :
    option unit :=
  server ← node_ca ks; client ← node_ca kc;
  s ← spawn_server server [nc_ca_fingerprint client] ls now;
  r ← NodeTls_new client (from_fingerprints [nc_ca_fingerprint server]) (Ok lc) [] now;
  client_tls ← unwrap r;
  answer ← get_health server s client_tls ld am now;
  response ← answer;
  _ ← assert_ (starts_with (chars "HTTP/1.1 200") response);
  assert_ (Settlement.contains (json_to_string (JStr (nc_ca_fingerprint server))) response).

Definition untrusted_client_is_refused_at_the_transport (ks kc ls lc ld : KeyPair) (am : Ambient) (now : Z) :
    option unit :=
  server ← node_ca ks; client ← node_ca kc;
  s ← spawn_server server [] ls now;
  r ← NodeTls_new client (from_fingerprints [nc_ca_fingerprint server]) (Ok lc) [] now;
  client_tls ← unwrap r;
  answer ← get_health server s client_tls ld am now;
  assert_eq answer None.

Definition api_tests (bogus : text) (id : EnvelopeId) (ka kb l1 l2 l3 : KeyPair) (now : Z) :
    list (option unit) :=
  let now_ms := now / 1000000 in
  let am := quiet id now_ms in
  let own := chars "0a0b" in
  [push_pull_ack_roundtrip id now_ms; ack_unknown_envelope_is_false bogus id now_ms;
   bad_queue_id_is_rejected id now_ms; blob_put_get_roundtrip am; missing_blob_is_not_found am;
   oversize_blob_is_rejected am; empty_blob_is_rejected am; blob_role_disabled_is_not_implemented am;
   trust_then_distrust_updates_the_live_snapshot own now_ms; info_reports_the_node_ca_fingerprint own now_ms;
   fingerprint_is_normalized_through_the_api own now_ms;
   handshake_succeeds_when_each_pins_the_other_and_uses_x25519mlkem768 ka kb l1 l2 l3 now;
   handshake_refused_when_server_does_not_pin_the_client_ca ka kb l1 l2 l3 now;
   handshake_refused_when_client_does_not_pin_the_server_ca ka kb l1 l2 l3 now;
   distrust_refuses_a_previously_trusted_peer ka kb l1 l2 l3 now;
   trusted_client_gets_health_with_ca_fingerprint ka kb l1 l2 l3 am now;
   untrusted_client_is_refused_at_the_transport ka kb l1 l2 l3 am now].
End Tests.

(** the model passes the integration tests of the node: the relay and blob
    round trips, the admin API, the handshake between two nodes and the request
    through the serve loop. *)
Theorem api_tests_pass :
  let id : EnvelopeId := repeat Byte.x07 16 in
  let bogus := chars (uuid_fmt (repeat Byte.x00 16)) in
  let key (b : byte) : KeyPair (Rcgen := tlv_rcgen) := b in
  forallb passes
    (api_tests (2 ^ 64 - 1) Sample.lower bogus id (key Byte.xaa) (key Byte.xbb) (key Byte.xa1) (key Byte.xb1)
       (key Byte.xc1) NodeSample.now) = true.
Proof. vm_cast_no_check (eq_refl true). Qed.
