(* ===== verification/EndToEnd.v ===== *)
(** * The end-to-end driver: [buh-e2e/src/main.rs]

    [send] runs one conversation through every layer: prekeys, handshake and
    ratchet on the client side; PQ-mTLS, HTTP and JSON on the way; routes,
    policy and SQL on the node.  The random draws are the record [Draws]; what
    the outside contributes to each request is a [Link]. *)

From S2P Require Import Prelude.
From S2P Require Import Text.
From S2P Require Import Wire.
From S2P Require Import Keys.
From S2P Require Import ModelCrypto.
From S2P Require Import Ratchet.
From S2P Require Import RatchetSpec.
From S2P Require Import RatchetDelivery.
From S2P Require Import Prekey.
From S2P Require Import Pqxdh.
From S2P Require Import Entities.
From S2P Require Import Mailbox.
From S2P Require Import Json.
From S2P Require Import ModelFormats.
From S2P Require Import MailboxSpec.
From S2P Require Import Relay.
From S2P Require Import BlobRole.
From S2P Require Import PeerTrust.
From S2P Require Import NodeCa.
From S2P Require Import Http.
From S2P Require Import HttpSpec.
From S2P Require Import Tls.
From S2P Require Import ModelHttp.
#[local] Open Scope Z_scope.

(** ** [Conn] *)

(** How reading the response ends; an unexpected end of file may come after
    any number of its bytes. *)
Inductive ReadEnd : Type :=
| ReadOk
| ReadUnexpectedEof (got : nat)
| ReadFailed (e : string).

Section Driver.
Context `{EX : Externals} `{FM : Formats} `{HS : HttpStack} `{RG : Rcgen} `{RU : !Rustls}
  `{TH : !Handshake}.

Record Conn := {
  cn_host : text;
  cn_port : Z;
  cn_server_name : text;
  cn_tls : NodeTls;
}.

Definition Conn_new (node : text) (tls : NodeTls) : Result string Conn :=
  let? (host, port) := ok_or (rsplit_once 58 node) "node must be host:port" in
  let? name := map_err (λ _, "invalid server name") (server_name host) in
  let? port := ok_or (parse_u16 port) "invalid port" in
  Ok {| cn_host := host; cn_port := port; cn_server_name := name; cn_tls := tls |}.

(** One request's share of the outside: draws and clock (in nanoseconds) of
    the client, the listener behind the address, and the faults of writing
    and reading. *)
Record Link (N : Type) := {
  lk_drawn : Result string KeyPair;
  lk_rnd : bytes;
  lk_now : Z;
  lk_tcp : text → Z → Result string (Remote N);
  lk_write : option string;
  lk_read : ReadEnd;
}.
Arguments lk_drawn {N}.
Arguments lk_rnd {N}.
Arguments lk_now {N}.
Arguments lk_tcp {N}.
Arguments lk_write {N}.
Arguments lk_read {N}.

(** [stream.read_to_end(&mut buf)] and the match on its result. *)
Definition read_response (how : ReadEnd) (buf : bytes) : Result string bytes :=
  match how with
  | ReadOk => Ok buf
  | ReadUnexpectedEof got =>
      let buf := take got buf in
      if bool_decide (buf = []) then Err "unexpected end of file" else Ok buf
  | ReadFailed e => Err e
  end.

(** A new configuration for every request, so the handshake is a full one.
    [connect] returns before the node has judged the client's certificate: if it
    refuses, its alert is what reading the response ends with. *)
Definition request {N} (c : Conn) (lk : Link N) (method path : text) (body : option text) :
    PST N string (Z * text) := λ n,
  match client_config (cn_tls c) (lk_drawn lk) (lk_rnd lk) (lk_now lk) with
  | None => None
  | Some (Err e) => Some (Err (CoreError_to_string e), n)
  | Some (Ok cc) =>
      match (let? remote := lk_tcp lk (cn_host c) (cn_port c) in
             let? g := tls_connect cc (rm_config remote) (lk_now lk / ns_per_sec) in
             Ok remote) with
      | Err e => Some (Err e, n)
      | Ok remote =>
          match lk_write lk with
          | Some e => Some (Err e, n)
          | None =>
              match tls_accept (cc_groups cc) (cc_auth cc) (rm_config remote) (rm_now remote) with
              | Err e => Some (Err e, n)
              | Ok _ =>
                  let '(buf, n') := rm_serve remote (utf8_encode (e2e_request_text (cn_host c) method path body)) n in
                  Some (rbind (read_response (lk_read lk) buf) e2e_parse, n')
              end
          end
      end
  end.

Definition queue_path (queue_hex : text) : text :=
  chars "/v1/queue/" ++ queue_hex ++ chars "/envelopes".

Definition Conn_push {N} (c : Conn) (lk : Link N) (queue_hex : text) (payload : bytes) (ttl_seconds : Z) :
    PST N string text :=
  let body := json_to_string (PushEnvelope_to_json {| pe_payload := payload; pe_ttl_seconds := ttl_seconds |}) in
  let* (status, body) := request c lk (chars "POST") (queue_path queue_hex) (Some body) in
  if negb (status =? 200) && negb (status =? 201)
  then pst_err ("push -> HTTP " +:+ to_string (decimal status ++ chars ": " ++ body))
  else
    let* v := pst_lift (json_from_str body) in
    let* a := pst_lift (EnvelopeAccepted_from_json v) in
    pst_ret (chars (uuid_fmt (ea_envelope_id a))).

Definition Conn_pull {N} (c : Conn) (lk : Link N) (queue_hex : text) (wait : Z) : PST N string PullResponse :=
  let path := queue_path queue_hex ++ chars "?wait=" ++ decimal wait ++ chars "&limit=16" in
  let* (status, body) := request c lk (chars "GET") path None in
  if negb (status =? 200)
  then pst_err ("pull -> HTTP " +:+ to_string (decimal status ++ chars ": " ++ body))
  else
    let* v := pst_lift (json_from_str body) in
    pst_lift (PullResponse_from_json v).

Definition Conn_ack {N} (c : Conn) (lk : Link N) (queue_hex envelope_id : text) : PST N string bool :=
  let path := queue_path queue_hex ++ chars "/" ++ envelope_id ++ chars "/ack" in
  let* (status, body) := request c lk (chars "POST") path None in
  if negb (status =? 200)
  then pst_err ("ack -> HTTP " +:+ to_string (decimal status ++ chars ": " ++ body))
  else
    let* v := pst_lift (json_from_str body) in
    pst_ret (match get "acknowledged" v with
             | Some b => default false (as_bool b)
             | None => false
             end).

(** ** [send] *)

Context `{PF : Platform} `{PR : Primitives}.

Record Draws := {
  dw_recipient : bytes;
  dw_spk : bytes;
  dw_kem : bytes;
  dw_opk : bytes;
  dw_bundle_sig : bytes;
  dw_sender : bytes;
  dw_ephemeral : bytes;
  dw_encaps : bytes;
  dw_sig : bytes;
  dw_ratchet : bytes;
  dw_queue : bytes;
  dw_turn : bytes;
}.

(** The requests of one run, in order. *)
Record Links (N : Type) := {
  ls_push_initial : Link N;
  ls_push_cipher : Link N;
  ls_pull : Link N;
  ls_ack : nat → Link N;
  ls_repull : Link N;
}.
Arguments ls_push_initial {N}.
Arguments ls_push_cipher {N}.
Arguments ls_pull {N}.
Arguments ls_ack {N}.
Arguments ls_repull {N}.

(** [.context(..)]: the text on top of the error's chain. *)
Definition context {N E A} (what : string) (m : PST N E A) : PST N string A := pst_map_err (λ _, what) m.

(** The loop over the pulled envelopes. *)
Fixpoint ack_all {N} (c : Conn) (lk : nat → Link N) (queue_hex : text) (i : nat) (envs : list StoredEnvelope) :
    PST N string unit :=
  match envs with
  | [] => pst_ret tt
  | env :: envs =>
      let eid := chars (uuid_fmt (se_envelope_id env)) in
      let* acked := context ("ack " +:+ to_string eid) (Conn_ack c (lk i) queue_hex eid) in
      if negb acked then pst_err ("ack of " +:+ to_string eid +:+ " returned acknowledged=false")
      else ack_all c lk queue_hex (S i) envs
  end.

(** The sender's first flight. *)
Definition seal_first (d : Draws) (bundle_blob message : bytes) : Result string (bytes * bytes) :=
  let sender_id := IdentityKeyPair_generate (dw_sender d) in
  let? sender_view := map_err (λ _, "decode bundle (sender view)") (PrekeyBundle_decode bundle_blob) in
  let '(handshake, root) := initiate (dw_ephemeral d) (dw_encaps d) (dw_sig d) sender_id sender_view in
  let sender_session := initiator root (pb_signed_prekey sender_view) (dw_ratchet d) in
  let? ciphertext := map_err (λ _, "ratchet encrypt") (encrypt message sender_session).1 in
  Ok (InitialMessage_encode handshake, ciphertext).

(** The recipient's side of it. *)
Definition open_first (d : Draws) (bundle_blob : bytes) (secrets : PrekeySecrets) (initial cipher : bytes) :
    Result string bytes :=
  let? recipient_view := map_err (λ _, "decode bundle (recipient)") (PrekeyBundle_decode bundle_blob) in
  let? msg := map_err (λ _, "decode handshake") (InitialMessage_decode initial) in
  let? root := map_err (λ _, "pqxdh respond") (respond recipient_view secrets msg) in
  let recipient_session := responder root (ps_signed_prekey secrets) in
  map_err (λ _, "ratchet decrypt") (decrypt (dw_turn d) cipher recipient_session).1.

(** [send] from the point where the connection is set up; the two [println!]ed
    values that matter are returned: the queue and the plaintext opened. *)
Definition send_over {N} (c : Conn) (d : Draws) (l : Links N) (message : bytes) :
    PST N string (text * bytes) :=
  let recipient_id := IdentityKeyPair_generate (dw_recipient d) in
  let '(recipient_secrets, recipient_bundle) :=
    PrekeyBundle_generate (dw_spk d) (dw_kem d) (dw_opk d) (dw_bundle_sig d) recipient_id true in
  let bundle_blob := PrekeyBundle_encode recipient_bundle in
  let* (initial, ciphertext) := pst_lift (seal_first d bundle_blob message) in
  let queue_hex := chars (hex_encode (dw_queue d)) in
  let* id_initial := context "push handshake" (Conn_push c (ls_push_initial l) queue_hex initial 300) in
  let* id_cipher := context "push ciphertext" (Conn_push c (ls_push_cipher l) queue_hex ciphertext 300) in
  let* pulled := context "pull" (Conn_pull c (ls_pull l) queue_hex 5) in
  match pl_envelopes pulled with
  | e0 :: e1 :: _ =>
      let* opened := pst_lift (open_first d bundle_blob recipient_secrets (se_payload e0) (se_payload e1)) in
      if bool_decide (opened ≠ message) then pst_err "decrypted plaintext mismatch"
      else
        let* _ := ack_all c (ls_ack l) queue_hex 0 (pl_envelopes pulled) in
        let* after := context "re-pull after ack" (Conn_pull c (ls_repull l) queue_hex 0) in
        if bool_decide (pl_envelopes after ≠ []) then pst_err ("queue not empty after ack: " +:+ to_string (decimal (blen (pl_envelopes after)) ++ chars " left"))
        else pst_ret (queue_hex, opened)
  | envs => pst_err ("expected 2 envelopes back, got " +:+ to_string (decimal (blen envs)))
  end.

(** [load_ca]: the harness keeps its CA in a directory. *)
Definition load_ca (f : PkiFaults) (w1 w2 : option bytes) (drawn : Result string KeyPair) (r1 r2 : bytes) :
    ST PkiDir string RcgenNodeCa :=
  st_map_err (λ _, "init/load client CA")
    (load_or_init f w1 w2 drawn r1 r2 ["buh-e2e-client"] (3600 * ns_per_sec)).

(** [Mint]: the fingerprint that is printed. *)
Definition mint (f : PkiFaults) (w1 w2 : option bytes) (drawn : Result string KeyPair) (r1 r2 : bytes) :
    ST PkiDir string text :=
  let! ca := load_ca f w1 w2 drawn r1 r2 in
  st_ret (nc_ca_fingerprint ca).

(** [Send], with [leaf_drawn], [leaf_rnd] and [now] for the first leaf. *)
Definition send {N} (f : PkiFaults) (w1 w2 : option bytes) (drawn : Result string KeyPair) (r1 r2 : bytes)
    (leaf_drawn : Result string KeyPair) (leaf_rnd : bytes) (now : Z)
    (d : Draws) (l : Links N) (node node_ca_fp : text) (message : bytes) :
    PST (PkiDir * N) string (text * bytes) := λ '(dir, n),
  match load_ca f w1 w2 drawn r1 r2 dir with
  | (Err e, dir') => Some (Err e, (dir', n))
  | (Ok client, dir') =>
      match NodeTls_new client (from_fingerprints [node_ca_fp]) leaf_drawn leaf_rnd now with
      | None => None
      | Some r =>
          match (let? tls := map_err (λ _, "build client PQ-mTLS config") r in Conn_new node tls) with
          | Err e => Some (Err e, (dir', n))
          | Ok conn =>
              match send_over conn d l message n with
              | None => None
              | Some (r, n') => Some (r, (dir', n'))
              end
          end
      end
  end.
End Driver.
