(* ===== verification/EndToEndSpec.v ===== *)
(** * The conversation goes through

    The three requests of the driver against a relay node, each as one lemma
    about the abstract mailbox, and the whole run. *)

From S2P Require Import Prelude.
From S2P Require Import Text.
From S2P Require Import Wire.
From S2P Require Import Keys.
From S2P Require Import ModelCrypto.
From S2P Require Import Ratchet.
From S2P Require Import RatchetSpec.
From S2P Require Import RatchetDelivery.
From S2P Require Import Prekey.
From S2P Require Import Pqxdh.
From S2P Require Import Entities.
From S2P Require Import Mailbox.
From S2P Require Import Json.
From S2P Require Import ModelFormats.
From S2P Require Import MailboxSpec.
From S2P Require Import Relay.
From S2P Require Import BlobRole.
From S2P Require Import PeerTrust.
From S2P Require Import NodeCa.
From S2P Require Import Http.
From S2P Require Import HttpSpec.
From S2P Require Import Tls.
From S2P Require Import ModelHttp.
From S2P Require Import EndToEnd.
#[local] Open Scope Z_scope.

Section Requests.
Context `{EX : Externals} `{EL : !ExternalLaws} `{FM : Formats} `{FL : !FormatLaws} `{IL : !IdTextLaws}
  `{HS : HttpStack} `{HL : !HttpLaws} `{RG : Rcgen} `{RU : !Rustls}
  `{TH : !Handshake}.

(** The request goes through: the handshake succeeds, the transport does not
    fail, and [serve] answers. *)
Definition reaches {N} (c : Conn) (lk : Link N) (serve : bytes → N → bytes * N) : Prop :=
  lk_write _ lk = None ∧ lk_read _ lk = ReadOk ∧
  ∃ cc sc t g, client_config (cn_tls c) (lk_drawn _ lk) (lk_rnd _ lk) (lk_now _ lk) = Some (Ok cc) ∧
    lk_tcp _ lk (cn_host c) (cn_port c) = Ok {| rm_config := sc; rm_now := t; rm_serve := serve |} ∧
    tls_handshake cc sc (lk_now _ lk / ns_per_sec) t = Ok g.

Lemma request_reaches {N} c (lk : Link N) serve m p b n :
  reaches c lk serve →
  request c lk m p b n
  = let '(buf, n') := serve (utf8_encode (e2e_request_text (cn_host c) m p b)) n in Some (e2e_parse buf, n').
Proof.
  intros (Hw & Hr & cc & sc & t & g & Hcc & Htcp & Hh). unfold request. rewrite Hcc, Htcp.
  apply rbind_Ok in Hh as (g' & Hc & Ha).
  cbn [rbind rm_config rm_now]. rewrite Hc, Hw. cbn [rbind rm_serve rm_config rm_now]. rewrite Ha, Hr.
  by destruct (serve _ n).
Qed.

Lemma id_char_plain t : Forall (λ c, is_id_char c = true) t →
  Forall (λ a, a ≠ 47) t ∧ Forall (λ a, a ≠ 63) t ∧ Forall (λ a, a ≠ 37) t ∧
  Forall (λ a, is_target_char a = true) t.
Proof.
  intros H. split_and!; (eapply Forall_impl; [exact H|]); unfold is_id_char, is_target_char, is_digit, is_lower;
    intros c Hc; cbn in Hc; lia.
Qed.

(** Text of a queue id or an envelope id in a path. *)
Definition id_text (t : text) : Prop := t ≠ [] ∧ Forall (λ c, is_id_char c = true) t.

Lemma queue_id_text q : length (queue_bytes q) = QUEUE_ID_LEN → id_text (chars (QueueId_to_string q)).
Proof.
  intros Hq. split; [|apply hex_encode_chars]. intros E. apply (f_equal length) in E.
  unfold chars in E. rewrite length_fmap in E.
  assert (String.length (QueueId_to_string q) = 64%nat) as Hl.
  { unfold QueueId_to_string. rewrite hex_encode_length, Hq. done. }
  destruct (QueueId_to_string q); [done|]. done.
Qed.

Lemma uuid_id_text u : id_text (chars (uuid_fmt u)).
Proof. destruct (uuid_fmt_chars u) as [H1 H2]. split; [|done]. by destruct (uuid_fmt u). Qed.

Lemma extract_id t : Forall (λ c, is_id_char c = true) t → extract_path t = Ok (to_string t).
Proof.
  intros H. unfold extract_path. rewrite pct_decode_plain by apply (id_char_plain t H). done.
Qed.

Lemma queue_path_eq q : queue_path q = path_of [chars "v1"; chars "queue"; q; chars "envelopes"].
Proof. unfold queue_path, path_of. cbn [fmap list_fmap concat]. by rewrite app_nil_r. Qed.

Lemma queue_route q : id_text q → relay_route (queue_path q) = Some (RtQueue q).
Proof.
  intros [Hn Hq]. rewrite queue_path_eq. unfold relay_route. rewrite split_path.
  - unfold nonempty. rewrite (bool_decide_true (q ≠ [])) by done. reflexivity.
  - rewrite !Forall_cons. split_and!; [by repeat constructor..| |by repeat constructor|done].
    by apply id_char_plain.
Qed.

Lemma ack_path_eq q e :
  queue_path q ++ chars "/" ++ e ++ chars "/ack"
  = path_of [chars "v1"; chars "queue"; q; chars "envelopes"; e; chars "ack"].
Proof.
  unfold queue_path, path_of. cbn [fmap list_fmap concat]. rewrite <-!app_assoc. cbn. done.
Qed.

Lemma ack_route q e : id_text q → id_text e →
  relay_route (queue_path q ++ chars "/" ++ e ++ chars "/ack") = Some (RtAck q e).
Proof.
  intros [Hn Hq] [Hn' He]. rewrite ack_path_eq. unfold relay_route. rewrite split_path.
  - unfold nonempty. rewrite (bool_decide_true (q ≠ [])), (bool_decide_true (e ≠ [])) by done. reflexivity.
  - rewrite !Forall_cons. split_and!; try (by repeat constructor); by apply id_char_plain.
Qed.

(** ** The requests on the abstract mailbox *)

Context {B : Type} (usize_max : Z) (sv : Server B).

(** No faults on the node during the request. *)
Definition calm (am : Ambient) : Prop := am_faults am = (λ _, None) ∧ am_faults2 am = (λ _, None).

Definition served (am : Ambient) : bytes → RelayNode B → bytes * RelayNode B :=
  serve_bytes (relay_router usize_max sv am).

(** At clock [t] the node's mailbox holds the queues [m]. *)
Definition holds (n : RelayNode B) (t : Z) (m : list Item) : Prop := sim t (db (rn_mail n)) m.

Definition push_body (payload : bytes) (ttl : Z) : text :=
  json_to_string (PushEnvelope_to_json {| pe_payload := payload; pe_ttl_seconds := ttl |}).

(** What node policy and the framework accept. *)
Record push_fits (payload : bytes) (ttl : Z) : Prop := {
  fits_nonempty : payload ≠ [];
  fits_policy : blen payload <= max_payload_bytes (st_config (sv_state sv));
  fits_body : blen (utf8_encode (push_body payload ttl)) <= DEFAULT_BODY_LIMIT;
  fits_ttl : 1 <= ttl <= max_ttl_seconds (st_config (sv_state sv)) ∧ ttl <= i64_max;
}.

Lemma target_ok_queue q : id_text q → target_ok (queue_path q).
Proof.
  intros [Hn Hq]. split; [done|]. unfold queue_path. rewrite !Forall_app.
  split_and!; [by repeat constructor|by apply id_char_plain|by repeat constructor].
Qed.

Lemma no_query_queue q : id_text q → Forall (λ a, a ≠ 63) (queue_path q).
Proof.
  intros [Hn Hq]. unfold queue_path. rewrite !Forall_app.
  split_and!; [by repeat constructor|by apply id_char_plain|by repeat constructor].
Qed.

Definition rows (n : RelayNode B) : list EnvRow := envelopes (db (rn_mail n)).

(** A push adds one row, with this queue and this id. *)
Definition one_row (n n' : RelayNode B) (q : QueueId) (id : EnvelopeId) : Prop :=
  ∃ r, rows n' = rows n ++ [r] ∧ er_queue r = queue_bytes q ∧ er_envelope r = uuid_fmt id.

Lemma repo_push_row id now q env s i s' :
  repo_push (λ _, None) id now q env s = (Ok i, s') →
  ∃ r, envelopes (db s') = envelopes (db s) ++ [r] ∧ er_queue r = queue_bytes q ∧ er_envelope r = uuid_fmt id.
Proof.
  unfold repo_push, st_bind, db_call, connect, insert_envelope, notify_waiters, st_ret.
  cbn [map_err with_db db]. destruct (existsb _ _); cbn [map_err]; [done|].
  intros [= _ <-]. cbn [db with_db envelopes]. eexists. done.
Qed.

Lemma handle_push_ok am q payload ttl n t m :
  calm am → length (queue_bytes q) = QUEUE_ID_LEN → push_fits payload ttl →
  holds n t m → t <= am_now am →
  push_ok (db (rn_mail n)) q (am_id am) {| ne_payload := payload; ne_ttl_seconds := ttl |} (am_now am) →
  ∃ n', on_mail (handle_push (sv_state sv) (am_faults am) (am_id am) (am_now am) (QueueId_to_string q)
                   {| pe_payload := payload; pe_ttl_seconds := ttl |}) n = (Ok (am_id am), n') ∧
    one_row n n' q (am_id am) ∧
    holds n' (am_now am)
      (q_push (queue_bytes q) (stored (am_id am) {| ne_payload := payload; ne_ttl_seconds := ttl |} (am_now am)) m).
Proof.
  intros [Hf _] Hq [Hne Hp _ [Ht _]] Hs Hle Hok.
  destruct (push_sim t (rn_mail n) m q (am_id am) _ (am_now am) Hs Hle Hok) as (s' & Hpush & Hs').
  exists {| rn_mail := s'; rn_blob := rn_blob n |}. split; [|split; [by eapply repo_push_row|done]].
  unfold on_mail, handle_push, st_bind, st_lift, entity_err. rewrite QueueId_text by done. cbn [map_err].
  unfold push. cbn [pe_payload pe_ttl_seconds]. rewrite Hf.
  destruct (Z.eqb_spec (blen payload) 0) as [E|_].
  { destruct payload; [done|]. rewrite blen_cons in E. pose proof (blen_nonneg payload). lia. }
  rewrite (proj2 (Z.ltb_ge _ _)) by lia. unfold clamp_ttl. rewrite (proj2 (Z.leb_gt _ _)) by lia.
  rewrite Z.min_l by lia. by rewrite Hpush.
Qed.

Lemma Conn_push_ok c (lk : Link (RelayNode B)) am q payload ttl n t m :
  reaches c lk (served am) → host_ok (cn_host c) → calm am → length (queue_bytes q) = QUEUE_ID_LEN →
  push_fits payload ttl → holds n t m → t <= am_now am →
  push_ok (db (rn_mail n)) q (am_id am) {| ne_payload := payload; ne_ttl_seconds := ttl |} (am_now am) →
  ∃ n', Conn_push c lk (chars (QueueId_to_string q)) payload ttl n
        = Some (Ok (chars (uuid_fmt (am_id am))), n') ∧
    one_row n n' q (am_id am) ∧
    holds n' (am_now am)
      (q_push (queue_bytes q) (stored (am_id am) {| ne_payload := payload; ne_ttl_seconds := ttl |} (am_now am)) m).
Proof.
  intros Hr Hh Hc Hq Hfit Hs Hle Hok. pose proof (queue_id_text q Hq) as Hid.
  destruct (handle_push_ok am q payload ttl n t m Hc Hq Hfit Hs Hle Hok) as (n' & Hhp & Hrow & Hs').
  exists n'. split; [|done]. destruct Hfit as [_ _ Hbody [Httl Hi64]].
  assert (i64_min <= pe_ttl_seconds {| pe_payload := payload; pe_ttl_seconds := ttl |} <= i64_max) as H64.
  { cbn [pe_ttl_seconds]. unfold i64_min. lia. }
  pose proof (json_ok_push _ H64) as Hjok.
  unfold Conn_push. fold (push_body payload ttl). unfold pst_bind. rewrite (request_reaches _ _ _ _ _ _ _ Hr).
  unfold served, serve_bytes.
  rewrite e2e_request_read; [|done|split; [done|by repeat constructor]|by apply target_ok_queue|].
  2: { cbn [default from_option id]. by apply json_text_chars. }
  unfold relay_router. cbn [rq_target]. rewrite (proj1 (target_path_plain _ (no_query_queue _ Hid))).
  rewrite queue_route by done. change (method_is _ "POST") with true. cbv iota.
  unfold serve_push. rewrite extract_id by apply Hid. cbn [rbind].
  unfold extract_json. cbn [rq_headers rq_body default from_option id].
  change (header "content-type" _) with (Some (chars "application/json")). cbv iota.
  rewrite json_type. cbn [negb]. rewrite (proj2 (Z.ltb_ge _ _)) by done.
  rewrite from_slice_utf8 by by apply json_text_chars. unfold push_body.
  rewrite from_str_to_string by done. cbn [map_err rbind].
  rewrite PushEnvelope_json_roundtrip by done. cbn [map_err rbind].
  rewrite to_string_chars by apply queue_text_ascii. rewrite Hhp. cbn [json_result].
  set (acc := {| ea_envelope_id := am_id am |}).
  rewrite (proj1 (response_read (json_response 200 (EnvelopeAccepted_to_json acc)) ltac:(cbn; lia))).
  cbn [rs_status rs_body json_response Z.eqb Pos.eqb negb andb].
  rewrite utf8_lossy_encode by apply json_text_chars, json_ok_accepted.
  rewrite from_str_to_string by apply json_ok_accepted.
  unfold pst_lift, EnvelopeAccepted_from_json, field.
  change (get "envelope_id" (EnvelopeAccepted_to_json acc)) with (Some (EnvelopeId_to_json (am_id am))).
  cbn [ok_or rbind]. rewrite EnvelopeId_json_roundtrip. done.
Qed.

Lemma sim_times t d m : sim t d m → Forall (λ i, times_in_range (it_env i)) m.
Proof.
  intros [_ _ Hi]. clear -Hi. induction Hi as [|r i rows m (_ & _ & _ & Hr & Hx & H1 & H2) _ IH]; [done|].
  constructor; [|done]. unfold times_in_range. by rewrite <-Hr, <-Hx.
Qed.

Lemma sql_limit_subset {A} limit (l : list A) x : x ∈ sql_limit limit l → x ∈ l.
Proof. unfold sql_limit. destruct (limit <? 0); [done|]. apply subseteq_take. Qed.

Lemma q_pull_times t d m queue now limit : sim t d m → Forall times_in_range (q_pull queue now limit m).
Proof.
  intros Hs. pose proof (sim_times _ _ _ Hs) as Ht. apply Forall_forall. intros e He.
  unfold q_pull in He. apply sql_limit_subset, list_elem_of_fmap in He as (i & -> & [_ Hi]%list_elem_of_filter).
  rewrite Forall_forall in Ht. by apply Ht.
Qed.

(** The limit a pull for 16 envelopes ends up with. *)
Definition pull_limit : Z := Z.min 16 (max_pull_limit (st_config (sv_state sv))).

Lemma pull_query_eq wait :
  chars "?wait=" ++ decimal wait ++ chars "&limit=16" = 63 :: pull_query wait 16.
Proof. done. Qed.

(** A pull that finds something, or does not wait. *)
Lemma handle_pull_ok am q wait n t m :
  calm am → length (queue_bytes q) = QUEUE_ID_LEN → 1 <= max_pull_limit (st_config (sv_state sv)) →
  holds n t m → q_pull (queue_bytes q) (am_now am) pull_limit m ≠ [] ∨ wait = 0 →
  handle_pull (sv_state sv) (am_faults am) (am_faults2 am) (am_now am) (am_now2 am) (am_waiter am)
    (am_env1 am) (am_env2 am) (QueueId_to_string q) (Some 16) (Some wait) (rn_mail n)
  = Some (Ok (q_pull (queue_bytes q) (am_now am) pull_limit m), rn_mail n).
Proof.
  intros [Hf _] Hq Hmax Hs Hw. unfold handle_pull, entity_err. rewrite QueueId_text by done. cbn [map_err].
  change (default _ (Some 16)) with 16. unfold pull, clamp. rewrite (proj2 (Z.ltb_ge _ _)) by lia. rewrite Hf.
  replace (Z.max 1 (Z.min 16 (max_pull_limit (st_config (sv_state sv))))) with pull_limit
    by (unfold pull_limit; lia).
  rewrite (pull_sim t (rn_mail n) m q (am_now am) pull_limit Hs).
  destruct Hw as [Hw | ->]; destruct (q_pull _ _ _ _); done.
Qed.

Lemma Conn_pull_ok c (lk : Link (RelayNode B)) am q wait n t m :
  reaches c lk (served am) → host_ok (cn_host c) → calm am → length (queue_bytes q) = QUEUE_ID_LEN →
  1 <= max_pull_limit (st_config (sv_state sv)) → 0 <= wait <= u64_max →
  holds n t m → q_pull (queue_bytes q) (am_now am) pull_limit m ≠ [] ∨ wait = 0 →
  Conn_pull c lk (chars (QueueId_to_string q)) wait n
  = Some (Ok {| pl_envelopes := q_pull (queue_bytes q) (am_now am) pull_limit m |}, n).
Proof.
  intros Hr Hh Hc Hq Hmax Hwait Hs Hw. pose proof (queue_id_text q Hq) as Hid.
  pose proof (handle_pull_ok am q wait n t m Hc Hq Hmax Hs Hw) as Hhp.
  unfold Conn_pull. rewrite pull_query_eq. unfold pst_bind. rewrite (request_reaches _ _ _ _ _ _ _ Hr).
  unfold served, serve_bytes.
  rewrite e2e_request_read; [|done|split; [done|by repeat constructor]| |done].
  2: { split; [done|]. rewrite Forall_app, Forall_cons. split_and!; [by apply target_ok_queue|done|].
       unfold pull_query. rewrite !Forall_app. split_and!; [by repeat constructor| |by repeat constructor|].
       - eapply Forall_impl; [apply decimal_digit; lia|]. unfold is_target_char. intros a ->.
         by rewrite !orb_true_r.
       - by repeat constructor. }
  unfold relay_router. cbn [rq_target].
  destruct (target_path_query (queue_path (chars (QueueId_to_string q))) (pull_query wait 16)
              (no_query_queue _ Hid)) as [-> Hquery].
  rewrite queue_route by done. change (method_is _ "POST") with false. change (method_get _) with true.
  cbv iota. unfold serve_pull. rewrite extract_id by apply Hid. cbn [rbind rq_target]. rewrite Hquery.
  rewrite parse_pull_query_text by (unfold i64_max; lia). cbn [map_err rbind].
  rewrite to_string_chars by apply queue_text_ascii. rewrite Hhp. cbn [json_result].
  change (without_body _ ?r) with r.
  set (p := {| pl_envelopes := q_pull (queue_bytes q) (am_now am) pull_limit m |}).
  assert (Forall times_in_range (pl_envelopes p)) as Hp by by eapply q_pull_times.
  rewrite (proj1 (response_read (json_response 200 (PullResponse_to_json p)) ltac:(cbn; lia))).
  cbn [rs_status rs_body json_response Z.eqb Pos.eqb negb].
  rewrite utf8_lossy_encode by by apply json_text_chars, json_ok_pull.
  rewrite from_str_to_string by by apply json_ok_pull. unfold pst_lift.
  rewrite PullResponse_json_roundtrip by done. by destruct n.
Qed.

Lemma handle_ack_ok am q id n t m :
  calm am → length (queue_bytes q) = QUEUE_ID_LEN → holds n t m →
  ∃ n', on_mail (handle_ack (am_faults am) (am_now am) (QueueId_to_string q) (uuid_fmt id)) n
        = (Ok (q_ack (queue_bytes q) id m).1, n') ∧ holds n' t (q_ack (queue_bytes q) id m).2.
Proof.
  intros [Hf _] Hq Hs. destruct (ack_sim t (rn_mail n) m q id (am_now am) Hs) as (s' & Ha & Hs').
  exists {| rn_mail := s'; rn_blob := rn_blob n |}. split; [|done].
  unfold on_mail, handle_ack, st_bind, st_lift, entity_err. rewrite QueueId_text, uuid_parse_fmt by done.
  cbn [map_err]. unfold ack. by rewrite Hf, Ha.
Qed.

Lemma Conn_ack_ok c (lk : Link (RelayNode B)) am q id n t m :
  reaches c lk (served am) → host_ok (cn_host c) → calm am → length (queue_bytes q) = QUEUE_ID_LEN →
  holds n t m →
  ∃ n', Conn_ack c lk (chars (QueueId_to_string q)) (chars (uuid_fmt id)) n
        = Some (Ok (q_ack (queue_bytes q) id m).1, n') ∧ holds n' t (q_ack (queue_bytes q) id m).2.
Proof.
  intros Hr Hh Hc Hq Hs. pose proof (queue_id_text q Hq) as Hid. pose proof (uuid_id_text id) as Hu.
  destruct (handle_ack_ok am q id n t m Hc Hq Hs) as (n' & Hha & Hs'). exists n'. split; [|done].
  unfold Conn_ack. unfold pst_bind. rewrite (request_reaches _ _ _ _ _ _ _ Hr). unfold served, serve_bytes.
  set (path := queue_path _ ++ _).
  assert (Forall (λ a, a ≠ 63) path ∧ Forall (λ a, is_target_char a = true) path) as [Hnq Htc].
  { unfold path. rewrite !Forall_app. split; split_and!;
      try (by apply no_query_queue); try (by apply target_ok_queue); try (by repeat constructor);
      apply (id_char_plain (chars (uuid_fmt id)) (proj2 Hu)). }
  rewrite e2e_request_read; [|done|split; [done|by repeat constructor]|split; [done|exact Htc]|done].
  unfold relay_router. cbn [rq_target]. rewrite (proj1 (target_path_plain _ Hnq)). unfold path.
  rewrite ack_route by done. change (method_is _ "POST") with true. cbv iota.
  unfold serve_ack. rewrite extract_id by apply Hid. rewrite extract_id by apply Hu. cbn [rbind].
  rewrite !to_string_chars by (apply queue_text_ascii || apply uuid_text_ascii). rewrite Hha. cbn [json_result].
  set (b := (q_ack (queue_bytes q) id m).1).
  rewrite (proj1 (response_read (json_response 200 (AckAccepted_to_json {| aa_acknowledged := b |})) ltac:(cbn; lia))).
  cbn [rs_status rs_body json_response Z.eqb Pos.eqb negb].
  rewrite utf8_lossy_encode by by apply json_text_chars.
  rewrite from_str_to_string by done. done.
Qed.
End Requests.

(** ** The whole run *)

Section Conversation.
Context `{EX : Externals} `{EL : !ExternalLaws} `{FM : Formats} `{FL : !FormatLaws} `{IL : !IdTextLaws}
  `{HS : HttpStack} `{HL : !HttpLaws} `{RG : Rcgen} `{LR : !RcgenLaws} `{RU : !Rustls} `{LU : !RustlsLaws}
  `{TH : !Handshake} `{TL : !HandshakeLaws}.
Context `{PF : Platform} `{PR : Primitives} `{LX : !X25519Laws} `{LA : !AeadLaws} `{LH : !HkdfLaws}
  `{LK : !MlkemLaws} `{LD : !MldsaLaws}.

(** The public key of a drawn X25519 secret. *)
Definition drawn_public (rnd : bytes) : X25519PublicKey := Keys.public_key (X25519SecretKey_generate rnd).

(** No two of the keys drawn for prekey, first ratchet key and turn collide. *)
Definition keys_distinct (d : Draws) : Prop :=
  drawn_public (dw_ratchet d) ≠ drawn_public (dw_spk d) ∧
  drawn_public (dw_turn d) ∉ [drawn_public (dw_ratchet d); drawn_public (dw_spk d)].

(** The largest first flight. *)
Definition initial_max : Z := 6516.

Lemma encode_nonempty f : 0 < blen (encode f).
Proof. rewrite encode_eq. cbn [app]. rewrite blen_cons. pose proof (blen_nonneg (WIRE_VERSION :: write_varint [] (flags f) ++ concat (field_bytes <$> fields f))). lia. Qed.

Lemma seal_open d message secrets bundle :
  PrekeyBundle_generate (dw_spk d) (dw_kem d) (dw_opk d) (dw_bundle_sig d)
    (IdentityKeyPair_generate (dw_recipient d)) true = (secrets, bundle) →
  keys_distinct d → 148 + blen message <= 2 ^ 31 - 1 →
  ∃ initial cipher, seal_first d (PrekeyBundle_encode bundle) message = Ok (initial, cipher) ∧
    open_first d (PrekeyBundle_encode bundle) secrets initial cipher = Ok message ∧
    0 < blen initial <= initial_max ∧ 0 < blen cipher <= 148 + blen message.
Proof.
  intros Hg [Hne Hfr] Hl.
  assert (PrekeyBundle_decode (PrekeyBundle_encode bundle) = Ok bundle) as Hb
    by (by eapply bundle_decode_encode, generate_authentic).
  pose proof (respond_initiate (dw_ephemeral d) (dw_encaps d) (dw_sig d)
    (IdentityKeyPair_generate (dw_sender d)) _ _ _ _ _ _ _ _ Hg) as Hr.
  pose proof (initiate_ct_length (dw_ephemeral d) (dw_encaps d) (dw_sig d)
    (IdentityKeyPair_generate (dw_sender d)) bundle) as Hct.
  assert (ps_signed_prekey secrets = X25519SecretKey_generate (dw_spk d) ∧
          pb_signed_prekey bundle = drawn_public (dw_spk d)) as [Hs Hsp].
  { unfold PrekeyBundle_generate in Hg. destruct (MlKemSecretKey_generate (dw_kem d)). by injection Hg as <- <-. }
  unfold seal_first, open_first. rewrite Hb. cbn [map_err rbind].
  destruct (initiate _ _ _ _ bundle) as [handshake root]. cbn [fst snd] in Hr, Hct. rewrite Hsp, Hs.
  destruct (first_encrypt root (drawn_public (dw_spk d)) (dw_ratchet d) message) as (m & st' & He & Hm & Hform).
  { unfold AEAD_MAX_LEN. lia. }
  rewrite He. cbn [map_err rbind fst]. exists (InitialMessage_encode handshake), m.
  assert (blen (im_kem_ciphertext handshake) = 1088) as Hk by (unfold blen; by rewrite Hct).
  split_and!; [done| |..].
  - rewrite im_roundtrip by lia. cbn [map_err rbind]. rewrite Hr. cbn [map_err rbind].
    rewrite (first_decrypt root (X25519SecretKey_generate (dw_spk d)) (dw_ratchet d) (dw_turn d) message m st');
      [done|exact Hne|exact Hfr|exact He| |exact Hform].
    apply small_vec_ok. lia.
  - apply encode_nonempty.
  - unfold InitialMessage_encode. etransitivity; [apply blen_encode_le|]. rewrite im_frame_size, Hk. done.
  - destruct Hform as [ct ->]. apply encode_nonempty.
  - done.
Qed.

Context {B : Type} (usize_max : Z) (sv : Server B).

(** What the node contributes to the requests of a run. *)
Record Ambients := {
  as_push_initial : Ambient;
  as_push_cipher : Ambient;
  as_pull : Ambient;
  as_ack : nat → Ambient;
  as_repull : Ambient;
}.

Record run_reaches (c : Conn) (l : Links (RelayNode B)) (a : Ambients) : Prop := {
  rr_initial : reaches c (ls_push_initial _ l) (served usize_max sv (as_push_initial a));
  rr_cipher : reaches c (ls_push_cipher _ l) (served usize_max sv (as_push_cipher a));
  rr_pull : reaches c (ls_pull _ l) (served usize_max sv (as_pull a));
  rr_ack i : reaches c (ls_ack _ l i) (served usize_max sv (as_ack a i));
  rr_repull : reaches c (ls_repull _ l) (served usize_max sv (as_repull a));
  rr_calm : calm (as_push_initial a) ∧ calm (as_push_cipher a) ∧ calm (as_pull a) ∧
            (∀ i, calm (as_ack a i)) ∧ calm (as_repull a);
}.

(** The clock does not go back, the ids are new, times can be represented, and
    the envelopes are still alive when they are pulled. *)
Record run_clock (a : Ambients) (t : Z) : Prop := {
  rc_order : t <= am_now (as_push_initial a) <= am_now (as_push_cipher a);
  rc_ids : am_id (as_push_initial a) ≠ am_id (as_push_cipher a);
  rc_range : dt_in_range (am_now (as_push_initial a)) = true ∧ dt_in_range (am_now (as_push_cipher a)) = true ∧
    dt_in_range (sat64 (am_now (as_push_initial a) + 300000)) = true ∧
    dt_in_range (sat64 (am_now (as_push_cipher a) + 300000)) = true;
  rc_alive : am_now (as_pull a) < sat64 (am_now (as_push_initial a) + 300000) ∧
    am_now (as_pull a) < sat64 (am_now (as_push_cipher a) + 300000);
}.

(** The node's limits leave room for the conversation. *)
Record room (message : bytes) : Prop := {
  rm_ttl : 300 <= max_ttl_seconds (st_config (sv_state sv));
  rm_pull : 2 <= max_pull_limit (st_config (sv_state sv));
  rm_initial : initial_max <= max_payload_bytes (st_config (sv_state sv));
  rm_cipher : 148 + blen message <= max_payload_bytes (st_config (sv_state sv));
  rm_payload : max_payload_bytes (st_config (sv_state sv)) <= 2 ^ 31 - 1;
  rm_body p : blen p <= max_payload_bytes (st_config (sv_state sv)) →
    blen (utf8_encode (push_body p 300)) <= DEFAULT_BODY_LIMIT;
}.

Lemma room_fits message p :
  room message → 0 < blen p <= max_payload_bytes (st_config (sv_state sv)) → push_fits sv p 300.
Proof.
  intros [Ht _ _ _ _ Hb] Hp. split; [intros E; pose proof (@blen_nil byte) as H0; rewrite <-E in H0; lia|lia|apply Hb; lia|]. unfold i64_max. lia.
Qed.

Definition item (q : bytes) (id : EnvelopeId) (payload : bytes) (now : Z) : Item :=
  {| it_queue := q; it_env := stored id {| ne_payload := payload; ne_ttl_seconds := 300 |} now |}.

Lemma pull_two q m i1 i2 now limit :
  Forall (λ i, it_queue i ≠ q) m → it_queue i1 = q → it_queue i2 = q →
  now < se_expires_at (it_env i1) → now < se_expires_at (it_env i2) → 2 <= limit →
  q_pull q now limit ((m ++ [i1]) ++ [i2]) = [it_env i1; it_env i2].
Proof.
  intros Hm H1 H2 Hx1 Hx2 Hl. unfold q_pull. rewrite !filter_app.
  assert (filter (λ i, it_queue i = q ∧ now < se_expires_at (it_env i)) m = []) as ->.
  { rewrite Forall_forall in Hm. apply list_nil_subseteq. intros i [[Hi _] Him]%list_elem_of_filter.
    by destruct (Hm i). }
  rewrite !filter_cons_True, !filter_nil by done. unfold sql_limit.
  rewrite (proj2 (Z.ltb_ge _ _)) by lia. destruct (Z.to_nat limit) as [|[|k]] eqn:E; [lia..|]. cbn. by rewrite take_nil.
Qed.

Lemma ack_item q id m i rest :
  Forall (λ j, ¬ is_item q id j) m → is_item q id i → Forall (λ j, ¬ is_item q id j) rest →
  q_ack q id (m ++ i :: rest) = (true, m ++ rest).
Proof.
  intros Hm Hi Hr. unfold q_ack. f_equal.
  - apply bool_decide_eq_true, Exists_app. right. by constructor.
  - rewrite filter_app, filter_cons_False by tauto. f_equal; by apply filter_all.
Qed.

Lemma pull_none q m now limit : Forall (λ i, it_queue i ≠ q) m → q_pull q now limit m = [].
Proof.
  intros Hm. unfold q_pull.
  assert (filter (λ i, it_queue i = q ∧ now < se_expires_at (it_env i)) m = []) as ->.
  { rewrite Forall_forall in Hm. apply list_nil_subseteq. intros i [[Hi _] Him]%list_elem_of_filter.
    by destruct (Hm i). }
  unfold sql_limit. cbn. destruct (limit <? 0); [done|]. apply take_nil.
Qed.

(** Both acknowledgements of the loop. *)
Lemma ack_both c l a q e1 e2 n t m :
  run_reaches c l a → host_ok (cn_host c) → length (queue_bytes q) = QUEUE_ID_LEN →
  se_envelope_id e1 ≠ se_envelope_id e2 → Forall (λ i, it_queue i ≠ queue_bytes q) m →
  holds n t ((m ++ [{| it_queue := queue_bytes q; it_env := e1 |}]) ++
                  [{| it_queue := queue_bytes q; it_env := e2 |}]) →
  ∃ n', ack_all c (ls_ack _ l) (chars (QueueId_to_string q)) 0 [e1; e2] n = Some (Ok tt, n') ∧ holds n' t m.
Proof.
  intros [_ _ _ Hr _ (_ & _ & _ & Hc & _)] Hh Hq Hne Hm Hs. rewrite <-app_assoc in Hs. cbn [app] in Hs.
  assert (∀ id, Forall (λ j, ¬ is_item (queue_bytes q) id j) m) as Hno.
  { intros id. eapply Forall_impl; [exact Hm|]. by intros i Hi [Hi' _]. }
  destruct (Conn_ack_ok usize_max sv c _ _ q (se_envelope_id e1) n t _ (Hr 0%nat) Hh (Hc 0%nat) Hq Hs)
    as (n1 & Ha1 & Hs1).
  rewrite ack_item in Ha1, Hs1 by (done || (constructor; [by intros [_ ?]|done])). cbn [fst snd] in Ha1, Hs1.
  destruct (Conn_ack_ok usize_max sv c _ _ q (se_envelope_id e2) n1 t _ (Hr 1%nat) Hh (Hc 1%nat) Hq Hs1)
    as (n2 & Ha2 & Hs2).
  rewrite ack_item in Ha2, Hs2 by done. cbn [fst snd] in Ha2, Hs2. rewrite app_nil_r in Hs2.
  exists n2. split; [|done]. cbn [ack_all].
  eapply pst_bind_Ok; [by apply pst_map_err_Ok|]. cbn [negb].
  eapply pst_bind_Ok; [by apply pst_map_err_Ok|]. done.
Qed.

(** Both pushes: the two envelopes are at the end of the mailbox. *)
Lemma push_both c l a q initial cipher message n t m :
  run_reaches c l a → host_ok (cn_host c) → run_clock a t → room message →
  length (queue_bytes q) = QUEUE_ID_LEN → Forall (λ r, er_queue r ≠ queue_bytes q) (rows n) → holds n t m →
  0 < blen initial <= initial_max → 0 < blen cipher <= 148 + blen message →
  ∃ n1 n2,
    Conn_push c (ls_push_initial _ l) (chars (QueueId_to_string q)) initial 300 n
    = Some (Ok (chars (uuid_fmt (am_id (as_push_initial a)))), n1) ∧
    Conn_push c (ls_push_cipher _ l) (chars (QueueId_to_string q)) cipher 300 n1
    = Some (Ok (chars (uuid_fmt (am_id (as_push_cipher a)))), n2) ∧
    holds n2 (am_now (as_push_cipher a))
      ((m ++ [item (queue_bytes q) (am_id (as_push_initial a)) initial (am_now (as_push_initial a))]) ++
            [item (queue_bytes q) (am_id (as_push_cipher a)) cipher (am_now (as_push_cipher a))]).
Proof.
  intros [Hr1 Hr2 _ _ _ (Hc1 & Hc2 & _)] Hh [Hord Hids Hrange _] Hroom Hq Hrows Hs Hli Hlc.
  pose proof Hroom as [_ _ Hini Hcip _ _].
  destruct (Conn_push_ok usize_max sv c _ (as_push_initial a) q initial 300 n t m Hr1 Hh Hc1 Hq)
    as (n1 & Hp1 & (r1 & Hrow1 & Hrq1 & Hre1) & Hs1);
    [eapply room_fits; [done|lia]|done|lia|split; [|by split; apply Hrange]|].
  { eapply Forall_impl; [exact Hrows|]. intros r Hr [? _]. done. }
  set (e1 := stored (am_id (as_push_initial a)) _ _) in *.
  destruct (Conn_push_ok usize_max sv c _ (as_push_cipher a) q cipher 300 n1 (am_now (as_push_initial a))
    (q_push (queue_bytes q) e1 m) Hr2 Hh Hc2 Hq)
    as (n2 & Hp2 & _ & Hs2);
    [eapply room_fits; [done|lia]|exact Hs1|lia|split; [|by split; apply Hrange]|].
  { unfold rows in Hrow1. rewrite Hrow1. apply Forall_app. split.
    - eapply Forall_impl; [exact Hrows|]. intros r Hr [? _]. done.
    - constructor; [|done]. rewrite Hre1. intros [_ E%uuid_fmt_inj]. done. }
  exists n1, n2. done.
Qed.

Lemma send_over_ok c d l a message n t m :
  run_reaches c l a → host_ok (cn_host c) → run_clock a t → room message → keys_distinct d →
  length (dw_queue d) = QUEUE_ID_LEN →
  Forall (λ r, er_queue r ≠ dw_queue d) (rows n) → Forall (λ i, it_queue i ≠ dw_queue d) m → holds n t m →
  ∃ n', send_over c d l message n = Some (Ok (chars (hex_encode (dw_queue d)), message), n') ∧
    holds n' (am_now (as_push_cipher a)) m.
Proof.
  intros Hrr Hh Hclock Hroom Hkeys Hq Hrows Hm Hs.
  pose proof Hroom as [_ Hpull _ Hcip Hpay _]. pose proof Hrr as [_ _ Hr3 _ Hr5 (_ & _ & Hc3 & _ & Hc5)].
  pose proof Hclock as [_ Hids _ Halive]. unfold send_over.
  destruct (PrekeyBundle_generate _ _ _ _ _ true) as [secrets bundle] eqn:Hg.
  destruct (seal_open d message secrets bundle Hg Hkeys ltac:(lia))
    as (initial & cipher & Hseal & Hopen & Hli & Hlc).
  set (q := {| queue_bytes := dw_queue d |}).
  change (chars (hex_encode (dw_queue d))) with (chars (QueueId_to_string q)).
  destruct (push_both c l a q initial cipher message n t m Hrr Hh Hclock Hroom Hq Hrows Hs Hli Hlc)
    as (n1 & n2 & Hp1 & Hp2 & Hs2).
  set (i1 := item _ _ initial _) in *. set (i2 := item _ _ cipher _) in *.
  assert (q_pull (queue_bytes q) (am_now (as_pull a)) (pull_limit sv) ((m ++ [i1]) ++ [i2])
          = [it_env i1; it_env i2]) as Htwo.
  { apply pull_two; [done..|apply Halive|apply Halive|]. unfold pull_limit. lia. }
  assert (∀ x, x = [it_env i1; it_env i2] → x ≠ []) as Hsome by (by intros x ->).
  pose proof (Conn_pull_ok usize_max sv c _ (as_pull a) q 5 n2 _ _ Hr3 Hh Hc3 Hq ltac:(lia)
    ltac:(unfold u64_max; lia) Hs2 (or_introl (Hsome _ Htwo))) as Hpl.
  rewrite Htwo in Hpl.
  destruct (ack_both c l a q (it_env i1) (it_env i2) n2 _ m Hrr Hh Hq Hids Hm Hs2) as (n3 & Hack & Hs3).
  pose proof (Conn_pull_ok usize_max sv c _ (as_repull a) q 0 n3 _ _ Hr5 Hh Hc5 Hq ltac:(lia)
    ltac:(unfold u64_max; lia) Hs3 (or_intror eq_refl)) as Hre.
  rewrite pull_none in Hre by done.
  exists n3. split; [|done].
  eapply pst_bind_Ok; [unfold pst_lift; by rewrite Hseal|].
  eapply pst_bind_Ok; [by apply pst_map_err_Ok|]. eapply pst_bind_Ok; [by apply pst_map_err_Ok|].
  eapply pst_bind_Ok; [by apply pst_map_err_Ok|]. cbn [pl_envelopes].
  change (se_payload (it_env i1)) with initial. change (se_payload (it_env i2)) with cipher.
  eapply pst_bind_Ok; [unfold pst_lift; by rewrite Hopen|]. rewrite bool_decide_false by naive_solver.
  eapply pst_bind_Ok; [exact Hack|]. eapply pst_bind_Ok; [by apply pst_map_err_Ok|]. done.
Qed.

(** ** With the handshakes

    [link_to]: the address leads to a node whose CA is [pki] and which trusts
    [trust]; it may have rotated its leaf since the last request.  Both nodes
    are in good order at the time of the request. *)

Record link_to (pki : RcgenNodeCa) (trust : gset text) (c : Conn) (lk : Link (RelayNode B)) (am : Ambient) :
    Prop := {
  lt_write : lk_write _ lk = None;
  lt_read : lk_read _ lk = ReadOk;
  lt_peer : ∃ cc sc t since server,
    client_config (cn_tls c) (lk_drawn _ lk) (lk_rnd _ lk) (lk_now _ lk) = Some (Ok cc) ∧
    server_config server = Ok sc ∧ nt_pki server = pki ∧ nt_trust server = trust ∧
    serves_since server since ∧ good_at pki since (lk_now _ lk / ns_per_sec) ∧
    good_at (nt_pki (cn_tls c)) (lk_now _ lk) t ∧
    lk_tcp _ lk (cn_host c) (cn_port c)
    = Ok {| rm_config := sc; rm_now := t; rm_serve := served usize_max sv am |};
}.

Record run_links (pki : RcgenNodeCa) (trust : gset text) (c : Conn) (l : Links (RelayNode B)) (a : Ambients) :
    Prop := {
  rl_initial : link_to pki trust c (ls_push_initial _ l) (as_push_initial a);
  rl_cipher : link_to pki trust c (ls_push_cipher _ l) (as_push_cipher a);
  rl_pull : link_to pki trust c (ls_pull _ l) (as_pull a);
  rl_ack i : link_to pki trust c (ls_ack _ l i) (as_ack a i);
  rl_repull : link_to pki trust c (ls_repull _ l) (as_repull a);
  rl_calm : calm (as_push_initial a) ∧ calm (as_push_cipher a) ∧ calm (as_pull a) ∧
            (∀ i, calm (as_ack a i)) ∧ calm (as_repull a);
}.

Definition mutual_trust (pki : RcgenNodeCa) (trust : gset text) (c : Conn) : Prop :=
  nc_ca_fingerprint (nt_pki (cn_tls c)) ∈ trust ∧ nc_ca_fingerprint pki ∈ nt_trust (cn_tls c).

Lemma link_reaches pki trust c lk am :
  link_to pki trust c lk am → nt_provider (cn_tls c) = pq_provider → mutual_trust pki trust c →
  reaches c lk (served usize_max sv am).
Proof.
  intros [Hw Hr (cc & sc & t & since & server & Hcc & Hsc & Hpk & Htr & Hss & Hgs & Hgc & Htcp)] Hprov Hm.
  rewrite <-Hpk in Hgs.
  pose proof (handshake_mutual _ _ _ _ _ _ _ _ _ Hcc Hprov Hsc Hss Hgs Hgc) as Hh. cbv zeta in Hh.
  rewrite Hpk, Htr in Hh. split_and!; [done..|].
  destruct (tls_handshake _ _ _ _) as [g|e] eqn:E; [|by destruct Hh]. by exists cc, sc, t, g.
Qed.

Lemma link_refused pki trust c lk am m p b n :
  link_to pki trust c lk am → nt_provider (cn_tls c) = pq_provider → ¬ mutual_trust pki trust c →
  ∃ e, request c lk m p b n = Some (Err e, n).
Proof.
  intros [Hw Hr (cc & sc & t & since & server & Hcc & Hsc & Hpk & Htr & Hss & Hgs & Hgc & Htcp)] Hprov Hm.
  rewrite <-Hpk in Hgs.
  pose proof (handshake_mutual _ _ _ _ _ _ _ _ _ Hcc Hprov Hsc Hss Hgs Hgc) as Hh. cbv zeta in Hh.
  rewrite Hpk, Htr in Hh. unfold request. rewrite Hcc, Htcp. cbn [rbind rm_config rm_now].
  unfold tls_handshake in Hh. destruct (tls_connect _ _ _) as [g|e]; cbn [rbind rm_config rm_now] in *; [|by exists e].
  rewrite Hw. destruct (tls_accept _ _ _ _) as [g'|e]; [by destruct Hh|by exists e].
Qed.

Lemma Conn_new_tls node tls c : Conn_new node tls = Ok c → cn_tls c = tls.
Proof. unfold Conn_new. intros H. apply rbind_Ok in H as ([] & _ & H). inv_ok. by subst c. Qed.

(** C1: the whole stack delivers, exactly between parties that trust each other.
    A run of the driver against a node in good order, over a transport that
    does not fail, with enough room in the node's limits, a queue nobody used
    before and distinct random keys: if the node trusts the client's CA and
    the fingerprint given on the command line is the node's, [send] returns
    with the message opened by the recipient equal to the message the sender
    sealed, and the node's queues are again what they were; otherwise it fails
    at the first push and nothing on the node has changed. *)
Theorem conversation_goes_through f w1 w2 drawn r1 r2 dir client dir' leaf_drawn leaf_rnd now tls
    node node_ca_fp c d l a pki trust message n t m :
  load_ca f w1 w2 drawn r1 r2 dir = (Ok client, dir') →
  NodeTls_new client (from_fingerprints [node_ca_fp]) leaf_drawn leaf_rnd now = Some (Ok tls) →
  Conn_new node tls = Ok c → host_ok (cn_host c) → run_links pki trust c l a →
  run_clock a t → room message → keys_distinct d → length (dw_queue d) = QUEUE_ID_LEN →
  Forall (λ r, er_queue r ≠ dw_queue d) (rows n) → Forall (λ i, it_queue i ≠ dw_queue d) m → holds n t m →
  let run := send f w1 w2 drawn r1 r2 leaf_drawn leaf_rnd now d l node node_ca_fp message (dir, n) in
  let mutual := nc_ca_fingerprint client ∈ trust ∧ nc_ca_fingerprint pki = node_ca_fp in
  (mutual → ∃ n', run = Some (Ok (chars (hex_encode (dw_queue d)), message), (dir', n')) ∧
                  holds n' (am_now (as_push_cipher a)) m) ∧
  (¬ mutual → run = Some (Err "push handshake", (dir', n))).
Proof.
  intros Hca Htls Hconn Hh Hl Hclock Hroom Hkeys Hq Hrows Hm Hs. cbv zeta.
  apply NodeTls_new_serves in Htls as Hnew. destruct Hnew as ((Hprov & _) & Htrust & Hpki).
  pose proof (Conn_new_tls _ _ _ Hconn) as Hct. rewrite <-Hct in Hprov, Htrust, Hpki.
  unfold send. rewrite Hca, Htls. cbn [map_err rbind]. rewrite Hconn.
  assert (mutual_trust pki trust c ↔ nc_ca_fingerprint client ∈ trust ∧ nc_ca_fingerprint pki = node_ca_fp) as Hiff.
  { unfold mutual_trust. rewrite Hpki, Htrust. unfold from_fingerprints. set_solver. }
  rewrite <-Hiff. destruct Hl as [L1 L2 L3 L4 L5 Hcalm]. split; intros Hmut.
  - destruct (send_over_ok c d l a message n t m) as (n' & -> & Hs'); try done; [|by exists n'].
    split; try done; intros; by eapply link_reaches.
  - unfold send_over. destruct (PrekeyBundle_generate _ _ _ _ _ true) as [secrets bundle] eqn:Hg.
    destruct (seal_open d message secrets bundle Hg Hkeys) as (initial & cipher & Hseal & _).
    { pose proof Hroom as [_ _ _ ? ? _]. lia. }
    unfold pst_bind, pst_lift. rewrite Hseal. unfold context, pst_map_err, Conn_push, pst_bind.
    match goal with |- context [request c ?lk ?k ?p ?b n] =>
      destruct (link_refused pki trust c lk _ k p b n L1 Hprov Hmut) as [e ->] end. done.
Qed.
End Conversation.

(** ** A run *)

Module RunSample.
#[local] Existing Instance model_primitives.
#[local] Existing Instance native64.

Definition hour : Z := 3600 * ns_per_sec.

(** The harness's CA, key [aa], and the node's, key [bb]. *)
Definition client : RcgenNodeCa :=
  {| nc_ca_key := Byte.xaa : KeyPair (Rcgen := tlv_rcgen);
     nc_ca_issuer := TlsSample.ca_cert Byte.xaa : RcCert (Rcgen := tlv_rcgen);
     nc_ca_der := TlsSample.ca_cert Byte.xaa; nc_ca_fingerprint := fingerprint (TlsSample.ca_cert Byte.xaa);
     nc_sans := ["buh-e2e-client"]; nc_leaf_ttl := hour |}.
Definition dir : PkiDir :=
  (load_ca NodeSample.no_faults None None (NodeSample.drawn Byte.xaa) [] [] NodeSample.empty_dir).2.
Definition leaf (leaf_key : byte) : NodeLeaf :=
  {| nl_chain_der :=
       [[Byte.x00; leaf_key; Byte.xaa] ++ be_bytes 8 1767225300 ++ be_bytes 8 1767229200; TlsSample.ca_cert Byte.xaa];
     nl_private_key_der := [leaf_key]; nl_not_after_ms := 1767229200000 |}.
Definition node_fp : text := fingerprint (TlsSample.ca_cert Byte.xbb).
Definition tls : NodeTls :=
  {| nt_provider := pq_provider; nt_trust := from_fingerprints [node_fp];
     nt_current := {| ck_chain := nl_chain_der (leaf Byte.xa1); ck_key := Byte.xa1 : TlsKey |};
     nt_pki := client |}.
Definition node : text := chars "testnet.buh.fm:31415".
Definition conn : Conn :=
  {| cn_host := chars "testnet.buh.fm"; cn_port := 31415; cn_server_name := chars "testnet.buh.fm"; cn_tls := tls |}.

Definition server : Server unit := ServerSample.server node_fp.
Definition at_ms (id : byte) (now : Z) : Ambient := ServerSample.ambient [id] now.
Definition ambients : Ambients :=
  {| as_push_initial := at_ms Byte.x01 1000; as_push_cipher := at_ms Byte.x02 2000; as_pull := at_ms Byte.x00 3000;
     as_ack _ := at_ms Byte.x00 4000; as_repull := at_ms Byte.x00 5000 |}.
Definition link (am : Ambient) : Link (RelayNode unit) :=
  {| lk_drawn := NodeSample.drawn Byte.xa2; lk_rnd := []; lk_now := NodeSample.now;
     lk_tcp _ _ := Ok {| rm_config := TlsSample.listening TlsSample.b; rm_now := TlsSample.soon;
                         rm_serve := served ServerSample.usize_max server am |};
     lk_write := None; lk_read := ReadOk |}.
Definition links : Links (RelayNode unit) :=
  {| ls_push_initial := link (as_push_initial ambients); ls_push_cipher := link (as_push_cipher ambients);
     ls_pull := link (as_pull ambients); ls_ack i := link (as_ack ambients i);
     ls_repull := link (as_repull ambients) |}.
Definition draws : Draws :=
  {| dw_recipient := [Byte.x01]; dw_spk := repeat Byte.x07 32; dw_kem := [Byte.x03]; dw_opk := [Byte.x04];
     dw_bundle_sig := [Byte.x05]; dw_sender := [Byte.x06]; dw_ephemeral := [Byte.x08]; dw_encaps := [Byte.x09];
     dw_sig := [Byte.x0a]; dw_ratchet := repeat Byte.x02 32; dw_queue := repeat Byte.x11 32;
     dw_turn := repeat Byte.x03 32 |}.
Definition message : bytes := bstr "hello from buh-e2e".

Lemma loaded :
  load_ca NodeSample.no_faults None None (NodeSample.drawn Byte.xaa) [] [] NodeSample.empty_dir = (Ok client, dir).
Proof. reflexivity. Qed.

Lemma assembled :
  NodeTls_new client (from_fingerprints [node_fp]) (NodeSample.drawn Byte.xa1) [] NodeSample.now = Some (Ok tls).
Proof. reflexivity. Qed.

Lemma connected : Conn_new node tls = Ok conn.
Proof. reflexivity. Qed.

Lemma client_configured :
  client_config tls (NodeSample.drawn Byte.xa2) [] NodeSample.now
  = Some (Ok {| cc_groups := pq_provider; cc_server_trust := nt_trust tls;
                cc_auth := {| ck_chain := nl_chain_der (leaf Byte.xa2); ck_key := Byte.xa2 : TlsKey |} |}).
Proof. reflexivity. Qed.

Lemma good_client : good_at client NodeSample.now TlsSample.soon.
Proof.
  split.
  - split; [done|]. by exists (TlsSample.ca_cert Byte.xaa).
  - intros x [= <-]. split; vm_compute; discriminate.
  - split; vm_compute; discriminate.
Qed.

Lemma linked am : link_to ServerSample.usize_max server (TlsSample.ca Byte.xbb) (nt_trust TlsSample.b) conn (link am) am.
Proof.
  split; [done..|]. eexists _, (TlsSample.listening TlsSample.b), TlsSample.soon, NodeSample.now, TlsSample.b.
  split_and!; [exact client_configured|reflexivity|done|done|exact TlsSample.b_serves
              |exact (TlsSample.good_now _ (or_intror eq_refl))|exact good_client|reflexivity].
Qed.

(** The body of a push has about four characters per byte in the sample's
    notation. *)
Lemma put_text_length t : length (put_text t) = (2 * length t + 1)%nat.
Proof. induction t as [|c t IH]; [done|]. cbn [put_text length]. rewrite IH. lia. Qed.

Definition body_prefix : text := 100 :: 107 :: put_text (chars "payload") ++ [115].
Definition body_suffix : text := 107 :: put_text (chars "ttl_seconds") ++ 105 :: put_int 300 ++ [101].

Lemma push_body_eq p : push_body p 300 = body_prefix ++ put_text (chars (hex_enc p)) ++ body_suffix.
Proof. reflexivity. Qed.

Lemma put_text_ascii t : Forall is_ascii t → Forall is_ascii (put_text t).
Proof.
  induction 1 as [|c t Hc _ IH]; cbn; [by repeat constructor|]. constructor; [by split|]. by constructor.
Qed.

Lemma body_length p : blen (utf8_encode (push_body p 300)) <= 100 + 4 * blen p.
Proof.
  rewrite push_body_eq. rewrite utf8_encode_ascii.
  - unfold blen. rewrite length_fmap, !length_app, put_text_length. unfold chars. rewrite length_fmap.
    assert (length (list_ascii_of_string (hex_enc p)) = (2 * length p)%nat) as ->.
    { induction p as [|x p IH]; [done|]. cbn [hex_enc list_ascii_of_string length]. rewrite IH. lia. }
    change (length body_prefix) with 18%nat. change (length body_suffix) with 34%nat. lia.
  - rewrite !Forall_app. split_and!; [by repeat constructor| |by repeat constructor].
    apply put_text_ascii. eapply Forall_impl; [apply hex_enc_chars|]. apply id_char_ascii.
Qed.

Lemma roomy : room server message.
Proof.
  split; [vm_compute; discriminate..|]. intros p Hp. pose proof (body_length p) as Hb.
  change (max_payload_bytes _) with 262144 in Hp. unfold DEFAULT_BODY_LIMIT. lia.
Qed.

Lemma timed : run_clock ambients 0.
Proof. split; [cbn; lia|discriminate|by vm_compute|split; by vm_compute]. Qed.

Lemma distinct : keys_distinct draws.
Proof.
  split.
  - intros E%(f_equal (λ p, hd0 (X25519PublicKey_to_bytes p))). by vm_compute in E.
  - intros [E|[E|E%elem_of_nil]%elem_of_cons]%elem_of_cons; [..|done];
      apply (f_equal (λ p, hd0 (X25519PublicKey_to_bytes p))) in E; by vm_compute in E.
Qed.
End RunSample.

Lemma conversation_goes_through_witness :
  ∃ n', send NodeSample.no_faults None None (NodeSample.drawn Byte.xaa) [] [] (NodeSample.drawn Byte.xa1) []
          NodeSample.now RunSample.draws RunSample.links RunSample.node RunSample.node_fp RunSample.message
          (NodeSample.empty_dir, ServerSample.data)
        = Some (Ok (chars (hex_encode (repeat Byte.x11 32)), RunSample.message), (RunSample.dir, n')).
Proof.
  destruct (proj1 (conversation_goes_through ServerSample.usize_max RunSample.server
    NodeSample.no_faults None None (NodeSample.drawn Byte.xaa) [] [] NodeSample.empty_dir RunSample.client RunSample.dir
    (NodeSample.drawn Byte.xa1) [] NodeSample.now RunSample.tls RunSample.node RunSample.node_fp RunSample.conn
    RunSample.draws RunSample.links RunSample.ambients (TlsSample.ca Byte.xbb) (nt_trust TlsSample.b)
    RunSample.message ServerSample.data 0 [] RunSample.loaded RunSample.assembled RunSample.connected
    ltac:(split; [discriminate|by repeat constructor])
    ltac:(split; [exact (RunSample.linked _)..|intros; exact (RunSample.linked _)|exact (RunSample.linked _)|done])
    RunSample.timed RunSample.roomy RunSample.distinct eq_refl ltac:(constructor) ltac:(constructor)
    MailboxSample.sim_empty)) as (n' & H & _).
  - split; [apply elem_of_list_to_set; left|reflexivity].
  - exists n'. exact H.
Defined.
